(* ===== verification/_CoqProject ===== *)
-Q . S2P
Prelude.v
CString.v
Endpoint.v
FileConf.v
FileConfFacts.v
ConfLoad.v
ConfGrammar.v
Sniff.v
SniffFacts.v
ProxyV2.v
RawUdp.v
Worker.v
WorkerFacts.v
WorkerConc.v
WorkerPool.v
Bind.v
Datagram.v
DatagramFacts.v
DatagramFds.v
DatagramConc.v
Stream.v
StreamFacts.v
StreamOpen.v
StreamFds.v
StreamRelay.v
System.v
StreamRoute.v
Platform.v
Main.v
MainFacts.v
Klog.v
Fuzz.v
