(* ===== verification/Prelude.v ===== *)
(** * tinyproxy: a verification development

    tinyproxy ([src/src]) is a small layer-4 proxy in C on top of libevent. A
    configuration lists routes; each route listens on a TCP, UDP or UNIX
    endpoint and forwards to an upstream endpoint, serves a file or answers by
    itself (a builtin). The accepting thread owns the listening sockets and
    hands accepted clients and received datagrams to a pool of worker threads
    through one queue per worker; a worker runs an event loop of its own, pipes
    stream connections and relays datagrams.

    ** The files

    - [Prelude]: bytes, machine integers, [errno], the error monad [result], the
      shared tactics and list lemmas.
    - [CString]: the C library functions the program uses ([strtok_r], [strchr],
      [strtoul], [strtol], decimal printing, [snprintf]).
    - [Endpoint]: [endpoint.c], [x_builtins.c], [route.c] and [validate_route] of
      [route_runtime.c]: the data model, printing and address conversion.
    - [FileConf], [FileConfFacts], [ConfLoad]: [file_conf.c], the configuration
      parser and loader, one definition per C function. [ConfGrammar] defines the
      configuration language on its own, without the parser's functions, and
      relates the loader to it.
    - [Sniff], [SniffFacts]: [stream_sniff.c], the TLS ClientHello parser; every
      read is checked against the buffer ([None] is a read outside it).
    - [ProxyV2]: [proxy_proto_v2.c]; every store is checked against the buffer.
    - [RawUdp]: [datagram_raw.c], raw IPv4/UDP replies; byte order and the BSD
      raw-socket convention are fields of [host].
    - [Worker], [WorkerFacts]: [worker.c]. Messages and packet buffers live in
      heaps ([gmap]); a use after free or a double free is [None]. The handlers
      of messages are the class [WorkerHandlers].
    - [WorkerConc]: the same queue under concurrency: a step relation whose steps
      are the critical sections and the system calls of [worker.c].
    - [WorkerPool]: [worker_pool.c] and [accept_cb] of [stream_listener.c].
    - [Bind]: [bind.c].
    - [Datagram], [DatagramFacts]: [datagram_client.c], [datagram_listener.c],
      [datagram_builtin.c], [datagram_route.c]. The context is a record, the
      effects are lists of actions. [DatagramFds] accounts for the sockets;
      [DatagramConc] interleaves several workers on one route, at the granularity
      of the critical sections of [clients_mu].
    - [Stream], [StreamFacts], [StreamOpen]: [stream_conn.c], [stream_pipe.c],
      [stream_builtin.c], [stream_file.c]. The operations of libevent's
      bufferevents are the class [Bufferevent], with the laws the code relies on
      in [BuffereventLaws]; [bview_bufferevent] is an instance of both.
      [StreamFds] has the callbacks of all modes of a connection as one step
      relation, and accounts for its descriptors. [StreamRelay] states the
      abstract relay that a proxied connection refines. Bytes and the end of the
      upstream may be reported before BEV_EVENT_CONNECTED. The descriptor behind
      the [FILE] of a file upstream belongs to the connection.
    - [System]: the parts composed. The class [WorkerHandlers] is instantiated
      with the operations of [Stream] and [Datagram]; a step of the system is one
      whole callback: a client is accepted, a packet is received, a worker wakes
      up, a datagram upstream replies, a connection's event fires, the pool is
      stopped, a worker is released.
    - [StreamRoute]: the rest of [stream_listener.c], [stream_route.c] and
      [route_runtime.c].
    - [Platform]: [signals.c], [compat_thread.c], [compat.h] and [sleep_ms], for
      both platforms. Of libevent's [event_free] only the documented use, on an
      event that exists, is assumed to return.
    - [Main], [MainFacts]: [tinyproxy.c], the file loader, [compat_cpu_count] and
      [tinyproxy_runtime_dir].
    - [Klog]: the bytes a record of [klog.c] writes, [sockaddr_format], the typed
      values and the log's mutex.
    - [Fuzz]: the four targets of [src/fuzz]; the one that runs a connection has
      its event loop as a relation, and the owner of the connection in sight.

    ** Conventions

    An integer of width w is a [Z], with its wrap-around written out where it can
    happen ([u16], [u32], [u64], [s32]). A C string is the list of its bytes
    before the NUL. A C function that returns a negative [errno] returns that
    number; one that fills a structure returns the pair. The answers of the
    operating system, of libevent and of the allocator are arguments (records
    such as [create_os], [listen_os], [adopt_os], [main_os]), so a theorem holds
    for every combination of failures; [None] at the top of a result means that
    memory safety was violated or that a loop outlived its fuel, and the
    theorems show that it does not occur.

    ** What the theorems show

    - Configuration: the loader accepts exactly the texts of the grammar whose
      routes have different listening addresses (texts below 2^32 bytes, when
      every allocation succeeds; with failing allocations what it returns is
      still right), terminates, keeps its array in bounds, reports the first bad
      line, and inverts the printer. File and builtin listeners have no address
      and are not compared.
    - Sniffer and PROXY header: memory safety for all inputs; agreement with the
      encoders and decoders written from the protocols; stability under more
      input; the state of the sniffer.
    - Raw replies: the checksum is RFC 1071's, stated with the one's-complement
      sum of the words; packets decode to what was asked.
    - Workers: first-in first-out, exactly-once processing, no leak, no double
      free and no lost wake-up, under every interleaving; liveness of the worker;
      ownership of descriptors at enqueue and at shut-down, on every path of
      [accept_cb]; fair dispatch.
    - Datagrams: one client per peer, isolation between peers, affinity (with and
      without the PROXY header), expiry, replies only to the client's own address
      in both reply modes.
    - Streams: a proxied connection refines a relay of two byte queues that
      shuts the client's side down at most once, with one call of [shutdown],
      when nothing is left; no byte lost, duplicated or reordered, no byte before
      the PROXY header, bounded buffers, no deadlock of the backpressure, no
      shutdown before the response is complete; a file is sent whole; the idle
      timer cuts exactly the connections that read nothing.
    - The running proxy, when callbacks run one after the other (as with one
      worker): in every reachable state, the shut-down included, each descriptor
      that was accepted, opened or created for a worker has one owner (a queue, a
      connection, a client, a worker, or it was closed), no callback faults, every
      live connection conserves its two byte streams, and waking each worker up
      once, in any order, serves or closes every accepted client. With several
      workers callbacks overlap: see the next item.
    - Shared datagram tables: consistent under every interleaving; free of uses
      after free with one worker, and not with two ([dgram_uaf_reachable]).
    - Fuzz targets: the three targets of pure functions cannot abort, for any
      input; the connection target is safe while the upstream does not accept,
      and reads a dead stack variable when it does ([fuzz_conn_target]).
    - Routes and [main]: listeners are closed exactly once on every path, and the
      descriptors the workers use are closed only after the workers are joined;
      [main] returns unless a signal event cannot be created and [event_free]
      does not survive NULL.
    - Logging: a record is one line, and string values can be read back.
    - A few theorems record behaviour that departs from the intent of the code:
      [dgram_uaf_reachable], [hang_unbounded], [fuzz_conn_target],
      [setup_signals_null],
      [keepalive_inet6], [sni_split_hello], [raw_checksum_host_order],
      [bind_wait_overflow], [auto_workers_single_cpu], the ECANCELED case of
      [accept_cb_owns_fd].

    ** Fuel and bounds

    Loops that are not structural carry fuel that is shown to be enough: the
    loading loop one unit per byte of the text (a round consumes at least one),
    the sniffer's loops the length of the buffer (a round advances by at least
    three bytes), the folding of the checksum two rounds (messages up to 131,074
    bytes), the bind loop one round per 100 ms of the wait plus two (the wait
    is assumed to fit an [int], at most 2,147,483 s), the queue loops the number
    of allocated messages, the drain of wake-up bytes their number. The line
    numbers of the loader's specification are exact for texts below 2^32 bytes.

    ** What is not modelled

    libevent's and the kernel's internals (they are arguments and classes), the
    Windows branches outside [Platform], the debug-only code, and the release of
    the live connections at exit, which the program leaves to the kernel. The
    steps of [System] are whole callbacks: what interleaves inside them is
    modelled for the queues ([WorkerConc]) and for the datagram tables
    ([DatagramConc]).

    Planned next: the listeners' start and stop as steps of [System], the table
    invariant of the datagram routes as part of its invariant, and the fairness
    of the event loops (a connection whose peers make progress is served). *)

From Stdlib Require Export ZArith Lia Strings.Byte.
From Stdlib Require Strings.String.
From stdpp Require Export base numbers option.
From stdpp Require Export list.

Export List.ListNotations.
Export Strings.String.StringSyntax.
Open Scope Z_scope.

(** ** Bytes

    [unsigned char] is Stdlib's [byte]; [b2z]/[z2b] are the conversions the C
    code performs implicitly ([z2b] truncates, as the cast does). *)

Abbreviation byte := Init.Byte.byte.

#[export] Instance byte_eq_dec : EqDecision byte := Byte.byte_eq_dec.

Definition b2z (b : byte) : Z := Z.of_N (Byte.to_N b).

Definition z2b (z : Z) : byte :=
  match Byte.of_N (Z.to_N (z mod 256)) with
  | Some b => b
  | None => x00
  end.

(** A string literal of the C source, as its bytes (without the NUL). *)
Definition str (s : String.string) : list byte := String.list_byte_of_string s.
Arguments str s%_string_scope : simpl never.

Declare Scope c_scope.
Delimit Scope c_scope with c.

(** [strcmp(a, b) == 0] and the other byte-string comparisons. *)
Definition bytes_eqb (a b : list byte) : bool := bool_decide (a = b).
Notation "a =s b" := (bytes_eqb a b) (at level 70) : c_scope.
Notation "a =b b" := (Byte.eqb a b) (at level 70) : c_scope.
Open Scope c_scope.

(** ** Machine integers *)

Definition u16 (z : Z) : Z := z mod 2 ^ 16.
Definition u32 (z : Z) : Z := z mod 2 ^ 32.
Definition u64 (z : Z) : Z := z mod 2 ^ 64.
Definition INT_MAX : Z := 2147483647.
Definition LONG_MAX : Z := 9223372036854775807.
Definition LONG_MIN : Z := -9223372036854775808.
Definition ULONG_MAX : Z := 18446744073709551615.
Definition SIZE_MAX : Z := 18446744073709551615.

(** Two's complement reading of a 32-bit pattern: what gcc and clang compute
    when an [int] expression overflows under [-fwrapv]. *)
Definition s32 (z : Z) : Z :=
  let r := z mod 2 ^ 32 in if r <? 2 ^ 31 then r else r - 2 ^ 32.

(** ** errno values (Linux numbering) *)

Definition EIO := 5.
Definition E2BIG := 7.
Definition EAGAIN := 11.
Definition ENOMEM := 12.
Definition EINVAL := 22.
Definition ENOSPC := 28.
Definition ERANGE := 34.
Definition ENAMETOOLONG := 36.
Definition EOVERFLOW := 75.
Definition EMSGSIZE := 90.
Definition EPROTONOSUPPORT := 93.
Definition ENOTSUP := 95.
Definition EAFNOSUPPORT := 97.
Definition EADDRINUSE := 98.
Definition ECONNRESET := 104.
Definition ECANCELED := 125.

(** ** Results: a value, or the [int] error code the C function returns *)

Inductive result (A : Type) : Type :=
| Ok (a : A)
| Err (e : Z).
Arguments Ok {A} a.
Arguments Err {A} e.

#[export] Instance result_ret : MRet result := fun A a => Ok a.
#[export] Instance result_bind : MBind result := fun A B f m =>
  match m with Ok a => f a | Err e => Err e end.

Definition is_ok {A} (r : result A) : bool :=
  match r with Ok _ => true | Err _ => false end.

(** ** Length in [Z] *)

Definition Zlength {A} (l : list A) : Z := Z.of_nat (length l).
Notation "'len' l" := (Zlength l) (at level 10, l at level 9) : c_scope.

(** ** Tactics *)

(** Split a boolean condition of the source into linear facts. *)
Ltac bool_to_prop :=
  repeat match goal with
  | H : (_ && _)%bool = true |- _ => apply andb_true_iff in H; destruct H
  | H : (_ || _)%bool = false |- _ => apply orb_false_iff in H; destruct H
  | H : (_ && _)%bool = false |- _ => apply andb_false_iff in H
  | H : (_ || _)%bool = true |- _ => apply orb_true_iff in H
  | H : negb _ = true |- _ => apply negb_true_iff in H
  | H : negb _ = false |- _ => apply negb_false_iff in H
  | H : (_ <? _) = true |- _ => apply Z.ltb_lt in H
  | H : (_ <? _) = false |- _ => apply Z.ltb_ge in H
  | H : (_ <=? _) = true |- _ => apply Z.leb_le in H
  | H : (_ <=? _) = false |- _ => apply Z.leb_gt in H
  | H : (_ =? _) = true |- _ => apply Z.eqb_eq in H
  | H : (_ =? _) = false |- _ => apply Z.eqb_neq in H
  | H : bool_decide _ = true |- _ => apply bool_decide_eq_true in H
  | H : bool_decide _ = false |- _ => apply bool_decide_eq_false in H
  end.

(** Case analysis on the first [if] of the goal (or of a hypothesis). *)
Ltac case_if :=
  match goal with
  | |- context [if ?b then _ else _] => let E := fresh "E" in destruct b eqn:E
  end.
Ltac case_if_in H :=
  match type of H with
  | context [if ?b then _ else _] => let E := fresh "E" in destruct b eqn:E
  end.

(** [lia] with division and remainder by constants. *)
Ltac div_lia := Z.to_euclidean_division_equations; lia.

Create HintDb tp.
Create Rewrite HintDb tp.

(** ** Generic lemmas *)

Lemma b2z_range b : 0 <= b2z b < 256.
Proof.
  unfold b2z. pose proof (Byte.to_N_bounded b). lia.
Qed.

Lemma z2b_b2z b : z2b (b2z b) = b.
Proof.
  unfold z2b. pose proof (b2z_range b). rewrite Z.mod_small by lia.
  unfold b2z. rewrite N2Z.id. by rewrite Byte.of_to_N.
Qed.

Lemma b2z_z2b z : b2z (z2b z) = z mod 256.
Proof.
  unfold z2b. pose proof (Z.mod_pos_bound z 256).
  destruct (Byte.of_N (Z.to_N (z mod 256))) eqn:E.
  - apply Byte.to_of_N in E. unfold b2z. rewrite E. lia.
  - apply Byte.of_N_None_iff in E. lia.
Qed.

Lemma b2z_z2b_small z : 0 <= z < 256 -> b2z (z2b z) = z.
Proof. intros. rewrite b2z_z2b. by apply Z.mod_small. Qed.

Lemma b2z_inj a b : b2z a = b2z b -> a = b.
Proof. intros H. by rewrite <- (z2b_b2z a), H, z2b_b2z. Qed.

Lemma byte_eqb_spec a b : reflect (a = b) (Byte.eqb a b).
Proof.
  destruct (Byte.eqb a b) eqn:E; constructor.
  - by apply Byte.byte_dec_bl.
  - intros ->. by rewrite (Byte.byte_dec_lb eq_refl) in E.
Qed.

Lemma byte_eqb_true a b : Byte.eqb a b = true <-> a = b.
Proof. destruct (byte_eqb_spec a b); split; congruence. Qed.

Lemma byte_eqb_false a b : Byte.eqb a b = false <-> a <> b.
Proof. destruct (byte_eqb_spec a b); split; congruence. Qed.

Lemma byte_eqb_refl a : Byte.eqb a a = true.
Proof. by apply byte_eqb_true. Qed.

Lemma bytes_eqb_true a b : (a =s b) = true <-> a = b.
Proof. unfold bytes_eqb. apply bool_decide_eq_true. Qed.

Lemma bytes_eqb_refl a : (a =s a) = true.
Proof. by apply bytes_eqb_true. Qed.

Lemma len_nonneg {A} (l : list A) : 0 <= len l.
Proof. unfold Zlength. lia. Qed.

Lemma len_app {A} (l k : list A) : len (l ++ k) = len l + len k.
Proof. unfold Zlength. rewrite length_app. lia. Qed.

Lemma len_cons {A} (x : A) l : len (x :: l) = 1 + len l.
Proof. unfold Zlength. simpl. lia. Qed.

Lemma len_nil {A} : len (@nil A) = 0.
Proof. done. Qed.

Lemma len_zero {A} (l : list A) : len l = 0 <-> l = [].
Proof. destruct l; [done|]. rewrite len_cons. pose proof (len_nonneg l). split; [lia|done]. Qed.

Lemma len_snoc {A} (l : list A) x : len (l ++ [x]) = len l + 1.
Proof. rewrite len_app. reflexivity. Qed.

#[export] Hint Rewrite @len_app @len_cons @len_nil @length_app @length_take @length_drop
  @length_replicate : tp.

#[export] Hint Resolve b2z_range len_nonneg : tp.

(** [len] arithmetic: expose every length as [Z.of_nat (length _)]. *)
Ltac len_lia :=
  autorewrite with tp in *; unfold Zlength in *; simpl in *; lia.

(** ** Bit concatenation *)

Lemma lor_shiftl_add a b n :
  0 <= n -> 0 <= b < 2 ^ n -> Z.lor (Z.shiftl a n) b = a * 2 ^ n + b.
Proof.
  intros Hn Hb.
  assert (Z.land (Z.shiftl a n) b = 0) as Hl.
  { apply Z.bits_inj'. intros i Hi. rewrite Z.land_spec, Z.bits_0.
    destruct (Z.lt_ge_cases i n).
    - by rewrite Z.shiftl_spec_low.
    - apply andb_false_iff. right. destruct (Z.eq_dec b 0) as [->|]; [by rewrite Z.bits_0|].
      apply Z.bits_above_log2; [lia|]. apply Z.lt_le_trans with n; [|done].
      apply Z.log2_lt_pow2; lia. }
  rewrite <- Z.lxor_lor, <- Z.add_nocarry_lxor by done.
  by rewrite Z.shiftl_mul_pow2.
Qed.
