(* ===== verification/CString.v ===== *)
(** * The C library's string routines used by tinyproxy

    A C string is the list of its bytes up to, and without, the terminating
    NUL.  The definitions follow the C standard (C locale) and are executable;
    pointers into a string returned by the library become suffixes or indices.
    The lemmas of the second half are what the parsers of the other files use. *)

From S2P Require Import Prelude.

(** ** Character classes *)

Definition isspace (c : byte) : bool :=
  let z := b2z c in ((9 <=? z) && (z <=? 13)) || (z =? 32).

Definition isdigit (c : byte) : bool :=
  let z := b2z c in (48 <=? z) && (z <=? 57).

Definition isalnum (c : byte) : bool :=
  let z := b2z c in
  isdigit c || ((65 <=? z) && (z <=? 90)) || ((97 <=? z) && (z <=? 122)).

(** ** Scanning *)

Fixpoint skip_while (p : byte -> bool) (s : list byte) : list byte :=
  match s with
  | [] => []
  | c :: t => if p c then skip_while p t else s
  end.

Fixpoint span (p : byte -> bool) (s : list byte) : list byte * list byte :=
  match s with
  | [] => ([], [])
  | c :: t => if p c then let '(a, b) := span p t in (c :: a, b) else ([], s)
  end.

(** The string stored in a buffer: the bytes before the first NUL. *)
Definition cstr (buf : list byte) : list byte :=
  fst (span (fun c => negb (c =b x00)) buf).

(** [s[i]], reading the terminator one past the last byte. *)
Definition char_at (s : list byte) (i : nat) : byte := default x00 (s !! i).

Fixpoint strchr (s : list byte) (c : byte) : option nat :=
  match s with
  | [] => None
  | x :: t => if x =b c then Some 0%nat else S <$> strchr t c
  end.

Definition strrchr (s : list byte) (c : byte) : option nat :=
  (fun i => (length s - 1 - i)%nat) <$> strchr (rev s) c.

(** [strtok_r]: skip delimiters, then cut at the next one. *)
Definition strtok_r (delim : byte -> bool) (s : list byte)
    : option (list byte * list byte) :=
  match skip_while delim s with
  | [] => None
  | t => let '(tok, r) := span (fun c => negb (delim c)) t in Some (tok, tail r)
  end.

(** ** Numbers *)

Definition digit_step (acc : Z) (c : byte) : Z := acc * 10 + (b2z c - 48).

Fixpoint digits (acc : Z) (s : list byte) : Z * list byte :=
  match s with
  | c :: t => if isdigit c then digits (digit_step acc c) t else (acc, s)
  | [] => (acc, s)
  end.

Definition read_sign (s : list byte) : bool * list byte :=
  match s with
  | c :: t =>
      if c =b "-"%byte then (true, t)
      else if c =b "+"%byte then (false, t)
      else (false, s)
  | [] => (false, s)
  end.

(** [strtoul(s, &end, 10)]: the value, [end] (as a suffix) and [errno].  A
    minus sign negates in the return type, as the standard says. *)
Definition strtoul (s : list byte) : Z * list byte * Z :=
  let '(neg, t) := read_sign (skip_while isspace s) in
  let '(v, rest) := digits 0 t in
  if Nat.eqb (length rest) (length t) then (0, s, 0)
  else if ULONG_MAX <? v then (ULONG_MAX, rest, ERANGE)
  else (if neg then u64 (- v) else v, rest, 0).

(** [strtol(s, &end, 10)]. *)
Definition strtol (s : list byte) : Z * list byte * Z :=
  let '(neg, t) := read_sign (skip_while isspace s) in
  let '(v, rest) := digits 0 t in
  let v' := if neg then - v else v in
  if Nat.eqb (length rest) (length t) then (0, s, 0)
  else if LONG_MAX <? v' then (LONG_MAX, rest, ERANGE)
  else if v' <? LONG_MIN then (LONG_MIN, rest, ERANGE)
  else (v', rest, 0).

(** ["%u"] / ["%d"] conversions. *)
Fixpoint udec_fuel (fuel : nat) (n : Z) (acc : list byte) : list byte :=
  match fuel with
  | O => acc
  | S f =>
      let acc' := z2b (48 + n mod 10) :: acc in
      if n / 10 =? 0 then acc' else udec_fuel f (n / 10) acc'
  end.

Definition udec (n : Z) : list byte := udec_fuel (S (Z.to_nat (Z.log2 n))) n [].

Definition sdec (n : Z) : list byte :=
  if n <? 0 then "-"%byte :: udec (- n) else udec n.

(** [snprintf(buf, size, "...")]: the string left in [buf] when the formatted
    output is [s] ([size > 0]); the return value is [len s]. *)
Definition snprintf_content (size : Z) (s : list byte) : list byte :=
  take (Z.to_nat (size - 1)) s.

(** * Lemmas *)

Lemma skip_while_spec p s :
  exists a, s = a ++ skip_while p s /\ Forall (fun c => p c = true) a /\
    (forall c t, skip_while p s = c :: t -> p c = false).
Proof.
  induction s as [|c t (a & Ha & Hf & Hc)]; simpl.
  - exists []. by split_and!.
  - destruct (p c) eqn:E.
    + exists (c :: a). split_and!; [by rewrite Ha at 1| by constructor | done].
    + exists []. split_and!; [done|done|]. intros ? ? [= <- <-]. done.
Qed.

Lemma skip_while_length p s : (length (skip_while p s) <= length s)%nat.
Proof. induction s as [|c t IH]; simpl; [lia|]. destruct (p c); simpl; lia. Qed.

Lemma skip_while_nop p c t : p c = false -> skip_while p (c :: t) = c :: t.
Proof. simpl. by intros ->. Qed.

Lemma skip_while_all p s : Forall (fun c => p c = true) s -> skip_while p s = [].
Proof. induction 1 as [|c t H _ IH]; simpl; [done|]. by rewrite H. Qed.

Lemma skip_while_nil p s : skip_while p s = [] -> Forall (fun c => p c = true) s.
Proof.
  induction s as [|c t IH]; simpl; [done|]. destruct (p c) eqn:E; [|done].
  intros H. constructor; auto.
Qed.

Lemma skip_while_Forall (P : byte -> Prop) p s : Forall P s -> Forall P (skip_while p s).
Proof.
  destruct (skip_while_spec p s) as (a & Ha & _). rewrite Ha at 1.
  rewrite Forall_app. tauto.
Qed.

Lemma span_spec p s :
  s = fst (span p s) ++ snd (span p s) /\
  Forall (fun c => p c = true) (fst (span p s)) /\
  (forall c t, snd (span p s) = c :: t -> p c = false).
Proof.
  induction s as [|c t (Ha & Hf & Hc)]; simpl; [by split_and!|].
  destruct (p c) eqn:E.
  - destruct (span p t) as [a b]; simpl in *. split_and!; [by rewrite Ha|by constructor|done].
  - simpl. split_and!; [done|done|]. by intros ? ? [= <- <-].
Qed.

Lemma span_app p a b :
  Forall (fun c => p c = true) a ->
  (forall c t, b = c :: t -> p c = false) -> span p (a ++ b) = (a, b).
Proof.
  induction 1 as [|c t H _ IH]; intros Hb; simpl.
  - destruct b as [|c t]; simpl; [done|]. by rewrite (Hb c t).
  - rewrite H, IH by done. done.
Qed.

Lemma cstr_no_nul buf : x00 ∉ cstr buf.
Proof.
  unfold cstr. destruct (span_spec (fun c => negb (c =b x00)) buf) as (_ & H & _).
  intros Hin. rewrite Forall_forall in H. apply H in Hin. done.
Qed.

Lemma cstr_length buf : (length (cstr buf) <= length buf)%nat.
Proof.
  unfold cstr. destruct (span_spec (fun c => negb (c =b x00)) buf) as (H & _ & _).
  rewrite H at 2. rewrite length_app. lia.
Qed.

Lemma cstr_id s : x00 ∉ s -> cstr s = s.
Proof.
  intros H. unfold cstr. rewrite <- (app_nil_r s) at 1. rewrite span_app; [done| |done].
  apply Forall_forall. intros c Hc. apply negb_true_iff, byte_eqb_false. by intros ->.
Qed.

Lemma strchr_Some s c i :
  strchr s c = Some i -> exists a b, s = a ++ c :: b /\ length a = i /\ c ∉ a.
Proof.
  revert i. induction s as [|x t IH]; intros i; simpl; [done|].
  destruct (byte_eqb_spec x c) as [->|Hne].
  - intros [= <-]. exists [], t. split_and!; [done|done|apply not_elem_of_nil].
  - destruct (strchr t c) as [j|]; simpl; [|done]. intros [= <-].
    destruct (IH j eq_refl) as (a & b & -> & <- & Hn).
    exists (x :: a), b. split_and!; [done|done|]. apply not_elem_of_cons. done.
Qed.

Lemma strchr_None s c : strchr s c = None <-> c ∉ s.
Proof.
  induction s as [|x t IH]; simpl.
  - split; [|done]. intros _. apply not_elem_of_nil.
  - rewrite not_elem_of_cons, <- IH. destruct (byte_eqb_spec x c) as [->|Hne].
    + split; [done|]. by intros [? _].
    + destruct (strchr t c); simpl; split; [done|by intros [_ ?]| |done].
      intros _. split; [congruence|done].
Qed.

Lemma strchr_app s c b : c ∉ s -> strchr (s ++ c :: b) c = Some (length s).
Proof.
  induction s as [|x t IH]; simpl; intros H; [by rewrite byte_eqb_refl|].
  apply not_elem_of_cons in H as [H1 H2].
  assert ((x =b c) = false) as -> by (apply byte_eqb_false; congruence).
  by rewrite IH.
Qed.

Lemma strrchr_app a c b : c ∉ b -> strrchr (a ++ c :: b) c = Some (length a).
Proof.
  intros H. unfold strrchr. rewrite rev_app_distr. simpl. rewrite <- app_assoc. simpl.
  rewrite strchr_app by (by rewrite list_elem_of_In, <- in_rev, <- list_elem_of_In).
  simpl. f_equal. rewrite length_app, length_rev. simpl. lia.
Qed.

(** ** Tokens *)

Lemma strtok_r_Some p s tok rest :
  strtok_r p s = Some (tok, rest) ->
  tok <> [] /\ Forall (fun c => p c = false) tok /\
  (length rest < length s)%nat /\ (length tok <= length s)%nat /\
  (forall x, x ∈ tok -> x ∈ s) /\ (forall x, x ∈ rest -> x ∈ s).
Proof.
  unfold strtok_r. destruct (skip_while_spec p s) as (a & Ha & _ & Hc).
  destruct (skip_while p s) as [|c t] eqn:Es; [done|].
  destruct (span_spec (fun c => negb (p c)) (c :: t)) as (Hs & Hf & _).
  assert (p c = false) as Hp by eauto.
  simpl in *. rewrite Hp in *. simpl in *.
  destruct (span (fun c => negb (p c)) t) as [u v]; simpl in *.
  intros [= <- <-]. injection Hs as Hs. subst s t.
  split_and!; [done| | | | |].
  - eapply Forall_impl; [exact Hf|]. intros x. apply negb_true_iff.
  - rewrite length_app. simpl. rewrite length_app. destruct v; simpl; lia.
  - rewrite length_app. simpl. rewrite length_app. lia.
  - intros x Hx. apply elem_of_app. right. rewrite elem_of_cons in *.
    rewrite elem_of_app. tauto.
  - intros x Hx. apply elem_of_app. right. rewrite elem_of_cons, elem_of_app.
    right. right. destruct v; simpl in Hx; [done|]. rewrite elem_of_cons. tauto.
Qed.

Lemma strtok_r_tok p tok d rest :
  tok <> [] -> Forall (fun c => p c = false) tok -> p d = true ->
  strtok_r p (tok ++ d :: rest) = Some (tok, rest).
Proof.
  intros Hne Hf Hd. unfold strtok_r. destruct tok as [|c t]; [done|].
  simpl. assert (p c = false) as Hc by (by inversion Hf). rewrite Hc. simpl.
  rewrite span_app; [by rewrite Hc| |by intros ? ? [= <- <-]; rewrite Hd].
  inversion Hf; subst. eapply Forall_impl; [eassumption|]. intros x. by intros ->.
Qed.

Lemma strtok_r_last p tok :
  tok <> [] -> Forall (fun c => p c = false) tok ->
  strtok_r p tok = Some (tok, []).
Proof.
  intros Hne Hf. unfold strtok_r. destruct tok as [|c t]; [done|].
  simpl. assert (p c = false) as Hc by (by inversion Hf). rewrite Hc. simpl.
  rewrite <- (app_nil_r t) at 1. rewrite span_app; [by rewrite Hc| |done].
  inversion Hf; subst. eapply Forall_impl; [eassumption|]. intros x. by intros ->.
Qed.

(** ** Decimal numbers *)

Definition dec_value (s : list byte) : Z := fold_left digit_step s 0.

Lemma digits_app acc ds rest :
  Forall (fun c => isdigit c = true) ds ->
  (forall c t, rest = c :: t -> isdigit c = false) ->
  digits acc (ds ++ rest) = (fold_left digit_step ds acc, rest).
Proof.
  intros H Hr. revert acc. induction H as [|c t Hc _ IH]; intros acc; simpl.
  - destruct rest as [|c t]; simpl; [done|]. by rewrite (Hr c t).
  - by rewrite Hc, IH.
Qed.

Lemma isdigit_z2b d : 0 <= d < 10 -> isdigit (z2b (48 + d)) = true.
Proof. intros. unfold isdigit. rewrite b2z_z2b_small by lia. lia. Qed.

Lemma udec_fuel_spec f n acc :
  0 <= n < 2 ^ Z.of_nat f ->
  exists ds, udec_fuel f n acc = ds ++ acc /\ (f <> O -> ds <> []) /\
    Forall (fun c => isdigit c = true) ds /\ (f <> O -> dec_value ds = n).
Proof.
  revert n acc. induction f as [|f IH]; intros n acc Hn.
  - exists []. by split_and!.
  - simpl. pose proof (Z.mod_pos_bound n 10).
    pose proof (Z.div_mod n 10).
    destruct (n / 10 =? 0) eqn:E; bool_to_prop.
    + exists [z2b (48 + n mod 10)]. split_and!; [done|done| |].
      * constructor; [apply isdigit_z2b; lia|done].
      * intros _. unfold dec_value. simpl. unfold digit_step.
        rewrite b2z_z2b_small by lia. lia.
    + assert (0 <= n / 10 < 2 ^ Z.of_nat f) as Hd.
      { rewrite Nat2Z.inj_succ, Z.pow_succ_r in Hn by lia. lia. }
      destruct f as [|f']; [simpl in Hd; lia|].
      destruct (IH (n / 10) (z2b (48 + n mod 10) :: acc) Hd) as (ds & He & Hne & Hf & Hv).
      exists (ds ++ [z2b (48 + n mod 10)]). rewrite He, <- app_assoc. split_and!.
      * done.
      * intros _ Hnil. by apply app_eq_nil in Hnil as [_ ?].
      * apply Forall_app. split; [done|]. constructor; [apply isdigit_z2b; lia|done].
      * intros _. unfold dec_value. rewrite fold_left_app. simpl.
        fold (dec_value ds). rewrite Hv by done. unfold digit_step.
        rewrite b2z_z2b_small by lia. lia.
Qed.

Lemma udec_spec n :
  0 <= n -> udec n <> [] /\ Forall (fun c => isdigit c = true) (udec n) /\
  dec_value (udec n) = n.
Proof.
  intros Hn. unfold udec.
  assert (0 <= n < 2 ^ Z.of_nat (S (Z.to_nat (Z.log2 n)))) as Hb.
  { destruct (Z.eq_dec n 0) as [->|]; [simpl; lia|].
    rewrite Nat2Z.inj_succ, Z2Nat.id by apply Z.log2_nonneg.
    pose proof (Z.log2_spec n). lia. }
  destruct (udec_fuel_spec _ n [] Hb) as (ds & -> & Hne & Hf & Hv).
  rewrite app_nil_r. split_and!; auto.
Qed.

Lemma isdigit_not_space c : isdigit c = true -> isspace c = false.
Proof. unfold isdigit, isspace. intros. bool_to_prop. lia. Qed.

Lemma isdigit_not_sign c t : isdigit c = true -> read_sign (c :: t) = (false, c :: t).
Proof.
  intros H. simpl. destruct (byte_eqb_spec c "-"%byte) as [->|]; [done|].
  destruct (byte_eqb_spec c "+"%byte) as [->|]; done.
Qed.

(** On a string of digits both conversions read the whole string. *)
Lemma scan_digits ds :
  ds <> [] -> Forall (fun c => isdigit c = true) ds ->
  read_sign (skip_while isspace ds) = (false, ds) /\ digits 0 ds = (dec_value ds, []).
Proof.
  intros Hne Hf. destruct ds as [|c t]; [done|].
  assert (isdigit c = true) as Hc by (by inversion Hf).
  rewrite skip_while_nop by by apply isdigit_not_space.
  rewrite isdigit_not_sign by done. split; [done|].
  rewrite <- (app_nil_r (c :: t)) at 1. by rewrite digits_app.
Qed.

Lemma strtoul_digits ds :
  ds <> [] -> Forall (fun c => isdigit c = true) ds ->
  strtoul ds = if ULONG_MAX <? dec_value ds then (ULONG_MAX, [], ERANGE)
               else (dec_value ds, [], 0).
Proof.
  intros Hne Hf. unfold strtoul. destruct (scan_digits ds) as [-> ->]; [done|done|].
  by destruct ds.
Qed.

Lemma strtol_digits ds :
  ds <> [] -> Forall (fun c => isdigit c = true) ds -> 0 <= dec_value ds <= LONG_MAX ->
  strtol ds = (dec_value ds, [], 0).
Proof.
  intros Hne Hf Hv. unfold strtol. destruct (scan_digits ds) as [-> ->]; [done|done|].
  destruct ds as [|c t]; [done|]. simpl Nat.eqb. cbv iota beta.
  assert ((LONG_MAX <? dec_value (c :: t)) = false) as -> by lia.
  assert ((dec_value (c :: t) <? LONG_MIN) = false) as -> by (unfold LONG_MIN; lia). done.
Qed.

Lemma isdigit_ne c d : isdigit c = true -> isdigit d = false -> c <> d.
Proof. by intros H1 H2 ->; rewrite H1 in H2. Qed.

(** ** All tokens of a string

    [for (t = strtok_r(s, d, &p); t; t = strtok_r(NULL, d, &p))]: every call
    returns a strictly shorter rest, so [S (length s)] calls are enough. *)

Fixpoint strtok_fuel (fuel : nat) (p : byte -> bool) (s : list byte) : list (list byte) :=
  match fuel with
  | O => []
  | S f =>
      match strtok_r p s with
      | None => []
      | Some (tok, rest) => tok :: strtok_fuel f p rest
      end
  end.

Definition strtok_all (p : byte -> bool) (s : list byte) : list (list byte) :=
  strtok_fuel (S (length s)) p s.

Lemma strtok_fuel_enough f g p s :
  (length s < f)%nat -> (length s < g)%nat -> strtok_fuel f p s = strtok_fuel g p s.
Proof.
  revert g s. induction f as [|f IH]; intros [|g] s Hf Hg; [lia..|]. simpl.
  destruct (strtok_r p s) as [[tok rest]|] eqn:E; [|done].
  apply strtok_r_Some in E as (_ & _ & Hl & _). f_equal. apply IH; lia.
Qed.

(** The defining equation of the token loop. *)
Lemma strtok_all_eq p s :
  strtok_all p s =
  match strtok_r p s with
  | None => []
  | Some (tok, rest) => tok :: strtok_all p rest
  end.
Proof.
  unfold strtok_all at 1. simpl. destruct (strtok_r p s) as [[tok rest]|] eqn:E; [|done].
  apply strtok_r_Some in E as (_ & _ & Hl & _). f_equal.
  apply strtok_fuel_enough; lia.
Qed.

Lemma strtok_all_Forall p s :
  Forall (fun tok => tok <> [] /\ Forall (fun c => p c = false) tok /\
                     (length tok <= length s)%nat /\ (forall x, x ∈ tok -> x ∈ s))
    (strtok_all p s).
Proof.
  induction s as [s IH] using (induction_ltof1 _ (@length byte)). unfold ltof in IH.
  rewrite strtok_all_eq. destruct (strtok_r p s) as [[tok rest]|] eqn:E; [|done].
  apply strtok_r_Some in E as (H1 & H2 & Hl & Hlt & H3 & H4).
  constructor; [done|]. eapply Forall_impl; [apply (IH rest); lia|].
  intros x (? & ? & ? & Hx). split_and!; [done|done|lia|]. intros y Hy. by apply H4, Hx.
Qed.

(** Tokens joined by one delimiter are read back. *)
Fixpoint join_with (d : byte) (toks : list (list byte)) : list byte :=
  match toks with
  | [] => []
  | [x] => x
  | x :: rest => x ++ d :: join_with d rest
  end.

Lemma strtok_all_join p d toks :
  p d = true ->
  Forall (fun tok => tok <> [] /\ Forall (fun c => p c = false) tok) toks ->
  strtok_all p (join_with d toks) = toks.
Proof.
  intros Hd. induction 1 as [|x [|y l] [Hx1 Hx2] Hl IH]; [done| |].
  - simpl. by rewrite strtok_all_eq, strtok_r_last, strtok_all_eq.
  - change (join_with d (x :: y :: l)) with (x ++ d :: join_with d (y :: l)).
    by rewrite strtok_all_eq, strtok_r_tok, IH.
Qed.
