(* ===== verification/Endpoint.v ===== *)
(** * Endpoints, builtins, routes and their validation

    Models [endpoint.h]/[endpoint.c], [x_builtins.h]/[x_builtins.c],
    [route.h]/[route.c] and [validate_route] of [route_runtime.c].  A [char]
    array that holds a C string is the list of its bytes before the NUL; a
    zeroed struct has empty strings, zero numbers and the enumerators of
    value 0. *)

From S2P Require Import Prelude CString.

(** ** Data *)

Inductive x_builtin_upstream : Type :=
| X_BUILTIN_NONE
| X_BUILTIN_CLIENT_ADDR
| X_BUILTIN_DISCARD
| X_BUILTIN_HANG
| X_BUILTIN_HTTP_OK
| X_BUILTIN_LOG_CONN
| X_BUILTIN_CLOSE.

Inductive x_builtin_action : Type :=
| X_BUILTIN_ACTION_CLOSE
| X_BUILTIN_ACTION_DISCARD
| X_BUILTIN_ACTION_HANG
| X_BUILTIN_ACTION_HTTP_RESP.

Inductive endpoint_proto : Type :=
| PROTO_TCP
| PROTO_UDP
| PROTO_UNIX_STREAM
| PROTO_UNIX_DGRAM
| PROTO_FILE
| PROTO_BUILTIN.

Inductive endpoint_kind : Type :=
| ENDPOINT_INET
| ENDPOINT_INET6
| ENDPOINT_UNIX
| ENDPOINT_UNIX_DGRAM
| ENDPOINT_BUILTIN
| ENDPOINT_FILE.

Inductive broadcast_reply_mode : Type :=
| BROADCAST_REPLY_OFF
| BROADCAST_REPLY_LISTEN
| BROADCAST_REPLY_UPSTREAM.

#[export] Instance x_builtin_upstream_eq_dec : EqDecision x_builtin_upstream.
Proof. solve_decision. Defined.
#[export] Instance x_builtin_action_eq_dec : EqDecision x_builtin_action.
Proof. solve_decision. Defined.
#[export] Instance endpoint_proto_eq_dec : EqDecision endpoint_proto.
Proof. solve_decision. Defined.
#[export] Instance endpoint_kind_eq_dec : EqDecision endpoint_kind.
Proof. solve_decision. Defined.
#[export] Instance broadcast_reply_mode_eq_dec : EqDecision broadcast_reply_mode.
Proof. solve_decision. Defined.

Record endpoint : Type := mk_endpoint {
  ep_kind : endpoint_kind;
  ep_host : list byte;            (* char host[256] *)
  ep_port : Z;                    (* uint16_t *)
  ep_proto : endpoint_proto;
  ep_path : list byte;            (* char path[108] *)
  ep_builtin : x_builtin_upstream
}.

Definition HOST_SIZE : Z := 256.
Definition PATH_SIZE : Z := 108.

(** [memset(ep, 0, sizeof( *ep))] *)
Definition endpoint_zero : endpoint :=
  mk_endpoint ENDPOINT_INET [] 0 PROTO_TCP [] X_BUILTIN_NONE.

Record route_options : Type := mk_opts {
  opt_proxy_v2 : bool;
  opt_keep_alive : bool;
  opt_sni_sniff : bool;
  opt_idle_timeout_sec : Z;
  opt_connect_timeout_sec : Z;
  opt_bind_wait_sec : Z;
  opt_broadcast_reply : broadcast_reply_mode
}.

Definition route_options_zero : route_options :=
  mk_opts false false false 0 0 0 BROADCAST_REPLY_OFF.

Definition ROUTE_DEFAULT_IDLE_TIMEOUT_SEC : Z := 60.
Definition ROUTE_DEFAULT_CONNECT_TIMEOUT_SEC : Z := 5.
Definition STREAM_IO_CHUNK_SIZE : Z := 128 * 1024.
Definition STREAM_READ_HIGH_WATER : Z := 2 * STREAM_IO_CHUNK_SIZE.
Definition STREAM_WRITE_RESUME_WATER : Z := STREAM_IO_CHUNK_SIZE.
Definition CLOSE_WAIT_TIMEOUT_SEC : Z := 2.
Definition UDP_MAX_PACKET : Z := 65535.

Record route : Type := mk_route {
  r_listen : endpoint;
  r_upstream : endpoint;
  r_opts : route_options;
  r_line_no : Z                   (* unsigned int *)
}.

Definition route_zero : route :=
  mk_route endpoint_zero endpoint_zero route_options_zero 0.

#[export] Instance endpoint_eq_dec : EqDecision endpoint.
Proof. solve_decision. Defined.
#[export] Instance route_options_eq_dec : EqDecision route_options.
Proof. solve_decision. Defined.
#[export] Instance route_eq_dec : EqDecision route.
Proof. solve_decision. Defined.

(** ** Builtins ([x_builtins.c]) *)

Record x_builtin_request : Type := mk_req {
  req_builtin : x_builtin_upstream;
  req_client_addr : option (list byte)     (* NULL is None *)
}.

Record x_builtin_response : Type := mk_res {
  res_action : x_builtin_action;
  res_data : list byte;                    (* data[0 .. data_len) *)
  res_data_len : Z
}.

Definition x_builtin_parse (s : list byte) : result x_builtin_upstream :=
  if s =s str "client_addr" then Ok X_BUILTIN_CLIENT_ADDR
  else if s =s str "discard" then Ok X_BUILTIN_DISCARD
  else if s =s str "hang" then Ok X_BUILTIN_HANG
  else if s =s str "http_ok" then Ok X_BUILTIN_HTTP_OK
  else if s =s str "log_conn" then Ok X_BUILTIN_LOG_CONN
  else if s =s str "close" then Ok X_BUILTIN_CLOSE
  else Err (- EINVAL).

Definition x_builtin_name (builtin : x_builtin_upstream) : list byte :=
  match builtin with
  | X_BUILTIN_CLIENT_ADDR => str "client_addr"
  | X_BUILTIN_DISCARD => str "discard"
  | X_BUILTIN_HANG => str "hang"
  | X_BUILTIN_HTTP_OK => str "http_ok"
  | X_BUILTIN_LOG_CONN => str "log_conn"
  | X_BUILTIN_CLOSE => str "close"
  | X_BUILTIN_NONE => str "none"
  end.

Definition crlf : list byte := [x0d; x0a].

Definition http_ok : list byte :=
  str "HTTP/1.1 200 OK" ++ crlf ++ str "Content-Length: 2" ++ crlf ++
  str "Connection: close" ++ crlf ++ crlf ++ str "OK".

Definition RES_DATA_SIZE : Z := 256.

Definition x_builtin_handle (req : x_builtin_request) : result x_builtin_response :=
  match req_builtin req with
  | X_BUILTIN_CLIENT_ADDR =>
      match req_client_addr req with
      | None => Err (- EINVAL)
      | Some addr =>
          let text := addr ++ [x0a] in
          if RES_DATA_SIZE <=? len text then Err (- ENOSPC)
          else Ok (mk_res X_BUILTIN_ACTION_CLOSE text (len text))
      end
  | X_BUILTIN_HTTP_OK => Ok (mk_res X_BUILTIN_ACTION_HTTP_RESP http_ok (len http_ok))
  | X_BUILTIN_DISCARD => Ok (mk_res X_BUILTIN_ACTION_DISCARD [] 0)
  | X_BUILTIN_LOG_CONN => Ok (mk_res X_BUILTIN_ACTION_CLOSE [] 0)
  | X_BUILTIN_CLOSE => Ok (mk_res X_BUILTIN_ACTION_CLOSE [] 0)
  | X_BUILTIN_HANG => Ok (mk_res X_BUILTIN_ACTION_HANG [] 0)
  | X_BUILTIN_NONE => Err (- EINVAL)
  end.

(** ** Endpoints ([endpoint.c]) *)

Definition endpoint_text (ep : option endpoint) : list byte :=
  match ep with
  | None => str "<nil>"
  | Some ep =>
      match ep_kind ep with
      | ENDPOINT_INET => ep_host ep ++ str ":" ++ udec (ep_port ep)
      | ENDPOINT_INET6 => str "[" ++ ep_host ep ++ str "]:" ++ udec (ep_port ep)
      | ENDPOINT_UNIX => str "unix:" ++ ep_path ep
      | ENDPOINT_UNIX_DGRAM => str "unix-dgram:" ++ ep_path ep
      | ENDPOINT_BUILTIN => str "builtin://" ++ x_builtin_name (ep_builtin ep)
      | ENDPOINT_FILE => str "file://" ++ ep_path ep
      end
  end.

(** [buf] is not NULL in any caller; [Ok s] is a return of 0 with [s] in [buf]. *)
Definition endpoint_to_string (ep : option endpoint) (buf_len : Z) : result (list byte) :=
  if buf_len =? 0 then Err (- EINVAL)
  else Ok (snprintf_content buf_len (endpoint_text ep)).

Definition endpoint_is_stream (ep : endpoint) : bool :=
  match ep_proto ep with
  | PROTO_TCP | PROTO_UNIX_STREAM => true
  | _ => false
  end.

Definition endpoint_is_datagram (ep : endpoint) : bool :=
  match ep_proto ep with
  | PROTO_UDP | PROTO_UNIX_DGRAM => true
  | _ => false
  end.

Definition endpoint_is_listenable (ep : endpoint) : bool :=
  endpoint_is_stream ep || endpoint_is_datagram ep.

(** ** Socket addresses

    A [struct sockaddr_storage] is its family and the bytes that follow the
    two-byte family field; ports and addresses are kept in network order, as
    in memory. *)

Record sockaddr : Type := mk_sockaddr {
  sa_family : Z;
  sa_data : list byte
}.

Definition AF_UNIX : Z := 1.
Definition AF_INET : Z := 2.
Definition AF_INET6 : Z := 10.
Definition SIZEOF_SOCKADDR_IN : Z := 16.
Definition SIZEOF_SOCKADDR_IN6 : Z := 28.
Definition SIZEOF_SOCKADDR_STORAGE : Z := 128.

#[export] Instance sockaddr_eq_dec : EqDecision sockaddr.
Proof. solve_decision. Defined.

(** [sub i n l]: the [n] bytes from offset [i]. *)
Definition sub {A} (i n : nat) (l : list A) : list A := take n (drop i l).

Definition sin_port (sa : sockaddr) : list byte := sub 0 2 (sa_data sa).
Definition sin_addr (sa : sockaddr) : list byte := sub 2 4 (sa_data sa).
Definition sin6_port (sa : sockaddr) : list byte := sub 0 2 (sa_data sa).
Definition sin6_addr (sa : sockaddr) : list byte := sub 6 16 (sa_data sa).

(** The two bytes [htons(v)] stores. *)
Definition be16 (v : Z) : list byte := [z2b (v / 256); z2b v].
Arguments be16 v : simpl never.

Section sockaddr_of_endpoint.
(** [inet_pton(af, src, dst)]: the bytes written on success. *)
Context (inet_pton : Z -> list byte -> option (list byte)).

Definition endpoint_to_sockaddr (ep : endpoint) : result (sockaddr * Z) :=
  match ep_kind ep with
  | ENDPOINT_INET =>
      match inet_pton AF_INET (ep_host ep) with
      | Some addr =>
          Ok (mk_sockaddr AF_INET (be16 (ep_port ep) ++ addr ++ replicate 120 x00),
              SIZEOF_SOCKADDR_IN)
      | None => Err (- EINVAL)
      end
  | ENDPOINT_INET6 =>
      match inet_pton AF_INET6 (ep_host ep) with
      | Some addr =>
          Ok (mk_sockaddr AF_INET6
                (be16 (ep_port ep) ++ replicate 4 x00 ++ addr ++ replicate 104 x00),
              SIZEOF_SOCKADDR_IN6)
      | None => Err (- EINVAL)
      end
  | _ => Err (- EINVAL)
  end.

Lemma endpoint_to_sockaddr_err ep e : endpoint_to_sockaddr ep = Err e -> e = - EINVAL.
Proof.
  unfold endpoint_to_sockaddr. destruct (ep_kind ep); try congruence;
    destruct (inet_pton _ _); congruence.
Qed.
End sockaddr_of_endpoint.

(** ** Rendering of the options ([route_options_str] of [route.c])

    [ob_text] is the string in [buf]; [n] of the source is its length.
    [ob_stop] is set where a macro returns from the function. *)

Record optbuf : Type := mk_optbuf { ob_text : list byte; ob_stop : bool }.

Definition add_fmt (buflen : Z) (item : list byte) (ob : optbuf) : optbuf :=
  if ob_stop ob then ob else
  let n := len (ob_text ob) in
  if buflen <=? n then mk_optbuf (take (Z.to_nat (buflen - 1)) (ob_text ob)) true else
  let piece := (if n =? 0 then [] else str ", ") ++ item in
  let text := ob_text ob ++ snprintf_content (buflen - n) piece in
  if buflen - n <=? len piece then mk_optbuf text true else mk_optbuf text false.

Definition bool_text (b : bool) : list byte := if b then str "true" else str "false".

Definition add_when (c : bool) (buflen : Z) (item : list byte) (ob : optbuf) : optbuf :=
  if c then add_fmt buflen item ob else ob.

Definition route_options_str (opts : route_options) (buflen : Z) : list byte :=
  if buflen =? 0 then [] else
  let ob := mk_optbuf [] false in
  let ob := add_when (opt_proxy_v2 opts) buflen
              (str "proxy_v2=" ++ bool_text (opt_proxy_v2 opts)) ob in
  let ob := add_when (negb (opt_idle_timeout_sec opts =? ROUTE_DEFAULT_IDLE_TIMEOUT_SEC)) buflen
              (str "idle_timeout=" ++ sdec (opt_idle_timeout_sec opts)) ob in
  let ob := add_when (negb (opt_connect_timeout_sec opts =? ROUTE_DEFAULT_CONNECT_TIMEOUT_SEC)) buflen
              (str "connect_timeout=" ++ sdec (opt_connect_timeout_sec opts)) ob in
  let ob := add_when (negb (opt_bind_wait_sec opts =? 0)) buflen
              (str "bind_wait=" ++ sdec (opt_bind_wait_sec opts)) ob in
  let ob := add_when (opt_keep_alive opts) buflen
              (str "keep_alive=" ++ bool_text (opt_keep_alive opts)) ob in
  let ob := add_when (opt_sni_sniff opts) buflen
              (str "sni_sniff=" ++ bool_text (opt_sni_sniff opts)) ob in
  let ob := match opt_broadcast_reply opts with
            | BROADCAST_REPLY_OFF => ob
            | BROADCAST_REPLY_LISTEN => add_fmt buflen (str "broadcast_reply=listen") ob
            | BROADCAST_REPLY_UPSTREAM => add_fmt buflen (str "broadcast_reply=upstream") ob
            end in
  ob_text ob.

(** ** Route validation ([validate_route] of [route_runtime.c]) *)

Definition validate_route (r : option route) : Z :=
  match r with
  | None => - EINVAL
  | Some r =>
      if negb (endpoint_is_listenable (r_listen r)) then - EINVAL
      else if endpoint_is_stream (r_listen r) then
        if endpoint_is_stream (r_upstream r)
           || bool_decide (ep_proto (r_upstream r) = PROTO_FILE)
           || bool_decide (ep_proto (r_upstream r) = PROTO_BUILTIN)
        then 0 else - EINVAL
      else if endpoint_is_datagram (r_listen r) then
        if endpoint_is_datagram (r_upstream r)
           || bool_decide (ep_proto (r_upstream r) = PROTO_BUILTIN)
        then 0 else - EINVAL
      else - EINVAL
  end.

(** * Properties *)

(** ** Builtins *)

Lemma x_builtin_parse_iff s b :
  x_builtin_parse s = Ok b <-> b <> X_BUILTIN_NONE /\ s = x_builtin_name b.
Proof.
  unfold x_builtin_parse. split.
  - repeat match goal with
    | |- context [if ?s =s ?l then _ else _] =>
        let E := fresh in destruct (s =s l) eqn:E; [apply bytes_eqb_true in E; subst|]
    end; intros [= <-]; done.
  - intros [Hb ->]. by destruct b.
Qed.

Lemma x_builtin_handle_data req res :
  x_builtin_handle req = Ok res ->
  res_data_len res = len (res_data res) /\ res_data_len res < RES_DATA_SIZE.
Proof.
  unfold x_builtin_handle. destruct (req_builtin req); try (by intros [= <-]).
  destruct (req_client_addr req) as [addr|]; [|done]. case_if; [done|].
  intros [= <-]. simpl. split; [done|]. bool_to_prop. lia.
Qed.

(** ** The option string *)

(** The options [route_options_str] reports, in its order. *)
Definition option_items (opts : route_options) : list (list byte) :=
  (if opt_proxy_v2 opts then [str "proxy_v2=true"] else []) ++
  (if opt_idle_timeout_sec opts =? ROUTE_DEFAULT_IDLE_TIMEOUT_SEC then []
   else [str "idle_timeout=" ++ sdec (opt_idle_timeout_sec opts)]) ++
  (if opt_connect_timeout_sec opts =? ROUTE_DEFAULT_CONNECT_TIMEOUT_SEC then []
   else [str "connect_timeout=" ++ sdec (opt_connect_timeout_sec opts)]) ++
  (if opt_bind_wait_sec opts =? 0 then []
   else [str "bind_wait=" ++ sdec (opt_bind_wait_sec opts)]) ++
  (if opt_keep_alive opts then [str "keep_alive=true"] else []) ++
  (if opt_sni_sniff opts then [str "sni_sniff=true"] else []) ++
  match opt_broadcast_reply opts with
  | BROADCAST_REPLY_OFF => []
  | BROADCAST_REPLY_LISTEN => [str "broadcast_reply=listen"]
  | BROADCAST_REPLY_UPSTREAM => [str "broadcast_reply=upstream"]
  end.

(** ["a, b, c"] *)
Fixpoint comma_join (items : list (list byte)) : list byte :=
  match items with
  | [] => []
  | [x] => x
  | x :: rest => x ++ str ", " ++ comma_join rest
  end.

Lemma comma_join_snoc items x :
  comma_join (items ++ [x]) =
  comma_join items ++ (if bool_decide (items = []) then [] else str ", ") ++ x.
Proof.
  induction items as [|a [|b items] IH]; [done|done|].
  change (comma_join ((a :: b :: items) ++ [x]))
    with (a ++ str ", " ++ comma_join ((b :: items) ++ [x])).
  rewrite IH. simpl. by rewrite <- !app_assoc.
Qed.

(** The buffer holds the truncation of the joined items, and the function has
    returned exactly when the text did not fit. *)
Definition ob_inv (buflen : Z) (items : list (list byte)) (ob : optbuf) : Prop :=
  Forall (fun i => i <> []) items /\
  ob_text ob = take (Z.to_nat (buflen - 1)) (comma_join items) /\
  ob_stop ob = (buflen <=? len (comma_join items)).

Lemma comma_join_nil items :
  Forall (fun i => i <> []) items -> comma_join items = [] -> items = [].
Proof. destruct 1 as [|x [|y l] Hx]; simpl; [done|done|]. by destruct x. Qed.

Lemma add_fmt_inv buflen items ob item :
  0 < buflen -> item <> [] -> ob_inv buflen items ob ->
  ob_inv buflen (items ++ [item]) (add_fmt buflen item ob).
Proof.
  intros Hb Hi (Hf & Ht & Hs). unfold ob_inv. rewrite comma_join_snoc.
  split; [by apply Forall_app; auto|]. unfold add_fmt.
  set (full := comma_join items) in *. rewrite Hs.
  destruct (buflen <=? len full) eqn:E; bool_to_prop.
  - rewrite Ht, Hs. split.
    + rewrite take_app_le; [done|]. unfold Zlength in E. lia.
    + rewrite len_app. pose proof (len_nonneg ((if bool_decide (items = []) then [] else str ", ") ++ item)).
      symmetry. destruct (buflen <=? len full) eqn:E2; bool_to_prop; lia.
  - rewrite take_ge in Ht by (unfold Zlength in E; lia). rewrite Ht.
    destruct (buflen <=? len full) eqn:E2; bool_to_prop; [lia|]. clear E2.
    assert ((if len full =? 0 then [] else str ", ") =
            (if bool_decide (items = []) then [] else str ", ")) as ->.
    { case_bool_decide as Hn; [by subst full; rewrite Hn|].
      destruct (len full =? 0) eqn:E2; [|done]. bool_to_prop.
      apply len_zero, comma_join_nil in E2; done. }
    set (piece := (if bool_decide (items = []) then [] else str ", ") ++ item).
    rewrite len_app. unfold snprintf_content.
    assert (take (Z.to_nat (buflen - 1)) (full ++ piece) =
            full ++ take (Z.to_nat (buflen - len full - 1)) piece) as ->.
    { rewrite take_app, take_ge by (unfold Zlength in E; lia). f_equal. f_equal.
      unfold Zlength. lia. }
    destruct (buflen - len full <=? len piece) eqn:E2; simpl; bool_to_prop; (split; [done|]);
      symmetry; [apply Z.leb_le|apply Z.leb_gt]; lia.
Qed.

Lemma add_when_inv (c : bool) buflen items ob item :
  0 < buflen -> item <> [] -> ob_inv buflen items ob ->
  ob_inv buflen (items ++ (if c then [item] else [])) (add_when c buflen item ob).
Proof. destruct c; simpl; intros; [by apply add_fmt_inv|by rewrite app_nil_r]. Qed.

Lemma route_options_str_inv opts buflen :
  0 < buflen ->
  route_options_str opts buflen =
  take (Z.to_nat (buflen - 1)) (comma_join (option_items opts)).
Proof.
  intros Hb. unfold route_options_str.
  assert ((buflen =? 0) = false) as -> by lia.
  assert (ob_inv buflen [] (mk_optbuf [] false)) as H.
  { unfold ob_inv. simpl. rewrite take_nil, len_nil. split_and!; [done|done|lia]. }
  unfold option_items.
  apply (add_when_inv (opt_proxy_v2 opts) _ _ _
    (str "proxy_v2=" ++ bool_text (opt_proxy_v2 opts))) in H; [|lia|done].
  apply (add_when_inv (negb (opt_idle_timeout_sec opts =? ROUTE_DEFAULT_IDLE_TIMEOUT_SEC)) _ _ _
    (str "idle_timeout=" ++ sdec (opt_idle_timeout_sec opts))) in H; [|lia|done].
  apply (add_when_inv (negb (opt_connect_timeout_sec opts =? ROUTE_DEFAULT_CONNECT_TIMEOUT_SEC)) _ _ _
    (str "connect_timeout=" ++ sdec (opt_connect_timeout_sec opts))) in H; [|lia|done].
  apply (add_when_inv (negb (opt_bind_wait_sec opts =? 0)) _ _ _
    (str "bind_wait=" ++ sdec (opt_bind_wait_sec opts))) in H; [|lia|done].
  apply (add_when_inv (opt_keep_alive opts) _ _ _
    (str "keep_alive=" ++ bool_text (opt_keep_alive opts))) in H; [|lia|done].
  apply (add_when_inv (opt_sni_sniff opts) _ _ _
    (str "sni_sniff=" ++ bool_text (opt_sni_sniff opts))) in H; [|lia|done].
  match type of H with ob_inv _ ?items ?ob =>
    assert (ob_inv buflen (items ++ match opt_broadcast_reply opts with
      | BROADCAST_REPLY_OFF => []
      | BROADCAST_REPLY_LISTEN => [str "broadcast_reply=listen"]
      | BROADCAST_REPLY_UPSTREAM => [str "broadcast_reply=upstream"]
      end) (match opt_broadcast_reply opts with
            | BROADCAST_REPLY_OFF => ob
            | BROADCAST_REPLY_LISTEN => add_fmt buflen (str "broadcast_reply=listen") ob
            | BROADCAST_REPLY_UPSTREAM => add_fmt buflen (str "broadcast_reply=upstream") ob
            end)) as (_ & -> & _)
  end.
  { destruct (opt_broadcast_reply opts); [by rewrite app_nil_r|by apply add_fmt_inv..]. }
  f_equal. f_equal. simpl app at 1.
  destruct (opt_proxy_v2 opts), (opt_keep_alive opts), (opt_sni_sniff opts),
    (opt_idle_timeout_sec opts =? ROUTE_DEFAULT_IDLE_TIMEOUT_SEC),
    (opt_connect_timeout_sec opts =? ROUTE_DEFAULT_CONNECT_TIMEOUT_SEC),
    (opt_bind_wait_sec opts =? 0); reflexivity.
Qed.

(** C38: the summary of a route's options. The routine, which appends each
    option to a fixed buffer with [snprintf], tracks the length and returns at
    the first piece that does not fit, computes the same string as its
    reference: the options that differ from the defaults, joined with commas
    and cut to the buffer; in particular nothing is lost when the buffer is
    long enough, and the result always leaves room for the terminator. *)
Theorem route_options_str_reference : forall opts buflen,
  0 < buflen ->
  route_options_str opts buflen = take (Z.to_nat (buflen - 1)) (comma_join (option_items opts)) /\
  (len (comma_join (option_items opts)) < buflen ->
     route_options_str opts buflen = comma_join (option_items opts)) /\
  len (route_options_str opts buflen) < buflen.
Proof.
  intros opts buflen Hb. rewrite route_options_str_inv by done. split_and!; [done| |].
  - intros Hl. apply take_ge. unfold Zlength in Hl. lia.
  - unfold Zlength. rewrite length_take. lia.
Qed.

Lemma route_options_str_reference_witness :
  route_options_str (mk_opts true false false 60 5 3 BROADCAST_REPLY_OFF) 20 =
  take 19 (comma_join (option_items (mk_opts true false false 60 5 3 BROADCAST_REPLY_OFF))).
Proof.
  exact (proj1 (route_options_str_reference (mk_opts true false false 60 5 3 BROADCAST_REPLY_OFF) 20
    eq_refl)).
Defined.
