(* ===== verification/FileConf.v ===== *)
(** * The configuration parser ([file_conf.c])

    Definitions follow the C functions one by one.  A function that fills an
    out-parameter and returns an [int] becomes a function to the pair of the
    return code and the final contents of the out-parameter, also on its error
    paths.  [strtok_r], [trim] and the stores of NUL bytes edit a private copy
    of the line, so they become functions on the remaining string. *)

From S2P Require Import Prelude CString Endpoint.

Definition MAX_LINE_LEN : Z := 512.
Definition MAX_ROUTE_FIELDS : Z := 32.

Definition trim (s : list byte) : list byte :=
  match skip_while isspace s with
  | [] => []
  | t => rev (skip_while isspace (rev t))
  end.

Definition parse_port (s : list byte) : result Z :=
  let '(v, e, errno) := strtoul s in
  if negb (errno =? 0) || (s =s []) || negb (e =s []) || (v =? 0) || (65535 <? v)
  then Err (-1)
  else Ok (u16 v).

Definition same_listen_endpoint (a b : endpoint) : bool :=
  if negb (bool_decide (ep_proto a = ep_proto b)) then false else
  match ep_proto a with
  | PROTO_TCP | PROTO_UDP => (ep_host a =s ep_host b) && (ep_port a =? ep_port b)
  | PROTO_UNIX_STREAM | PROTO_UNIX_DGRAM => ep_path a =s ep_path b
  | _ => false
  end.

(** The loop of [find_conflicting_route] from [i] on, over the routes that are
    left: [(int)i] for the first conflict, -1 if there is none. *)
Fixpoint find_conflict_from (i : Z) (routes : list route) (new_route : route) : Z :=
  match routes with
  | [] => -1
  | r :: rest =>
      if same_listen_endpoint (r_listen r) (r_listen new_route) then s32 i
      else find_conflict_from (i + 1) rest new_route
  end.

Definition find_conflicting_route (routes : list route) (new_route : route) : Z :=
  find_conflict_from 0 routes new_route.

(** The out-parameters of [split_host_port]. *)
Record host_port : Type := mk_hp {
  hp_host : list byte;
  hp_port : Z;
  hp_is_ipv6 : bool
}.

Definition split_port (port_s : list byte) (host : list byte) (port : Z) (is_ipv6 : bool)
    : Z * host_port :=
  match parse_port port_s with
  | Ok p => (0, mk_hp host p is_ipv6)
  | Err _ => (-1, mk_hp host port is_ipv6)
  end.

Definition split_host_port (input : list byte) (host_len : Z) (port : Z) : Z * host_port :=
  let fail := (-1, mk_hp [] port false) in
  if host_len =? 0 then fail
  else if char_at input 0 =b "["%byte then
    match strchr input "]"%byte with
    | None => fail
    | Some close =>
        if negb (char_at input (close + 1) =b ":"%byte) then fail else
        let hlen := Z.of_nat close - 1 in
        let port_s := drop (close + 2) input in
        if (hlen =? 0) || (host_len <=? hlen) || (port_s =s []) then fail
        else split_port port_s (sub 1 (Z.to_nat hlen) input) port true
    end
  else
    match strchr input ":"%byte, strrchr input ":"%byte with
    | first_colon, None => fail
    | first_colon, Some last_colon =>
        if negb (bool_decide (first_colon = Some last_colon)) then fail else
        let hlen := Z.of_nat last_colon in
        let port_s := drop (last_colon + 1) input in
        if (host_len <=? hlen) || (port_s =s []) then fail
        else
          let host := take last_colon input in
          let host := if host =s [] then snprintf_content host_len (str "0.0.0.0") else host in
          split_port port_s host port false
    end.

Definition parse_proto (s : list byte) : result endpoint_proto :=
  if s =s str "tcp" then Ok PROTO_TCP
  else if s =s str "udp" then Ok PROTO_UDP
  else if s =s str "unix" then Ok PROTO_UNIX_STREAM
  else if s =s str "unix-dgram" then Ok PROTO_UNIX_DGRAM
  else if s =s str "file" then Ok PROTO_FILE
  else if s =s str "builtin" then Ok PROTO_BUILTIN
  else Err (-1).

Definition parse_broadcast_reply_mode (value : list byte) : result broadcast_reply_mode :=
  if value =s str "listen" then Ok BROADCAST_REPLY_LISTEN
  else if value =s str "upstream" then Ok BROADCAST_REPLY_UPSTREAM
  else Err (- EINVAL).

Definition parse_positive_int (s : list byte) : result Z :=
  if s =s [] then Err (- EINVAL) else
  let '(v, e, errno) := strtol s in
  if negb (errno =? 0) || Nat.eqb (length e) (length s) || negb (e =s []) then Err (- EINVAL)
  else if (v <=? 0) || (INT_MAX <? v) then Err (- ERANGE)
  else Ok v.

(** Field updates of [struct route_options]. *)
Definition set_proxy_v2 (o : route_options) : route_options :=
  mk_opts true (opt_keep_alive o) (opt_sni_sniff o) (opt_idle_timeout_sec o)
    (opt_connect_timeout_sec o) (opt_bind_wait_sec o) (opt_broadcast_reply o).
Definition set_keep_alive (o : route_options) : route_options :=
  mk_opts (opt_proxy_v2 o) true (opt_sni_sniff o) (opt_idle_timeout_sec o)
    (opt_connect_timeout_sec o) (opt_bind_wait_sec o) (opt_broadcast_reply o).
Definition set_sni_sniff (o : route_options) : route_options :=
  mk_opts (opt_proxy_v2 o) (opt_keep_alive o) true (opt_idle_timeout_sec o)
    (opt_connect_timeout_sec o) (opt_bind_wait_sec o) (opt_broadcast_reply o).
Definition set_idle_timeout (v : Z) (o : route_options) : route_options :=
  mk_opts (opt_proxy_v2 o) (opt_keep_alive o) (opt_sni_sniff o) v
    (opt_connect_timeout_sec o) (opt_bind_wait_sec o) (opt_broadcast_reply o).
Definition set_connect_timeout (v : Z) (o : route_options) : route_options :=
  mk_opts (opt_proxy_v2 o) (opt_keep_alive o) (opt_sni_sniff o) (opt_idle_timeout_sec o)
    v (opt_bind_wait_sec o) (opt_broadcast_reply o).
Definition set_bind_wait (v : Z) (o : route_options) : route_options :=
  mk_opts (opt_proxy_v2 o) (opt_keep_alive o) (opt_sni_sniff o) (opt_idle_timeout_sec o)
    (opt_connect_timeout_sec o) v (opt_broadcast_reply o).
Definition set_broadcast_reply (m : broadcast_reply_mode) (o : route_options) : route_options :=
  mk_opts (opt_proxy_v2 o) (opt_keep_alive o) (opt_sni_sniff o) (opt_idle_timeout_sec o)
    (opt_connect_timeout_sec o) (opt_bind_wait_sec o) m.

(** One [key=value] option: the four macros of the [eq != NULL] branch. *)
Definition parse_key_value (key value : list byte) (opts : route_options)
    : result route_options :=
  if (key =s []) || (value =s []) then Err (- EINVAL)
  else if key =s str "idle_timeout" then
    v ← parse_positive_int value; mret (set_idle_timeout v opts)
  else if key =s str "connect_timeout" then
    v ← parse_positive_int value; mret (set_connect_timeout v opts)
  else if key =s str "bind_wait" then
    v ← parse_positive_int value; mret (set_bind_wait v opts)
  else if key =s str "broadcast_reply" then
    m ← parse_broadcast_reply_mode value; mret (set_broadcast_reply m opts)
  else Err (- EINVAL).

(** The body of the token loop of [parse_route_options]. *)
Definition parse_option (tok : list byte) (opts : route_options) : result route_options :=
  let tok := trim tok in
  if tok =s [] then Err (- EINVAL) else
  match strchr tok "="%byte with
  | Some eq => parse_key_value (trim (take eq tok)) (trim (drop (eq + 1) tok)) opts
  | None =>
      if tok =s str "proxy_v2" then Ok (set_proxy_v2 opts)
      else if tok =s str "keep_alive" then Ok (set_keep_alive opts)
      else if tok =s str "sni_sniff" then Ok (set_sni_sniff opts)
      else if tok =s str "broadcast_reply" then Ok (set_broadcast_reply BROADCAST_REPLY_LISTEN opts)
      else Err (- EINVAL)
  end.

Definition is_comma (c : byte) : bool := c =b ","%byte.
Definition is_blank (c : byte) : bool :=
  (c =b x20) || (c =b x09) || (c =b x0d) || (c =b x0a).

Fixpoint parse_option_toks (toks : list (list byte)) (opts : route_options)
    : Z * route_options :=
  match toks with
  | [] => (0, opts)
  | tok :: rest =>
      match parse_option tok opts with
      | Ok opts' => parse_option_toks rest opts'
      | Err e => (e, opts)
      end
  end.

Definition parse_route_options (s : list byte) (opts : route_options) : Z * route_options :=
  if s =s [] then (0, opts) else parse_option_toks (strtok_all is_comma s) opts.

Definition route_options_set_defaults (o : route_options) : route_options :=
  mk_opts false false (opt_sni_sniff o) ROUTE_DEFAULT_IDLE_TIMEOUT_SEC
    ROUTE_DEFAULT_CONNECT_TIMEOUT_SEC (opt_bind_wait_sec o) (opt_broadcast_reply o).

(** A freshly zeroed endpoint with [proto] set. *)
Definition endpoint_init (proto : endpoint_proto) : endpoint :=
  mk_endpoint ENDPOINT_INET [] 0 proto [] X_BUILTIN_NONE.

Definition parse_path_endpoint (kind : endpoint_kind) (proto : endpoint_proto) (path : list byte)
    : Z * endpoint :=
  if (path =s []) || (PATH_SIZE <=? len path) then (-1, endpoint_init proto)
  else (0, mk_endpoint kind [] 0 proto path X_BUILTIN_NONE).

Definition parse_endpoint (proto : endpoint_proto) (s : list byte) : Z * endpoint :=
  match proto with
  | PROTO_TCP | PROTO_UDP =>
      let '(rc, hp) := split_host_port s HOST_SIZE 0 in
      if negb (rc =? 0)
      then (-1, mk_endpoint ENDPOINT_INET (hp_host hp) (hp_port hp) proto [] X_BUILTIN_NONE)
      else (0, mk_endpoint (if hp_is_ipv6 hp then ENDPOINT_INET6 else ENDPOINT_INET)
                 (hp_host hp) (hp_port hp) proto [] X_BUILTIN_NONE)
  | PROTO_UNIX_STREAM => parse_path_endpoint ENDPOINT_UNIX proto s
  | PROTO_UNIX_DGRAM => parse_path_endpoint ENDPOINT_UNIX_DGRAM proto s
  | PROTO_FILE => parse_path_endpoint ENDPOINT_FILE proto s
  | PROTO_BUILTIN =>
      if s =s [] then (-1, endpoint_init proto) else
      match x_builtin_parse s with
      | Ok builtin => (0, mk_endpoint ENDPOINT_BUILTIN [] 0 proto [] builtin)
      | Err _ => (-1, endpoint_init proto)
      end
  end.

(** Field updates of [struct route]. *)
Definition set_listen (ep : endpoint) (r : route) : route :=
  mk_route ep (r_upstream r) (r_opts r) (r_line_no r).
Definition set_upstream (ep : endpoint) (r : route) : route :=
  mk_route (r_listen r) ep (r_opts r) (r_line_no r).
Definition set_opts (o : route_options) (r : route) : route :=
  mk_route (r_listen r) (r_upstream r) o (r_line_no r).
Definition set_line_no (n : Z) (r : route) : route :=
  mk_route (r_listen r) (r_upstream r) (r_opts r) n.

(** The trailing loop: each remaining field is an option list. *)
Fixpoint parse_option_fields (fields : list (list byte)) (opts : route_options)
    : Z * route_options :=
  match fields with
  | [] => (0, opts)
  | f :: rest =>
      let '(rc, opts') := parse_route_options f opts in
      if negb (rc =? 0) then (- EINVAL, opts') else parse_option_fields rest opts'
  end.

Definition parse_route_line (line : list byte) (route0 : route) : Z * route :=
  let fields := strtok_all is_blank line in
  if MAX_ROUTE_FIELDS <? len fields then (- EINVAL, route0) else
  match fields with
  | [] => (- EINVAL, route0)
  | f0 :: _ =>
      match (if f0 =s str "listen" then drop 1 fields else fields) with
      | lp :: le :: bp :: be :: opts =>
          let r := set_opts (route_options_set_defaults route_options_zero) route_zero in
          match parse_proto lp with
          | Err _ => (- EINVAL, r)
          | Ok listen_proto =>
              let '(rc, ep) := parse_endpoint listen_proto le in
              let r := set_listen ep r in
              if negb (rc =? 0) then (- EINVAL, r) else
              match parse_proto bp with
              | Err _ => (- EINVAL, r)
              | Ok backend_proto =>
                  let '(rc, ep) := parse_endpoint backend_proto be in
                  let r := set_upstream ep r in
                  if negb (rc =? 0) then (- EINVAL, r) else
                  let '(rc, o) := parse_option_fields opts (r_opts r) in
                  (rc, set_opts o r)
              end
          end
      | _ => (- EINVAL, route0)
      end
  end.

(** ** Loading a whole file *)

Definition SIZEOF_ROUTE : Z := 784.

(** Splits off the first raw line of [data]: the line without its newline and
    the offset of the next one. *)
Definition next_line (data : list byte) (pos : nat) : list byte * nat :=
  let rest := drop pos data in
  match strchr rest x0a with
  | Some i => (take i rest, (pos + i + 1)%nat)
  | None => (rest, length data)
  end.

(** [if (raw_len > 0 && line_start[raw_len - 1] == '\r') raw_len--] *)
Definition strip_cr (raw : list byte) : list byte :=
  match last raw with
  | Some c => if c =b x0d then take (length raw - 1) raw else raw
  | None => raw
  end.

(** The line the parser sees: trimmed, with the inline comment removed; [None]
    where the loop continues with the next line. *)
Definition clean_line (raw : list byte) : option (list byte) :=
  let line := trim (cstr raw) in
  if (line =s []) || (char_at line 0 =b "#"%byte) then None else
  match strchr line "#"%byte with
  | None => Some line
  | Some hash =>
      let line := trim (take hash line) in
      if line =s [] then None else Some line
  end.

Record load_state : Type := mk_load {
  ls_routes : list route;      (* routes[0 .. count) *)
  ls_cap : Z;
  ls_line_no : Z               (* unsigned int *)
}.

Section load.
(** Whether [realloc] of the given size succeeds. *)
Context (realloc_ok : Z -> bool).

(** The growth of the array: the new capacity. *)
Definition grow (count cap : Z) : result Z :=
  if negb (count =? cap) then Ok cap else
  let new_cap := if cap =? 0 then 8 else u64 (cap * 2) in
  if SIZE_MAX / SIZEOF_ROUTE <? new_cap then Err (- EOVERFLOW)
  else if negb (realloc_ok (new_cap * SIZEOF_ROUTE)) then Err (- ENOMEM)
  else Ok new_cap.

(** One iteration of the [while] loop, on the raw line it found. *)
Definition load_line (raw : list byte) (st : load_state) : result load_state :=
  let line_no := u32 (ls_line_no st + 1) in
  let raw := strip_cr raw in
  if MAX_LINE_LEN <=? len raw then Err (- E2BIG) else
  match clean_line raw with
  | None => Ok (mk_load (ls_routes st) (ls_cap st) line_no)
  | Some line =>
      cap ← grow (len (ls_routes st)) (ls_cap st);
      let '(rc, r) := parse_route_line line route_zero in
      if negb (rc =? 0) then Err (- EINVAL) else
      let r := set_line_no line_no r in
      if 0 <=? find_conflicting_route (ls_routes st) r then Err (- EADDRINUSE)
      else Ok (mk_load (ls_routes st ++ [r]) cap line_no)
  end.

Fixpoint load_loop (fuel : nat) (data : list byte) (pos : nat) (st : load_state)
    : option (result load_state) :=
  match fuel with
  | O => None
  | S fuel =>
      if (Z.of_nat pos <? len data) then
        let '(raw, pos') := next_line data pos in
        match load_line raw st with
        | Err e => Some (Err e)
        | Ok st' => load_loop fuel data pos' st'
        end
      else Some (Ok st)
  end.

(** [None] only if the loop did not end within the fuel. *)
Definition load_routes_from_text (data : list byte) : option (result (list route)) :=
  match load_loop (S (length data)) data 0 (mk_load [] 0 0) with
  | Some (Ok st) => Some (Ok (ls_routes st))
  | Some (Err e) => Some (Err e)
  | None => None
  end.
End load.
