(* ===== verification/FileConfFacts.v ===== *)
(** * Correctness of the configuration parser

    What a parsed route is guaranteed to be ([route_wf]), the round trip
    between routes and configuration lines, and the loop of
    [load_routes_from_text] against a line-by-line reference. *)

From S2P Require Import Prelude CString Endpoint FileConf.

(** ** Well-formed routes *)

(** A byte that can occur inside a field of a configuration line. *)
Definition field_char (c : byte) : Prop := is_blank c = false /\ c <> x00.

Definition endpoint_wf (ep : endpoint) : Prop :=
  Forall field_char (ep_host ep) /\ Forall field_char (ep_path ep) /\
  match ep_proto ep with
  | PROTO_TCP | PROTO_UDP =>
      ep_path ep = [] /\ ep_builtin ep = X_BUILTIN_NONE /\ 1 <= ep_port ep <= 65535 /\
      ep_host ep <> [] /\ len (ep_host ep) < HOST_SIZE /\
      ((ep_kind ep = ENDPOINT_INET /\ (":"%byte ∉ ep_host ep) /\ char_at (ep_host ep) 0 <> "["%byte)
       \/ (ep_kind ep = ENDPOINT_INET6 /\ ("]"%byte ∉ ep_host ep)))
  | PROTO_UNIX_STREAM | PROTO_UNIX_DGRAM | PROTO_FILE =>
      ep_host ep = [] /\ ep_port ep = 0 /\ ep_builtin ep = X_BUILTIN_NONE /\
      ep_path ep <> [] /\ len (ep_path ep) < PATH_SIZE /\
      ep_kind ep = match ep_proto ep with
                   | PROTO_UNIX_STREAM => ENDPOINT_UNIX
                   | PROTO_UNIX_DGRAM => ENDPOINT_UNIX_DGRAM
                   | _ => ENDPOINT_FILE
                   end
  | PROTO_BUILTIN =>
      ep_host ep = [] /\ ep_port ep = 0 /\ ep_path ep = [] /\
      ep_kind ep = ENDPOINT_BUILTIN /\ ep_builtin ep <> X_BUILTIN_NONE
  end.

Definition opts_wf (o : route_options) : Prop :=
  1 <= opt_idle_timeout_sec o <= INT_MAX /\
  1 <= opt_connect_timeout_sec o <= INT_MAX /\
  0 <= opt_bind_wait_sec o <= INT_MAX.

Definition route_wf (r : route) : Prop :=
  endpoint_wf (r_listen r) /\ endpoint_wf (r_upstream r) /\ opts_wf (r_opts r).

(** ** The canonical configuration line of a route *)

Definition proto_name (p : endpoint_proto) : list byte :=
  match p with
  | PROTO_TCP => str "tcp"
  | PROTO_UDP => str "udp"
  | PROTO_UNIX_STREAM => str "unix"
  | PROTO_UNIX_DGRAM => str "unix-dgram"
  | PROTO_FILE => str "file"
  | PROTO_BUILTIN => str "builtin"
  end.

(** An endpoint as it is written in a line: the log form for addresses, the
    bare path or name otherwise. *)
Definition endpoint_arg (ep : endpoint) : list byte :=
  match ep_kind ep with
  | ENDPOINT_INET | ENDPOINT_INET6 => endpoint_text (Some ep)
  | ENDPOINT_BUILTIN => x_builtin_name (ep_builtin ep)
  | _ => ep_path ep
  end.

Definition option_toks (o : route_options) : list (list byte) :=
  (if opt_proxy_v2 o then [str "proxy_v2"] else []) ++
  (if opt_keep_alive o then [str "keep_alive"] else []) ++
  (if opt_sni_sniff o then [str "sni_sniff"] else []) ++
  [str "idle_timeout=" ++ udec (opt_idle_timeout_sec o)] ++
  [str "connect_timeout=" ++ udec (opt_connect_timeout_sec o)] ++
  (if opt_bind_wait_sec o =? 0 then [] else [str "bind_wait=" ++ udec (opt_bind_wait_sec o)]) ++
  match opt_broadcast_reply o with
  | BROADCAST_REPLY_OFF => []
  | BROADCAST_REPLY_LISTEN => [str "broadcast_reply=listen"]
  | BROADCAST_REPLY_UPSTREAM => [str "broadcast_reply=upstream"]
  end.

Definition print_route (r : route) : list byte :=
  join_with x20 [str "listen";
                 proto_name (ep_proto (r_listen r)); endpoint_arg (r_listen r);
                 proto_name (ep_proto (r_upstream r)); endpoint_arg (r_upstream r);
                 join_with ","%byte (option_toks (r_opts r))].

(** ** Trimming *)

Lemma trim_id s : Forall (fun c => isspace c = false) s -> trim s = s.
Proof.
  intros H. unfold trim. destruct s as [|c t]; [done|].
  rewrite skip_while_nop by (by inversion H).
  destruct (rev (c :: t)) as [|d u] eqn:E.
  { by apply (f_equal (@length byte)) in E; rewrite length_rev in E. }
  rewrite skip_while_nop.
  - rewrite <- E. apply rev_involutive.
  - assert (d ∈ c :: t) as Hd.
    { rewrite list_elem_of_In, in_rev, E. by left. }
    rewrite Forall_forall in H. by apply H.
Qed.

Lemma trim_incl s x : x ∈ trim s -> x ∈ s.
Proof.
  unfold trim. destruct (skip_while_spec isspace s) as (a & Ha & _).
  destruct (skip_while isspace s) as [|c t] eqn:E; [by intros ?%not_elem_of_nil|].
  rewrite <- E in *. clear E.
  destruct (skip_while_spec isspace (rev (skip_while isspace s))) as (b & Hb & _).
  intros H. rewrite Ha. apply elem_of_app. right.
  apply list_elem_of_In, in_rev. rewrite Hb. apply list_elem_of_In.
  apply elem_of_app. right. by rewrite list_elem_of_In, in_rev, <- list_elem_of_In.
Qed.

Lemma trim_length s : (length (trim s) <= length s)%nat.
Proof.
  unfold trim. pose proof (skip_while_length isspace s).
  destruct (skip_while isspace s) as [|c t] eqn:E; simpl; [lia|].
  rewrite length_rev. pose proof (skip_while_length isspace (rev t ++ [c])).
  rewrite length_app, length_rev in H0. simpl in *. lia.
Qed.

(** ** Numbers *)

Lemma parse_port_range s p : parse_port s = Ok p -> 1 <= p <= 65535.
Proof.
  unfold parse_port. destruct (strtoul s) as [[v e] errno] eqn:E.
  case_if; [done|]. intros [= <-]. bool_to_prop.
  assert (0 <= v).
  { unfold strtoul in E.
    destruct (read_sign _) as [neg t]. destruct (digits 0 t) as [w rest] eqn:Ed.
    assert (0 <= w).
    { assert (forall a, 0 <= a -> 0 <= (digits a t).1) as Hd.
      { clear. induction t as [|c t IH]; intros a Ha; simpl; [done|].
        destruct (isdigit c) eqn:Ec; [|done]. apply IH. unfold digit_step.
        unfold isdigit in Ec. bool_to_prop. lia. }
      specialize (Hd 0). rewrite Ed in Hd. simpl in Hd. lia. }
    repeat case_if_in E; simplify_eq; try (unfold ULONG_MAX; lia).
    apply Z.mod_pos_bound. lia. }
  unfold u16. rewrite Z.mod_small by lia. lia.
Qed.

Lemma parse_port_digits ds :
  ds <> [] -> Forall (fun c => isdigit c = true) ds ->
  1 <= dec_value ds <= 65535 -> parse_port ds = Ok (dec_value ds).
Proof.
  intros Hne Hf Hv. unfold parse_port. rewrite strtoul_digits by done.
  unfold ULONG_MAX. destruct (18446744073709551615 <? dec_value ds) eqn:E; bool_to_prop; [lia|].
  unfold bytes_eqb. rewrite (bool_decide_eq_false_2 (ds = [])) by done.
  simpl. rewrite (proj2 (Z.eqb_neq _ _)), (proj2 (Z.ltb_ge _ _)) by lia. simpl.
  unfold u16. by rewrite Z.mod_small by lia.
Qed.

Lemma parse_positive_int_range s v : parse_positive_int s = Ok v -> 1 <= v <= INT_MAX.
Proof.
  unfold parse_positive_int. case_if; [done|]. destruct (strtol s) as [[w e] errno].
  repeat (case_if; [done|]). intros [= <-]. bool_to_prop. lia.
Qed.

Lemma parse_positive_int_udec v : 1 <= v <= INT_MAX -> parse_positive_int (udec v) = Ok v.
Proof.
  intros Hv. destruct (udec_spec v) as (Hne & Hf & Hd); [lia|].
  unfold parse_positive_int, bytes_eqb. rewrite bool_decide_eq_false_2 by done.
  rewrite strtol_digits by (rewrite ?Hd; unfold LONG_MAX, INT_MAX in *; done || lia).
  rewrite Hd. destruct (udec v); [done|]. simpl.
  rewrite (proj2 (Z.leb_gt _ _)), (proj2 (Z.ltb_ge _ _)) by lia. done.
Qed.

(** ** Endpoints *)

Lemma digit_field_char c : isdigit c = true -> field_char c.
Proof.
  unfold isdigit, field_char, is_blank. intros H. bool_to_prop.
  split; [|by intros ->].
  repeat rewrite orb_false_iff; split_and!; apply byte_eqb_false; by intros ->.
Qed.

Lemma udec_field_chars n : 0 <= n -> Forall field_char (udec n).
Proof.
  intros Hn. destruct (udec_spec n Hn) as (_ & Hf & _).
  eapply Forall_impl; [exact Hf|]. intros c. apply digit_field_char.
Qed.

Lemma not_in_udec n c : 0 <= n -> isdigit c = false -> c ∉ udec n.
Proof.
  intros Hn Hc Hin. destruct (udec_spec n Hn) as (_ & Hf & _).
  rewrite Forall_forall in Hf. by rewrite Hf in Hc.
Qed.

Lemma split_port_ok port_s host port v6 hp :
  split_port port_s host port v6 = (0, hp) ->
  hp_host hp = host /\ hp_is_ipv6 hp = v6 /\ 1 <= hp_port hp <= 65535.
Proof.
  unfold split_port. destruct (parse_port port_s) eqn:E; [|done].
  intros [= <-]. apply parse_port_range in E. done.
Qed.

Lemma split_port_udec port host port0 v6 :
  1 <= port <= 65535 -> split_port (udec port) host port0 v6 = (0, mk_hp host port v6).
Proof.
  intros Hp. unfold split_port. destruct (udec_spec port) as (Hne & Hf & Hv); [lia|].
  rewrite parse_port_digits by (done || lia). by rewrite Hv.
Qed.

(** What a successful [split_host_port] leaves in its out-parameters. *)
Lemma split_host_port_ok input hp :
  Forall field_char input -> split_host_port input HOST_SIZE 0 = (0, hp) ->
  Forall field_char (hp_host hp) /\ hp_host hp <> [] /\ len (hp_host hp) < HOST_SIZE /\
  1 <= hp_port hp <= 65535 /\
  if hp_is_ipv6 hp then ("]"%byte ∉ hp_host hp)
  else (":"%byte ∉ hp_host hp) /\ char_at (hp_host hp) 0 <> "["%byte.
Proof.
  intros Hf. unfold split_host_port. simpl (HOST_SIZE =? 0). cbv iota.
  destruct (byte_eqb_spec (char_at input 0) "["%byte) as [H0|H0].
  - destruct (strchr input "]"%byte) as [close|] eqn:Ec; [|done].
    apply strchr_Some in Ec as (a & b & -> & <- & Ha).
    case_if; [done|]. case_if; [done|]. bool_to_prop.
    intros (-> & -> & Hp)%split_port_ok.
    destruct a as [|c a]; [done|]. unfold sub. simpl in *.
    replace (Z.to_nat (Z.of_nat (S (length a)) - 1)) with (length a) by lia.
    rewrite drop_0, take_app_length.
    inversion Hf as [|? ? _ Hf']; subst. apply Forall_app in Hf' as [Hfa _].
    apply not_elem_of_cons in Ha as [_ Ha].
    split_and!; [done| |unfold Zlength; lia|lia|lia|done].
    intros ->. simpl in *. lia.
  - destruct (strrchr input ":"%byte) as [lc|] eqn:El; [|by destruct (strchr input ":"%byte)].
    destruct (strchr input ":"%byte) as [fc|] eqn:Ef; [|done].
    case_if; [done|]. case_if; [done|]. bool_to_prop.
    match goal with H : Some _ = Some _ |- _ => injection H as -> end.
    intros (-> & -> & Hp)%split_port_ok.
    apply strchr_Some in Ef as (a & b & -> & <- & Ha).
    rewrite take_app_length. apply Forall_app in Hf as [Hfa _].
    destruct (a =s []) eqn:Ea.
    + split_and!; [|done|done|lia|lia| |done].
      * repeat constructor; done.
      * simpl. by repeat (apply not_elem_of_cons; split; [done|]); apply not_elem_of_nil.
    + assert (a <> []) by (intros ->; done).
      split_and!; [done|done|unfold Zlength; lia|lia|lia|done|].
      destruct a; [done|]. simpl in *. done.
Qed.

Lemma parse_endpoint_wf proto s ep :
  Forall field_char s -> parse_endpoint proto s = (0, ep) ->
  endpoint_wf ep /\ ep_proto ep = proto.
Proof.
  intros Hf. unfold parse_endpoint, parse_path_endpoint.
  destruct proto.
  1,2: destruct (split_host_port s HOST_SIZE 0) as [rc hp] eqn:E;
    destruct (rc =? 0) eqn:Erc; simpl; [|done]; intros [= <-]; bool_to_prop; subst rc;
    apply split_host_port_ok in E as (? & ? & ? & ? & Hk); [|done];
    split; [|done]; unfold endpoint_wf; simpl;
    destruct (hp_is_ipv6 hp); split_and!; try done; try lia; by (left + right).
  1,2,3: case_if; [done|]; intros [= <-]; bool_to_prop;
    split; [|done]; unfold endpoint_wf; simpl; split_and!; try done; intros ->; done.
  case_if; [done|]. destruct (x_builtin_parse s) as [b|] eqn:Eb; [|done].
  intros [= <-]. apply x_builtin_parse_iff in Eb as [Hb _].
  split; [|done]. unfold endpoint_wf. simpl. by split_and!.
Qed.

Lemma split_host_port_inet host port :
  host <> [] -> len host < HOST_SIZE -> 1 <= port <= 65535 ->
  (":"%byte ∉ host) -> char_at host 0 <> "["%byte ->
  split_host_port (host ++ ":"%byte :: udec port) HOST_SIZE 0 = (0, mk_hp host port false).
Proof.
  intros Hne Hl Hp Hc Hb. unfold split_host_port. simpl (HOST_SIZE =? 0). cbv iota.
  assert ((char_at (host ++ ":"%byte :: udec port) 0 =b "["%byte) = false) as ->.
  { apply byte_eqb_false. by destruct host. }
  assert (":"%byte ∉ udec port) as Hu by (apply not_in_udec; [lia|done]).
  rewrite strchr_app, strrchr_app by done. rewrite bool_decide_eq_true_2 by done. simpl.
  rewrite drop_app_add. simpl drop. rewrite drop_0.
  destruct (udec_spec port) as (Hne' & _); [lia|].
  unfold bytes_eqb. rewrite (bool_decide_eq_false_2 (udec port = [])) by done.
  rewrite (proj2 (Z.leb_gt _ _)) by done. simpl.
  rewrite take_app_length, (bool_decide_eq_false_2 (host = [])) by done.
  by apply split_port_udec.
Qed.

Lemma split_host_port_inet6 host port :
  host <> [] -> len host < HOST_SIZE -> 1 <= port <= 65535 -> ("]"%byte ∉ host) ->
  split_host_port ("["%byte :: host ++ "]"%byte :: ":"%byte :: udec port) HOST_SIZE 0 =
  (0, mk_hp host port true).
Proof.
  intros Hne Hl Hp Hc. unfold split_host_port. simpl (HOST_SIZE =? 0). cbv iota.
  change ("["%byte :: host ++ "]"%byte :: ":"%byte :: udec port)
    with (("["%byte :: host) ++ "]"%byte :: ":"%byte :: udec port).
  simpl (char_at _ 0). cbv iota beta. rewrite strchr_app by (by apply not_elem_of_cons).
  assert (char_at (("["%byte :: host) ++ "]"%byte :: ":"%byte :: udec port)
            (length ("["%byte :: host) + 1) = ":"%byte) as ->.
  { unfold char_at. rewrite lookup_app_r by lia.
    by replace (length ("["%byte :: host) + 1 - length ("["%byte :: host))%nat with 1%nat by lia. }
  rewrite byte_eqb_refl, drop_app_add. simpl negb. cbv iota.
  simpl drop. rewrite drop_0. destruct (udec_spec port) as (Hne' & _); [lia|].
  unfold bytes_eqb. rewrite (bool_decide_eq_false_2 (udec port = [])) by done.
  assert (0 < len host) by (destruct host; [done|]; rewrite len_cons; pose proof (len_nonneg host); lia).
  replace (Z.of_nat (length ("["%byte :: host)) - 1) with (len host) by (unfold Zlength; simpl; lia).
  rewrite (proj2 (Z.leb_gt _ _)), (proj2 (Z.eqb_neq _ _)) by lia. simpl orb. cbv iota.
  unfold sub. simpl drop. rewrite drop_0. unfold Zlength. rewrite Nat2Z.id, take_app_length.
  by apply split_port_udec.
Qed.

Lemma parse_endpoint_arg ep :
  endpoint_wf ep -> parse_endpoint (ep_proto ep) (endpoint_arg ep) = (0, ep).
Proof.
  destruct ep as [kind host port proto path builtin]. unfold endpoint_wf, endpoint_arg. simpl.
  intros (Hh & Hpa & Hw).
  destruct proto; simpl in *.
  1,2: destruct Hw as (-> & -> & Hp & Hne & Hl & [(-> & H1 & H2)|[-> H1]]);
    [rewrite split_host_port_inet by done|rewrite split_host_port_inet6 by done]; done.
  1,2,3: destruct Hw as (-> & -> & -> & Hne & Hl & ->); unfold parse_path_endpoint, bytes_eqb;
    rewrite bool_decide_eq_false_2 by done; rewrite (proj2 (Z.leb_gt _ _)) by done; done.
  destruct Hw as (-> & -> & -> & -> & Hb).
  assert (x_builtin_parse (x_builtin_name builtin) = Ok builtin) as Hp
    by (by apply x_builtin_parse_iff).
  rewrite Hp. by destruct builtin.
Qed.

(** Closes [Forall field_char _] goals on literals, digits and known parts. *)
Ltac field_chars :=
  repeat first [ assumption | apply Forall_nil_2 | apply Forall_app_2 | apply Forall_cons_2
               | apply udec_field_chars; lia | by split ].

Lemma endpoint_arg_field ep :
  endpoint_wf ep -> endpoint_arg ep <> [] /\ Forall field_char (endpoint_arg ep).
Proof.
  destruct ep as [kind host port proto path builtin]. unfold endpoint_wf, endpoint_arg. simpl.
  intros (Hh & Hpa & Hw).
  destruct proto; simpl in *.
  1,2: destruct Hw as (-> & -> & Hp & Hne & Hl & [(-> & H1 & H2)|[-> H1]]);
    (split; [by destruct host|]); field_chars.
  1,2,3: destruct Hw as (-> & -> & -> & Hne & Hl & ->); done.
  destruct Hw as (-> & -> & -> & -> & Hb).
  destruct builtin; simpl; (split; [done|]); field_chars.
Qed.

Lemma proto_name_parse p : parse_proto (proto_name p) = Ok p.
Proof. by destruct p. Qed.

Lemma proto_name_field p : proto_name p <> [] /\ Forall field_char (proto_name p).
Proof. destruct p; (split; [done|]); field_chars. Qed.

(** ** Options *)

(** Keys the parser knows and the setter each one selects. *)
Definition int_keys : list (list byte * (Z -> route_options -> route_options)) :=
  [(str "idle_timeout", set_idle_timeout); (str "connect_timeout", set_connect_timeout);
   (str "bind_wait", set_bind_wait)].

Lemma isdigit_range c : isdigit c = true -> 48 <= b2z c <= 57.
Proof. unfold isdigit. intros. bool_to_prop. lia. Qed.

Lemma parse_int_option key f v o :
  (key, f) ∈ int_keys -> 1 <= v <= INT_MAX ->
  parse_option (key ++ "="%byte :: udec v) o = Ok (f v o).
Proof.
  intros Hk Hv. destruct (udec_spec v) as (Hne & Hd & _); [lia|].
  assert (Forall (fun c => isspace c = false) (udec v)) as Hu.
  { eapply Forall_impl; [exact Hd|]. apply isdigit_not_space. }
  unfold parse_option.
  assert (Forall (fun c => isspace c = false) key /\ ("="%byte ∉ key) /\ key <> []) as (Hks & Hke & Hkn).
  { unfold int_keys in Hk. repeat (apply elem_of_cons in Hk as [Hk|Hk]; [injection Hk as -> ->|]).
    1,2,3: split_and!; [by repeat constructor| |done];
      simpl; repeat (apply not_elem_of_cons; split; [done|]); apply not_elem_of_nil.
    by apply not_elem_of_nil in Hk. }
  rewrite trim_id by (apply Forall_app_2; [done|]; by constructor).
  assert ((key ++ "="%byte :: udec v =s []) = false) as ->.
  { unfold bytes_eqb. apply bool_decide_eq_false. by destruct key. }
  rewrite strchr_app by done. rewrite take_app_length, drop_app_add. simpl drop.
  rewrite drop_0, !trim_id by done. unfold parse_key_value.
  assert ((key =s []) = false) as -> by by apply bool_decide_eq_false.
  assert ((udec v =s []) = false) as -> by by apply bool_decide_eq_false.
  rewrite parse_positive_int_udec by done.
  unfold int_keys in Hk. repeat (apply elem_of_cons in Hk as [Hk|Hk]; [by injection Hk as -> ->|]).
  by apply not_elem_of_nil in Hk.
Qed.

Lemma parse_option_wf tok o o' :
  opts_wf o -> parse_option tok o = Ok o' -> opts_wf o'.
Proof.
  intros (H1 & H2 & H3). unfold parse_option, parse_key_value.
  case_if; [done|]. destruct (strchr (trim tok) "="%byte).
  - case_if; [done|].
    repeat (case_if; [destruct (parse_positive_int _) as [v|] eqn:Ev; simpl; [|done];
      apply parse_positive_int_range in Ev; intros [= <-]; unfold opts_wf; simpl; lia|]).
    case_if; [|done]. destruct (parse_broadcast_reply_mode _); simpl; [|done].
    by intros [= <-].
  - repeat (case_if; [by intros [= <-]|]). done.
Qed.

Lemma parse_option_toks_wf toks o rc o' :
  opts_wf o -> parse_option_toks toks o = (rc, o') -> opts_wf o'.
Proof.
  revert o. induction toks as [|t toks IH]; intros o Ho; simpl; [by intros [= <- <-]|].
  destruct (parse_option t o) eqn:E; [|by intros [= <- <-]].
  apply IH. by eapply parse_option_wf.
Qed.

Lemma parse_option_fields_wf fields o rc o' :
  opts_wf o -> parse_option_fields fields o = (rc, o') -> opts_wf o'.
Proof.
  revert o. induction fields as [|f fields IH]; intros o Ho; simpl; [by intros [= <- <-]|].
  unfold parse_route_options at 1. destruct (f =s []); [by apply IH|].
  destruct (parse_option_toks (strtok_all is_comma f) o) as [rc1 o1] eqn:E.
  apply parse_option_toks_wf in E; [|done].
  case_if; [by intros [= <- <-]|]. by apply IH.
Qed.

Lemma parse_positive_int_err s e : parse_positive_int s = Err e -> e < 0.
Proof.
  unfold parse_positive_int. destruct (strtol s) as [[v r] errno].
  repeat (case_if; [by intros [= <-]|]). done.
Qed.

Lemma parse_option_err tok o e : parse_option tok o = Err e -> e < 0.
Proof.
  unfold parse_option, parse_key_value.
  case_if; [by intros [= <-]|]. destruct (strchr (trim tok) "="%byte).
  - case_if; [by intros [= <-]|].
    repeat (case_if; [destruct (parse_positive_int _) eqn:Ev; simpl; [done|];
      apply parse_positive_int_err in Ev; by intros [= <-]|]).
    unfold parse_broadcast_reply_mode. repeat case_if; simpl; by intros [= <-].
  - repeat (case_if; [done|]). by intros [= <-].
Qed.

Lemma parse_option_toks_app a b o o1 :
  parse_option_toks a o = (0, o1) ->
  parse_option_toks (a ++ b) o = parse_option_toks b o1.
Proof.
  revert o. induction a as [|t a IH]; intros o; simpl; [by intros [= <-]|].
  destruct (parse_option t o) eqn:E; [by apply IH|].
  apply parse_option_err in E. intros [= -> <-]. lia.
Qed.

(** The printed options, read from the defaults, give the options back. *)
Lemma parse_option_toks_print o :
  opts_wf o ->
  parse_option_toks (option_toks o) (route_options_set_defaults route_options_zero) = (0, o).
Proof.
  intros (H1 & H2 & H3). unfold option_toks.
  destruct o as [pv ka sn it ct bw br].
  cbn [opt_proxy_v2 opt_keep_alive opt_sni_sniff opt_idle_timeout_sec opt_connect_timeout_sec
       opt_bind_wait_sec opt_broadcast_reply] in *.
  assert (forall o, parse_option (str "idle_timeout=" ++ udec it) o = Ok (set_idle_timeout it o)) as Hi.
  { intros. apply (parse_int_option (str "idle_timeout") set_idle_timeout); [|done]. by constructor. }
  assert (forall o, parse_option (str "connect_timeout=" ++ udec ct) o = Ok (set_connect_timeout ct o)) as Hc.
  { intros. apply (parse_int_option (str "connect_timeout") set_connect_timeout); [|done].
    by do 2 constructor. }
  assert (forall o, bw <> 0 -> parse_option (str "bind_wait=" ++ udec bw) o = Ok (set_bind_wait bw o)) as Hb.
  { intros. apply (parse_int_option (str "bind_wait") set_bind_wait); [|lia]. by do 3 constructor. }
  rewrite (parse_option_toks_app _ _ _ (mk_opts pv false false 60 5 0 BROADCAST_REPLY_OFF))
    by (by destruct pv).
  rewrite (parse_option_toks_app _ _ _ (mk_opts pv ka false 60 5 0 BROADCAST_REPLY_OFF))
    by (by destruct ka).
  rewrite (parse_option_toks_app _ _ _ (mk_opts pv ka sn 60 5 0 BROADCAST_REPLY_OFF))
    by (by destruct sn).
  rewrite (parse_option_toks_app _ _ _ (mk_opts pv ka sn it 5 0 BROADCAST_REPLY_OFF))
    by (cbn [parse_option_toks]; by rewrite Hi).
  rewrite (parse_option_toks_app _ _ _ (mk_opts pv ka sn it ct 0 BROADCAST_REPLY_OFF))
    by (cbn [parse_option_toks]; by rewrite Hc).
  rewrite (parse_option_toks_app _ _ _ (mk_opts pv ka sn it ct bw BROADCAST_REPLY_OFF)).
  - by destruct br.
  - destruct (bw =? 0) eqn:E; bool_to_prop; [by subst|].
    cbn [parse_option_toks]. by rewrite Hb.
Qed.

Lemma Forall_join (P : byte -> Prop) d toks :
  P d -> Forall (Forall P) toks -> Forall P (join_with d toks).
Proof.
  intros Hd. induction 1 as [|x [|y l] Hx Hl IH]; [done|done|].
  change (join_with d (x :: y :: l)) with (x ++ d :: join_with d (y :: l)).
  apply Forall_app_2; [done|]. by constructor.
Qed.

Definition comma_free (c : byte) : Prop := is_comma c = false /\ field_char c.

Lemma udec_comma_free n : 0 <= n -> Forall comma_free (udec n).
Proof.
  intros Hn. destruct (udec_spec n Hn) as (_ & Hf & _).
  eapply Forall_impl; [exact Hf|]. intros c Hc. split; [|by apply digit_field_char].
  apply byte_eqb_false. by intros ->.
Qed.

(** Literal tokens, and [key=digits] tokens. *)
Ltac comma_free_chars :=
  repeat first [ apply Forall_nil_2 | apply Forall_app_2 | apply Forall_cons_2
               | apply udec_comma_free; lia | by split; [|split] ].

Lemma option_toks_chars o :
  opts_wf o -> Forall (fun t => t <> [] /\ Forall comma_free t) (option_toks o).
Proof.
  intros (H1 & H2 & H3). unfold option_toks. repeat apply Forall_app_2.
  1-3: case_if; [apply Forall_cons_2; [|done]; (split; [done|]); comma_free_chars|done].
  1,2: apply Forall_cons_2; [|done]; (split; [done|]); comma_free_chars.
  - case_if; [done|]. apply Forall_cons_2; [|done]; (split; [done|]); comma_free_chars.
  - destruct (opt_broadcast_reply o); [done|..];
      apply Forall_cons_2; [|done|..|done]; (split; [done|]); comma_free_chars.
Qed.

Lemma option_toks_space_free o :
  opts_wf o ->
  Forall (fun t => t <> [] /\ Forall (fun c => isspace c = false) t) (option_toks o).
Proof.
  intros (H1 & H2 & H3).
  assert (forall n, 0 <= n -> Forall (fun c => isspace c = false) (udec n)) as Hu.
  { intros n Hn. destruct (udec_spec n Hn) as (_ & Hf & _).
    eapply Forall_impl; [exact Hf|]. apply isdigit_not_space. }
  unfold option_toks. repeat apply Forall_app_2.
  1-3: case_if; by repeat constructor.
  1,2: apply Forall_cons_2; [|done]; (split; [done|]); apply Forall_app_2; [by repeat constructor|apply Hu; lia].
  - case_if; [done|].
    apply Forall_cons_2; [|done]; (split; [done|]); apply Forall_app_2; [by repeat constructor|apply Hu; lia].
  - destruct (opt_broadcast_reply o); by repeat constructor.
Qed.

(** ** Whole lines *)

Lemma blank_free_Forall s :
  Forall field_char s -> Forall (fun c => is_blank c = false) s.
Proof. intros H. eapply Forall_impl; [exact H|]. by intros c [? _]. Qed.

Lemma parse_option_field_print o :
  opts_wf o ->
  parse_route_options (join_with ","%byte (option_toks o))
    (route_options_set_defaults route_options_zero) = (0, o) /\
  join_with ","%byte (option_toks o) <> [] /\
  Forall field_char (join_with ","%byte (option_toks o)).
Proof.
  intros Ho. pose proof (option_toks_chars o Ho) as Ht.
  assert (strtok_all is_comma (join_with ","%byte (option_toks o)) = option_toks o) as Hs.
  { apply strtok_all_join; [done|]. eapply Forall_impl; [exact Ht|].
    intros t [Hn Hf]. split; [done|]. eapply Forall_impl; [exact Hf|]. by intros c [? _]. }
  assert (join_with ","%byte (option_toks o) <> []) as Hne.
  { intros E. rewrite E in Hs. unfold option_toks in Hs. apply (f_equal length) in Hs.
    rewrite !length_app in Hs. simpl in Hs. lia. }
  split_and!; [|done|].
  - unfold parse_route_options, bytes_eqb. rewrite bool_decide_eq_false_2 by done.
    rewrite Hs. by apply parse_option_toks_print.
  - apply Forall_join; [by split|]. eapply Forall_impl; [exact Ht|].
    intros t [_ Hf]. eapply Forall_impl; [exact Hf|]. by intros c [_ ?].
Qed.

Lemma print_route_fields r :
  route_wf r ->
  Forall (fun f => f <> [] /\ Forall field_char f)
    [str "listen"; proto_name (ep_proto (r_listen r)); endpoint_arg (r_listen r);
     proto_name (ep_proto (r_upstream r)); endpoint_arg (r_upstream r);
     join_with ","%byte (option_toks (r_opts r))].
Proof.
  intros (Hl & Hu & Ho).
  repeat apply Forall_cons_2; try done;
    auto using endpoint_arg_field, proto_name_field.
  - split; [done|]. field_chars.
  - by apply parse_option_field_print.
Qed.

Lemma strtok_print_route r :
  route_wf r ->
  strtok_all is_blank (print_route r) =
    [str "listen"; proto_name (ep_proto (r_listen r)); endpoint_arg (r_listen r);
     proto_name (ep_proto (r_upstream r)); endpoint_arg (r_upstream r);
     join_with ","%byte (option_toks (r_opts r))].
Proof.
  intros Hr. apply strtok_all_join; [done|].
  eapply Forall_impl; [by apply print_route_fields|].
  intros f [Hn Hf]. split; [done|]. by apply blank_free_Forall.
Qed.

Lemma parse_print_route r r0 :
  route_wf r -> parse_route_line (print_route r) r0 = (0, set_line_no 0 r).
Proof.
  intros Hr. unfold parse_route_line. rewrite strtok_print_route by done.
  destruct Hr as (Hl & Hu & Ho).
  set (fs := join_with ","%byte _).
  change (MAX_ROUTE_FIELDS <? len [_; _; _; _; _; fs]) with false. cbv iota beta.
  rewrite bytes_eqb_refl. cbv iota beta. simpl drop. cbv iota beta.
  rewrite !proto_name_parse, !parse_endpoint_arg by done.
  cbn [r_opts set_listen set_upstream set_opts Z.eqb negb parse_option_fields].
  destruct (parse_option_field_print (r_opts r) Ho) as (Hp & _ & _).
  fold fs in Hp. rewrite Hp. by destruct r.
Qed.

(** A successful parse yields a well-formed route and does not depend on what
    the destination held before. *)
Lemma parse_route_line_wf line r0 r :
  (x00 ∉ line) -> parse_route_line line r0 = (0, r) ->
  route_wf r /\ r_line_no r = 0.
Proof.
  intros Hn. unfold parse_route_line. case_if; [done|].
  assert (Forall (Forall field_char) (strtok_all is_blank line)) as Hf.
  { eapply Forall_impl; [apply strtok_all_Forall|].
    intros t (_ & Hb & _ & Hin). apply Forall_forall. intros c Hc.
    rewrite Forall_forall in Hb. split; [by apply Hb|]. intros ->. by apply Hn, Hin. }
  destruct (strtok_all is_blank line) as [|f0 fs]; [done|].
  assert (Forall (Forall field_char) (if f0 =s str "listen" then drop 1 (f0 :: fs) else f0 :: fs)) as Hf'.
  { case_if; [|done]. by inversion Hf. }
  destruct (if f0 =s str "listen" then _ else _) as [|lp [|le [|bp [|be opts]]]]; try done.
  repeat (apply Forall_cons in Hf' as [? Hf']).
  destruct (parse_proto lp) as [lproto|]; [|done].
  destruct (parse_endpoint lproto le) as [rc1 ep1] eqn:E1. case_if; [done|].
  destruct (parse_proto bp) as [bproto|]; [|done].
  destruct (parse_endpoint bproto be) as [rc2 ep2] eqn:E2. case_if; [done|].
  bool_to_prop. subst. apply parse_endpoint_wf in E1 as [? _], E2 as [? _]; try done.
  destruct (parse_option_fields opts _) as [rc3 o] eqn:E3.
  apply parse_option_fields_wf in E3; [|repeat split; vm_compute; discriminate].
  intros [= -> <-]. done.
Qed.

(** ** Deciding well-formedness *)

#[export] Instance field_char_dec c : Decision (field_char c).
Proof. unfold field_char. apply _. Defined.

#[export] Instance endpoint_wf_dec ep : Decision (endpoint_wf ep).
Proof. unfold endpoint_wf. destruct (ep_proto ep); apply _. Defined.

#[export] Instance opts_wf_dec o : Decision (opts_wf o).
Proof. unfold opts_wf. apply _. Defined.

#[export] Instance route_wf_dec r : Decision (route_wf r).
Proof. unfold route_wf. apply _. Defined.

(** ** Ports, exactly *)

Lemma digits_spec acc t v rest :
  digits acc t = (v, rest) ->
  exists ds, t = ds ++ rest /\ Forall (fun c => isdigit c = true) ds /\
             v = fold_left digit_step ds acc.
Proof.
  revert acc. induction t as [|c t IH]; intros acc; simpl.
  - intros [= <- <-]. by exists [].
  - destruct (isdigit c) eqn:E.
    + intros H. apply IH in H as (ds & -> & Hf & ->). exists (c :: ds).
      split_and!; [done|by constructor|done].
    + intros [= <- <-]. by exists [].
Qed.

Lemma dec_value_nonneg ds :
  Forall (fun c => isdigit c = true) ds -> 0 <= dec_value ds.
Proof.
  intros H. unfold dec_value.
  enough (forall a, 0 <= a -> 0 <= fold_left digit_step ds a) as Ha by (apply Ha; lia).
  induction H as [|c t Hc _ IH]; intros a Ha; simpl; [done|].
  apply IH. unfold digit_step. apply isdigit_range in Hc. lia.
Qed.

Lemma read_sign_spec t neg t' :
  read_sign t = (neg, t') ->
  exists sg, t = sg ++ t' /\ (sg = [] \/ sg = str "+" \/ sg = str "-") /\
             neg = bool_decide (sg = str "-").
Proof.
  destruct t as [|c t]; simpl; [intros [= <- <-]; exists []; split_and!; auto|].
  destruct (byte_eqb_spec c "-"%byte) as [->|].
  { intros [= <- <-]. exists (str "-"). split_and!; auto. }
  destruct (byte_eqb_spec c "+"%byte) as [->|].
  { intros [= <- <-]. exists (str "+"). split_and!; auto. }
  intros [= <- <-]. exists []. split_and!; auto.
Qed.

(** The texts of a port: white space, a sign and digits, with the value the
    conversion to [unsigned long] gives them. *)
Definition port_text (s : list byte) (p : Z) : Prop :=
  exists ws sg ds,
    s = ws ++ sg ++ ds /\ Forall (fun c => isspace c = true) ws /\
    (sg = [] \/ sg = str "+" \/ sg = str "-") /\
    ds <> [] /\ Forall (fun c => isdigit c = true) ds /\ dec_value ds <= ULONG_MAX /\
    p = (if bool_decide (sg = str "-") then 2 ^ 64 - dec_value ds else dec_value ds) /\
    1 <= p <= 65535.

Lemma parse_port_sound s p : parse_port s = Ok p -> port_text s p.
Proof.
  intros Hp. pose proof (parse_port_range s p Hp) as Hr. revert Hp. unfold parse_port, strtoul.
  destruct (skip_while_spec isspace s) as (ws & Hs & Hws & _).
  destruct (read_sign (skip_while isspace s)) as [neg t] eqn:Es.
  apply read_sign_spec in Es as (sg & Ht & Hsg & ->).
  destruct (digits 0 t) as [v rest] eqn:Ed. apply digits_spec in Ed as (ds & -> & Hd & ->).
  fold (dec_value ds) in *. pose proof (dec_value_nonneg ds Hd) as Hv.
  destruct (Nat.eqb_spec (length rest) (length (ds ++ rest))) as [El|El]; [by rewrite orb_true_r|].
  assert (ds <> []) as Hne by (intros ->; done).
  destruct (ULONG_MAX <? dec_value ds) eqn:Eu; [done|]. case_if; [done|].
  bool_to_prop. intros [= Hp].
  match goal with H : (rest =s []) = true |- _ => apply bytes_eqb_true in H; subst rest end.
  rewrite app_nil_r in *. exists ws, sg, ds. rewrite <- Ht. split_and!; try done; try lia.
  rewrite <- Hp. unfold u16, u64 in *. case_bool_decide.
  + unfold ULONG_MAX in *.
    destruct (Z.eq_dec (dec_value ds) 0) as [E0|E0]; [rewrite E0 in *; done|].
    assert (- dec_value ds mod 2 ^ 64 = 2 ^ 64 - dec_value ds) as Em.
    { rewrite <- (Z.mod_add _ 1) by done. rewrite Z.mod_small by lia. lia. }
    rewrite Em in *. rewrite Z.mod_small by lia. done.
  + rewrite Z.mod_small by lia. done.
Qed.

Lemma parse_port_complete s p : port_text s p -> parse_port s = Ok p.
Proof.
  intros (ws & sg & ds & -> & Hws & Hsg & Hne & Hd & Hu & Hp & Hr).
  destruct ds as [|c ds]; [done|]. assert (isdigit c = true) as Hc by (by inversion Hd).
  assert (skip_while isspace (ws ++ sg ++ c :: ds) = sg ++ c :: ds) as Hsk.
  { clear -Hws Hsg Hc. induction Hws as [|x ws Hx _ IH]; simpl.
    - destruct Hsg as [->|[->| ->]]; simpl; [|done|done]. by rewrite isdigit_not_space.
    - by rewrite Hx. }
  assert (read_sign (sg ++ c :: ds) = (bool_decide (sg = str "-"), c :: ds)) as Hrs.
  { destruct Hsg as [->|[->| ->]]; [exact (isdigit_not_sign c ds Hc)|done|done]. }
  unfold parse_port, strtoul. rewrite Hsk, Hrs.
  rewrite <- (app_nil_r (c :: ds)) at 1. rewrite digits_app by done.
  fold (dec_value (c :: ds)). simpl Nat.eqb. cbv iota beta.
  rewrite (proj2 (Z.ltb_ge _ _)) by done.
  assert ((if bool_decide (sg = str "-") then u64 (- dec_value (c :: ds)) else dec_value (c :: ds)) = p) as ->.
  { rewrite Hp. case_bool_decide; [|done]. unfold u64.
    rewrite <- (Z.mod_add _ 1) by done. unfold ULONG_MAX in *. rewrite Z.mod_small; lia. }
  assert ((ws ++ sg ++ c :: ds =s []) = false) as ->.
  { apply bool_decide_eq_false. by destruct ws, sg. }
  simpl. rewrite (proj2 (Z.eqb_neq _ _)), (proj2 (Z.ltb_ge _ _)) by lia. simpl.
  unfold u16. by rewrite Z.mod_small by lia.
Qed.

(** [parse_port] accepts exactly optional white space, an optional sign and
    digits whose value, converted to [unsigned long] (so negated modulo 2^64
    after a minus sign), lies in 1..65535; the accepted port is that value. *)
Theorem parse_port_exact s p : parse_port s = Ok p <-> port_text s p.
Proof. split; [apply parse_port_sound|apply parse_port_complete]. Qed.
