(* ===== verification/ConfLoad.v ===== *)
(** * Loading a configuration text

    [load_routes_from_text] against an abstract specification: split the text
    into lines, keep what each line denotes, require that no two routes listen
    on the same endpoint. *)

From S2P Require Import Prelude CString Endpoint FileConf FileConfFacts.

(** ** The specification *)

Fixpoint split_lines (data : list byte) : list (list byte) :=
  match data with
  | [] => []
  | c :: t =>
      if c =b x0a then [] :: split_lines t
      else match split_lines t with
           | [] => [[c]]
           | l :: ls => (c :: l) :: ls
           end
  end.

(** What the line numbered [n] denotes: nothing, a route, or an error. *)
Definition line_route (n : Z) (raw : list byte) : option (result route) :=
  if MAX_LINE_LEN <=? len (strip_cr raw) then Some (Err (- E2BIG)) else
  match clean_line (strip_cr raw) with
  | None => None
  | Some line =>
      let '(rc, r) := parse_route_line line route_zero in
      Some (if negb (rc =? 0) then Err (- EINVAL) else Ok (set_line_no n r))
  end.

Fixpoint line_routes (n : Z) (lines : list (list byte)) : list (result route) :=
  match lines with
  | [] => []
  | raw :: rest =>
      match line_route n raw with
      | None => line_routes (n + 1) rest
      | Some x => x :: line_routes (n + 1) rest
      end
  end.

Definition conflict (a b : route) : bool := same_listen_endpoint (r_listen a) (r_listen b).

Fixpoint no_conflict (rs : list route) : Prop :=
  match rs with
  | [] => True
  | r :: rest => Forall (fun x => conflict r x = false) rest /\ no_conflict rest
  end.

(** The text [data] denotes the routes [rs]. *)
Definition lines_accepted (data : list byte) (rs : list route) : Prop :=
  line_routes 1 (split_lines data) = map Ok rs /\ no_conflict rs.

(** ** The loop visits the lines *)

Lemma split_lines_app a b : (x0a ∉ a) -> split_lines (a ++ x0a :: b) = a :: split_lines b.
Proof.
  induction a as [|c a IH]; intros H; [done|]. simpl.
  apply not_elem_of_cons in H as [Hc Ha]. rewrite IH by done.
  destruct (byte_eqb_spec c x0a); [congruence|done].
Qed.

Lemma split_lines_single a : (x0a ∉ a) -> a <> [] -> split_lines a = [a].
Proof.
  induction a as [|c a IH]; intros H Hne; [done|]. simpl.
  apply not_elem_of_cons in H as [Hc Ha].
  destruct (byte_eqb_spec c x0a); [congruence|].
  destruct a as [|d a]; [done|]. by rewrite IH.
Qed.

Lemma split_lines_length data : (length (split_lines data) <= length data)%nat.
Proof.
  induction data as [|c t IH]; [done|]. simpl. destruct (c =b x0a); simpl; [lia|].
  destruct (split_lines t); simpl in *; lia.
Qed.

Lemma next_line_split data pos raw pos' :
  (pos < length data)%nat -> next_line data pos = (raw, pos') ->
  split_lines (drop pos data) = raw :: split_lines (drop pos' data) /\
  (pos < pos' <= length data)%nat.
Proof.
  intros Hp. unfold next_line.
  assert (length (drop pos data) = length data - pos)%nat as Hl by apply length_drop.
  destruct (strchr (drop pos data) x0a) as [i|] eqn:E; intros [= <- <-].
  - apply strchr_Some in E as (a & b & He & <- & Ha).
    rewrite <- Nat.add_assoc, <- drop_drop, He. rewrite take_app_length, drop_app_add.
    rewrite split_lines_app by done. simpl. rewrite drop_0. split; [done|].
    rewrite He in Hl. rewrite length_app in Hl. simpl in Hl. lia.
  - apply strchr_None in E. rewrite drop_all. split; [|lia].
    rewrite split_lines_single; [done|done|]. intros E'. rewrite E' in Hl. simpl in Hl. lia.
Qed.

Section load.
Context (realloc_ok : Z -> bool).

Fixpoint load_lines (lines : list (list byte)) (st : load_state) : result load_state :=
  match lines with
  | [] => Ok st
  | raw :: rest =>
      match load_line realloc_ok raw st with
      | Err e => Err e
      | Ok st' => load_lines rest st'
      end
  end.

Lemma load_loop_lines fuel data pos st :
  (pos <= length data)%nat -> (length data - pos < fuel)%nat ->
  load_loop realloc_ok fuel data pos st =
  Some (load_lines (split_lines (drop pos data)) st).
Proof.
  revert pos st. induction fuel as [|fuel IH]; intros pos st Hp Hf; [lia|]. simpl.
  destruct (Z.of_nat pos <? len data) eqn:E; bool_to_prop; unfold Zlength in E.
  - destruct (next_line data pos) as [raw pos'] eqn:En.
    apply next_line_split in En as [-> Hpos]; [|lia]. simpl.
    destruct (load_line realloc_ok raw st); [|done]. apply IH; lia.
  - rewrite drop_ge by lia. done.
Qed.

(** The loop ends on every text, with the outcome of the line-by-line load. *)
Lemma load_text_lines data :
  load_routes_from_text realloc_ok data =
  Some (st ← load_lines (split_lines data) (mk_load [] 0 0); mret (ls_routes st)).
Proof.
  unfold load_routes_from_text. rewrite load_loop_lines by lia.
  rewrite drop_0. by destruct (load_lines _ _).
Qed.
End load.

(** ** The array of routes *)

(** [count] elements live in an array that was allocated for [cap] of them. *)
Definition array_inv (realloc_ok : Z -> bool) (st : load_state) : Prop :=
  0 <= len (ls_routes st) <= ls_cap st /\ ls_cap st <= SIZE_MAX / SIZEOF_ROUTE /\
  ls_cap st <= 2 * len (ls_routes st) + 8 /\
  (ls_cap st = 0 \/ realloc_ok (ls_cap st * SIZEOF_ROUTE) = true).

Lemma grow_ok realloc_ok count cap cap' :
  0 <= count <= cap -> cap <= SIZE_MAX / SIZEOF_ROUTE -> cap <= 2 * count + 8 ->
  (cap = 0 \/ realloc_ok (cap * SIZEOF_ROUTE) = true) ->
  grow realloc_ok count cap = Ok cap' ->
  count < cap' /\ cap' <= SIZE_MAX / SIZEOF_ROUTE /\ cap' <= 2 * count + 8 /\
  realloc_ok (cap' * SIZEOF_ROUTE) = true.
Proof.
  intros Hc Hm Hg Ha. unfold grow. case_if; bool_to_prop.
  - intros [= <-]. destruct Ha; [lia|]. split_and!; [lia|done|done|done].
  - case_if; [done|]. case_if; [done|]. intros [= <-]. bool_to_prop. subst count.
    split; [|split; [done|split; [|done]]].
    + case_if; bool_to_prop; [lia|]. unfold u64.
      change (SIZE_MAX / SIZEOF_ROUTE) with 23529010298098917 in *.
      rewrite Z.mod_small by lia. lia.
    + case_if; bool_to_prop; [lia|]. unfold u64.
      change (SIZE_MAX / SIZEOF_ROUTE) with 23529010298098917 in *.
      rewrite Z.mod_small by lia. lia.
Qed.

Lemma load_line_array realloc_ok raw st st' :
  array_inv realloc_ok st -> load_line realloc_ok raw st = Ok st' -> array_inv realloc_ok st'.
Proof.
  intros (H1 & H2 & H3 & H4). unfold load_line. case_if; [done|].
  destruct (clean_line _); [|by intros [= <-]].
  destruct (grow _ _ _) as [cap|] eqn:Eg; simpl; [|done].
  apply grow_ok in Eg as (? & ? & ? & ?); [|done..].
  destruct (parse_route_line _ _) as [rc r]. case_if; [done|].
  destruct (0 <=? find_conflicting_route _ _); [done|]. intros [= <-].
  unfold array_inv. simpl. rewrite len_snoc. split_and!; try lia. by right.
Qed.

Lemma load_lines_array realloc_ok lines st st' :
  array_inv realloc_ok st -> load_lines realloc_ok lines st = Ok st' -> array_inv realloc_ok st'.
Proof.
  revert st. induction lines as [|raw lines IH]; intros st Hi; simpl; [by intros [= <-]|].
  destruct (load_line _ _ _) eqn:E; [|done]. apply IH. by eapply load_line_array.
Qed.

Lemma array_inv_init realloc_ok : array_inv realloc_ok (mk_load [] 0 0).
Proof. unfold array_inv. simpl. split_and!; try done. by left. Qed.

(** ** Conflicts *)

(** The index fits an [int] below 2^31 routes; beyond, the conversion would turn
    a conflict into a negative number. *)
Lemma find_conflict_from_neg i rs r :
  0 <= i -> i + len rs <= 2 ^ 31 ->
  (0 <=? find_conflict_from i rs r) = false <-> Forall (fun x => conflict x r = false) rs.
Proof.
  revert i. induction rs as [|x rs IH]; intros i Hi Hl; simpl; [done|]. unfold conflict at 1.
  rewrite len_cons in Hl. pose proof (len_nonneg rs).
  destruct (same_listen_endpoint _ _) eqn:E.
  - assert (s32 i = i) as ->.
    { unfold s32. rewrite Z.mod_small by lia. by rewrite (proj2 (Z.ltb_lt _ _)) by lia. }
    rewrite (proj2 (Z.leb_le _ _)) by done. split; [done|]. intros H'. inversion H'; congruence.
  - rewrite Forall_cons, <- (IH (i + 1)) by lia. tauto.
Qed.

Lemma find_conflicting_route_neg rs r :
  len rs <= 2 ^ 31 ->
  (0 <=? find_conflicting_route rs r) = false <-> Forall (fun x => conflict x r = false) rs.
Proof. intros. apply find_conflict_from_neg; lia. Qed.

(** A line that holds a route has at least one byte, and a newline: the routes
    are at most half as many as the bytes. *)
Definition line_bytes (lines : list (list byte)) : Z :=
  foldr (fun raw acc => 1 + len raw + acc) 0 lines.

Lemma line_bytes_nonneg lines : 0 <= line_bytes lines.
Proof. induction lines as [|raw lines IH]; simpl; [done|]. pose proof (len_nonneg raw). lia. Qed.

Lemma split_lines_bytes data : line_bytes (split_lines data) <= len data + 1.
Proof.
  induction data as [|c t IH]; [done|]. simpl. rewrite len_cons. destruct (c =b x0a); simpl.
  - rewrite len_nil. lia.
  - pose proof (len_nonneg t). destruct (split_lines t); simpl in *; rewrite len_cons, ?len_nil; lia.
Qed.

Lemma clean_line_nonempty raw line : clean_line (strip_cr raw) = Some line -> 1 <= len raw.
Proof. destruct raw; [done|]. intros _. rewrite len_cons. pose proof (len_nonneg raw). lia. Qed.

Lemma no_conflict_snoc rs r :
  no_conflict (rs ++ [r]) <-> no_conflict rs /\ Forall (fun x => conflict x r = false) rs.
Proof.
  induction rs as [|x rs IH]; simpl; [by repeat split|].
  rewrite IH, Forall_app, Forall_singleton, Forall_cons. tauto.
Qed.

Lemma no_conflict_prefix rs rest : no_conflict (rs ++ rest) -> no_conflict rs.
Proof.
  induction rs as [|x rs IH]; simpl; [done|].
  rewrite Forall_app. intros [[? _] ?]. auto.
Qed.

(** ** Loading refines the specification *)

Definition all_ok (_ : Z) : bool := true.

Lemma grow_all_ok count cap :
  0 <= count <= cap -> cap <= 2 * count + 8 -> count < 2 ^ 32 ->
  exists cap', grow all_ok count cap = Ok cap'.
Proof.
  intros H1 H2 H3. unfold grow, all_ok. case_if; [by eexists|]. simpl.
  bool_to_prop. subst count. change (SIZE_MAX / SIZEOF_ROUTE) with 23529010298098917.
  destruct (cap =? 0) eqn:E; [by eexists|]. bool_to_prop. unfold u64.
  rewrite Z.mod_small by lia. case_if; [bool_to_prop; lia|by eexists].
Qed.

Lemma load_line_route raw st :
  array_inv all_ok st -> len (ls_routes st) < 2 ^ 31 -> 0 <= ls_line_no st < 2 ^ 32 - 1 ->
  match line_route (ls_line_no st + 1) raw with
  | None => exists cap, load_line all_ok raw st = Ok (mk_load (ls_routes st) cap (ls_line_no st + 1))
  | Some (Err e) => load_line all_ok raw st = Err e
  | Some (Ok r) =>
      if bool_decide (Forall (fun x => conflict x r = false) (ls_routes st))
      then exists cap, load_line all_ok raw st = Ok (mk_load (ls_routes st ++ [r]) cap (ls_line_no st + 1))
      else load_line all_ok raw st = Err (- EADDRINUSE)
  end.
Proof.
  intros (H1 & H2 & H3 & H4) Hn Hl. unfold line_route, load_line.
  assert (u32 (ls_line_no st + 1) = ls_line_no st + 1) as -> by (unfold u32; apply Z.mod_small; lia).
  destruct (MAX_LINE_LEN <=? len (strip_cr raw)); [done|].
  destruct (clean_line (strip_cr raw)) as [line|]; [|by eexists].
  destruct (grow_all_ok (len (ls_routes st)) (ls_cap st)) as [cap ->]; [done|done|lia|]. simpl.
  destruct (parse_route_line line route_zero) as [rc r]. destruct (negb (rc =? 0)); [done|].
  case_bool_decide as Hc.
  - apply find_conflicting_route_neg in Hc; [|lia]. simpl in Hc |- *. rewrite Hc. by eexists.
  - destruct (0 <=? find_conflicting_route _ _) eqn:Ef; [done|].
    exfalso. apply Hc, find_conflicting_route_neg; [lia|done].
Qed.

Lemma line_route_bytes n raw r : line_route n raw = Some (Ok r) -> 1 <= len raw.
Proof.
  unfold line_route. case_if; [done|]. destruct (clean_line (strip_cr raw)) eqn:Ec; [|done].
  intros _. by eapply clean_line_nonempty.
Qed.

Lemma load_lines_spec lines st rs :
  array_inv all_ok st -> no_conflict (ls_routes st) -> 0 <= ls_line_no st ->
  2 * len (ls_routes st) + line_bytes lines <= 2 ^ 32 -> ls_line_no st + len lines < 2 ^ 32 ->
  (exists st', load_lines all_ok lines st = Ok st' /\ ls_routes st' = rs) <->
  (exists new, line_routes (ls_line_no st + 1) lines = map Ok new /\
               rs = ls_routes st ++ new /\ no_conflict rs).
Proof.
  revert st. induction lines as [|raw lines IH]; intros st Hi Hc H0 Hn Hl.
  - simpl. split.
    + intros (st' & [= <-] & <-). exists []. by rewrite app_nil_r.
    + intros ([|] & He & -> & _); [|done]. rewrite app_nil_r. by eexists.
  - rewrite len_cons in Hl. simpl in Hn. pose proof (len_nonneg lines). pose proof (len_nonneg raw).
    pose proof (len_nonneg (ls_routes st)). pose proof (line_bytes_nonneg lines).
    pose proof (load_line_route raw st Hi ltac:(lia) ltac:(lia)) as Hline.
    simpl. destruct (line_route (ls_line_no st + 1) raw) as [[r|e]|] eqn:Er.
    + case_bool_decide as Hcr.
      * destruct Hline as [cap Hline].
        pose proof (load_line_array _ _ _ _ Hi Hline) as Hi'. rewrite Hline.
        rewrite IH; simpl; try lia; [|done| |].
        -- split; intros (new & He & -> & Hnc).
           ++ exists (r :: new). simpl. rewrite He, <- app_assoc in *. done.
           ++ destruct new as [|r' new]; [done|]. simpl in He. injection He as <- He.
              exists new. rewrite He, <- app_assoc in *. done.
        -- by apply no_conflict_snoc.
        -- apply line_route_bytes in Er. rewrite len_snoc. lia.
      * rewrite Hline. split; [by intros (? & ? & _)|].
        intros (new & He & -> & Hnc). destruct new as [|r' new]; [done|].
        simpl in He. injection He as <- He.
        rewrite cons_middle, app_assoc in Hnc. apply no_conflict_prefix, no_conflict_snoc in Hnc.
        tauto.
    + rewrite Hline. split; [by intros (? & ? & _)|]. by intros ([|] & ? & _).
    + destruct Hline as [cap Hline].
      pose proof (load_line_array _ _ _ _ Hi Hline) as Hi'. rewrite Hline.
      apply (IH (mk_load (ls_routes st) cap (ls_line_no st + 1))); simpl; try done; lia.
Qed.

Lemma load_denotes data rs :
  len data < 2 ^ 32 ->
  load_routes_from_text all_ok data = Some (Ok rs) <-> lines_accepted data rs.
Proof.
  intros Hd. rewrite load_text_lines.
  pose proof (split_lines_length data) as Hs.
  transitivity (exists st', load_lines all_ok (split_lines data) (mk_load [] 0 0) = Ok st' /\
                            ls_routes st' = rs).
  { destruct (load_lines _ _ _) as [st'|]; simpl.
    - split; [intros [= <-]; by eexists|]. by intros (? & [= <-] & <-).
    - split; [done|]. by intros (? & ? & _). }
  pose proof (split_lines_bytes data).
  rewrite load_lines_spec; simpl; [|apply array_inv_init|done|lia|unfold Zlength in *; simpl; lia..].
  unfold lines_accepted. split.
  - intros (new & ? & -> & ?). done.
  - intros [? ?]. by exists rs.
Qed.

(** ** Invariants of every successful load *)

Definition routes_inv (rs : list route) : Prop := Forall route_wf rs /\ no_conflict rs.

Lemma clean_line_no_nul raw line : clean_line raw = Some line -> x00 ∉ line.
Proof.
  unfold clean_line. case_if; [done|]. pose proof (cstr_no_nul raw) as Hn.
  destruct (strchr _ _) as [h|].
  - case_if; [done|]. intros [= <-] Hin. apply trim_incl, elem_of_take in Hin as (i & Hin & _).
    apply list_elem_of_lookup_2, trim_incl in Hin. done.
  - intros [= <-] Hin%trim_incl. done.
Qed.

Lemma set_line_no_wf n r : route_wf r -> route_wf (set_line_no n r).
Proof. done. Qed.

Lemma load_line_inv realloc_ok raw st st' :
  routes_inv (ls_routes st) -> 2 * len (ls_routes st) <= 2 ^ 32 ->
  load_line realloc_ok raw st = Ok st' ->
  routes_inv (ls_routes st') /\ 2 * len (ls_routes st') <= 2 * len (ls_routes st) + 1 + len raw.
Proof.
  intros [Hw Hc] Hn. unfold load_line. pose proof (len_nonneg raw). case_if; [done|].
  destruct (clean_line _) as [line|] eqn:El; [|by intros [= <-]; simpl; split; [|lia]].
  pose proof (clean_line_nonempty _ _ El).
  destruct (grow _ _ _) as [cap|]; simpl; [|done].
  destruct (parse_route_line _ _) as [rc r] eqn:Ep. case_if; [done|].
  destruct (0 <=? find_conflicting_route _ _) eqn:Ef; [done|]. intros [= <-]. simpl.
  rewrite len_snoc. split; [|lia].
  apply find_conflicting_route_neg in Ef; [|lia].
  bool_to_prop. subst rc. apply clean_line_no_nul in El.
  apply parse_route_line_wf in Ep as [Hr _]; [|done].
  split.
  - apply Forall_app_2; [done|]. constructor; [by apply set_line_no_wf|done].
  - by apply no_conflict_snoc.
Qed.

Lemma load_lines_inv realloc_ok lines st st' :
  routes_inv (ls_routes st) -> 2 * len (ls_routes st) + line_bytes lines <= 2 ^ 32 ->
  load_lines realloc_ok lines st = Ok st' -> routes_inv (ls_routes st').
Proof.
  revert st. induction lines as [|raw lines IH]; intros st Hi Hn; simpl in *; [by intros [= <-]|].
  pose proof (line_bytes_nonneg lines). pose proof (len_nonneg raw).
  destruct (load_line _ _ _) eqn:E; [|done].
  apply load_line_inv in E as [Hi' Hn']; [|done|lia]. apply IH; [done|lia].
Qed.

(** ** Printing a configuration and loading it back *)

Definition print_config (rs : list route) : list byte :=
  concat (map (fun r => print_route r ++ [x0a]) rs).

Fixpoint number_from (n : Z) (rs : list route) : list route :=
  match rs with
  | [] => []
  | r :: rest => set_line_no n r :: number_from (n + 1) rest
  end.

Lemma join_with_snoc d toks x :
  exists pre, join_with d (toks ++ [x]) = pre ++ x.
Proof.
  induction toks as [|a [|b toks] [pre IH]]; [by exists []|by exists (a ++ [d]); simpl; rewrite <- app_assoc|].
  change (join_with d ((a :: b :: toks) ++ [x])) with (a ++ d :: join_with d ((b :: toks) ++ [x])).
  rewrite IH. exists (a ++ d :: pre). by rewrite <- app_assoc.
Qed.

Lemma trim_ends c t d :
  isspace c = false -> last (c :: t) = Some d -> isspace d = false -> trim (c :: t) = c :: t.
Proof.
  intros Hc Hl Hd. unfold trim. rewrite skip_while_nop by done.
  apply last_Some in Hl as [l' Hl]. rewrite Hl, rev_app_distr. simpl.
  rewrite Hd. simpl. by rewrite rev_involutive.
Qed.

(** The last byte of a printed line comes from an option token. *)
Lemma print_route_last r :
  route_wf r -> exists d, last (print_route r) = Some d /\ isspace d = false.
Proof.
  intros (_ & _ & Ho). unfold print_route.
  destruct (join_with_snoc x20 [str "listen"; proto_name (ep_proto (r_listen r));
    endpoint_arg (r_listen r); proto_name (ep_proto (r_upstream r)); endpoint_arg (r_upstream r)]
    (join_with ","%byte (option_toks (r_opts r)))) as [pre Hp].
  change ([?a; ?b; ?c; ?d; ?e] ++ [?f]) with [a; b; c; d; e; f] in Hp. simpl app in Hp.
  rewrite Hp. clear Hp.
  assert (Forall (fun t => t <> [] /\ Forall (fun c => isspace c = false) t)
            (option_toks (r_opts r))) as Ht.
  { eapply Forall_impl; [by apply option_toks_space_free|]. done. }
  assert (option_toks (r_opts r) <> []) as Hne.
  { intros E. apply (f_equal length) in E. unfold option_toks in E.
    rewrite !length_app in E. simpl in E. lia. }
  destruct (exists_last Hne) as (l & x & Hx). rewrite Hx in *.
  apply Forall_app in Ht as [_ Ht]. inversion Ht as [|? ? [Hxn Hxf] _]; subst.
  destruct (join_with_snoc ","%byte l x) as [pre' ->].
  destruct (exists_last Hxn) as (x' & d & ->).
  exists d. rewrite !app_assoc, last_snoc. split; [done|].
  rewrite Forall_app in Hxf. destruct Hxf as [_ Hxf]. by inversion Hxf.
Qed.

Lemma print_route_head r : exists t, print_route r = "l"%byte :: t.
Proof. unfold print_route. by eexists. Qed.

Lemma print_route_chars r c :
  route_wf r -> c ∈ print_route r -> c = x20 \/ field_char c.
Proof.
  intros Hr. unfold print_route.
  pose proof (print_route_fields r Hr) as Hf.
  assert (Forall (fun c => c = x20 \/ field_char c)
    (join_with x20 [str "listen"; proto_name (ep_proto (r_listen r)); endpoint_arg (r_listen r);
     proto_name (ep_proto (r_upstream r)); endpoint_arg (r_upstream r);
     join_with ","%byte (option_toks (r_opts r))])) as H.
  { apply Forall_join; [by left|]. eapply Forall_impl; [exact Hf|].
    intros f [_ ?]. eapply Forall_impl; [eassumption|]. by right. }
  rewrite Forall_forall in H. apply H.
Qed.

Lemma clean_print_route r :
  route_wf r -> ("#"%byte ∉ print_route r) ->
  clean_line (strip_cr (print_route r)) = Some (print_route r) /\
  strip_cr (print_route r) = print_route r.
Proof.
  intros Hr Hh. destruct (print_route_last r Hr) as (d & Hd & Hs).
  assert (strip_cr (print_route r) = print_route r) as Hcr.
  { unfold strip_cr. rewrite Hd. destruct (byte_eqb_spec d x0d) as [->|]; done. }
  split; [|done]. rewrite Hcr. unfold clean_line.
  rewrite cstr_id by (intros Hn; apply print_route_chars in Hn as [?|[_ ?]]; done).
  destruct (print_route_head r) as [t Ht]. rewrite Ht in *.
  rewrite (trim_ends _ _ d) by done. simpl.
  apply strchr_None in Hh. simpl in Hh. by rewrite Hh.
Qed.

(** A route that [print_config] can write: well formed, short, no comment. *)
Definition printable (r : route) : Prop :=
  route_wf r /\ ("#"%byte ∉ print_route r) /\ len (print_route r) < MAX_LINE_LEN.

Lemma line_route_print n r :
  printable r -> line_route n (print_route r) = Some (Ok (set_line_no n r)).
Proof.
  intros (Hr & Hh & Hl). unfold line_route.
  destruct (clean_print_route r Hr Hh) as [-> ->].
  rewrite (proj2 (Z.leb_gt _ _)) by done. by rewrite parse_print_route.
Qed.

Lemma split_print_config rs :
  Forall printable rs -> split_lines (print_config rs) = map print_route rs.
Proof.
  induction 1 as [|r rs (Hr & _) _ IH]; [done|].
  change (print_config (r :: rs)) with ((print_route r ++ [x0a]) ++ print_config rs).
  rewrite <- app_assoc. change ([x0a] ++ print_config rs) with (x0a :: print_config rs).
  rewrite split_lines_app; [by rewrite IH|].
  intros Hn. apply print_route_chars in Hn as [?|[? _]]; done.
Qed.

Lemma line_routes_print n rs :
  Forall printable rs -> line_routes n (map print_route rs) = map Ok (number_from n rs).
Proof.
  intros H. revert n. induction H as [|r rs Hr _ IH]; intros n; [done|]. simpl.
  rewrite line_route_print by done. by rewrite IH.
Qed.

Lemma conflict_line_no n m a b : conflict (set_line_no n a) (set_line_no m b) = conflict a b.
Proof. done. Qed.

Lemma no_conflict_number n rs : no_conflict rs -> no_conflict (number_from n rs).
Proof.
  revert n. induction rs as [|r rs IH]; intros n; simpl; [done|]. intros [Hf Hc].
  split; [|by apply IH]. generalize (n + 1). clear IH Hc.
  induction Hf as [|x l Hx _ IH]; intros m; simpl; [done|].
  constructor; [by rewrite conflict_line_no|apply IH].
Qed.

(** * Main theorems *)

(** C24: for every text and every behaviour of [realloc] the loading loop
    terminates, and its outcome is the one of processing the lines of the text
    one after the other. *)
Theorem load_routes_terminates realloc_ok data :
  exists out, load_routes_from_text realloc_ok data = Some out /\
    out = (st ← load_lines realloc_ok (split_lines data) (mk_load [] 0 0); mret (ls_routes st)).
Proof. eexists. split; [apply load_text_lines|done]. Qed.

Lemma load_sound realloc_ok data rs :
  len data < 2 ^ 32 -> load_routes_from_text realloc_ok data = Some (Ok rs) ->
  Forall route_wf rs /\ no_conflict rs.
Proof.
  rewrite load_text_lines. intros Hd Hl. pose proof (split_lines_bytes data).
  destruct (load_lines _ _ _) as [st|] eqn:E; simpl in Hl; [|done]. injection Hl as <-.
  apply load_lines_inv in E; [done|done|]. unfold Zlength in *. simpl. lia.
Qed.

(** The growing array: after any number of lines the routes stored fit in
    the capacity, the capacity times the element size does not overflow
    [size_t], and that many bytes were requested from [realloc] with success. *)
Theorem load_array_in_bounds realloc_ok lines st :
  load_lines realloc_ok lines (mk_load [] 0 0) = Ok st ->
  len (ls_routes st) <= ls_cap st /\ ls_cap st * SIZEOF_ROUTE <= SIZE_MAX /\
  (ls_routes st <> [] -> realloc_ok (ls_cap st * SIZEOF_ROUTE) = true).
Proof.
  intros H. apply load_lines_array in H as (H1 & H2 & _ & H4); [|apply array_inv_init].
  change (SIZE_MAX / SIZEOF_ROUTE) with 23529010298098917 in H2.
  unfold SIZE_MAX, SIZEOF_ROUTE in *. split_and!; [lia|lia|].
  intros Hne. destruct H4 as [H4|]; [|done]. exfalso. apply Hne, len_zero. lia.
Qed.

(** C25: a failed load reports the first line that cannot be accepted: the
    lines before it load, and the error is the one of that line. *)
Theorem load_routes_error realloc_ok data e :
  load_routes_from_text realloc_ok data = Some (Err e) ->
  exists before raw after st,
    split_lines data = before ++ raw :: after /\
    load_lines realloc_ok before (mk_load [] 0 0) = Ok st /\
    load_line realloc_ok raw st = Err e /\
    (e = - E2BIG <-> MAX_LINE_LEN <= len (strip_cr raw)).
Proof.
  rewrite load_text_lines. intros H.
  assert (load_lines realloc_ok (split_lines data) (mk_load [] 0 0) = Err e) as Hl.
  { by destruct (load_lines _ _ _); [|injection H as ->]. }
  clear H. revert Hl. generalize (mk_load [] 0 0) as st.
  induction (split_lines data) as [|raw lines IH]; intros st; simpl; [done|].
  destruct (load_line realloc_ok raw st) as [st'|e'] eqn:E.
  - intros Hl. destruct (IH st' Hl) as (before & raw' & after & st'' & -> & Hb & He).
    exists (raw :: before), raw', after, st''. simpl. by rewrite E.
  - intros [= ->]. exists [], raw, lines, st. split_and!; [done|done|done|].
    revert E. unfold load_line. case_if; bool_to_prop.
    + intros [= <-]. done.
    + intros E'. split; [intros ->|lia]. exfalso. revert E'.
      destruct (clean_line _); [|done]. unfold grow.
      repeat case_if; simpl; try done;
        destruct (parse_route_line _ _) as [rc r]; by repeat case_if.
Qed.

(** Printing a route in the configuration syntax and parsing the line back
    gives the route, whatever the destination held before. *)
Theorem route_line_roundtrip r r0 :
  route_wf r -> parse_route_line (print_route r) r0 = (0, set_line_no 0 r).
Proof. apply parse_print_route. Qed.

(** C10: a whole configuration printed one route per line loads back to the same
    routes, numbered by their lines. *)
Theorem config_roundtrip rs :
  Forall printable rs -> no_conflict rs -> len (print_config rs) < 2 ^ 32 ->
  load_routes_from_text all_ok (print_config rs) = Some (Ok (number_from 1 rs)).
Proof.
  intros Hp Hc Hl. apply load_denotes; [done|]. split.
  - rewrite split_print_config by done. by apply line_routes_print.
  - by apply no_conflict_number.
Qed.

(** ** Witnesses *)

Definition example_tcp : route :=
  mk_route (mk_endpoint ENDPOINT_INET (str "127.0.0.1") 8080 PROTO_TCP [] X_BUILTIN_NONE)
    (mk_endpoint ENDPOINT_INET (str "10.0.0.1") 80 PROTO_TCP [] X_BUILTIN_NONE)
    (mk_opts true false true 30 5 0 BROADCAST_REPLY_OFF) 1.
Definition example_udp : route :=
  mk_route (mk_endpoint ENDPOINT_INET6 (str "::1") 53 PROTO_UDP [] X_BUILTIN_NONE)
    (mk_endpoint ENDPOINT_BUILTIN [] 0 PROTO_BUILTIN [] X_BUILTIN_CLIENT_ADDR)
    (mk_opts false false false 60 5 0 BROADCAST_REPLY_OFF) 2.
Definition example_conf : list byte := print_config [example_tcp; example_udp].

Lemma load_array_in_bounds_witness :
  exists st, load_lines all_ok (split_lines example_conf) (mk_load [] 0 0) = Ok st /\
    len (ls_routes st) <= ls_cap st.
Proof.
  eexists. split; [vm_compute; reflexivity|].
  eapply (load_array_in_bounds all_ok (split_lines example_conf)). vm_compute. reflexivity.
Defined.

Lemma load_routes_error_witness :
  exists before raw after st,
    split_lines (str "tcp 1.2.3.4:99999 tcp 5.6.7.8:80") = before ++ raw :: after /\
    load_lines all_ok before (mk_load [] 0 0) = Ok st /\
    load_line all_ok raw st = Err (- EINVAL).
Proof.
  destruct (load_routes_error all_ok (str "tcp 1.2.3.4:99999 tcp 5.6.7.8:80") (- EINVAL))
    as (b & r & a & st & H1 & H2 & H3 & _); [vm_compute; reflexivity|].
  exists b, r, a, st. split; [exact H1|]. split; [exact H2|exact H3].
Defined.

Lemma route_line_roundtrip_witness :
  parse_route_line (print_route example_tcp) route_zero = (0, set_line_no 0 example_tcp).
Proof.
  apply route_line_roundtrip. apply (bool_decide_unpack _). vm_compute. exact I.
Defined.

Lemma config_roundtrip_witness :
  load_routes_from_text all_ok example_conf = Some (Ok [example_tcp; example_udp]).
Proof.
  apply (config_roundtrip [example_tcp; example_udp]).
  - repeat constructor; apply (bool_decide_unpack _); vm_compute; exact I.
  - split; [constructor; [reflexivity|constructor]|]. split; [constructor|exact I].
  - vm_compute. reflexivity.
Defined.
