(* ===== verification/Sniff.v ===== *)
(** * TLS SNI sniffing ([stream_sniff.c])

    The ClientHello parser reads a buffer of [len] valid bytes through indices.
    A read is modelled by [rd], which yields [None] outside the buffer, so that
    the parsers return [None] exactly when the C code would read out of bounds
    (or when a loop outlives its fuel): the theorems show that neither happens.
    [size_t] positions are integers: every position is at most
    5 + 65535 + 2^24, far below the wrap-around. *)

From S2P Require Import Prelude CString Endpoint.

Definition STREAM_SNIFF_MAX : Z := 8192.
Definition STREAM_SNI_MAX : Z := 253.

Inductive stream_sniff_status : Type :=
| STREAM_SNIFF_NOT_OBSERVED
| STREAM_SNIFF_NEED_MORE
| STREAM_SNIFF_PARSED
| STREAM_SNIFF_MISSING
| STREAM_SNIFF_NOT_TLS
| STREAM_SNIFF_TRUNCATED
| STREAM_SNIFF_NAME_TOO_LONG
| STREAM_SNIFF_PARSE_ERROR.

#[export] Instance stream_sniff_status_eq_dec : EqDecision stream_sniff_status.
Proof. solve_decision. Defined.

(** ** Reading the buffer *)

Definition rd (buf : list byte) (pos : Z) : option byte :=
  if pos <? 0 then None else buf !! Z.to_nat pos.

Definition read_u16_be (buf : list byte) (pos : Z) : option Z :=
  p0 ← rd buf pos;
  p1 ← rd buf (pos + 1);
  Some (Z.lor (Z.shiftl (b2z p0) 8) (b2z p1)).

Definition read_u24_be (buf : list byte) (pos : Z) : option Z :=
  p0 ← rd buf pos;
  p1 ← rd buf (pos + 1);
  p2 ← rd buf (pos + 2);
  Some (Z.lor (Z.lor (Z.shiftl (b2z p0) 16) (Z.shiftl (b2z p1) 8)) (b2z p2)).

(** The [n] bytes from [pos] on. *)
Definition rd_bytes (buf : list byte) (pos n : Z) : option (list byte) :=
  if (pos <? 0) || (n <? 0) || (len buf <? pos + n) then None
  else Some (sub (Z.to_nat pos) (Z.to_nat n) buf).

Definition sni_char (c : byte) : bool :=
  isalnum c || (c =b "-"%byte) || (c =b "."%byte).

Definition valid_sni_name (p : list byte) : bool :=
  if (len p =? 0) || (STREAM_SNI_MAX <? len p) then false else forallb sni_char p.

(** What the parser returns: the status, [*need_more], and the name it copied
    to [out] (with its NUL), if any. *)
Record sniff_out : Type := mk_sniff_out {
  so_status : stream_sniff_status;
  so_need_more : bool;
  so_name : option (list byte)
}.

Definition done_with (st : stream_sniff_status) : option sniff_out :=
  Some (mk_sniff_out st false None).
Definition need_more_bytes : option sniff_out :=
  Some (mk_sniff_out STREAM_SNIFF_NEED_MORE true None).

Section parser.
Context (buf : list byte) (out_len : Z).

(** The [while (list_pos + 3 <= list_end)] loop over the name entries. *)
Fixpoint sni_name_loop (fuel : nat) (list_pos list_end : Z) : option sniff_out :=
  match fuel with
  | O => None
  | S fuel =>
      if list_pos + 3 <=? list_end then
        name_type ← rd buf list_pos;
        name_len ← read_u16_be buf (list_pos + 1);
        let list_pos := list_pos + 3 in
        if list_end <? list_pos + name_len then done_with STREAM_SNIFF_PARSE_ERROR
        else if b2z name_type =? 0 then
          if STREAM_SNI_MAX <? name_len then done_with STREAM_SNIFF_NAME_TOO_LONG else
          name ← rd_bytes buf list_pos name_len;
          if negb (valid_sni_name name) then done_with STREAM_SNIFF_PARSE_ERROR
          else if out_len <? name_len + 1 then done_with STREAM_SNIFF_NAME_TOO_LONG
          else Some (mk_sniff_out STREAM_SNIFF_PARSED false (Some name))
        else sni_name_loop fuel (list_pos + name_len) list_end
      else done_with STREAM_SNIFF_MISSING
  end.

(** Extension type 0: the server name list. *)
Definition sni_server_name (ext_data ext_len ext_end : Z) : option sniff_out :=
  if ext_len <? 2 then done_with STREAM_SNIFF_PARSE_ERROR else
  list_len ← read_u16_be buf ext_data;
  let list_pos := ext_data + 2 in
  let list_end := list_pos + list_len in
  if negb (list_end =? ext_end) then done_with STREAM_SNIFF_PARSE_ERROR
  else sni_name_loop (S (length buf)) list_pos list_end.

(** The [while (pos + 4 <= extensions_end)] loop over the extensions. *)
Fixpoint sni_ext_loop (fuel : nat) (pos extensions_end : Z) : option sniff_out :=
  match fuel with
  | O => None
  | S fuel =>
      if pos + 4 <=? extensions_end then
        ext_type ← read_u16_be buf pos;
        ext_len ← read_u16_be buf (pos + 2);
        let ext_data := pos + 4 in
        let ext_end := ext_data + ext_len in
        if extensions_end <? ext_end then done_with STREAM_SNIFF_PARSE_ERROR
        else if ext_type =? 0 then sni_server_name ext_data ext_len ext_end
        else sni_ext_loop fuel ext_end extensions_end
      else if negb (pos =? extensions_end) then done_with STREAM_SNIFF_PARSE_ERROR
      else done_with STREAM_SNIFF_MISSING
  end.

(** From the extensions length on. *)
Definition sni_extensions (pos hs_end : Z) : option sniff_out :=
  if pos =? hs_end then done_with STREAM_SNIFF_MISSING else
  if hs_end <? pos + 2 then done_with STREAM_SNIFF_PARSE_ERROR else
  extensions_len ← read_u16_be buf pos;
  let pos := pos + 2 in
  let extensions_end := pos + extensions_len in
  if negb (extensions_end =? hs_end) then done_with STREAM_SNIFF_PARSE_ERROR
  else sni_ext_loop (S (length buf)) pos extensions_end.

(** The ClientHello body, from [legacy_version] to the compression methods. *)
Definition sni_client_hello (pos hs_end : Z) : option sniff_out :=
  if hs_end <? pos + 2 + 32 + 1 then done_with STREAM_SNIFF_PARSE_ERROR else
  let pos := pos + 2 + 32 in
  session_id_len ← rd buf pos;
  let pos := pos + 1 in
  if hs_end <? pos + b2z session_id_len then done_with STREAM_SNIFF_PARSE_ERROR else
  let pos := pos + b2z session_id_len in
  if hs_end <? pos + 2 then done_with STREAM_SNIFF_PARSE_ERROR else
  cipher_suites_len ← read_u16_be buf pos;
  let pos := pos + 2 in
  if (cipher_suites_len =? 0) || negb (cipher_suites_len mod 2 =? 0)
  then done_with STREAM_SNIFF_PARSE_ERROR else
  if hs_end <? pos + cipher_suites_len then done_with STREAM_SNIFF_PARSE_ERROR else
  let pos := pos + cipher_suites_len in
  if hs_end <? pos + 1 then done_with STREAM_SNIFF_PARSE_ERROR else
  compression_methods_len ← rd buf pos;
  let pos := pos + 1 in
  if b2z compression_methods_len =? 0 then done_with STREAM_SNIFF_PARSE_ERROR else
  if hs_end <? pos + b2z compression_methods_len then done_with STREAM_SNIFF_PARSE_ERROR else
  sni_extensions (pos + b2z compression_methods_len) hs_end.

(** The handshake header inside the record. *)
Definition sni_handshake (record_end : Z) : option sniff_out :=
  let pos := 5 in
  if record_end <? pos + 4 then done_with STREAM_SNIFF_PARSE_ERROR else
  hs_type ← rd buf pos;
  if negb (b2z hs_type =? 0x01) then done_with STREAM_SNIFF_NOT_TLS else
  hs_len ← read_u24_be buf (pos + 1);
  let pos := pos + 4 in
  let hs_end := pos + hs_len in
  if (hs_len =? 0) || (record_end <? hs_end) then done_with STREAM_SNIFF_PARSE_ERROR
  else sni_client_hello pos hs_end.

(** [parse_sni_from_client_hello(buf, len buf, out, out_len, &need_more)]. *)
Definition parse_sni_from_client_hello : option sniff_out :=
  if len buf =? 0 then need_more_bytes else
  content_type ← rd buf 0;
  if negb (b2z content_type =? 0x16) then done_with STREAM_SNIFF_NOT_TLS else
  if len buf <? 5 then need_more_bytes else
  major ← rd buf 1;
  if negb (b2z major =? 0x03) then done_with STREAM_SNIFF_PARSE_ERROR else
  record_len ← read_u16_be buf 3;
  let record_end := 5 + record_len in
  if record_len =? 0 then done_with STREAM_SNIFF_PARSE_ERROR else
  if len buf <? record_end then need_more_bytes else
  sni_handshake record_end.
End parser.

(** ** The per-connection sniffer *)

Record stream_sniff : Type := mk_sniff {
  sn_sni : list byte;              (* char sni[STREAM_SNI_MAX + 1] *)
  sn_status : stream_sniff_status;
  sn_observed : Z;
  sn_done : bool
}.

(** The zeroed [struct stream_sniff] of a new connection. *)
Definition sniff_init : stream_sniff := mk_sniff [] STREAM_SNIFF_NOT_OBSERVED 0 false.

Section peek.
(** [evbuffer_copyout(input, buf, n)]: the bytes copied, [None] for -1. *)
Context (evbuffer_copyout : list byte -> Z -> option (list byte)).

Definition stream_sniff_peek_client_input (s : stream_sniff) (input : list byte)
    : option stream_sniff :=
  if sn_done s then Some s else
  let input_len := len input in
  if input_len =? 0 then Some s else
  let copy_len := if STREAM_SNIFF_MAX <? input_len then STREAM_SNIFF_MAX else input_len in
  match evbuffer_copyout input copy_len with
  | None | Some [] => Some s
  | Some bs =>
      let n := len bs in
      out ← parse_sni_from_client_hello bs (STREAM_SNI_MAX + 1);
      let sni := default (sn_sni s) (so_name out) in
      let status := so_status out in
      if bool_decide (status = STREAM_SNIFF_NEED_MORE) && so_need_more out then
        if STREAM_SNIFF_MAX <=? input_len
        then Some (mk_sniff sni STREAM_SNIFF_TRUNCATED n true)
        else Some (mk_sniff sni STREAM_SNIFF_NEED_MORE n (sn_done s))
      else
        let done :=
          match status with
          | STREAM_SNIFF_PARSED | STREAM_SNIFF_MISSING | STREAM_SNIFF_NOT_TLS
          | STREAM_SNIFF_TRUNCATED | STREAM_SNIFF_NAME_TOO_LONG
          | STREAM_SNIFF_PARSE_ERROR => true
          | STREAM_SNIFF_NOT_OBSERVED | STREAM_SNIFF_NEED_MORE => sn_done s
          end in
        Some (mk_sniff sni status n done)
  end.
End peek.

Definition stream_sniff_log_sni (s : option stream_sniff) : list byte :=
  match s with
  | None => str "<not_observed>"
  | Some s =>
      if bool_decide (sn_status s = STREAM_SNIFF_PARSED) && negb (sn_sni s =s [])
      then sn_sni s
      else match sn_status s with
           | STREAM_SNIFF_NOT_OBSERVED => str "<not_observed>"
           | STREAM_SNIFF_NEED_MORE => str "<need_more>"
           | STREAM_SNIFF_MISSING => str "<missing>"
           | STREAM_SNIFF_NOT_TLS => str "<not_tls>"
           | STREAM_SNIFF_TRUNCATED => str "<truncated>"
           | STREAM_SNIFF_NAME_TOO_LONG => str "<name_too_long>"
           | STREAM_SNIFF_PARSE_ERROR => str "<parse_error>"
           | STREAM_SNIFF_PARSED => str "<empty>"
           end
  end.
