(* ===== verification/SniffFacts.v ===== *)
(** * Correctness of the SNI parser

    Memory safety and termination on every input, what a successful parse
    guarantees, stability under more input, and functional correctness on the
    encoding of every well-formed ClientHello. *)

From S2P Require Import Prelude CString Endpoint Sniff.

(** ** Reads *)

Lemma rd_in buf p : 0 <= p < len buf -> exists b, rd buf p = Some b.
Proof.
  intros H. unfold rd. rewrite (proj2 (Z.ltb_ge _ _)) by lia.
  apply lookup_lt_is_Some. unfold Zlength in H. lia.
Qed.

Lemma u16_value a b : Z.lor (Z.shiftl (b2z a) 8) (b2z b) = b2z a * 256 + b2z b.
Proof. pose proof (b2z_range b). by rewrite lor_shiftl_add by lia. Qed.

Lemma u24_value a b c :
  Z.lor (Z.lor (Z.shiftl (b2z a) 16) (Z.shiftl (b2z b) 8)) (b2z c) =
  b2z a * 65536 + b2z b * 256 + b2z c.
Proof.
  pose proof (b2z_range b). pose proof (b2z_range c).
  rewrite <- Z.lor_assoc, u16_value, lor_shiftl_add by lia. lia.
Qed.

Lemma u16_in buf p :
  0 <= p -> p + 2 <= len buf -> exists v, read_u16_be buf p = Some v /\ 0 <= v < 65536.
Proof.
  intros H1 H2. unfold read_u16_be.
  destruct (rd_in buf p) as [a ->]; [lia|]. destruct (rd_in buf (p + 1)) as [b ->]; [lia|].
  simpl. eexists. split; [done|]. rewrite u16_value.
  pose proof (b2z_range a). pose proof (b2z_range b). lia.
Qed.

Lemma u24_in buf p :
  0 <= p -> p + 3 <= len buf -> exists v, read_u24_be buf p = Some v /\ 0 <= v < 2 ^ 24.
Proof.
  intros H1 H2. unfold read_u24_be.
  destruct (rd_in buf p) as [a ->]; [lia|]. destruct (rd_in buf (p + 1)) as [b ->]; [lia|].
  destruct (rd_in buf (p + 2)) as [c ->]; [lia|].
  simpl. eexists. split; [done|]. rewrite u24_value.
  pose proof (b2z_range a). pose proof (b2z_range b). pose proof (b2z_range c). lia.
Qed.

Lemma rd_bytes_in buf p n :
  0 <= p -> 0 <= n -> p + n <= len buf ->
  rd_bytes buf p n = Some (sub (Z.to_nat p) (Z.to_nat n) buf) /\
  len (sub (Z.to_nat p) (Z.to_nat n) buf) = n.
Proof.
  intros H1 H2 H3. unfold rd_bytes, Zlength in *.
  rewrite !(proj2 (Z.ltb_ge _ _)) by lia. split; [done|].
  unfold sub. rewrite length_take, length_drop. lia.
Qed.

(** ** Safety, termination and the shape of the result *)

(** The result of the parser once the whole record is there. *)
Definition decided (buf : list byte) (out_len : Z) (o : sniff_out) : Prop :=
  so_need_more o = false /\
  match so_name o with
  | Some name =>
      so_status o = STREAM_SNIFF_PARSED /\ valid_sni_name name = true /\ len name < out_len /\
      exists i, sub i (length name) buf = name
  | None =>
      so_status o = STREAM_SNIFF_MISSING \/ so_status o = STREAM_SNIFF_NOT_TLS \/
      so_status o = STREAM_SNIFF_NAME_TOO_LONG \/ so_status o = STREAM_SNIFF_PARSE_ERROR
  end.

Definition decides (buf : list byte) (out_len : Z) (r : option sniff_out) : Prop :=
  exists o, r = Some o /\ decided buf out_len o.

Lemma decides_done buf out_len st :
  st = STREAM_SNIFF_MISSING \/ st = STREAM_SNIFF_NOT_TLS \/
  st = STREAM_SNIFF_NAME_TOO_LONG \/ st = STREAM_SNIFF_PARSE_ERROR ->
  decides buf out_len (done_with st).
Proof. intros H. by eexists. Qed.

#[export] Hint Resolve decides_done : tp.

Ltac decide_status := by (apply decides_done; tauto).

(** Name the value of the next read of each kind, with its range. *)
Ltac read_u16 v :=
  match goal with |- context [read_u16_be ?b ?p] =>
    let H := fresh "H" in destruct (u16_in b p) as (v & -> & H); [lia|lia|]
  end; cbn [mbind option_bind].
Ltac read_u24 v :=
  match goal with |- context [read_u24_be ?b ?p] =>
    let H := fresh "H" in destruct (u24_in b p) as (v & -> & H); [lia|lia|]
  end; cbn [mbind option_bind].
Ltac read_byte v :=
  match goal with |- context [rd ?b ?p] =>
    destruct (rd_in b p) as [v ->]; [lia|]; pose proof (b2z_range v)
  end; cbn [mbind option_bind].

Ltac branch := case_if; bool_to_prop; [decide_status|].

Section safety.
Context (buf : list byte) (out_len : Z).

Lemma sni_name_loop_decides fuel pos e :
  0 <= pos <= e -> e <= len buf -> e - pos < Z.of_nat fuel ->
  decides buf out_len (sni_name_loop buf out_len fuel pos e).
Proof.
  revert pos. induction fuel as [|fuel IH]; intros pos H0 He Hf; simpl.
  - exfalso. lia.
  - case_if; bool_to_prop; [|decide_status].
    read_byte ty. read_u16 nl. branch. case_if; bool_to_prop; [|apply IH; lia].
    branch. destruct (rd_bytes_in buf (pos + 3) nl) as [-> Hl]; [lia..|].
    cbn [mbind option_bind]. case_if; bool_to_prop; [decide_status|]. branch.
    eexists. split; [done|]. split; [done|]. simpl. split_and!; [done|done|lia|].
    exists (Z.to_nat (pos + 3)). f_equal. unfold Zlength in Hl. lia.
Qed.

Lemma sni_server_name_decides d l e :
  0 <= d -> e <= len buf -> e = d + l -> decides buf out_len (sni_server_name buf out_len d l e).
Proof.
  intros H0 He ->. unfold sni_server_name. branch. read_u16 ll. branch.
  apply sni_name_loop_decides; unfold Zlength in *; lia.
Qed.

Lemma sni_ext_loop_decides fuel pos e :
  0 <= pos <= e -> e <= len buf -> e - pos < Z.of_nat fuel ->
  decides buf out_len (sni_ext_loop buf out_len fuel pos e).
Proof.
  revert pos. induction fuel as [|fuel IH]; intros pos H0 He Hf; simpl; [exfalso; lia|].
  case_if; bool_to_prop; [|case_if; decide_status].
  read_u16 ty. read_u16 el. branch.
  case_if; bool_to_prop; [apply sni_server_name_decides; lia|apply IH; lia].
Qed.

Lemma sni_client_hello_decides pos e :
  0 <= pos -> e <= len buf -> decides buf out_len (sni_client_hello buf out_len pos e).
Proof.
  intros H0 He. unfold sni_client_hello.
  branch. read_byte sl. branch. branch. read_u16 cl. branch. branch. branch.
  read_byte ml. branch. branch. unfold sni_extensions. branch. branch. read_u16 el. branch.
  apply sni_ext_loop_decides; unfold Zlength in *; lia.
Qed.

Lemma sni_handshake_decides e :
  e <= len buf -> decides buf out_len (sni_handshake buf out_len e).
Proof.
  intros He. unfold sni_handshake. branch. read_byte ty. branch. read_u24 hl.
  branch. apply sni_client_hello_decides; lia.
Qed.
End safety.

(** The record is not complete yet. *)
Definition record_incomplete (buf : list byte) : Prop :=
  buf = [] \/
  (rd buf 0 = Some x16 /\
   (len buf < 5 \/
    (rd buf 1 = Some x03 /\ exists n, read_u16_be buf 3 = Some n /\ 0 < n /\ len buf < 5 + n))).

Lemma b2z_eq_const b z : 0 <= z < 256 -> (b2z b =? z) = bool_decide (b = z2b z).
Proof.
  intros Hz. case_bool_decide as H.
  - rewrite H, b2z_z2b_small by done. apply Z.eqb_refl.
  - apply Z.eqb_neq. intros E. apply H. by rewrite <- E, z2b_b2z.
Qed.

Lemma parse_sni_result buf out_len :
  exists o, parse_sni_from_client_hello buf out_len = Some o /\
    if so_need_more o
    then so_status o = STREAM_SNIFF_NEED_MORE /\ so_name o = None /\ record_incomplete buf
    else decided buf out_len o /\ ~ record_incomplete buf.
Proof.
  unfold parse_sni_from_client_hello, record_incomplete. case_if; bool_to_prop.
  { apply len_zero in E. eexists. split; [done|]. simpl. auto. }
  assert (buf <> []) as Hne by (by rewrite <- len_zero).
  destruct (rd_in buf 0) as [ty Hty]; [pose proof (len_nonneg buf); lia|]. rewrite Hty.
  cbn [mbind option_bind]. rewrite b2z_eq_const by lia. change (z2b 22) with x16.
  case_bool_decide as Ht; simpl negb; cbv iota; [|eexists; split; [done|]; simpl].
  2: { split; [split; [done|simpl; tauto]|]. intros [?|[? _]]; congruence. }
  subst ty. case_if; bool_to_prop.
  { eexists. split; [done|]. simpl. split_and!; auto. }
  destruct (rd_in buf 1) as [mj Hmj]; [lia|]. rewrite Hmj.
  cbn [mbind option_bind]. rewrite b2z_eq_const by lia. change (z2b 3) with x03.
  case_bool_decide as Hm; simpl negb; cbv iota; [|eexists; split; [done|]; simpl].
  2: { split; [split; [done|simpl; tauto]|]. intros [?|[_ [?|[? _]]]]; [done|lia|congruence]. }
  subst mj. destruct (u16_in buf 3) as (n & Hn & Hr); [lia|lia|]. rewrite Hn. cbn [mbind option_bind].
  case_if; bool_to_prop.
  { eexists; split; [done|]; simpl. split; [split; [done|simpl; tauto]|].
    intros [?|[_ [?|[_ (n' & [= <-] & ? & _)]]]]; [done|lia|lia]. }
  case_if; bool_to_prop.
  { eexists. split; [done|]. simpl. split_and!; [done|done|]. right. split; [done|]. right.
    split; [done|]. exists n. split_and!; [done|lia|lia]. }
  destruct (sni_handshake_decides buf out_len (5 + n)) as (o & -> & Hd); [lia|].
  exists o. split; [done|]. destruct (Hd) as [-> _]. split; [done|].
  intros [?|[_ [?|[_ (n' & [= <-] & ? & ?)]]]]; [done|lia|lia].
Qed.

(** ** More input never changes a decision *)

Section stability.
Context (buf more : list byte) (out_len : Z).

Lemma rd_mono p b : rd buf p = Some b -> rd (buf ++ more) p = Some b.
Proof. unfold rd. case_if; [done|]. apply lookup_app_l_Some. Qed.

Lemma u16_mono p v : read_u16_be buf p = Some v -> read_u16_be (buf ++ more) p = Some v.
Proof.
  unfold read_u16_be. destruct (rd buf p) eqn:E1; [|done].
  destruct (rd buf (p + 1)) eqn:E2; [|done]. by rewrite (rd_mono _ _ E1), (rd_mono _ _ E2).
Qed.

Lemma u24_mono p v : read_u24_be buf p = Some v -> read_u24_be (buf ++ more) p = Some v.
Proof.
  unfold read_u24_be. destruct (rd buf p) eqn:E1; [|done].
  destruct (rd buf (p + 1)) eqn:E2; [|done]. destruct (rd buf (p + 2)) eqn:E3; [|done].
  by rewrite (rd_mono _ _ E1), (rd_mono _ _ E2), (rd_mono _ _ E3).
Qed.

Lemma rd_bytes_mono p n bs : rd_bytes buf p n = Some bs -> rd_bytes (buf ++ more) p n = Some bs.
Proof.
  unfold rd_bytes. case_if; [done|]. bool_to_prop. rewrite len_app.
  pose proof (len_nonneg more). rewrite !(proj2 (Z.ltb_ge _ _)) by lia. simpl.
  intros [= <-]. f_equal. unfold sub, Zlength in *.
  rewrite drop_app_le by lia. rewrite take_app_le; [done|]. rewrite length_drop. lia.
Qed.

(** Follow the reads of a hypothesis in the goal. *)
Ltac follow H :=
  match type of H with
  | context [read_u16_be buf ?p] =>
      let E := fresh in destruct (read_u16_be buf p) eqn:E; [|discriminate H];
      apply u16_mono in E
  | context [read_u24_be buf ?p] =>
      let E := fresh in destruct (read_u24_be buf p) eqn:E; [|discriminate H];
      apply u24_mono in E
  | context [rd_bytes buf ?p ?n] =>
      let E := fresh in destruct (rd_bytes buf p n) eqn:E; [|discriminate H];
      apply rd_bytes_mono in E
  | context [rd buf ?p] =>
      let E := fresh in destruct (rd buf p) eqn:E; [|discriminate H]; apply rd_mono in E
  end;
  match goal with E : _ = Some _ |- _ => rewrite E; clear E end;
  cbn [mbind option_bind] in *.

Lemma sni_name_loop_mono f f' pos e o :
  (f <= f')%nat -> sni_name_loop buf out_len f pos e = Some o ->
  sni_name_loop (buf ++ more) out_len f' pos e = Some o.
Proof.
  revert f' pos. induction f as [|f IH]; intros [|f'] pos Hf H; [done|done|lia|].
  simpl in *. case_if_in H; [|done].
  destruct (rd buf pos) eqn:R1; [|done]. apply rd_mono in R1. rewrite R1. simpl in *.
  destruct (read_u16_be buf (pos + 1)) eqn:R2; [|done]. apply u16_mono in R2. rewrite R2. simpl in *.
  case_if_in H; [done|]. case_if_in H; [|apply IH; [lia|done]].
  case_if_in H; [done|].
  destruct (rd_bytes buf (pos + 3) z) eqn:R3; [|done]. apply rd_bytes_mono in R3. rewrite R3. done.
Qed.

Lemma sni_server_name_mono d l e o :
  sni_server_name buf out_len d l e = Some o ->
  sni_server_name (buf ++ more) out_len d l e = Some o.
Proof.
  unfold sni_server_name. intros H. case_if_in H; [done|].
  destruct (read_u16_be buf d) eqn:R2; [|done]. apply u16_mono in R2. rewrite R2. cbn [mbind option_bind] in *.
  case_if_in H; [done|]. eapply sni_name_loop_mono; [|exact H]. rewrite length_app. lia.
Qed.

Lemma sni_ext_loop_mono f f' pos e o :
  (f <= f')%nat -> sni_ext_loop buf out_len f pos e = Some o ->
  sni_ext_loop (buf ++ more) out_len f' pos e = Some o.
Proof.
  revert f' pos. induction f as [|f IH]; intros [|f'] pos Hf H; [done|done|lia|].
  simpl in *. case_if_in H; [|done].
  destruct (read_u16_be buf pos) eqn:R1; [|done]. apply u16_mono in R1. rewrite R1. simpl in *.
  destruct (read_u16_be buf (pos + 2)) eqn:R2; [|done]. apply u16_mono in R2. rewrite R2. simpl in *.
  case_if_in H; [done|].
  case_if_in H; [by apply sni_server_name_mono|apply IH; [lia|done]].
Qed.

Lemma sni_handshake_mono e o :
  sni_handshake buf out_len e = Some o -> sni_handshake (buf ++ more) out_len e = Some o.
Proof.
  unfold sni_handshake, sni_client_hello, sni_extensions. intros H.
  do 20 (follow H || (case_if_in H; [exact H|])); [].
  eapply sni_ext_loop_mono; [|exact H]. rewrite length_app. lia.
Qed.
End stability.

Lemma parse_sni_stable buf more out_len o :
  parse_sni_from_client_hello buf out_len = Some o -> so_need_more o = false ->
  parse_sni_from_client_hello (buf ++ more) out_len = Some o.
Proof.
  unfold parse_sni_from_client_hello. intros H Hn. rewrite len_app.
  pose proof (len_nonneg buf). pose proof (len_nonneg more).
  case_if_in H; [by injection H as <-|]. bool_to_prop.
  rewrite (proj2 (Z.eqb_neq _ _)) by lia.
  destruct (rd buf 0) eqn:R1; [|done]. apply (rd_mono _ more) in R1. rewrite R1. cbn [mbind option_bind] in *.
  case_if_in H; [done|]. case_if_in H; [by injection H as <-|]. bool_to_prop.
  rewrite (proj2 (Z.ltb_ge _ _)) by lia.
  destruct (rd buf 1) eqn:R2; [|done]. apply (rd_mono _ more) in R2. rewrite R2. cbn [mbind option_bind] in *.
  case_if_in H; [done|].
  destruct (read_u16_be buf 3) eqn:R3; [|done]. apply (u16_mono _ more) in R3. rewrite R3. cbn [mbind option_bind] in *.
  case_if_in H; [done|]. case_if_in H; [by injection H as <-|]. bool_to_prop.
  rewrite (proj2 (Z.ltb_ge _ _)) by lia. by apply sni_handshake_mono.
Qed.

(** ** ClientHello messages and their encoding (RFC 5246/8446, RFC 6066) *)

Record name_entry : Type := mk_name { ne_type : byte; ne_name : list byte }.

Inductive extension : Type :=
| ExtServerName (names : list name_entry)
| ExtOther (type : Z) (data : list byte).

Record client_hello : Type := mk_hello {
  ch_record_minor : byte;
  ch_version : list byte;
  ch_random : list byte;
  ch_session : list byte;
  ch_ciphers : list byte;
  ch_compression : list byte;
  ch_extensions : list extension
}.

Definition be24 (v : Z) : list byte := z2b (v / 65536) :: be16 v.

Definition enc_name (n : name_entry) : list byte :=
  ne_type n :: be16 (len (ne_name n)) ++ ne_name n.
Definition enc_names (ns : list name_entry) : list byte := concat (map enc_name ns).

Definition ext_type (e : extension) : Z :=
  match e with ExtServerName _ => 0 | ExtOther t _ => t end.
Definition ext_data (e : extension) : list byte :=
  match e with
  | ExtServerName ns => be16 (len (enc_names ns)) ++ enc_names ns
  | ExtOther _ d => d
  end.
Definition enc_ext (e : extension) : list byte :=
  be16 (ext_type e) ++ be16 (len (ext_data e)) ++ ext_data e.
Definition enc_exts (es : list extension) : list byte := concat (map enc_ext es).

Definition enc_body (h : client_hello) : list byte :=
  ch_version h ++ ch_random h ++
  (z2b (len (ch_session h)) :: ch_session h) ++
  be16 (len (ch_ciphers h)) ++ ch_ciphers h ++
  (z2b (len (ch_compression h)) :: ch_compression h) ++
  be16 (len (enc_exts (ch_extensions h))) ++ enc_exts (ch_extensions h).

Definition enc_handshake (h : client_hello) : list byte :=
  x01 :: be24 (len (enc_body h)) ++ enc_body h.

Definition enc_record (h : client_hello) : list byte :=
  x16 :: x03 :: ch_record_minor h :: be16 (len (enc_handshake h)) ++ enc_handshake h.

Definition ext_wf (e : extension) : Prop :=
  match e with
  | ExtServerName ns => True
  | ExtOther t _ => 0 < t < 65536
  end.

Definition hello_wf (h : client_hello) : Prop :=
  len (ch_version h) = 2 /\ len (ch_random h) = 32 /\ len (ch_session h) < 256 /\
  0 < len (ch_ciphers h) /\ len (ch_ciphers h) mod 2 = 0 /\
  0 < len (ch_compression h) < 256 /\
  Forall ext_wf (ch_extensions h) /\ len (enc_handshake h) < 65536.

(** What the parser is to answer: the first host name of the first
    server_name extension, checked. *)
Fixpoint names_answer (out_len : Z) (ns : list name_entry) : sniff_out :=
  match ns with
  | [] => mk_sniff_out STREAM_SNIFF_MISSING false None
  | n :: rest =>
      if b2z (ne_type n) =? 0 then
        if STREAM_SNI_MAX <? len (ne_name n) then mk_sniff_out STREAM_SNIFF_NAME_TOO_LONG false None
        else if negb (valid_sni_name (ne_name n)) then mk_sniff_out STREAM_SNIFF_PARSE_ERROR false None
        else if out_len <? len (ne_name n) + 1 then mk_sniff_out STREAM_SNIFF_NAME_TOO_LONG false None
        else mk_sniff_out STREAM_SNIFF_PARSED false (Some (ne_name n))
      else names_answer out_len rest
  end.

Fixpoint exts_answer (out_len : Z) (es : list extension) : sniff_out :=
  match es with
  | [] => mk_sniff_out STREAM_SNIFF_MISSING false None
  | ExtServerName ns :: _ => names_answer out_len ns
  | ExtOther _ _ :: rest => exts_answer out_len rest
  end.

(** ** Reading inside a concatenation *)

Lemma rd_app_r pre l i : 0 <= i -> rd (pre ++ l) (len pre + i) = rd l i.
Proof.
  intros Hi. unfold rd, Zlength. rewrite !(proj2 (Z.ltb_ge _ _)) by lia.
  rewrite lookup_app_r by lia. f_equal. lia.
Qed.

Lemma rd_head pre b l p : p = len pre -> rd (pre ++ b :: l) p = Some b.
Proof. intros ->. rewrite <- (Z.add_0_r (len pre)), rd_app_r by lia. done. Qed.

Lemma read_be16 pre v l p :
  p = len pre -> 0 <= v < 65536 -> read_u16_be (pre ++ be16 v ++ l) p = Some v.
Proof.
  intros -> Hv. unfold read_u16_be, be16. simpl app.
  rewrite (rd_head pre _ _ (len pre)) by done. rewrite rd_app_r by lia. simpl. rewrite u16_value, !b2z_z2b.
  f_equal. div_lia.
Qed.

Lemma read_be24 pre v l p :
  p = len pre -> 0 <= v < 2 ^ 24 -> read_u24_be (pre ++ be24 v ++ l) p = Some v.
Proof.
  intros -> Hv. unfold read_u24_be, be24, be16. simpl app.
  rewrite (rd_head pre _ _ (len pre)) by done. rewrite !rd_app_r by lia. simpl. rewrite u24_value, !b2z_z2b.
  f_equal. div_lia.
Qed.

Lemma rd_bytes_at pre bs l p :
  p = len pre -> rd_bytes (pre ++ bs ++ l) p (len bs) = Some bs.
Proof.
  intros ->. destruct (rd_bytes_in (pre ++ bs ++ l) (len pre) (len bs)) as [-> _];
    [apply len_nonneg..| |].
  - rewrite !len_app. pose proof (len_nonneg l). lia.
  - f_equal. unfold sub, Zlength. rewrite !Nat2Z.id, drop_app_length, take_app_length. done.
Qed.

Lemma len_be16 v : len (be16 v) = 2.
Proof. done. Qed.
Lemma len_be24 v : len (be24 v) = 3.
Proof. done. Qed.
#[export] Hint Rewrite len_be16 len_be24 : tp.

(** ** The parser on encoded messages *)

Lemma enc_names_cons n ns :
  enc_names (n :: ns) = ne_type n :: be16 (len (ne_name n)) ++ ne_name n ++ enc_names ns.
Proof.
  change (enc_names (n :: ns))
    with (ne_type n :: (be16 (len (ne_name n)) ++ ne_name n) ++ enc_names ns).
  by rewrite <- app_assoc.
Qed.

Lemma enc_exts_cons e es :
  enc_exts (e :: es) = be16 (ext_type e) ++ be16 (len (ext_data e)) ++ ext_data e ++ enc_exts es.
Proof.
  change (enc_exts (e :: es))
    with ((be16 (ext_type e) ++ be16 (len (ext_data e)) ++ ext_data e) ++ enc_exts es).
  by rewrite <- !app_assoc.
Qed.

(** Lengths of the pieces as linear facts. *)
Ltac enc_lens :=
  repeat match goal with
  | |- context [len ?l] =>
      lazymatch goal with H : 0 <= len l |- _ => fail | _ => pose proof (len_nonneg l) end
  | H' : context [len ?l] |- _ =>
      lazymatch goal with H : 0 <= len l |- _ => fail | _ => pose proof (len_nonneg l) end
  end.

Lemma sni_name_loop_enc out_len ns pre post fuel e :
  len (enc_names ns) < 65536 -> len (enc_names ns) < Z.of_nat fuel ->
  e = len pre + len (enc_names ns) ->
  sni_name_loop (pre ++ enc_names ns ++ post) out_len fuel (len pre) e =
  Some (names_answer out_len ns).
Proof.
  revert pre fuel. induction ns as [|n ns IH]; intros pre fuel Hl Hf ->.
  - destruct fuel as [|fuel]; [change (len (enc_names [])) with 0 in Hf; lia|]. simpl.
    rewrite (proj2 (Z.leb_gt _ _)) by (unfold enc_names; simpl; rewrite len_nil; lia). done.
  - rewrite enc_names_cons in *. rewrite len_cons, !len_app, len_be16 in *. enc_lens.
    destruct fuel as [|fuel]; [lia|]. cbn [sni_name_loop].
    rewrite (proj2 (Z.leb_le _ _)) by lia. rewrite <- app_comm_cons.
    rewrite rd_head by done. cbn [mbind option_bind].
    rewrite <- !app_assoc, cons_middle, app_assoc.
    rewrite read_be16 by (rewrite ?len_snoc; lia). cbn [mbind option_bind].
    rewrite (proj2 (Z.ltb_ge _ _)) by lia. simpl names_answer.
    destruct (b2z (ne_type n) =? 0).
    + destruct (STREAM_SNI_MAX <? len (ne_name n)); [done|].
      rewrite (app_assoc _ (be16 (len (ne_name n)))), rd_bytes_at by (rewrite len_app, len_snoc, len_be16; lia).
      cbn [mbind option_bind]. by destruct (valid_sni_name (ne_name n)), (out_len <? len (ne_name n) + 1).
    + rewrite (app_assoc _ (be16 (len (ne_name n)))), (app_assoc _ (ne_name n)).
      match goal with |- sni_name_loop (?p ++ _) _ _ ?q _ = _ =>
        replace q with (len p) by (rewrite !len_app, len_be16; change (len [ne_type n]) with 1; lia)
      end.
      apply IH; [lia|lia|]. rewrite !len_app, len_be16. change (len [ne_type n]) with 1. lia.
Qed.

Lemma sni_ext_loop_enc out_len es pre post fuel e :
  Forall ext_wf es -> len (enc_exts es) < 65536 -> len (enc_exts es) < Z.of_nat fuel ->
  e = len pre + len (enc_exts es) ->
  sni_ext_loop (pre ++ enc_exts es ++ post) out_len fuel (len pre) e =
  Some (exts_answer out_len es).
Proof.
  intros Hw. revert pre fuel. induction Hw as [|x es Hx Hes IH]; intros pre fuel Hl Hf ->.
  - destruct fuel as [|fuel]; [change (len (enc_exts [])) with 0 in Hf; lia|]. simpl.
    change (len (enc_exts [])) with 0.
    rewrite (proj2 (Z.leb_gt _ _)), (proj2 (Z.eqb_eq _ _)) by lia. done.
  - rewrite enc_exts_cons in *. rewrite !len_app, !len_be16 in *. enc_lens.
    assert (0 <= ext_type x < 65536) as Ht by (destruct x; simpl in *; lia).
    destruct fuel as [|fuel]; [lia|]. cbn [sni_ext_loop].
    rewrite (proj2 (Z.leb_le _ _)) by lia. rewrite <- !app_assoc.
    rewrite (read_be16 pre (ext_type x) _ (len pre)) by lia. cbn [mbind option_bind].
    rewrite (app_assoc pre), read_be16 by (rewrite ?len_app, ?len_be16; lia).
    cbn [mbind option_bind]. rewrite (proj2 (Z.ltb_ge _ _)) by lia.
    rewrite (app_assoc _ (be16 (len (ext_data x)))).
    destruct x as [ns|t d].
    + simpl ext_type. rewrite Z.eqb_refl. simpl exts_answer. unfold sni_server_name.
      cbn [ext_data] in *. rewrite ?len_app, ?len_be16 in *. enc_lens.
      rewrite (proj2 (Z.ltb_ge _ _)) by lia. rewrite <- !app_assoc.
      rewrite (app_assoc pre), (app_assoc _ (be16 (2 + _))).
      rewrite read_be16 by (rewrite ?len_app, ?len_be16; lia). cbn [mbind option_bind].
      rewrite (proj2 (Z.eqb_eq _ _)) by lia. cbn [negb].
      rewrite (app_assoc _ (be16 (len (enc_names ns)))).
      match goal with |- sni_name_loop (?p ++ _) _ _ ?q _ = _ =>
        replace q with (len p) by (rewrite !len_app, !len_be16; lia)
      end.
      apply sni_name_loop_enc; [lia| |rewrite !len_app, !len_be16; lia].
      unfold Zlength. rewrite !length_app. lia.
    + simpl ext_type in *. simpl in Hx. rewrite (proj2 (Z.eqb_neq _ _)) by lia.
      rewrite (app_assoc _ (ext_data _)).
      match goal with |- sni_ext_loop (?p ++ _) _ _ ?q _ = _ =>
        replace q with (len p) by (rewrite !len_app, !len_be16; lia)
      end.
      apply IH; [lia|lia|]. rewrite !len_app, !len_be16. lia.
Qed.

Lemma rd_at pre b l buf p : buf = pre ++ b :: l -> p = len pre -> rd buf p = Some b.
Proof. intros -> ->. by apply rd_head. Qed.

Lemma u16_at pre v l buf p :
  buf = pre ++ be16 v ++ l -> p = len pre -> 0 <= v < 65536 -> read_u16_be buf p = Some v.
Proof. intros -> -> ?. by apply read_be16. Qed.

Lemma sni_client_hello_enc out_len h pre post :
  hello_wf h ->
  sni_client_hello (pre ++ enc_body h ++ post) out_len (len pre) (len pre + len (enc_body h)) =
  Some (exts_answer out_len (ch_extensions h)).
Proof.
  intros (Hv & Hr & Hs & Hc & Hc2 & Hm & Hw & Hh).
  unfold enc_handshake in Hh. rewrite len_cons, len_app, len_be24 in Hh.
  assert (len (enc_body h) = 2 + 32 + (1 + len (ch_session h)) + (2 + len (ch_ciphers h)) +
    (1 + len (ch_compression h)) + (2 + len (enc_exts (ch_extensions h)))) as Hb.
  { unfold enc_body. rewrite !len_app, !len_cons, !len_be16, Hv, Hr. lia. }
  unfold sni_client_hello. rewrite Hb in *. enc_lens.
  rewrite (proj2 (Z.ltb_ge _ _)) by lia.
  erewrite (rd_at (pre ++ ch_version h ++ ch_random h));
    [|unfold enc_body; rewrite <- !app_assoc; reflexivity|rewrite !len_app; lia].
  cbn [mbind option_bind]. rewrite b2z_z2b_small by lia.
  rewrite !(proj2 (Z.ltb_ge _ (_ + 1 + _))) by lia.
  rewrite (proj2 (Z.ltb_ge _ (_ + 2))) by lia.
  erewrite (u16_at (pre ++ ch_version h ++ ch_random h ++ z2b (len (ch_session h)) :: ch_session h)
    (len (ch_ciphers h)));
    [|unfold enc_body; rewrite <- !app_assoc; reflexivity|rewrite !len_app, len_cons; lia|lia].
  cbn [mbind option_bind].
  rewrite (proj2 (Z.eqb_neq _ _)), Hc2 by lia. simpl orb. cbv iota.
  rewrite (proj2 (Z.ltb_ge _ (_ + len (ch_ciphers h)))), (proj2 (Z.ltb_ge _ (_ + 1))) by lia.
  erewrite (rd_at (pre ++ ch_version h ++ ch_random h ++ (z2b (len (ch_session h)) :: ch_session h)
    ++ be16 (len (ch_ciphers h)) ++ ch_ciphers h));
    [|unfold enc_body; rewrite <- !app_assoc; reflexivity
     |rewrite !len_app, len_cons, len_be16; lia].
  cbn [mbind option_bind]. rewrite b2z_z2b_small by lia.
  rewrite (proj2 (Z.eqb_neq _ _)), (proj2 (Z.ltb_ge _ _)) by lia.
  unfold sni_extensions. rewrite (proj2 (Z.eqb_neq _ _)), (proj2 (Z.ltb_ge _ _)) by lia.
  set (pre' := pre ++ ch_version h ++ ch_random h ++ (z2b (len (ch_session h)) :: ch_session h)
    ++ be16 (len (ch_ciphers h)) ++ ch_ciphers h ++
    z2b (len (ch_compression h)) :: ch_compression h).
  assert (pre ++ enc_body h ++ post = pre' ++ be16 (len (enc_exts (ch_extensions h))) ++
            enc_exts (ch_extensions h) ++ post) as ->.
  { unfold enc_body, pre'. rewrite <- !app_assoc. reflexivity. }
  assert (len pre' = len pre + (2 + 32 + (1 + len (ch_session h)) + (2 + len (ch_ciphers h)) +
    (1 + len (ch_compression h)))) as Hp.
  { unfold pre'. rewrite !len_app, !len_cons, len_be16, Hv, Hr. lia. }
  rewrite read_be16 by lia. cbn [mbind option_bind].
  rewrite (proj2 (Z.eqb_eq _ _)) by lia. simpl negb. cbv iota. rewrite app_assoc.
  match goal with |- sni_ext_loop (?p ++ _) _ _ ?q _ = _ =>
    replace q with (len p) by (rewrite len_app, len_be16; lia)
  end.
  apply sni_ext_loop_enc; [done|lia| |rewrite len_app, len_be16; lia].
  unfold Zlength. rewrite !length_app. lia.
Qed.

Lemma parse_sni_enc out_len h post :
  hello_wf h ->
  parse_sni_from_client_hello (enc_record h ++ post) out_len =
  Some (exts_answer out_len (ch_extensions h)).
Proof.
  intros Hw. pose proof Hw as (_ & _ & _ & _ & _ & _ & _ & Hh).
  assert (len (enc_record h) = 5 + len (enc_handshake h)) as Hl.
  { unfold enc_record. rewrite !len_cons, len_app, len_be16. lia. }
  assert (len (enc_handshake h) = 4 + len (enc_body h)) as Hl2.
  { unfold enc_handshake. rewrite len_cons, len_app, len_be24. lia. }
  assert (0 < len (enc_body h)) as Hb.
  { unfold enc_body. rewrite !len_app, !len_cons, !len_be16. enc_lens. lia. }
  unfold parse_sni_from_client_hello. rewrite len_app. enc_lens.
  rewrite (proj2 (Z.eqb_neq _ _)) by lia.
  erewrite (rd_at [] x16 _ _ 0); [|unfold enc_record; reflexivity|reflexivity]. cbn [mbind option_bind].
  change (negb (b2z x16 =? 22)) with false. cbv iota.
  rewrite (proj2 (Z.ltb_ge _ _)) by lia.
  erewrite (rd_at [x16] x03 _ _ 1); [|unfold enc_record; reflexivity|reflexivity]. cbn [mbind option_bind].
  change (negb (b2z x03 =? 3)) with false. cbv iota.
  erewrite (u16_at [x16; x03; ch_record_minor h] (len (enc_handshake h)));
    [|unfold enc_record; rewrite <- !app_comm_cons, <- !app_assoc; reflexivity|reflexivity|lia].
  cbn [mbind option_bind]. rewrite (proj2 (Z.eqb_neq _ _)), (proj2 (Z.ltb_ge _ _)) by lia.
  unfold sni_handshake. rewrite (proj2 (Z.ltb_ge _ _)) by lia.
  set (hdr := x16 :: x03 :: ch_record_minor h :: be16 (len (enc_handshake h))).
  assert (enc_record h ++ post =
    hdr ++ x01 :: be24 (len (enc_body h)) ++ enc_body h ++ post) as ->.
  { unfold enc_record, hdr. rewrite <- !app_comm_cons, <- !app_assoc.
    unfold enc_handshake at 2. by rewrite <- app_comm_cons, <- app_assoc. }
  rewrite rd_head by done. cbn [mbind option_bind].
  change (negb (b2z x01 =? 1)) with false. cbv iota. rewrite cons_middle, app_assoc.
  rewrite read_be24 by (done || lia). cbn [mbind option_bind].
  rewrite (proj2 (Z.eqb_neq _ _)), (proj2 (Z.ltb_ge _ _)) by lia. simpl orb. cbv iota.
  rewrite (app_assoc _ (be24 _)).
  change (5 + 4) with (len ((hdr ++ [x01]) ++ be24 (len (enc_body h)))).
  by apply sni_client_hello_enc.
Qed.

(** ** The per-connection sniffer *)

(** The statuses that end the observation of a connection. *)
Definition sniff_final (st : stream_sniff_status) : bool :=
  match st with STREAM_SNIFF_NOT_OBSERVED | STREAM_SNIFF_NEED_MORE => false | _ => true end.

Record sniff_wf (s : stream_sniff) : Prop := {
  swf_room : len (sn_sni s) <= STREAM_SNI_MAX;
  swf_name : sn_status s = STREAM_SNIFF_PARSED -> valid_sni_name (sn_sni s) = true;
  swf_seen : 0 <= sn_observed s <= STREAM_SNIFF_MAX;
  swf_done : sn_done s = sniff_final (sn_status s)
}.

Lemma sniff_init_wf : sniff_wf sniff_init.
Proof. by split. Qed.

Lemma decided_peek buf s o n :
  sniff_wf s -> decided buf (STREAM_SNI_MAX + 1) o -> 0 <= n <= STREAM_SNIFF_MAX ->
  sniff_final (so_status o) = true /\
  sniff_wf (mk_sniff (default (sn_sni s) (so_name o)) (so_status o) n true).
Proof.
  intros [Hr Hn Hs Hd] [_ Hdec] Hlen.
  destruct (so_name o) as [nm|] eqn:En; simpl.
  - destruct Hdec as (Hp & Hv & Hl & _). rewrite Hp. split; [done|]. split; simpl; auto; lia.
  - destruct Hdec as [E|[E|[E|E]]]; rewrite E; (split; [done|split; simpl; auto; done]).
Qed.

Section peeking.
Context (evbuffer_copyout : list byte -> Z -> option (list byte)).

(** libevent: the copied bytes are the first [n] bytes of the buffer. *)
Hypothesis copyout_prefix : forall input n bs,
  evbuffer_copyout input n = Some bs -> bs = take (Z.to_nat n) input.

Lemma peek_preserves_wf s input :
  sniff_wf s ->
  exists s', stream_sniff_peek_client_input evbuffer_copyout s input = Some s' /\
    sniff_wf s' /\ (sn_done s = true -> s' = s) /\
    (forall bs, sn_done s = false ->
       evbuffer_copyout input (Z.min STREAM_SNIFF_MAX (len input)) = Some bs -> bs <> [] ->
       sn_observed s' = len bs /\
       (sn_status s' = STREAM_SNIFF_NEED_MORE <-> record_incomplete bs /\ len input < STREAM_SNIFF_MAX) /\
       (sn_status s' = STREAM_SNIFF_TRUNCATED <-> record_incomplete bs /\ STREAM_SNIFF_MAX <= len input) /\
       (~ record_incomplete bs ->
          exists o, parse_sni_from_client_hello bs (STREAM_SNI_MAX + 1) = Some o /\
            sn_status s' = so_status o /\ sn_sni s' = default (sn_sni s) (so_name o))).
Proof.
  intros Hs. unfold stream_sniff_peek_client_input. pose proof Hs as [Hr Hn Hse Hd].
  destruct (sn_done s) eqn:Ed; [exists s; split_and!; [done..|]; intros; congruence|].
  assert ((if STREAM_SNIFF_MAX <? len input then STREAM_SNIFF_MAX else len input)
          = Z.min STREAM_SNIFF_MAX (len input)) as ->.
  { case_if; bool_to_prop; lia. }
  case_if; bool_to_prop.
  { exists s. split_and!; [done..|]. intros bs _ Hc Hne. apply copyout_prefix in Hc.
    apply len_zero in E. subst. by rewrite take_nil in Hne. }
  destruct (evbuffer_copyout _ _) as [[|b bs]|] eqn:Ec.
  1, 3: exists s; split_and!; [done..|]; intros; congruence.
  pose proof (copyout_prefix _ _ _ Ec) as Hpre. set (bs' := b :: bs) in *.
  assert (0 <= len bs' <= STREAM_SNIFF_MAX /\ len bs' <= len input) as [Hl Hl2].
  { rewrite Hpre. unfold Zlength, STREAM_SNIFF_MAX. rewrite length_take. lia. }
  destruct (parse_sni_result bs' (STREAM_SNI_MAX + 1)) as (o & Hpo & Ho). rewrite Hpo.
  cbn [mbind option_bind]. destruct (so_need_more o) eqn:Em.
  - destruct Ho as (Hst & Hnm & Hinc). rewrite Hst, Hnm. rewrite bool_decide_true by done.
    simpl default. cbn [andb]. destruct (STREAM_SNIFF_MAX <=? len input) eqn:Emax; bool_to_prop;
      (eexists; split; [reflexivity|]); (split_and!; [by split; simpl; auto|congruence|]);
      (intros ? _ [= <-] _; simpl; split_and!; [done|split; [done|intros []; lia]|done|done]) ||
      (intros ? _ [= <-] _; simpl; split_and!; [done|done|split; [done|intros []; lia]|done]).
  - destruct Ho as (Hdec & Hinc). rewrite andb_false_r.
    destruct (decided_peek _ _ _ _ Hs Hdec Hl) as [Hf Hw'].
    assert (forall d : bool, match so_status o with
            | STREAM_SNIFF_NOT_OBSERVED | STREAM_SNIFF_NEED_MORE => d | _ => true end = true)
      as Hm by (intros; by destruct (so_status o)).
    eexists. split; [reflexivity|]. split_and!; [|congruence|].
    + destruct (so_status o); done.
    + intros ? _ [= <-] _. simpl. split; [done|]. destruct Hdec as [_ Hdec].
      assert (so_status o <> STREAM_SNIFF_NEED_MORE /\ so_status o <> STREAM_SNIFF_TRUNCATED) as [H1 H2].
      { destruct (so_name o); [destruct Hdec as [-> _]; done|].
        destruct Hdec as [E'|[E'|[E'|E']]]; by rewrite E'. }
      split_and!; [by split; [|intros []]..|eauto].
Qed.
End peeking.

(** The characters that a log line may carry unquoted. *)
Definition log_char (c : byte) : bool :=
  sni_char c || (c =b "<"%byte) || (c =b ">"%byte) || (c =b "_"%byte).

Lemma valid_sni_chars name : valid_sni_name name = true -> forallb sni_char name = true.
Proof. unfold valid_sni_name. by case_if. Qed.

(** ** The theorems *)

(** C21: for any bytes and any output size the ClientHello parser returns (its
    loops end within their fuel and no read leaves the buffer); it asks for more
    bytes exactly when the TLS record is incomplete, and otherwise it returns
    either a valid host name that fits in [out] with its NUL and that is a
    substring of the input, or one of the four failure statuses and no name. *)
Theorem sni_parser_safe : forall buf out_len,
  exists o, parse_sni_from_client_hello buf out_len = Some o /\
    (so_need_more o = true <-> record_incomplete buf) /\
    (so_need_more o = true -> so_status o = STREAM_SNIFF_NEED_MORE /\ so_name o = None) /\
    (so_need_more o = false -> decided buf out_len o).
Proof.
  intros buf out_len. destruct (parse_sni_result buf out_len) as (o & Ho & H).
  exists o. split; [done|].
  destruct (so_need_more o); [destruct H as (? & ? & ?)|destruct H as (? & ?)]; split_and!; done.
Qed.

(** A decided answer does not depend on how many of the following bytes have
    already arrived: with any further bytes the parser answers the same. *)
Theorem sni_parser_stable : forall buf more out_len o,
  parse_sni_from_client_hello buf out_len = Some o -> so_need_more o = false ->
  parse_sni_from_client_hello (buf ++ more) out_len = Some o.
Proof. exact parse_sni_stable. Qed.

Definition example_hello : client_hello :=
  mk_hello x01 [x03; x03] (replicate 32 x00) [] [x13; x01] [x00]
    [ExtOther 43 [x02; x03; x04]; ExtServerName [mk_name x00 (str "example.com")]].

Lemma sni_parser_stable_witness :
  parse_sni_from_client_hello (enc_record example_hello ++ str "early data") 254 =
  Some (mk_sniff_out STREAM_SNIFF_PARSED false (Some (str "example.com"))).
Proof. apply sni_parser_stable; vm_compute; reflexivity. Defined.

(** C6: on the encoding of every well-formed ClientHello, followed by any bytes,
    the parser answers what RFC 6066 says of the message: the first host_name
    entry of the first server_name extension, if it is a valid name that fits,
    MISSING if there is none, and the error status otherwise. *)
Theorem sni_parser_correct : forall out_len h post,
  hello_wf h ->
  parse_sni_from_client_hello (enc_record h ++ post) out_len =
  Some (exts_answer out_len (ch_extensions h)).
Proof. exact parse_sni_enc. Qed.

Lemma sni_parser_correct_witness :
  hello_wf example_hello /\
  parse_sni_from_client_hello (enc_record example_hello ++ []) 254 =
  Some (mk_sniff_out STREAM_SNIFF_PARSED false (Some (str "example.com"))).
Proof.
  assert (hello_wf example_hello) as H.
  { unfold hello_wf. split_and!; try done. repeat constructor; simpl; lia. }
  split; [exact H|]. exact (sni_parser_correct 254 example_hello [] H).
Defined.

(** C22: peeking keeps the sniffer well formed: the stored name fits its
    254-byte array, at most 8192 bytes are observed, [done] is set exactly in a
    final status, and from then on a peek changes nothing. A peek that copied
    bytes waits (NEED_MORE) exactly when they are an incomplete TLS record and
    the client has less than 8192 bytes pending, gives up (TRUNCATED, [done])
    exactly when the record is still incomplete at 8192 bytes, and otherwise
    stores the parser's answer. *)
Theorem sniff_peek_invariant : forall evbuffer_copyout,
  (forall input n bs, evbuffer_copyout input n = Some bs -> bs = take (Z.to_nat n) input) ->
  forall s input, sniff_wf s ->
  exists s', stream_sniff_peek_client_input evbuffer_copyout s input = Some s' /\
    sniff_wf s' /\ (sn_done s = true -> s' = s) /\
    (forall bs, sn_done s = false ->
       evbuffer_copyout input (Z.min STREAM_SNIFF_MAX (len input)) = Some bs -> bs <> [] ->
       sn_observed s' = len bs /\
       (sn_status s' = STREAM_SNIFF_NEED_MORE <-> record_incomplete bs /\ len input < STREAM_SNIFF_MAX) /\
       (sn_status s' = STREAM_SNIFF_TRUNCATED <-> record_incomplete bs /\ STREAM_SNIFF_MAX <= len input) /\
       (~ record_incomplete bs ->
          exists o, parse_sni_from_client_hello bs (STREAM_SNI_MAX + 1) = Some o /\
            sn_status s' = so_status o /\ sn_sni s' = default (sn_sni s) (so_name o))).
Proof. intros ev Hev s input Hs. by apply peek_preserves_wf. Qed.

Definition copyout_all (input : list byte) (n : Z) : option (list byte) :=
  Some (take (Z.to_nat n) input).

Lemma sniff_peek_invariant_witness :
  exists s', stream_sniff_peek_client_input copyout_all sniff_init (enc_record example_hello)
    = Some s' /\ sniff_wf s'.
Proof.
  destruct (sniff_peek_invariant copyout_all) with (s := sniff_init)
    (input := enc_record example_hello) as (s' & H1 & H2 & _).
  - intros input n bs [= <-]. reflexivity.
  - exact sniff_init_wf.
  - exists s'. split; assumption.
Defined.

(** What is logged as the SNI of a connection is a non-empty string of
    letters, digits, [-], [.] and the brackets and underscore of a placeholder:
    a client cannot inject quotes, spaces or control characters in the log. *)
Theorem sniff_log_clean : forall s,
  (forall s', s = Some s' -> sniff_wf s') ->
  stream_sniff_log_sni s <> [] /\ forallb log_char (stream_sniff_log_sni s) = true.
Proof.
  intros [s|] Hs; [|by vm_compute]. specialize (Hs s eq_refl). unfold stream_sniff_log_sni.
  case_if; [|by destruct (sn_status s)]. apply andb_true_iff in E as [E1 E2].
  case_bool_decide as Hp; [|done]. pose proof (valid_sni_chars _ (swf_name _ Hs Hp)) as Hc.
  split; [intros E; by rewrite E in E2|]. rewrite forallb_forall in *.
  intros c Hin. unfold log_char. by rewrite (Hc c Hin).
Qed.

Lemma sniff_log_clean_witness :
  forallb log_char (stream_sniff_log_sni (Some sniff_init)) = true.
Proof. apply sniff_log_clean. intros s' [= <-]. exact sniff_init_wf. Defined.
