(* ===== verification/ProxyV2.v ===== *)
(** * PROXY protocol v2 headers ([proxy_proto_v2.c])

    [proxy_v2_build] stores the header in a caller's buffer with [memcpy] and
    single stores; a store outside the buffer is [None] in the model, and the
    theorems show that it does not happen. The decoder [pp2_decode] is written
    from the protocol's specification, not from the code: it is what a receiver
    does with the bytes. *)

From S2P Require Import Prelude CString Endpoint.

Definition SOCK_STREAM : Z := 1.
Definition SOCK_DGRAM : Z := 2.

Definition PROXY_V2_SIG : list byte :=
  [x0d; x0a; x0d; x0a; x00; x0d; x0a; x51; x55; x49; x54; x0a].
Definition PP2_VERSION_CMD_PROXY : Z := 0x21.
Definition PP2_FAM_INET : Z := 0x10.
Definition PP2_FAM_INET6 : Z := 0x20.
Definition PP2_TRANS_STREAM : Z := 0x01.
Definition PP2_TRANS_DGRAM : Z := 0x02.

(** ** Stores into a buffer *)

(** [memcpy(buf + off, bs, len bs)]. *)
Definition store (off : Z) (bs : list byte) (buf : list byte) : option (list byte) :=
  if (0 <=? off) && (off + len bs <=? len buf)
  then Some (take (Z.to_nat off) buf ++ bs ++ drop (Z.to_nat (off + len bs)) buf)
  else None.

Definition put_u16 (off : Z) (v : Z) (buf : list byte) : option (list byte) :=
  buf ← store off [z2b (Z.shiftr v 8)] buf;
  store (off + 1) [z2b (Z.land v 0xff)] buf.

(** ** The encoder *)

(** What a call leaves: the return code, the buffer, and [*out_len]. *)
Record pp2_result : Type := mk_pp2 { pp_rc : Z; pp_buf : list byte; pp_out_len : Z }.

(** The body shared by the two address families: 12 bytes of signature, the
    version and family bytes, the length, then the addresses and the ports. *)
Definition pp2_store_header (fam_byte addr_len : Z) (fields : list (list byte))
    (buf : list byte) : option pp2_result :=
  buf ← store 0 PROXY_V2_SIG buf;
  buf ← store 12 [z2b PP2_VERSION_CMD_PROXY] buf;
  buf ← store 13 [z2b fam_byte] buf;
  buf ← put_u16 14 (u16 addr_len) buf;
  '(_, buf) ← foldl (fun st f =>
      '(p, b) ← st; b ← store p f b; Some (p + len f, b)) (Some (16, buf)) fields;
  Some (mk_pp2 0 buf (16 + addr_len)).

Definition proxy_v2_build (buf : list byte) (buf_len : Z)
    (src : option sockaddr) (src_len : Z) (dst : option sockaddr) (dst_len : Z)
    (sock_type : Z) (out_len : Z) : option pp2_result :=
  let fail e := Some (mk_pp2 e buf out_len) in
  match src, dst with
  | None, _ | _, None => fail (- EINVAL)
  | Some src, Some dst =>
      if negb (sa_family src =? sa_family dst) then fail (- EAFNOSUPPORT) else
      let go (fam_proto : Z) :=
        if sa_family src =? AF_INET then
          if (src_len <? SIZEOF_SOCKADDR_IN) || (dst_len <? SIZEOF_SOCKADDR_IN)
          then fail (- EINVAL)
          else if buf_len <? 16 + 12 then fail (- ENOSPC)
          else pp2_store_header (Z.lor PP2_FAM_INET fam_proto) 12
                 [sin_addr src; sin_addr dst; sin_port src; sin_port dst] buf
        else if sa_family src =? AF_INET6 then
          if (src_len <? SIZEOF_SOCKADDR_IN6) || (dst_len <? SIZEOF_SOCKADDR_IN6)
          then fail (- EINVAL)
          else if buf_len <? 16 + 36 then fail (- ENOSPC)
          else pp2_store_header (Z.lor PP2_FAM_INET6 fam_proto) 36
                 [sin6_addr src; sin6_addr dst; sin6_port src; sin6_port dst] buf
        else fail (- EAFNOSUPPORT) in
      if sock_type =? SOCK_STREAM then go PP2_TRANS_STREAM
      else if sock_type =? SOCK_DGRAM then go PP2_TRANS_DGRAM
      else fail (- EPROTONOSUPPORT)
  end.

(** ** A receiver *)

Inductive pp2_family : Type := PP2_IPv4 | PP2_IPv6.
Inductive pp2_transport : Type := PP2_stream | PP2_dgram.

Record pp2_info : Type := mk_pp2_info {
  pi_family : pp2_family;
  pi_transport : pp2_transport;
  pi_src : list byte;
  pi_dst : list byte;
  pi_sport : Z;
  pi_dport : Z
}.

Definition be16_val (l : list byte) : option Z :=
  match l with [a; b] => Some (b2z a * 256 + b2z b) | _ => None end.

Definition pp2_addresses (fam : pp2_family) (tr : pp2_transport) (l : list byte) : option pp2_info :=
  let n := match fam with PP2_IPv4 => 4%nat | PP2_IPv6 => 16%nat end in
  sport ← be16_val (sub (n + n) 2 l);
  dport ← be16_val (sub (n + n + 2) 2 l);
  Some (mk_pp2_info fam tr (sub 0 n l) (sub n n l) sport dport).

(** The header at the start of the bytes, and what follows it. *)
Definition pp2_decode (l : list byte) : option (pp2_info * list byte) :=
  if negb (take 12 l =s PROXY_V2_SIG) then None else
  match drop 12 l with
  | vc :: fp :: l1 :: l0 :: rest =>
      if negb (vc =b x21) then None else
      let n := b2z l1 * 256 + b2z l0 in
      if len rest <? n then None else
      let body := take (Z.to_nat n) rest in
      let payload := drop (Z.to_nat n) rest in
      let inet fam tr size :=
        if n <? size then None else info ← pp2_addresses fam tr body; Some (info, payload) in
      match fp with
      | x11 => inet PP2_IPv4 PP2_stream 12
      | x12 => inet PP2_IPv4 PP2_dgram 12
      | x21 => inet PP2_IPv6 PP2_stream 36
      | x22 => inet PP2_IPv6 PP2_dgram 36
      | _ => None
      end
  | _ => None
  end.

(** ** Stores in a row fill the buffer from the left *)

Lemma store_next done bs rest off :
  off = len done -> len bs <= len rest ->
  store off bs (done ++ rest) = Some ((done ++ bs) ++ drop (length bs) rest).
Proof.
  intros -> Hl. unfold store. rewrite len_app. pose proof (len_nonneg done).
  rewrite (proj2 (Z.leb_le _ _)), (proj2 (Z.leb_le _ _)) by lia. simpl. f_equal.
  unfold Zlength. rewrite <- Nat2Z.inj_add, !Nat2Z.id.
  rewrite take_app_length, drop_app_add'; [|done]. by rewrite app_assoc.
Qed.

Lemma put_u16_next done v rest off :
  off = len done -> 0 <= v < 65536 -> 2 <= len rest ->
  put_u16 off v (done ++ rest) = Some ((done ++ be16 v) ++ drop 2 rest).
Proof.
  intros -> Hv Hl. unfold put_u16. rewrite store_next by (done || len_lia).
  cbn [mbind option_bind]. rewrite store_next;
    [|rewrite len_app; done|unfold Zlength in *; rewrite length_drop; simpl in *; lia].
  rewrite drop_drop. f_equal. rewrite <- !app_assoc. f_equal. unfold be16. simpl.
  rewrite Z.shiftr_div_pow2 by lia. do 2 f_equal.
  change 0xff with (Z.ones 8). rewrite Z.land_ones by lia. unfold z2b. by rewrite Zmod_mod.
Qed.

Lemma store_fields fields done rest :
  len (concat fields) <= len rest ->
  foldl (fun st f => '(p, b) ← st; b ← store p f b; Some (p + len f, b))
    (Some (len done, done ++ rest)) fields =
  Some (len (done ++ concat fields), (done ++ concat fields) ++ drop (length (concat fields)) rest).
Proof.
  revert done rest. induction fields as [|f fs IH]; intros done rest Hl.
  - simpl. by rewrite app_nil_r, drop_0.
  - cbn [foldl concat mbind option_bind] in *. rewrite len_app in Hl.
    pose proof (len_nonneg (concat fs)).
    rewrite store_next by (done || lia). cbn [mbind option_bind].
    rewrite <- len_app, IH by (unfold Zlength in *; rewrite length_drop; lia).
    rewrite drop_drop, length_app, <- !app_assoc. done.
Qed.

Definition pp2_bytes (fam_byte addr_len : Z) (fields : list (list byte)) : list byte :=
  (((PROXY_V2_SIG ++ [z2b PP2_VERSION_CMD_PROXY]) ++ [z2b fam_byte]) ++ be16 addr_len)
    ++ concat fields.

Lemma pp2_store_header_ok fam_byte addr_len fields buf :
  0 <= addr_len < 65536 -> len (concat fields) = addr_len -> 16 + addr_len <= len buf ->
  pp2_store_header fam_byte addr_len fields buf =
  Some (mk_pp2 0 (pp2_bytes fam_byte addr_len fields ++ drop (Z.to_nat (16 + addr_len)) buf)
          (16 + addr_len)).
Proof.
  intros Ha Hf Hb. unfold pp2_store_header, u16. rewrite Z.mod_small by lia.
  change buf with ([] ++ buf) at 1.
  rewrite store_next by (reflexivity || (change (len PROXY_V2_SIG) with 12; lia)).
  cbn [mbind option_bind].
  rewrite app_nil_l.
  assert (forall n, Z.of_nat n <= 16 -> 16 - Z.of_nat n + addr_len <= len (drop n buf)) as Hd.
  { intros n Hn. unfold Zlength in *. rewrite length_drop. lia. }
  pose proof (Hd 12%nat ltac:(done)). pose proof (Hd 13%nat ltac:(done)).
  pose proof (Hd 14%nat ltac:(done)). pose proof (Hd 16%nat ltac:(done)).
  change (length PROXY_V2_SIG) with 12%nat.
  rewrite store_next by (reflexivity || (change (len [_]) with 1; lia)).
  rewrite drop_drop. cbn [mbind option_bind]. change (12 + length [_])%nat with 13%nat.
  rewrite store_next by (reflexivity || (change (len [_]) with 1; lia)).
  rewrite drop_drop. cbn [mbind option_bind]. change (13 + length [_])%nat with 14%nat.
  rewrite put_u16_next by (reflexivity || lia).
  rewrite drop_drop. cbn [mbind option_bind]. change (14 + 2)%nat with 16%nat.
  match goal with |- context [foldl ?f (Some (16, ?d ++ ?r)) ?l] =>
    change (foldl f (Some (16, d ++ r)) l) with (foldl f (Some (len d, d ++ r)) l)
  end.
  rewrite store_fields by lia. cbn [mbind option_bind].
  rewrite drop_drop. unfold pp2_bytes. do 4 f_equal. unfold Zlength in Hf. lia.
Qed.

(** ** What the receiver sees *)

Definition pp2_byte (fam : pp2_family) (tr : pp2_transport) : Z :=
  Z.lor (match fam with PP2_IPv4 => PP2_FAM_INET | PP2_IPv6 => PP2_FAM_INET6 end)
        (match tr with PP2_stream => PP2_TRANS_STREAM | PP2_dgram => PP2_TRANS_DGRAM end).

Definition pp2_alen (fam : pp2_family) : nat :=
  match fam with PP2_IPv4 => 4 | PP2_IPv6 => 16 end.

Lemma sub_at {A} i n (pre x post l : list A) :
  l = pre ++ x ++ post -> length pre = i -> length x = n -> sub i n l = x.
Proof. intros -> <- <-. unfold sub. by rewrite drop_app_length, take_app_length. Qed.

Lemma pp2_decode_bytes fam tr src dst sa sb da db payload :
  length src = pp2_alen fam -> length dst = pp2_alen fam ->
  pp2_decode (pp2_bytes (pp2_byte fam tr) (Z.of_nat (pp2_alen fam + pp2_alen fam + 4))
                [src; dst; [sa; sb]; [da; db]] ++ payload) =
  Some (mk_pp2_info fam tr src dst (b2z sa * 256 + b2z sb) (b2z da * 256 + b2z db), payload).
Proof.
  intros Hs Hd. unfold pp2_bytes. simpl concat. rewrite <- !app_assoc.
  set (body := src ++ dst ++ [sa; sb; da; db]).
  assert (length body = pp2_alen fam + pp2_alen fam + 4)%nat as Hb.
  { unfold body. rewrite !length_app, Hs, Hd. simpl. lia. }
  assert (src ++ dst ++ [sa; sb; da; db] ++ payload = body ++ payload) as ->
    by (unfold body; by rewrite <- !app_assoc).
  assert (pp2_addresses fam tr body =
    Some (mk_pp2_info fam tr src dst (b2z sa * 256 + b2z sb) (b2z da * 256 + b2z db))) as Ha.
  { unfold pp2_addresses. fold (pp2_alen fam). cbv zeta. unfold body.
    rewrite (sub_at 0 _ [] src (dst ++ [sa; sb; da; db])), (sub_at _ _ src dst [sa; sb; da; db]) by done.
    erewrite (sub_at (pp2_alen fam + pp2_alen fam) 2 (src ++ dst) [sa; sb] [da; db]);
      [|by rewrite <- app_assoc|rewrite length_app; lia|done].
    erewrite (sub_at _ 2 (src ++ dst ++ [sa; sb]) [da; db] []);
      [done|by rewrite <- !app_assoc|rewrite !length_app; simpl; lia|done]. }
  unfold pp2_decode.
  assert (len (body ++ payload) >= len body) as Hl by (rewrite len_app; pose proof (len_nonneg payload); lia).
  assert (take (length body) (body ++ payload) = body) as Ht by apply take_app_length.
  assert (drop (length body) (body ++ payload) = payload) as Hdr by apply drop_app_length.
  unfold Zlength at 2 in Hl. rewrite Hb in *.
  destruct fam, tr; simpl in Hl, Ht, Hdr;
    match goal with |- context [be16 ?n] => change (be16 n) with [x00; z2b n] end; cbn -[Zlength];
    match goal with |- context [0 * 256 + ?v] =>
      let v' := eval vm_compute in v in change (0 * 256 + v) with v'
    end;
    match goal with |- context [negb (?s =s PROXY_V2_SIG)] =>
      change (negb (s =s PROXY_V2_SIG)) with false; change (negb (z2b _ =b "!")) with false;
      cbv iota
    end;
    (rewrite (proj2 (Z.ltb_ge _ _)) by lia);
    match goal with |- context [Z.to_nat ?n] =>
      let n' := eval vm_compute in (Z.to_nat n) in change (Z.to_nat n) with n' end;
    rewrite Ht, Hdr, Ha; reflexivity.
Qed.

(** ** The theorems *)

(** The family and the transport of a call, when the code supports them. *)
Definition pp2_kind (src dst : sockaddr) (sock_type : Z) : option (pp2_family * pp2_transport) :=
  if negb (sa_family src =? sa_family dst) then None else
  fam ← (if sa_family src =? AF_INET then Some PP2_IPv4
         else if sa_family src =? AF_INET6 then Some PP2_IPv6 else None);
  tr ← (if sock_type =? SOCK_STREAM then Some PP2_stream
        else if sock_type =? SOCK_DGRAM then Some PP2_dgram else None);
  Some (fam, tr).

Definition sa_addr (fam : pp2_family) (sa : sockaddr) : list byte :=
  match fam with PP2_IPv4 => sin_addr sa | PP2_IPv6 => sin6_addr sa end.

(** [ntohs] of the port. *)
Definition sa_port (sa : sockaddr) : Z := default 0 (be16_val (sin_port sa)).

Definition pp2_sa_len (fam : pp2_family) : Z :=
  match fam with PP2_IPv4 => SIZEOF_SOCKADDR_IN | PP2_IPv6 => SIZEOF_SOCKADDR_IN6 end.

Definition pp2_total (fam : pp2_family) : Z := 16 + Z.of_nat (pp2_alen fam + pp2_alen fam + 4).

(** The storage behind a [struct sockaddr] pointer has the bytes [sa_len] says. *)
Definition sa_backed (sa : sockaddr) (sa_len : Z) : Prop := sa_len <= 2 + len (sa_data sa).

Lemma length_sub {A} i n (l : list A) : (i + n <= length l)%nat -> length (sub i n l) = n.
Proof. intros H. unfold sub. rewrite length_take, length_drop. lia. Qed.

Lemma sa_backed_fields fam sa n :
  sa_backed sa n -> pp2_sa_len fam <= n ->
  length (sa_addr fam sa) = pp2_alen fam /\ exists a b, sin_port sa = [a; b].
Proof.
  unfold sa_backed, Zlength, pp2_sa_len, SIZEOF_SOCKADDR_IN, SIZEOF_SOCKADDR_IN6.
  intros H1 H2. split.
  - destruct fam; simpl; apply length_sub; lia.
  - assert (length (sin_port sa) = 2%nat) as Hl by (apply length_sub; destruct fam; lia).
    destruct (sin_port sa) as [|a [|b [|]]]; try done. eauto.
Qed.

Lemma pp2_store_header_sa fam tr buf buf_len src src_len dst dst_len :
  buf_len <= len buf -> sa_backed src src_len -> sa_backed dst dst_len ->
  (src_len <? pp2_sa_len fam) || (dst_len <? pp2_sa_len fam) = false ->
  (buf_len <? pp2_total fam) = false ->
  let fields := [sa_addr fam src; sa_addr fam dst; sin_port src; sin_port dst] in
  pp2_store_header (pp2_byte fam tr) (pp2_total fam - 16) fields buf =
  Some (mk_pp2 0 (pp2_bytes (pp2_byte fam tr) (pp2_total fam - 16) fields
                  ++ drop (Z.to_nat (pp2_total fam)) buf) (pp2_total fam)).
Proof.
  intros Hb Hs Hd Hl Hl2. bool_to_prop. cbv zeta.
  destruct (sa_backed_fields fam _ _ Hs) as [Ha (a & b & Hp)]; [lia|].
  destruct (sa_backed_fields fam _ _ Hd) as [Ha' (a' & b' & Hp')]; [lia|].
  replace (pp2_total fam) with (16 + (pp2_total fam - 16)) at 3 4 by lia.
  apply pp2_store_header_ok; unfold pp2_total in *; [destruct fam; simpl; lia| |lia].
  simpl concat. unfold Zlength. rewrite !length_app, Ha, Ha', Hp, Hp'. simpl. lia.
Qed.

(** The call as a whole: an error code with nothing written, or the header. *)
Lemma proxy_v2_build_spec buf buf_len src src_len dst dst_len sock_type out_len :
  buf_len <= len buf -> sa_backed src src_len -> sa_backed dst dst_len ->
  exists r, proxy_v2_build buf buf_len (Some src) src_len (Some dst) dst_len sock_type out_len
    = Some r /\
  match pp2_kind src dst sock_type with
  | Some (fam, tr) =>
      if (src_len <? pp2_sa_len fam) || (dst_len <? pp2_sa_len fam)
      then r = mk_pp2 (- EINVAL) buf out_len
      else if buf_len <? pp2_total fam then r = mk_pp2 (- ENOSPC) buf out_len
      else r = mk_pp2 0 (pp2_bytes (pp2_byte fam tr) (pp2_total fam - 16)
                 [sa_addr fam src; sa_addr fam dst; sin_port src; sin_port dst]
               ++ drop (Z.to_nat (pp2_total fam)) buf) (pp2_total fam)
  | None => r = mk_pp2 (- EAFNOSUPPORT) buf out_len \/ r = mk_pp2 (- EPROTONOSUPPORT) buf out_len
  end.
Proof.
  intros Hb Hs Hd. unfold proxy_v2_build, pp2_kind.
  pose proof (fun fam tr => pp2_store_header_sa fam tr _ _ _ _ _ _ Hb Hs Hd) as Hok.
  assert (forall fam tr fb al tot, fb = pp2_byte fam tr -> al = pp2_total fam - 16 ->
    tot = pp2_total fam ->
    exists r,
      (if (src_len <? pp2_sa_len fam) || (dst_len <? pp2_sa_len fam)
       then Some (mk_pp2 (- EINVAL) buf out_len)
       else if buf_len <? tot then Some (mk_pp2 (- ENOSPC) buf out_len)
       else pp2_store_header fb al
         [sa_addr fam src; sa_addr fam dst; sin_port src; sin_port dst] buf) = Some r /\
      if (src_len <? pp2_sa_len fam) || (dst_len <? pp2_sa_len fam)
      then r = mk_pp2 (- EINVAL) buf out_len
      else if buf_len <? pp2_total fam then r = mk_pp2 (- ENOSPC) buf out_len
      else r = mk_pp2 0 (pp2_bytes (pp2_byte fam tr) (pp2_total fam - 16)
                 [sa_addr fam src; sa_addr fam dst; sin_port src; sin_port dst]
               ++ drop (Z.to_nat (pp2_total fam)) buf) (pp2_total fam)) as Hgo.
  { intros fam tr ? ? ? -> -> ->. specialize (Hok fam tr).
    destruct (_ || _); [eauto|]. destruct (buf_len <? _); [eauto|]. rewrite Hok by done. eauto. }
  case_if; [eauto|]. case_if; [|case_if].
  1, 2: case_if; [|case_if; [|simpl; eauto]].
  - exact (Hgo PP2_IPv4 PP2_stream _ _ _ eq_refl eq_refl eq_refl).
  - exact (Hgo PP2_IPv6 PP2_stream _ _ _ eq_refl eq_refl eq_refl).
  - exact (Hgo PP2_IPv4 PP2_dgram _ _ _ eq_refl eq_refl eq_refl).
  - exact (Hgo PP2_IPv6 PP2_dgram _ _ _ eq_refl eq_refl eq_refl).
  - repeat case_if; simpl; eauto.
Qed.

(** C28: on any caller's buffer and addresses the encoder stays inside the
    buffer and returns: 0 exactly when the families agree and are IPv4 or IPv6,
    the socket type is a stream or a datagram, both lengths cover the address
    structure and the buffer has room for the 28 or 52 bytes of the header;
    when it fails, the buffer and [*out_len] are untouched. *)
Theorem proxy_v2_build_total : forall buf buf_len src src_len dst dst_len sock_type out_len,
  buf_len <= len buf -> sa_backed src src_len -> sa_backed dst dst_len ->
  exists r, proxy_v2_build buf buf_len (Some src) src_len (Some dst) dst_len sock_type out_len
    = Some r /\
  (pp_rc r = 0 <->
     exists fam tr, pp2_kind src dst sock_type = Some (fam, tr) /\
       pp2_sa_len fam <= src_len /\ pp2_sa_len fam <= dst_len /\ pp2_total fam <= buf_len) /\
  (pp_rc r <> 0 -> pp_buf r = buf /\ pp_out_len r = out_len).
Proof.
  intros * Hb Hs Hd.
  destruct (proxy_v2_build_spec _ _ _ _ _ _ sock_type out_len Hb Hs Hd) as (r & Hr & H).
  exists r. split; [done|]. destruct (pp2_kind _ _ _) as [[fam tr]|] eqn:Ek.
  2: { destruct H as [-> | ->]; simpl; (split; [split; [done|by intros (? & ? & ? & _)]|done]). }
  case_if_in H; [|case_if_in H]; bool_to_prop; subst r; simpl.
  - split; [|done]. split; [done|]. intros (f & t & [= <- <-] & ?). destruct E; bool_to_prop; lia.
  - split; [|done]. split; [done|]. intros (f & t & [= <- <-] & ?). lia.
  - split; [|done]. split; [|done]. intros _. exists fam, tr. split_and!; done || lia.
Qed.

Lemma proxy_v2_decodes : forall buf buf_len src src_len dst dst_len sock_type out_len r payload,
  buf_len <= len buf -> sa_backed src src_len -> sa_backed dst dst_len ->
  proxy_v2_build buf buf_len (Some src) src_len (Some dst) dst_len sock_type out_len = Some r ->
  pp_rc r = 0 ->
  exists fam tr,
    pp2_kind src dst sock_type = Some (fam, tr) /\
    pp_out_len r = pp2_total fam /\
    len (take (Z.to_nat (pp_out_len r)) (pp_buf r)) = pp2_total fam /\
    drop (Z.to_nat (pp_out_len r)) (pp_buf r) = drop (Z.to_nat (pp_out_len r)) buf /\
    pp2_decode (take (Z.to_nat (pp_out_len r)) (pp_buf r) ++ payload) =
    Some (mk_pp2_info fam tr (sa_addr fam src) (sa_addr fam dst) (sa_port src) (sa_port dst),
          payload).
Proof.
  intros * Hb Hs Hd Hr Hz.
  destruct (proxy_v2_build_spec _ _ _ _ _ _ sock_type out_len Hb Hs Hd) as (r' & Hr' & H).
  rewrite Hr in Hr'. injection Hr' as <-. destruct (pp2_kind _ _ _) as [[fam tr]|].
  2: { by destruct H as [-> | ->]. }
  exists fam, tr. split; [done|].
  case_if_in H; [by subst|]. case_if_in H; [by subst|]. subst r. cbn [pp_out_len pp_buf]. bool_to_prop.
  destruct (sa_backed_fields fam _ _ Hs) as [Ha (a & b & Hp)]; [lia|].
  destruct (sa_backed_fields fam _ _ Hd) as [Ha' (a' & b' & Hp')]; [lia|].
  assert (Z.to_nat (pp2_total fam) = length (pp2_bytes (pp2_byte fam tr) (pp2_total fam - 16)
     [sa_addr fam src; sa_addr fam dst; sin_port src; sin_port dst])) as Hlen.
  { unfold pp2_bytes, pp2_total. simpl concat. rewrite !length_app, Ha, Ha', Hp, Hp'.
    destruct fam; reflexivity. }
  split; [done|]. split_and!.
  - rewrite take_app_length' by done. unfold Zlength. rewrite <- Hlen. apply Z2Nat.id.
    by destruct fam.
  - by apply drop_app_length'.
  - rewrite take_app_length' by done. unfold sa_port. rewrite Hp, Hp'.
    replace (pp2_total fam - 16) with (Z.of_nat (pp2_alen fam + pp2_alen fam + 4))
      by (unfold pp2_total; lia).
    by apply pp2_decode_bytes.
Qed.

(** C7: round trip. When the encoder returns 0, the first [*out_len] bytes of
    the buffer, followed by any payload, decode (by the protocol's
    specification) to exactly the addresses, the ports and the transport of the
    call and to that payload; the rest of the buffer is untouched. *)
Theorem proxy_v2_roundtrip : forall buf buf_len src src_len dst dst_len sock_type out_len r payload,
  buf_len <= len buf -> sa_backed src src_len -> sa_backed dst dst_len ->
  proxy_v2_build buf buf_len (Some src) src_len (Some dst) dst_len sock_type out_len = Some r ->
  pp_rc r = 0 ->
  exists fam tr,
    pp2_kind src dst sock_type = Some (fam, tr) /\
    pp_out_len r = pp2_total fam /\
    drop (Z.to_nat (pp_out_len r)) (pp_buf r) = drop (Z.to_nat (pp_out_len r)) buf /\
    pp2_decode (take (Z.to_nat (pp_out_len r)) (pp_buf r) ++ payload) =
    Some (mk_pp2_info fam tr (sa_addr fam src) (sa_addr fam dst) (sa_port src) (sa_port dst),
          payload).
Proof.
  intros * Hb Hs Hd Hr Hz.
  destruct (proxy_v2_decodes _ _ _ _ _ _ _ _ _ payload Hb Hs Hd Hr Hz)
    as (fam & tr & ? & ? & _ & ? & ?). eauto 10.
Qed.

Definition example_sa (port : Z) (addr : list byte) : sockaddr :=
  mk_sockaddr AF_INET (be16 port ++ addr ++ replicate 8 x00).

Lemma proxy_v2_build_total_witness :
  exists r, proxy_v2_build (replicate 28 x00) 28
      (Some (example_sa 4660 [x7f; x00; x00; x01])) 16
      (Some (example_sa 443 [x0a; x00; x00; x02])) 16 SOCK_STREAM 0 = Some r /\ pp_rc r = 0.
Proof.
  destruct (proxy_v2_build_total (replicate 28 x00) 28
    (example_sa 4660 [x7f; x00; x00; x01]) 16 (example_sa 443 [x0a; x00; x00; x02]) 16
    SOCK_STREAM 0) as (r & H1 & H2 & _); try (vm_compute; discriminate).
  exists r. split; [exact H1|]. apply H2. exists PP2_IPv4, PP2_stream.
  repeat split; vm_compute; discriminate.
Defined.

Lemma proxy_v2_roundtrip_witness :
  exists r,
    proxy_v2_build (replicate 30 xff) 30
      (Some (example_sa 4660 [x7f; x00; x00; x01])) 16
      (Some (example_sa 443 [x0a; x00; x00; x02])) 16 SOCK_DGRAM 0 = Some r /\
    exists fam tr, pp2_decode (take (Z.to_nat (pp_out_len r)) (pp_buf r) ++ str "hi") =
      Some (mk_pp2_info fam tr [x7f; x00; x00; x01] [x0a; x00; x00; x02] 4660 443, str "hi").
Proof.
  eexists. split; [vm_compute; reflexivity|].
  edestruct (proxy_v2_roundtrip (replicate 30 xff) 30
      (example_sa 4660 [x7f; x00; x00; x01]) 16 (example_sa 443 [x0a; x00; x00; x02]) 16
      SOCK_DGRAM 0) as (fam & tr & Hk & _ & _ & H);
    [vm_compute; discriminate..|vm_compute; reflexivity|reflexivity|].
  exists fam, tr. vm_compute in Hk. injection Hk as <- <-. exact H.
Defined.
