(* ===== verification/RawUdp.v ===== *)
(** * Raw IPv4/UDP replies ([datagram_raw.c])

    The packet is the byte string handed to [sendto]. Storing a [uint16_t] in a
    header field writes it in the byte order of the host; [htons] makes these
    bytes the big-endian ones. The host (byte order, BSD-style raw sockets) is
    an argument, as are [inet_pton], [calloc] and [sendto]. *)

From S2P Require Import Prelude CString Endpoint ProxyV2.

(** ** The Internet checksum *)

(** The [while (len >= 2)] loop and the odd byte, on a [uint32_t] sum. *)
Fixpoint sum16 (data : list byte) (sum : Z) : Z :=
  match data with
  | p0 :: p1 :: rest => sum16 rest (u32 (sum + Z.lor (Z.shiftl (b2z p0) 8) (b2z p1)))
  | [p0] => u32 (sum + Z.shiftl (b2z p0) 8)
  | [] => sum
  end.

(** [while ((sum >> 16) != 0)]. *)
Fixpoint fold16 (fuel : nat) (sum : Z) : option Z :=
  if Z.shiftr sum 16 =? 0 then Some sum else
  match fuel with
  | O => None
  | S fuel => fold16 fuel (u32 (Z.land sum 0xffff + Z.shiftr sum 16))
  end.

(** Two folds are enough for a 32-bit sum; the lemma [fold16_spec] shows it. *)
Definition checksum16 (data : list byte) : option Z :=
  sum ← fold16 2 (sum16 data 0);
  Some (u16 (Z.lnot sum)).

(** ** The packet *)

Record host : Type := mk_host {
  big_endian : bool;
  bsd_raw : bool;       (* __APPLE__ / __FreeBSD__ / __OpenBSD__ / __NetBSD__ *)
  has_ipv4_raw : bool   (* COMPAT_HAS_IPV4_RAW *)
}.

(** The bytes of a [uint16_t] in memory. *)
Definition native16 (h : host) (v : Z) : list byte :=
  if big_endian h then be16 v else reverse (be16 v).

Definition compat_raw_ip_len (h : host) (v : Z) : list byte :=
  if bsd_raw h then native16 h v else be16 v.
Definition compat_raw_ip_off (h : host) (v : Z) : list byte :=
  if bsd_raw h then native16 h v else be16 v.

Definition IPPROTO_UDP : Z := 17.

(** [struct raw_ipv4_hdr] and [struct raw_udp_hdr], field by field. *)
Definition raw_ipv4_hdr (vhl tos : Z) (length id off : list byte) (ttl proto : Z)
    (sum src dst : list byte) : list byte :=
  [z2b vhl; z2b tos] ++ length ++ id ++ off ++ [z2b ttl; z2b proto] ++ sum ++ src ++ dst.

Definition raw_udp_hdr (sport dport length sum : list byte) : list byte :=
  sport ++ dport ++ length ++ sum.

Section raw.
Context (h : host).
Context (inet_pton : Z -> list byte -> option (list byte)).
(** [calloc(1, n)] succeeds. *)
Context (calloc_ok : Z -> bool).
(** [sendto(fd, packet, dst)]: the number of bytes sent, or an errno. *)
Context (sendto : Z -> list byte -> sockaddr -> result Z).

Definition endpoint_to_sockaddr_in (ep : endpoint) : result sockaddr :=
  match ep_kind ep with
  | ENDPOINT_INET =>
      match inet_pton AF_INET (ep_host ep) with
      | Some addr => Ok (mk_sockaddr AF_INET (be16 (ep_port ep) ++ addr ++ replicate 8 x00))
      | None => Err (- EINVAL)
      end
  | _ => Err (- EINVAL)
  end.

(** The packet before [ip->sum] is filled in, and with it. *)
Definition raw_ip_header (src dst : sockaddr) (packet_len : Z) (sum : list byte) : list byte :=
  raw_ipv4_hdr (Z.lor (Z.shiftl 4 4) 5) 0 (compat_raw_ip_len h (u16 packet_len)) [x00; x00]
    (compat_raw_ip_off h 0) 64 IPPROTO_UDP sum (sin_addr src) (sin_addr dst).

Definition raw_packet (src dst : sockaddr) (data : list byte) : option (list byte) :=
  let packet_len := 20 + 8 + len data in
  let udp := raw_udp_hdr (sin_port src) (sin_port dst) (be16 (u16 (8 + len data))) [x00; x00] in
  sum ← checksum16 (raw_ip_header src dst packet_len [x00; x00]);
  Some (raw_ip_header src dst packet_len (native16 h sum) ++ udp ++ data).

(** Return code, and the packets handed to [sendto] with their destination. *)
Definition datagram_raw_send_udp_ipv4 (raw_fd : Z) (src_ep : option endpoint)
    (dst_addr : option sockaddr) (dst_addr_len : Z) (data : option (list byte))
    : option (Z * list (list byte * sockaddr)) :=
  if negb (has_ipv4_raw h) then Some (- ENOTSUP, []) else
  match src_ep, dst_addr, data with
  | Some src_ep, Some dst_addr, Some data =>
      if raw_fd <? 0 then Some (- EINVAL, []) else
      if dst_addr_len <? SIZEOF_SOCKADDR_IN then Some (- EINVAL, []) else
      if negb (sa_family dst_addr =? AF_INET) then Some (- EAFNOSUPPORT, []) else
      match endpoint_to_sockaddr_in src_ep with
      | Err rc => Some (rc, [])
      | Ok src_addr =>
          if 65535 - 20 - 8 <? len data then Some (- EMSGSIZE, []) else
          if negb (calloc_ok (20 + 8 + len data)) then Some (- ENOMEM, []) else
          packet ← raw_packet src_addr dst_addr data;
          let send_dst :=
            mk_sockaddr AF_INET ([x00; x00] ++ sin_addr dst_addr ++ replicate 8 x00) in
          match sendto raw_fd packet send_dst with
          | Err e => Some (- e, [(packet, send_dst)])
          | Ok n => Some (if n =? 20 + 8 + len data then 0 else - EIO, [(packet, send_dst)])
          end
      end
  | _, _, _ => Some (- EINVAL, [])
  end.
End raw.

Section raw_open.
(** [socket(...)] and [setsockopt(fd, IP_HDRINCL)]: [None] for success. *)
Context (h : host) (socket : result Z) (setsockopt : Z -> option Z).

(** Return code, [*out_fd] when it is stored, and the descriptors closed. *)
Definition datagram_raw_open_ipv4 : Z * option Z * list Z :=
  if negb (has_ipv4_raw h) then (- ENOTSUP, None, []) else
  match socket with
  | Err e => (- e, None, [])
  | Ok fd =>
      match setsockopt fd with
      | Some err => (- err, None, [fd])
      | None => (0, Some fd, [])
      end
  end.
End raw_open.

(** ** The checksum is RFC 1071's *)

(** The sum of the big-endian words, without a width. *)
Fixpoint words (data : list byte) : Z :=
  match data with
  | p0 :: p1 :: rest => b2z p0 * 256 + b2z p1 + words rest
  | [p0] => b2z p0 * 256
  | [] => 0
  end.

Lemma list_ind2 {A} (P : list A -> Prop) :
  P [] -> (forall a, P [a]) -> (forall a b l, P l -> P (a :: b :: l)) -> forall l, P l.
Proof.
  intros H0 H1 H2. fix IH 1. intros [|a [|b l]]; [done|done|]. apply H2, IH.
Qed.

Lemma word_value a b : Z.lor (Z.shiftl (b2z a) 8) (b2z b) = b2z a * 256 + b2z b.
Proof. apply (lor_shiftl_add _ _ 8); [lia|]. pose proof (b2z_range b). lia. Qed.

Lemma words_range data : 0 <= words data <= 65535 * ((len data + 1) / 2).
Proof.
  induction data as [|a|a b l IH] using list_ind2; [done| |].
  - simpl. change (len [a]) with 1. pose proof (b2z_range a). change ((1 + 1) / 2) with 1. lia.
  - simpl. pose proof (b2z_range a). pose proof (b2z_range b).
    rewrite !len_cons. replace (1 + (1 + len l) + 1) with (len l + 1 + 1 * 2) by lia.
    rewrite Z.div_add by lia. lia.
Qed.

Lemma sum16_words data s :
  0 <= s -> s + words data < 2 ^ 32 -> sum16 data s = s + words data.
Proof.
  revert s. induction data as [|a|a b l IH] using list_ind2; intros s Hs Hb; simpl in *.
  - lia.
  - rewrite Z.shiftl_mul_pow2 by lia. unfold u32. pose proof (b2z_range a).
    rewrite Z.mod_small; lia.
  - pose proof (words_range l). pose proof (len_nonneg l). pose proof (b2z_range a).
    pose proof (b2z_range b). rewrite word_value. unfold u32. rewrite Z.mod_small by lia.
    rewrite IH; lia.
Qed.

Lemma fold_step s :
  0 <= s < 2 ^ 32 ->
  u32 (Z.land s 0xffff + Z.shiftr s 16) = s - 65535 * (s / 65536).
Proof.
  intros Hs. change (Z.land s 0xffff) with (Z.land s (Z.ones 16)).
  rewrite Z.land_ones, Z.shiftr_div_pow2 by lia.
  unfold u32. change (2 ^ 16) with 65536. change (2 ^ 32) with 4294967296 in *.
  pose proof (Z.div_mod s 65536). pose proof (Z.mod_pos_bound s 65536).
  assert (0 <= s / 65536 < 65536) by (split; [apply Z.div_pos|apply Z.div_lt_upper_bound]; lia).
  rewrite (Z.mod_small (_ + _)); lia.
Qed.

(** The folded sum is the 16-bit number congruent to the sum modulo 65535, and
    zero only for a zero sum. *)
Lemma fold16_spec s :
  0 <= s < 2 ^ 32 ->
  exists r, fold16 2 s = Some r /\ 0 <= r < 65536 /\ r mod 65535 = s mod 65535 /\ (r = 0 <-> s = 0).
Proof.
  intros Hs.
  assert (forall f x, 0 <= x < 65536 -> fold16 f x = Some x) as Hend.
  { intros f x Hx. destruct f; simpl; rewrite Z.shiftr_div_pow2 by lia;
      (rewrite Z.div_small by lia); done. }
  assert (forall f x, 65536 <= x < 2 ^ 32 ->
    fold16 (S f) x = fold16 f (x - 65535 * (x / 65536)) /\
    0 < x - 65535 * (x / 65536) /\ (x - 65535 * (x / 65536)) mod 65535 = x mod 65535) as Hstep.
  { intros f x Hx. cbn [fold16].
    rewrite (proj2 (Z.eqb_neq (Z.shiftr x 16) 0)) by (rewrite Z.shiftr_div_pow2 by lia; div_lia).
    rewrite fold_step by lia. split; [done|]. split; [div_lia|].
    replace (x - 65535 * (x / 65536)) with (x + - (x / 65536) * 65535) by lia.
    by rewrite Z.mod_add. }
  destruct (decide (s < 65536)) as [Hl|Hl].
  { exists s. split; [apply Hend; lia|]. split; [lia|]. done. }
  destruct (Hstep 1%nat s ltac:(lia)) as (-> & H1 & H2).
  set (s1 := s - 65535 * (s / 65536)) in *.
  assert (s1 <= 131070) as H3 by (unfold s1; div_lia).
  destruct (decide (s1 < 65536)) as [Hl1|Hl1].
  { exists s1. split; [apply Hend; lia|]. split; [lia|]. split; [done|lia]. }
  destruct (Hstep 0%nat s1 ltac:(lia)) as (-> & H4 & H5).
  exists (s1 - 65535 * (s1 / 65536)). split; [apply Hend; div_lia|].
  split; [div_lia|]. split; [congruence|lia].
Qed.

Lemma lnot_u16 r : 0 <= r < 65536 -> u16 (Z.lnot r) = 65535 - r.
Proof.
  intros Hr. unfold u16, Z.lnot. replace (Z.pred (- r)) with (65535 - r + (-1) * 2 ^ 16) by lia.
  rewrite Z.mod_add by lia. apply Z.mod_small. lia.
Qed.

(** Up to 131,074 bytes (65,537 words) the 32-bit sum cannot wrap. *)
Lemma checksum16_spec data :
  len data <= 131074 ->
  exists c, checksum16 data = Some c /\ 0 <= c < 65536 /\
    (words data + c) mod 65535 = 0 /\ (words data = 0 -> c = 65535) /\
    (words data <> 0 -> c <> 65535).
Proof.
  intros Hl. pose proof (words_range data). pose proof (len_nonneg data).
  assert (words data < 2 ^ 32) as Hw by div_lia.
  unfold checksum16. rewrite sum16_words by lia. rewrite Z.add_0_l.
  destruct (fold16_spec (words data)) as (r & -> & Hr & Hm & Hz); [lia|]. simpl.
  rewrite lnot_u16 by done. exists (65535 - r). split; [done|]. split; [lia|]. split.
  - rewrite Zplus_mod, <- Hm, <- Zplus_mod. by replace (r + (65535 - r)) with (1 * 65535) by lia.
  - lia.
Qed.

(** RFC 1071: the message as 16-bit numbers in network order, an odd byte
    padded with zero; their ones' complement sum (a carry is added back); the
    checksum is its complement, and a message that carries its checksum sums to
    sixteen one bits. *)
Fixpoint words16 (data : list byte) : list Z :=
  match data with
  | hi :: lo :: rest => (b2z hi * 256 + b2z lo) :: words16 rest
  | [hi] => [b2z hi * 256]
  | [] => []
  end.

Definition oc_add (a b : Z) : Z := if 65536 <=? a + b then a + b - 65536 + 1 else a + b.
Definition oc_sum (ws : list Z) : Z := foldr oc_add 0 ws.
Definition rfc1071 (data : list byte) : Z := 65535 - oc_sum (words16 data).
Definition verifies (data : list byte) : Prop := oc_sum (words16 data) = 65535.

Lemma oc_add_spec a b x y :
  0 <= a < 65536 -> 0 <= b < 65536 -> a mod 65535 = x mod 65535 -> b mod 65535 = y mod 65535 ->
  (a = 0 <-> x = 0) -> (b = 0 <-> y = 0) -> 0 <= x -> 0 <= y ->
  0 <= oc_add a b < 65536 /\ oc_add a b mod 65535 = (x + y) mod 65535 /\ (oc_add a b = 0 <-> x + y = 0).
Proof.
  intros Ha Hb Hma Hmb Hza Hzb Hx Hy. unfold oc_add.
  assert ((a + b) mod 65535 = (x + y) mod 65535) as Hm by (by rewrite Zplus_mod, Hma, Hmb, <- Zplus_mod).
  case_if; bool_to_prop; split_and!; try lia.
  replace (a + b - 65536 + 1) with (a + b + (-1) * 65535) by lia. by rewrite Z.mod_add.
Qed.

Lemma oc_sum_spec data :
  0 <= oc_sum (words16 data) < 65536 /\ oc_sum (words16 data) mod 65535 = words data mod 65535 /\
  (oc_sum (words16 data) = 0 <-> words data = 0).
Proof.
  induction data as [|a|a b l (H1 & H2 & H3)] using list_ind2; [done| |].
  - simpl. pose proof (b2z_range a). 
    pose proof (oc_add_spec (b2z a * 256) 0 (b2z a * 256) 0) as Hs. rewrite Z.add_0_r in Hs.
    apply Hs; try done; lia.
  - simpl. pose proof (b2z_range a). pose proof (b2z_range b). pose proof (words_range l).
    apply oc_add_spec; try done; lia.
Qed.

Lemma oc_sum_verifies data : words data mod 65535 = 0 -> words data <> 0 -> verifies data.
Proof.
  intros Hm Hz. unfold verifies. destruct (oc_sum_spec data) as (Hr & Hc & Hzc).
  rewrite Hm in Hc. destruct (decide (oc_sum (words16 data) = 65535)) as [|Hn]; [done|].
  rewrite Z.mod_small in Hc by lia. tauto.
Qed.

Lemma checksum16_eq data : len data <= 131074 -> checksum16 data = Some (rfc1071 data).
Proof.
  intros Hl. pose proof (words_range data). pose proof (len_nonneg data).
  assert (words data < 2 ^ 32) as Hw by div_lia.
  unfold checksum16, rfc1071. rewrite sum16_words by lia. rewrite Z.add_0_l.
  destruct (fold16_spec (words data)) as (r & -> & Hr & Hm & Hz); [lia|]. simpl.
  rewrite lnot_u16 by done. do 2 f_equal.
  destruct (oc_sum_spec data) as (Hs & Hms & Hzs). revert Hs Hms Hzs. generalize (oc_sum (words16 data)).
  intros s Hs Hms Hzs. rewrite <- Hm in Hms.
  destruct (decide (r = 65535)) as [->|], (decide (s = 65535)) as [->|]; [done| | |].
  - rewrite (Z.mod_small s) in Hms by lia. change (65535 mod 65535) with 0 in Hms. lia.
  - rewrite (Z.mod_small r) in Hms by lia. change (65535 mod 65535) with 0 in Hms. lia.
  - rewrite !Z.mod_small in Hms by lia. done.
Qed.

Lemma words_app a b : len a mod 2 = 0 -> words (a ++ b) = words a + words b.
Proof.
  induction a as [|x|x y l IH] using list_ind2; intros Hm; [done|done|].
  simpl. rewrite !len_cons in Hm. rewrite IH; [lia|].
  replace (1 + (1 + len l)) with (len l + 1 * 2) in Hm by lia. by rewrite Z.mod_add in Hm by lia.
Qed.

Lemma words_be16 v : 0 <= v < 65536 -> words (be16 v) = v.
Proof.
  intros Hv. unfold be16, words. rewrite !b2z_z2b.
  rewrite (Z.mod_small (v / 256)) by (split; div_lia). div_lia.
Qed.

(** Filling in the checksum makes the message verify. *)
Lemma checksum16_fill pre post c :
  len pre mod 2 = 0 -> len pre + 2 + len post <= 131074 ->
  checksum16 (pre ++ [x00; x00] ++ post) = Some c ->
  verifies (pre ++ be16 c ++ post).
Proof.
  intros Hp Hl Hc. pose proof (len_nonneg pre). pose proof (len_nonneg post).
  destruct (checksum16_spec (pre ++ [x00; x00] ++ post)) as (c' & Hc' & Hr & Hm & Hz & Hnz).
  { rewrite !len_app. change (len [x00; x00]) with 2. lia. }
  rewrite Hc in Hc'. injection Hc' as <-.
  apply oc_sum_verifies; rewrite !words_app in * by done; rewrite words_be16 in * by done;
    change (words [x00; x00]) with 0 in *.
  - by replace (words pre + (c + words post)) with (words pre + (0 + words post) + c) by lia.
  - pose proof (words_range pre). pose proof (words_range post). lia.
Qed.

(** ** What the receiver of the packet sees *)

Record udp_datagram : Type := mk_udp {
  ud_src : list byte; ud_dst : list byte;
  ud_sport : list byte; ud_dport : list byte;
  ud_data : list byte
}.

(** An IPv4 header without options, then a UDP header, by RFC 791 and RFC 768
    (the IP checksum apart). *)
Definition udp_decode (p : list byte) : option udp_datagram :=
  if negb (sub 0 1 p =s [x45]) then None else
  if negb (sub 2 2 p =s be16 (len p)) || negb (sub 6 2 p =s [x00; x00]) then None else
  if negb (sub 9 1 p =s [z2b IPPROTO_UDP]) then None else
  if negb (sub 24 2 p =s be16 (len p - 20)) then None else
  Some (mk_udp (sub 12 4 p) (sub 16 4 p) (sub 20 2 p) (sub 22 2 p) (drop 28 p)).

Lemma list2 (l : list byte) : length l = 2%nat -> exists a b, l = [a; b].
Proof. destruct l as [|a [|b [|]]]; try done. eauto. Qed.

Lemma list4 (l : list byte) : length l = 4%nat -> exists a b c d, l = [a; b; c; d].
Proof. destruct l as [|a [|b [|c [|d [|]]]]]; try done. eauto. Qed.

Lemma native16_length h v : length (native16 h v) = 2%nat.
Proof. unfold native16. by destruct (big_endian h). Qed.

Lemma ip_field_length h v : length (compat_raw_ip_len h v) = 2%nat.
Proof. unfold compat_raw_ip_len. destruct (bsd_raw h); [apply native16_length|done]. Qed.

Section packet.
Context (h : host) (inet_pton : Z -> list byte -> option (list byte)).
(** POSIX: an IPv4 address is four bytes. *)
Hypothesis inet_pton_4 : forall s a, inet_pton AF_INET s = Some a -> length a = 4%nat.

Definition ip_head (packet_len : Z) : list byte :=
  [x45; x00] ++ compat_raw_ip_len h (u16 packet_len) ++ [x00; x00]
    ++ compat_raw_ip_off h 0 ++ [x40; x11].

Lemma raw_ip_header_split src dst n sum :
  raw_ip_header h src dst n sum = ip_head n ++ sum ++ sin_addr src ++ sin_addr dst.
Proof. unfold raw_ip_header, raw_ipv4_hdr, ip_head. by rewrite <- !app_assoc. Qed.

Lemma ip_head_length n : length (ip_head n) = 10%nat.
Proof.
  unfold ip_head. rewrite !length_app, ip_field_length.
  change (compat_raw_ip_off h 0) with (compat_raw_ip_len h 0). by rewrite ip_field_length.
Qed.

Lemma sin_addr_length sa n : sa_backed sa n -> SIZEOF_SOCKADDR_IN <= n -> length (sin_addr sa) = 4%nat.
Proof. intros H1 H2. exact (proj1 (sa_backed_fields PP2_IPv4 sa n H1 H2)). Qed.

Lemma src_addr_spec ep sa :
  endpoint_to_sockaddr_in inet_pton ep = Ok sa ->
  exists a, inet_pton AF_INET (ep_host ep) = Some a /\ length a = 4%nat /\
    sin_addr sa = a /\ sin_port sa = be16 (ep_port ep) /\ sa_backed sa SIZEOF_SOCKADDR_IN.
Proof.
  unfold endpoint_to_sockaddr_in. destruct (ep_kind ep); try done.
  destruct (inet_pton _ _) as [a|] eqn:Ea; [|done]. intros [= <-].
  pose proof (inet_pton_4 _ _ Ea) as Hl. exists a. split; [done|].
  destruct (list4 a Hl) as (? & ? & ? & ? & ->). by split_and!.
Qed.

Lemma raw_packet_total src dst data :
  length (sin_addr src) = 4%nat -> length (sin_addr dst) = 4%nat ->
  exists c, checksum16 (raw_ip_header h src dst (20 + 8 + len data) [x00; x00]) = Some c /\
    0 <= c < 65536 /\
    verifies (raw_ip_header h src dst (20 + 8 + len data) (be16 c)) /\
    raw_packet h src dst data =
    Some (raw_ip_header h src dst (20 + 8 + len data) (native16 h c) ++
          raw_udp_hdr (sin_port src) (sin_port dst) (be16 (u16 (8 + len data))) [x00; x00] ++ data).
Proof.
  intros Hs Hd. rewrite !raw_ip_header_split.
  destruct (checksum16_spec (ip_head (20 + 8 + len data) ++ [x00; x00] ++ sin_addr src ++ sin_addr dst))
    as (c & Hc & Hr & _).
  { unfold Zlength. rewrite !length_app, ip_head_length, Hs, Hd. done. }
  exists c. split; [done|]. split; [done|]. split.
  - rewrite raw_ip_header_split.
    apply checksum16_fill; [| |done]; unfold Zlength; rewrite ?length_app, ip_head_length, ?Hs, ?Hd; done.
  - unfold raw_packet. rewrite raw_ip_header_split, Hc. cbn [mbind option_bind].
    by rewrite raw_ip_header_split.
Qed.
End packet.

(** The 28 header bytes of a packet built on a host with Linux-style raw
    sockets decode to the addresses, the ports and the data. *)
Lemma udp_decode_packet h src dst data a1 a2 sum :
  bsd_raw h = false ->
  sin_addr src = a1 -> sin_addr dst = a2 -> length a1 = 4%nat -> length a2 = 4%nat ->
  length (sin_port src) = 2%nat -> length (sin_port dst) = 2%nat -> length sum = 2%nat ->
  20 + 8 + len data < 65536 ->
  udp_decode (raw_ip_header h src dst (20 + 8 + len data) sum ++
    raw_udp_hdr (sin_port src) (sin_port dst) (be16 (u16 (8 + len data))) [x00; x00] ++ data) =
  Some (mk_udp a1 a2 (sin_port src) (sin_port dst) data).
Proof.
  intros Hb H1 H2 Hl1 Hl2 Hp1 Hp2 Hsum Hlen. pose proof (len_nonneg data).
  unfold raw_ip_header, raw_ipv4_hdr, raw_udp_hdr, compat_raw_ip_len, compat_raw_ip_off.
  rewrite Hb, H1, H2. unfold u16. rewrite !Z.mod_small by lia.
  destruct (list4 _ Hl1) as (b1 & b2 & b3 & b4 & ->).
  destruct (list4 _ Hl2) as (c1 & c2 & c3 & c4 & ->).
  destruct (list2 _ Hp1) as (p1 & p2 & ->). destruct (list2 _ Hp2) as (q1 & q2 & ->).
  destruct (list2 _ Hsum) as (s1 & s2 & ->).
  set (L := be16 (20 + 8 + len data)). set (M := be16 (8 + len data)).
  destruct (list2 L eq_refl) as (l1 & l2 & HL). destruct (list2 M eq_refl) as (m1 & m2 & HM).
  rewrite HL, HM. change (be16 0) with [x00; x00]. cbn [app]. unfold udp_decode.
  assert (forall (x : list byte), (x =s x) = true) as Hrefl
    by (intros; by apply bool_decide_true).
  match goal with |- context [len ?p] => assert (len p = 20 + 8 + len data) as Hpl end.
  { unfold Zlength. cbn [length]. lia. }
  rewrite Hpl. replace (20 + 8 + len data - 20) with (8 + len data) by lia. fold L M.
  rewrite HL, HM. cbn -[bytes_eqb]. by rewrite !Hrefl.
Qed.

(** A packet handed to [sendto] decodes to what was asked for. *)
Lemma raw_send_spec : forall h inet_pton calloc_ok sendto raw_fd ep dst dst_len data,
  has_ipv4_raw h = true -> bsd_raw h = false ->
  (forall s a, inet_pton AF_INET s = Some a -> length a = 4%nat) ->
  sa_backed dst dst_len ->
  exists rc sent,
    datagram_raw_send_udp_ipv4 h inet_pton calloc_ok sendto raw_fd (Some ep) (Some dst) dst_len
      (Some data) = Some (rc, sent) /\
    (sent = [] -> rc < 0) /\
    (sent <> [] -> exists packet send_dst a, sent = [(packet, send_dst)] /\
      inet_pton AF_INET (ep_host ep) = Some a /\ sin_addr send_dst = sin_addr dst /\
      len packet = 28 + len data /\ len packet <= 65535 /\
      udp_decode packet =
        Some (mk_udp a (sin_addr dst) (be16 (ep_port ep)) (sin_port dst) data) /\
      (big_endian h = true -> verifies (take 20 packet))).
Proof.
  intros * Hh Hb Hpton Hd. unfold datagram_raw_send_udp_ipv4. rewrite Hh. cbn [negb].
  do 3 (case_if; [by eexists _, _|]). bool_to_prop.
  destruct (endpoint_to_sockaddr_in _ _) as [src|e] eqn:Es.
  2: { exists e, []. split; [done|]. split; [|done]. intros _. unfold endpoint_to_sockaddr_in in Es.
       destruct (ep_kind ep), (inet_pton AF_INET (ep_host ep)); by simplify_eq. }
  do 2 (case_if; [by eexists _, _|]). bool_to_prop.
  destruct (src_addr_spec _ Hpton _ _ Es) as (a & Ha & Hal & Hsa & Hsp & Hbk).
  pose proof (sin_addr_length dst _ Hd ltac:(lia)) as Hdl.
  destruct (raw_packet_total h src dst data ltac:(congruence) Hdl) as (c & Hc & Hcr & Hv & ->).
  cbn [mbind option_bind]. set (packet := raw_ip_header _ _ _ _ _ ++ _).
  set (send_dst := mk_sockaddr AF_INET _).
  assert (exists rc, match sendto raw_fd packet send_dst with
    | Ok n => Some (if n =? 20 + 8 + len data then 0 else - EIO, [(packet, send_dst)])
    | Err e => Some (- e, [(packet, send_dst)])
    end = Some (rc, [(packet, send_dst)])) as [rc ->] by (destruct (sendto _ _ _); eauto).
  exists rc, [(packet, send_dst)]. split; [done|]. split; [done|]. intros _.
  exists packet, send_dst, a. split; [done|]. split; [done|].
  destruct (sa_backed_fields PP2_IPv4 _ _ Hd) as [_ (q1 & q2 & Hq)]; [simpl; lia|].
  assert (length (raw_ip_header h src dst (20 + 8 + len data) (native16 h c)) = 20%nat) as Hhl.
  { rewrite raw_ip_header_split, !length_app, ip_head_length, native16_length, Hsa, Hal, Hdl. done. }
  assert (len packet = 28 + len data) as Hpl.
  { unfold packet, raw_udp_hdr. rewrite !len_app, Hsp, Hq. unfold Zlength at 1. rewrite Hhl.
    change (len (be16 _)) with 2. change (len [_; _]) with 2. lia. }
  split_and!; [|done|lia| |].
  - unfold send_dst. destruct (list4 _ Hdl) as (? & ? & ? & ? & ->). done.
  - unfold packet. rewrite <- Hsp. apply udp_decode_packet; try done; try lia.
    + by rewrite Hsp.
    + by rewrite Hq.
    + apply native16_length.
  - intros Hbe. unfold packet. rewrite take_app_length' by done. unfold native16. by rewrite Hbe.
Qed.

(** ** The theorems *)

(** C29: [checksum16] computes the Internet checksum. Over any message of at
    most 131,074 bytes it returns (the folding loop ends within two rounds, the
    32-bit sum does not wrap) the complement of the ones' complement sum of the
    message's 16-bit words, as RFC 1071 defines it; and the message in which the
    result replaces a zeroed field at an even offset, in network order, passes
    the RFC's test. *)
Theorem checksum16_rfc1071 :
  (forall data, len data <= 131074 -> checksum16 data = Some (rfc1071 data)) /\
  (forall pre post c, len pre mod 2 = 0 -> len pre + 2 + len post <= 131074 ->
     checksum16 (pre ++ [x00; x00] ++ post) = Some c -> verifies (pre ++ be16 c ++ post)).
Proof. split; [exact checksum16_eq|exact checksum16_fill]. Qed.

Lemma checksum16_rfc1071_witness :
  checksum16 (str "abcde") = Some (rfc1071 (str "abcde")) /\
  exists c, checksum16 (str "ab" ++ [x00; x00] ++ str "cde") = Some c /\
    verifies (str "ab" ++ be16 c ++ str "cde").
Proof.
  split; [apply (proj1 checksum16_rfc1071); vm_compute; discriminate|].
  eexists. split; [vm_compute; reflexivity|].
  apply (proj2 checksum16_rfc1071); vm_compute; (reflexivity || discriminate).
Defined.

(** C11: a spoofed reply. On a host with Linux-style raw sockets the function
    returns without any out-of-range arithmetic; it hands at most one packet to
    [sendto], one if it returns 0, and that packet is at most 65,535 bytes long
    and decodes to a UDP datagram from the endpoint's address and port to the
    client's address and port with exactly the given data. On a big-endian
    host its IP header checksum verifies. *)
Theorem raw_send_roundtrip : forall h inet_pton calloc_ok sendto raw_fd ep dst dst_len data,
  has_ipv4_raw h = true -> bsd_raw h = false ->
  (forall s a, inet_pton AF_INET s = Some a -> length a = 4%nat) ->
  sa_backed dst dst_len ->
  exists rc sent,
    datagram_raw_send_udp_ipv4 h inet_pton calloc_ok sendto raw_fd (Some ep) (Some dst) dst_len
      (Some data) = Some (rc, sent) /\
    (sent = [] -> rc < 0) /\
    (sent <> [] -> exists packet send_dst a, sent = [(packet, send_dst)] /\
      inet_pton AF_INET (ep_host ep) = Some a /\ sin_addr send_dst = sin_addr dst /\
      len packet = 28 + len data /\ len packet <= 65535 /\
      udp_decode packet =
        Some (mk_udp a (sin_addr dst) (be16 (ep_port ep)) (sin_port dst) data) /\
      (big_endian h = true -> verifies (take 20 packet))).
Proof. exact raw_send_spec. Qed.

Definition example_pton (af : Z) (s : list byte) : option (list byte) :=
  if s =s str "10.0.0.1" then Some [x0a; x00; x00; x01] else None.

Definition example_ep : endpoint :=
  mk_endpoint ENDPOINT_INET (str "10.0.0.1") 5353 PROTO_UDP [] X_BUILTIN_NONE.

Lemma raw_send_roundtrip_witness :
  let h := mk_host true false true in
  let dst := example_sa 40000 [x0a; x00; x00; x63] in
  exists rc packet send_dst,
    datagram_raw_send_udp_ipv4 h example_pton (fun _ => true)
      (fun _ p _ => Ok (len p)) 7 (Some example_ep) (Some dst) 16 (Some (str "pong"))
      = Some (rc, [(packet, send_dst)]) /\
    udp_decode packet =
      Some (mk_udp [x0a; x00; x00; x01] [x0a; x00; x00; x63] (be16 5353) (be16 40000) (str "pong")) /\
    verifies (take 20 packet).
Proof.
  cbv zeta.
  destruct (raw_send_roundtrip (mk_host true false true) example_pton (fun _ => true)
    (fun _ p _ => Ok (len p)) 7 example_ep (example_sa 40000 [x0a; x00; x00; x63]) 16 (str "pong"))
    as (rc & sent & H1 & _ & H2).
  - reflexivity.
  - reflexivity.
  - unfold example_pton. intros s a. case_if; [|discriminate]. intros [= <-]. reflexivity.
  - vm_compute. discriminate.
  - destruct H2 as (packet & sd & a & -> & Ha & _ & _ & _ & Hdec & Hv).
    { vm_compute in H1. injection H1 as _ <-. discriminate. }
    exists rc, packet, sd. split; [exact H1|]. vm_compute in Ha. injection Ha as <-.
    split; [exact Hdec|]. apply Hv. reflexivity.
Defined.

(** On a little-endian host the header checksum is stored with its bytes
    swapped ([ip->sum] gets the value without [htons]): there is a reply whose
    IP header, as handed to [sendto], does not verify, although the same reply
    built on a big-endian host does. *)
Theorem raw_checksum_host_order :
  exists ep dst data, forall be,
  exists packet send_dst,
    datagram_raw_send_udp_ipv4 (mk_host be false true) example_pton (fun _ => true)
      (fun _ p _ => Ok (len p)) 7 (Some ep) (Some dst) 16 (Some data)
      = Some (0, [(packet, send_dst)]) /\
    (verifies (take 20 packet) <-> be = true).
Proof.
  exists example_ep, (example_sa 40000 [x0a; x00; x00; x63]), (str "pong"). intros [].
  - eexists _, _. split; [vm_compute; reflexivity|]. by split.
  - eexists _, _. split; [vm_compute; reflexivity|]. split; [|done]. intros H. vm_compute in H. done.
Qed.
