(* ===== verification/Worker.v ===== *)
(** * Workers and their message queues ([worker.c])

    A worker owns an event loop, a socket pair that wakes it up, and a linked
    list of messages guarded by a mutex. The heap is explicit: a message lives
    at a location of [ws_msgs], its packet buffer at a location of [ws_bufs];
    reading, writing or freeing a location that is not allocated is [None].
    Descriptors that the code closes are recorded in [ws_closed], in order.

    What a message does when it is processed is the business of the stream and
    datagram components; the worker's side of the contract is the class
    [WorkerHandlers]. *)

From stdpp Require Import gmap.
From S2P Require Import Prelude CString Endpoint.

Definition loc : Type := positive.

Definition EVUTIL_INVALID_SOCKET : Z := -1.
Definition socket_is_valid (fd : Z) : bool := negb (fd =? EVUTIL_INVALID_SOCKET).

(** [memcpy(&storage, addr, n)] into a zeroed [struct sockaddr_storage]. *)
Definition storage_zero : sockaddr := mk_sockaddr 0 (replicate 126 x00).
Definition copy_storage (sa : sockaddr) (n : Z) : sockaddr :=
  let d := take (Z.to_nat (n - 2)) (sa_data sa) in
  mk_sockaddr (sa_family sa) (d ++ replicate (126 - length d) x00).

(** ** Messages *)

Record stream_client_msg : Type := mk_stream_client {
  sc_route : route;
  sc_fd : Z;
  sc_peer_addr : sockaddr;
  sc_peer_addr_len : Z
}.

(** [ctx] is a shared mutable object: its identity. [data] is a heap pointer. *)
Record datagram_packet_msg : Type := mk_datagram_packet {
  dp_route : route;
  dp_ctx : nat;
  dp_peer_addr : sockaddr;
  dp_peer_addr_len : Z;
  dp_data : option loc;
  dp_data_len : Z
}.

Inductive worker_payload : Type :=
| WORKER_MSG_STREAM_CLIENT (m : stream_client_msg)
| WORKER_MSG_DATAGRAM_PACKET (m : datagram_packet_msg).

Record worker_msg : Type := mk_worker_msg {
  wm_payload : worker_payload;
  wm_next : option loc
}.

(** ** Workers *)

Record worker : Type := mk_worker {
  w_id : Z;
  w_base : bool;                    (* base != NULL *)
  w_mutex : bool;                   (* pending_mu is initialised *)
  w_started : bool;
  w_stopping : bool;
  w_notify_recv_fd : Z;
  w_notify_send_fd : Z;
  w_notify_event : bool;            (* notify_event != NULL *)
  w_pending_head : option loc;
  w_pending_tail : option loc;
  w_wakeups : nat                   (* unread bytes of the socket pair *)
}.

Definition set_pending (w : worker) (h t : option loc) : worker :=
  mk_worker (w_id w) (w_base w) (w_mutex w) (w_started w) (w_stopping w)
    (w_notify_recv_fd w) (w_notify_send_fd w) (w_notify_event w) h t (w_wakeups w).
Definition set_stopping (w : worker) : worker :=
  mk_worker (w_id w) (w_base w) (w_mutex w) (w_started w) true
    (w_notify_recv_fd w) (w_notify_send_fd w) (w_notify_event w)
    (w_pending_head w) (w_pending_tail w) (w_wakeups w).
Definition set_started (w : worker) (b : bool) : worker :=
  mk_worker (w_id w) (w_base w) (w_mutex w) b (w_stopping w)
    (w_notify_recv_fd w) (w_notify_send_fd w) (w_notify_event w)
    (w_pending_head w) (w_pending_tail w) (w_wakeups w).
Definition set_wakeups (w : worker) (n : nat) : worker :=
  mk_worker (w_id w) (w_base w) (w_mutex w) (w_started w) (w_stopping w)
    (w_notify_recv_fd w) (w_notify_send_fd w) (w_notify_event w)
    (w_pending_head w) (w_pending_tail w) n.

(** What the other components promise to the worker: each entry point takes
    the worker's id, the message (with the bytes of the packet) and the state of
    that component. *)
Class WorkerHandlers (S : Type) : Type := {
  worker_adopt_client_fd : Z -> stream_client_msg -> S -> S;
  cleanup_idle_datagram_clients : nat -> S -> S;
  datagram_route_handle_packet : Z -> datagram_packet_msg -> list byte -> S -> S
}.

Record wstate (S : Type) : Type := mk_wstate {
  ws_msgs : gmap loc worker_msg;
  ws_bufs : gmap loc (list byte);
  ws_w : worker;
  ws_closed : list Z;
  ws_h : S
}.
Arguments mk_wstate {S} _ _ _ _ _.
Arguments ws_msgs {S} _.
Arguments ws_bufs {S} _.
Arguments ws_w {S} _.
Arguments ws_closed {S} _.
Arguments ws_h {S} _.

Section ops.
Context {S : Type} `{WorkerHandlers S}.
Implicit Types (st : wstate S) (l : loc).

Definition with_w st (w : worker) : wstate S :=
  mk_wstate (ws_msgs st) (ws_bufs st) w (ws_closed st) (ws_h st).
Definition with_h st (h : S) : wstate S :=
  mk_wstate (ws_msgs st) (ws_bufs st) (ws_w st) (ws_closed st) h.
Definition close_fd st (fd : Z) : wstate S :=
  mk_wstate (ws_msgs st) (ws_bufs st) (ws_w st) (ws_closed st ++ [fd]) (ws_h st).

(** Loads, stores and [free] of a message. *)
Definition load_msg st l : option worker_msg := ws_msgs st !! l.
Definition store_msg st l (m : worker_msg) : option (wstate S) :=
  _ ← load_msg st l;
  Some (mk_wstate (<[l := m]> (ws_msgs st)) (ws_bufs st) (ws_w st) (ws_closed st) (ws_h st)).
Definition free_msg st l : option (wstate S) :=
  _ ← load_msg st l;
  Some (mk_wstate (delete l (ws_msgs st)) (ws_bufs st) (ws_w st) (ws_closed st) (ws_h st)).

(** [free(data)]; [free(NULL)] does nothing. *)
Definition free_buf st (p : option loc) : option (wstate S) :=
  match p with
  | None => Some st
  | Some l =>
      _ ← ws_bufs st !! l;
      Some (mk_wstate (ws_msgs st) (delete l (ws_bufs st)) (ws_w st) (ws_closed st) (ws_h st))
  end.

(** [data[0 .. data_len)]. *)
Definition read_buf st (p : option loc) (n : Z) : option (list byte) :=
  match p with
  | None => if n =? 0 then Some [] else None
  | Some l => d ← ws_bufs st !! l; if len d =? n then Some d else None
  end.

(** *** Wake-ups *)

(** [send(notify_send_fd, &byte, 1)]: [None] when the byte was sent, or errno. *)
Definition notify_worker (sent : option Z) st : Z * wstate S :=
  match sent with
  | None => (0, with_w st (set_wakeups (ws_w st) (1 + w_wakeups (ws_w st))))
  | Some err => if err =? EAGAIN then (0, st) else (err, st)
  end.

(** One round of the [recv] loop: true when the loop goes on. *)
Definition drain_round st : bool * wstate S :=
  let n := Nat.min 128 (w_wakeups (ws_w st)) in
  if (n =? 0)%nat then (false, st)      (* EAGAIN *)
  else (negb (n <? 128)%nat, with_w st (set_wakeups (ws_w st) (w_wakeups (ws_w st) - n))).

Fixpoint drain_notify_fd (fuel : nat) st : option (wstate S) :=
  match fuel with
  | O => None
  | Datatypes.S fuel =>
      let '(again, st) := drain_round st in
      if again then drain_notify_fd fuel st else Some st
  end.

(** *** Taking and processing the queue *)

Definition worker_take_pending st : option loc * wstate S :=
  (w_pending_head (ws_w st), with_w st (set_pending (ws_w st) None None)).

Definition worker_process_msg st l : option (wstate S) :=
  msg ← load_msg st l;
  match wm_payload msg with
  | WORKER_MSG_STREAM_CLIENT m =>
      Some (with_h st (worker_adopt_client_fd (w_id (ws_w st)) m (ws_h st)))
  | WORKER_MSG_DATAGRAM_PACKET m =>
      d ← read_buf st (dp_data m) (dp_data_len m);
      Some (with_h st (datagram_route_handle_packet (w_id (ws_w st)) m d
                         (cleanup_idle_datagram_clients (dp_ctx m) (ws_h st))))
  end.

Definition free_processed_worker_msg st l : option (wstate S) :=
  msg ← load_msg st l;
  match wm_payload msg with
  | WORKER_MSG_STREAM_CLIENT _ => free_msg st l
  | WORKER_MSG_DATAGRAM_PACKET m => st ← free_buf st (dp_data m); free_msg st l
  end.

(** The [while (msg)] loop. *)
Fixpoint process_list (fuel : nat) st (msg : option loc) : option (wstate S) :=
  match msg with
  | None => Some st
  | Some l =>
      match fuel with
      | O => None
      | Datatypes.S fuel =>
          m ← load_msg st l;
          let next := wm_next m in
          st ← worker_process_msg st l;
          st ← free_processed_worker_msg st l;
          process_list fuel st next
      end
  end.

Definition worker_process_pending st : option (wstate S) :=
  let '(msg, st) := worker_take_pending st in
  process_list (size (ws_msgs st)) st msg.

(** [worker_notify_cb]: true when it breaks the event loop. *)
Definition worker_notify_cb st : option (bool * wstate S) :=
  st ← drain_notify_fd (1 + w_wakeups (ws_w st)) st;
  st ← worker_process_pending st;
  Some (w_stopping (ws_w st), st).

(** *** Enqueueing *)

Definition free_worker_msg st l : option (wstate S) :=
  msg ← load_msg st l;
  match wm_payload msg with
  | WORKER_MSG_STREAM_CLIENT m =>
      let st := if socket_is_valid (sc_fd m) then close_fd st (sc_fd m) else st in
      free_msg st l
  | WORKER_MSG_DATAGRAM_PACKET m => st ← free_buf st (dp_data m); free_msg st l
  end.

(** The critical section of [worker_enqueue_msg]: links the message, or
    reports that the worker is stopping. *)
Definition enqueue_link st l : option (bool * wstate S) :=
  if w_stopping (ws_w st) then Some (false, st) else
  m ← load_msg st l;
  st ← store_msg st l (mk_worker_msg (wm_payload m) None);
  match w_pending_tail (ws_w st) with
  | Some t =>
      mt ← load_msg st t;
      st ← store_msg st t (mk_worker_msg (wm_payload mt) (Some l));
      Some (true, with_w st (set_pending (ws_w st) (w_pending_head (ws_w st)) (Some l)))
  | None => Some (true, with_w st (set_pending (ws_w st) (Some l) (Some l)))
  end.

Definition worker_enqueue_msg (sent : option Z) st l : option (Z * wstate S) :=
  '(linked, st) ← enqueue_link st l;
  if linked : bool then Some (0, (notify_worker sent st).2)
  else st ← free_worker_msg st l; Some (ECANCELED, st).

(** [calloc]/[malloc]: the location, or [None] when it fails. *)
Definition alloc_msg st l (m : worker_msg) : wstate S :=
  mk_wstate (<[l := m]> (ws_msgs st)) (ws_bufs st) (ws_w st) (ws_closed st) (ws_h st).
Definition alloc_buf st l (d : list byte) : wstate S :=
  mk_wstate (ws_msgs st) (<[l := d]> (ws_bufs st)) (ws_w st) (ws_closed st) (ws_h st).

Definition worker_enqueue_stream_client (calloc : option loc) (sent : option Z) st
    (r : option route) (fd : Z) (addr : option sockaddr) (addr_len : Z)
    : option (Z * wstate S) :=
  match r with
  | None => Some (EINVAL, st)
  | Some r =>
      if negb (socket_is_valid fd) then Some (EINVAL, st) else
      if SIZEOF_SOCKADDR_STORAGE <? addr_len then Some (EINVAL, st) else
      match calloc with
      | None => Some (ENOMEM, st)
      | Some l =>
          let m :=
            match addr with
            | Some a => if 0 <? addr_len then mk_stream_client r fd (copy_storage a addr_len) addr_len
                        else mk_stream_client r fd storage_zero 0
            | None => mk_stream_client r fd storage_zero 0
            end in
          worker_enqueue_msg sent (alloc_msg st l (mk_worker_msg (WORKER_MSG_STREAM_CLIENT m) None)) l
      end
  end.

(** [ctx] is given by its identity, its route and its listening socket. *)
Definition worker_enqueue_datagram_packet (calloc malloc : option loc) (sent : option Z) st
    (ctx : nat) (r : option route) (listen_fd : Z)
    (peer_addr : option sockaddr) (peer_addr_len : Z) (data : option (list byte))
    (data_len : Z) : option (Z * wstate S) :=
  match r with
  | None => Some (EINVAL, st)
  | Some r =>
      if negb (socket_is_valid listen_fd) then Some (EINVAL, st) else
      match peer_addr with
      | None => Some (EINVAL, st)
      | Some pa =>
          if (peer_addr_len =? 0) || (SIZEOF_SOCKADDR_STORAGE <? peer_addr_len)
          then Some (EINVAL, st) else
          if bool_decide (data = None) && (0 <? data_len) then Some (EINVAL, st) else
          match calloc with
          | None => Some (ENOMEM, st)
          | Some l =>
              let pkt p n := mk_worker_msg (WORKER_MSG_DATAGRAM_PACKET
                (mk_datagram_packet r ctx (copy_storage pa peer_addr_len) peer_addr_len p n)) None in
              if 0 <? data_len then
                match malloc with
                | None => Some (ENOMEM, st)     (* the message is freed again *)
                | Some b =>
                    let d := take (Z.to_nat data_len) (default [] data) in
                    worker_enqueue_msg sent (alloc_buf (alloc_msg st l (pkt (Some b) data_len)) b d) l
                end
              else worker_enqueue_msg sent (alloc_msg st l (pkt None 0)) l
          end
      end
  end.

(** *** Life cycle *)

Definition worker_start (created : Z) st : Z * wstate S :=
  if negb (w_base (ws_w st)) then (EINVAL, st) else
  if w_started (ws_w st) then (0, st) else
  if negb (created =? 0) then (created, st) else
  (0, with_w st (set_started (ws_w st) true)).

Definition worker_stop (sent : option Z) st : wstate S :=
  let st := with_w st (set_stopping (ws_w st)) in
  if w_started (ws_w st) then (notify_worker sent st).2 else st.

(** [compat_thread_join] returns when the thread has left its event loop;
    [thread] is what that thread still does until then. *)
Definition worker_join (thread : wstate S -> option (wstate S)) st : option (wstate S) :=
  if w_started (ws_w st)
  then st ← thread st; Some (with_w st (set_started (ws_w st) false))
  else Some st.

Fixpoint free_list (fuel : nat) st (msg : option loc) : option (wstate S) :=
  match msg with
  | None => Some st
  | Some l =>
      match fuel with
      | O => None
      | Datatypes.S fuel =>
          m ← load_msg st l;
          let next := wm_next m in
          st ← free_worker_msg st l;
          free_list fuel st next
      end
  end.

Definition worker_free (sent : option Z) (thread : wstate S -> option (wstate S)) st
    : option (wstate S) :=
  st ← worker_join thread (worker_stop sent st);
  let '(msg, st) := worker_take_pending st in
  st ← free_list (size (ws_msgs st)) st msg;
  let w := ws_w st in
  let st := if socket_is_valid (w_notify_recv_fd w) then close_fd st (w_notify_recv_fd w) else st in
  let st := if socket_is_valid (w_notify_send_fd w) then close_fd st (w_notify_send_fd w) else st in
  Some (with_w st (mk_worker (w_id w) false false (w_started w) (w_stopping w)
    EVUTIL_INVALID_SOCKET EVUTIL_INVALID_SOCKET false (w_pending_head w) (w_pending_tail w)
    (w_wakeups w))).
End ops.

(** ** [worker_init]: the resources it acquires and releases *)

Inductive wres : Type := RBase | RMutex | RFd (fd : Z) | REvent.

#[export] Instance wres_eq_dec : EqDecision wres.
Proof. solve_decision. Defined.

Record init_out : Type := mk_init {
  io_rc : Z;
  io_worker : worker;
  io_acquired : list wres;
  io_released : list wres
}.

Section init.
Context (event_base_new : bool)             (* not NULL *)
  (compat_mutex_init : option Z)            (* errno when it fails *)
  (evutil_socketpair : result (Z * Z))
  (event_new : bool) (event_add : bool).

Definition worker_zero (id : Z) : worker :=
  mk_worker id false false false false EVUTIL_INVALID_SOCKET EVUTIL_INVALID_SOCKET false None None 0.

Definition worker_init (id : Z) : init_out :=
  let w0 := worker_zero id in
  if negb event_base_new then mk_init ENOMEM w0 [] [] else
  match compat_mutex_init with
  | Some err => mk_init (if err =? 0 then EINVAL else err) w0 [RBase] [RBase]
  | None =>
      match evutil_socketpair with
      | Err e => mk_init e w0 [RBase; RMutex] [RMutex; RBase]
      | Ok (fd0, fd1) =>
          let acq := [RBase; RMutex; RFd fd0; RFd fd1] in
          if negb event_new
          then mk_init ENOMEM w0 acq [RFd fd0; RFd fd1; RMutex; RBase] else
          if negb event_add
          then mk_init EINVAL w0 (acq ++ [REvent]) [REvent; RFd fd0; RFd fd1; RMutex; RBase] else
          mk_init 0 (mk_worker id true true false false fd0 fd1 true None None 0)
            (acq ++ [REvent]) []
      end
  end.
End init.
