(* ===== verification/WorkerFacts.v ===== *)
(** * The message queue refines a FIFO, and wake-ups are not lost

    The linked list of [worker.c] is related to a list of items by [lseg];
    [heap_inv] says that the heap holds exactly the messages and packet buffers
    of these items, so that freeing too little or twice is excluded. The second
    half interleaves producers, [worker_stop] and the worker thread at the
    granularity of the critical sections. *)

From stdpp Require Import gmap.
From S2P Require Import Prelude CString Endpoint Worker.

(** A message of the queue: where it is, what it says, and its packet. *)
Record qitem : Type := mk_item {
  qi_loc : loc;
  qi_payload : worker_payload;
  qi_data : list byte
}.

Definition item_buf (i : qitem) : option loc :=
  match qi_payload i with
  | WORKER_MSG_STREAM_CLIENT _ => None
  | WORKER_MSG_DATAGRAM_PACKET m => dp_data m
  end.

Definition item_ok (bufs : gmap loc (list byte)) (i : qitem) : Prop :=
  match qi_payload i with
  | WORKER_MSG_STREAM_CLIENT _ => qi_data i = []
  | WORKER_MSG_DATAGRAM_PACKET m =>
      len (qi_data i) = dp_data_len m /\
      match dp_data m with
      | None => qi_data i = []
      | Some b => bufs !! b = Some (qi_data i)
      end
  end.

Fixpoint lseg (msgs : gmap loc worker_msg) (p : option loc) (q : list qitem) (e : option loc)
    : Prop :=
  match q with
  | [] => p = e
  | i :: rest =>
      p = Some (qi_loc i) /\
      exists nx, msgs !! qi_loc i = Some (mk_worker_msg (qi_payload i) nx) /\ lseg msgs nx rest e
  end.

Record heap_inv (msgs : gmap loc worker_msg) (bufs : gmap loc (list byte)) (items : list qitem)
    : Prop := {
  hi_locs : NoDup (qi_loc <$> items);
  hi_dom : dom msgs = list_to_set (qi_loc <$> items);
  hi_bufs : NoDup (omap item_buf items);
  hi_bdom : dom bufs = list_to_set (omap item_buf items);
  hi_ok : Forall (item_ok bufs) items
}.

(** What processing an item does to the components behind the worker. *)
Definition handle_item {S} `{WorkerHandlers S} (id : Z) (h : S) (i : qitem) : S :=
  match qi_payload i with
  | WORKER_MSG_STREAM_CLIENT m => worker_adopt_client_fd id m h
  | WORKER_MSG_DATAGRAM_PACKET m =>
      datagram_route_handle_packet id m (qi_data i) (cleanup_idle_datagram_clients (dp_ctx m) h)
  end.

(** The descriptor an unprocessed message still owns. *)
Definition item_fd (i : qitem) : list Z :=
  match qi_payload i with
  | WORKER_MSG_STREAM_CLIENT m => if socket_is_valid (sc_fd m) then [sc_fd m] else []
  | WORKER_MSG_DATAGRAM_PACKET _ => []
  end.

(** ** List segments *)

Lemma lseg_app msgs p q1 q2 e :
  lseg msgs p (q1 ++ q2) e <-> exists m, lseg msgs p q1 m /\ lseg msgs m q2 e.
Proof.
  revert p. induction q1 as [|i q1 IH]; intros p; simpl; [naive_solver|].
  setoid_rewrite IH. naive_solver.
Qed.

Lemma lseg_frame msgs msgs' p q e :
  (forall i, i ∈ q -> msgs' !! qi_loc i = msgs !! qi_loc i) ->
  lseg msgs p q e -> lseg msgs' p q e.
Proof.
  revert p. induction q as [|i q IH]; intros p Hm; simpl; [done|].
  intros (-> & nx & Hl & Hs). split; [done|]. exists nx. split.
  - rewrite Hm; [done|set_solver].
  - apply IH; [|done]. intros j Hj. apply Hm. set_solver.
Qed.

Lemma lseg_None msgs p q : lseg msgs p q None -> p = qi_loc <$> head q.
Proof. destruct q; simpl; [done|]. by intros [-> _]. Qed.

(** ** The heap of a queue *)

Lemma heap_inv_empty msgs bufs : heap_inv msgs bufs [] <-> msgs = ∅ /\ bufs = ∅.
Proof.
  split.
  - intros [_ Hd _ Hb _]. split; apply dom_empty_inv_L; set_solver.
  - intros [-> ->]. split; simpl; try constructor; set_solver.
Qed.

Lemma item_ok_frame bufs bufs' i :
  (forall b, item_buf i = Some b -> bufs' !! b = bufs !! b) -> item_ok bufs i -> item_ok bufs' i.
Proof.
  unfold item_ok, item_buf. destruct (qi_payload i) as [|m]; [done|].
  intros Hf [? Hd]. split; [done|]. destruct (dp_data m) as [b|]; [|done]. by rewrite Hf.
Qed.

(** Freeing the first item, message and buffer. *)
Lemma heap_inv_pop msgs bufs i items :
  heap_inv msgs bufs (i :: items) ->
  heap_inv (delete (qi_loc i) msgs)
    (match item_buf i with Some b => delete b bufs | None => bufs end) items.
Proof.
  intros [Hl Hd Hb Hbd Hok]. inversion Hok as [|? ? Hi Hrest]; subst.
  apply NoDup_cons in Hl as [Hni Hl]. split; [done| | | |].
  - rewrite dom_delete_L, Hd. set_solver.
  - simpl in Hb. destruct (item_buf i); [by apply NoDup_cons in Hb as [_ ?]|done].
  - simpl in Hb, Hbd. destruct (item_buf i); [|done].
    apply NoDup_cons in Hb as [? _]. rewrite dom_delete_L, Hbd. set_solver.
  - destruct (item_buf i) as [b|] eqn:Eb; [|done]. simpl in Hb. rewrite Eb in Hb.
    apply NoDup_cons in Hb as [Hnb _]. rewrite Forall_forall in *. intros j Hj.
    apply (item_ok_frame bufs); [|auto]. intros b' Hb'. apply lookup_delete_ne. intros ->.
    apply Hnb, list_elem_of_omap. eauto.
Qed.

Lemma heap_inv_push msgs bufs items i nx :
  heap_inv msgs bufs items ->
  msgs !! qi_loc i = None -> (forall b, item_buf i = Some b -> bufs !! b = None) ->
  let bufs' := match item_buf i with Some b => <[b := qi_data i]> bufs | None => bufs end in
  item_ok bufs' i ->
  heap_inv (<[qi_loc i := mk_worker_msg (qi_payload i) nx]> msgs) bufs' (items ++ [i]).
Proof.
  intros [Hl Hd Hb Hbd Hok] Hf Hfb bufs' Hi.
  assert (qi_loc i ∉ qi_loc <$> items) as Hni.
  { rewrite <- (elem_of_list_to_set (C := gset loc)), <- Hd. by apply not_elem_of_dom. }
  assert (forall b, item_buf i = Some b -> b ∉ omap item_buf items) as Hnb.
  { intros b Eb. rewrite <- (elem_of_list_to_set (C := gset loc)), <- Hbd.
    apply not_elem_of_dom. auto. }
  split.
  - rewrite fmap_app. apply NoDup_app. split_and!; [done|set_solver|apply NoDup_singleton].
  - rewrite dom_insert_L, Hd, fmap_app, list_to_set_app_L. set_solver.
  - rewrite omap_app. simpl. destruct (item_buf i) as [b|] eqn:Eb; [|by rewrite app_nil_r].
    apply NoDup_app. split_and!; [done| |apply NoDup_singleton].
    intros x Hx ->%list_elem_of_singleton. by eapply Hnb.
  - rewrite omap_app, list_to_set_app_L. unfold bufs'. simpl. destruct (item_buf i) as [b|].
    + rewrite dom_insert_L, Hbd. set_solver.
    + rewrite Hbd. set_solver.
  - apply Forall_app. split; [|by repeat constructor].
    rewrite Forall_forall in *. intros j Hj. apply (item_ok_frame bufs); [|auto].
    intros b' Hb'. unfold bufs'. destruct (item_buf i) as [b|] eqn:Eb; [|done].
    apply lookup_insert_ne. intros ->. eapply Hnb; [done|]. apply list_elem_of_omap. eauto.
Qed.

(** ** The operations on the queue *)

Ltac heap_step :=
  cbn [mbind option_bind ws_msgs ws_bufs ws_w ws_closed ws_h wm_payload wm_next].

Section queue.
Context {S : Type} `{WorkerHandlers S}.
Implicit Types (st : wstate S) (q : list qitem).

Definition queue_rep st q : Prop :=
  lseg (ws_msgs st) (w_pending_head (ws_w st)) q None /\
  w_pending_tail (ws_w st) = qi_loc <$> last q.

Definition queue_inv st q : Prop :=
  heap_inv (ws_msgs st) (ws_bufs st) q /\ queue_rep st q.

(** The state after item [i] is freed. *)
Definition popped st (i : qitem) (closed : list Z) (h : S) : wstate S :=
  mk_wstate (delete (qi_loc i) (ws_msgs st))
    (match item_buf i with Some b => delete b (ws_bufs st) | None => ws_bufs st end)
    (ws_w st) closed h.

Lemma item_read st i m :
  item_ok (ws_bufs st) i -> qi_payload i = WORKER_MSG_DATAGRAM_PACKET m ->
  read_buf st (dp_data m) (dp_data_len m) = Some (qi_data i).
Proof.
  unfold item_ok. intros Hi E. rewrite E in Hi. destruct Hi as [Hl Hd]. unfold read_buf.
  destruct (dp_data m) as [b|].
  - rewrite Hd. cbn [mbind option_bind]. by rewrite Hl, Z.eqb_refl.
  - rewrite Hd in *. by rewrite <- Hl.
Qed.

Lemma process_one st i nx :
  item_ok (ws_bufs st) i ->
  ws_msgs st !! qi_loc i = Some (mk_worker_msg (qi_payload i) nx) ->
  (st1 ← worker_process_msg st (qi_loc i); free_processed_worker_msg st1 (qi_loc i)) =
  Some (popped st i (ws_closed st) (handle_item (w_id (ws_w st)) (ws_h st) i)).
Proof.
  intros Hi Hl. unfold worker_process_msg, free_processed_worker_msg, load_msg, popped,
    item_buf, handle_item, free_msg, free_buf, with_h. rewrite Hl. heap_step.
  destruct (qi_payload i) as [m|m] eqn:E.
  - heap_step. rewrite Hl. heap_step. unfold load_msg. heap_step. by rewrite Hl.
  - rewrite (item_read st i m) by done. heap_step. rewrite Hl. heap_step.
    unfold item_ok in Hi. rewrite E in Hi. destruct Hi as [_ Hd]. unfold load_msg.
    destruct (dp_data m) as [b|]; heap_step; [rewrite Hd; heap_step|]; by rewrite Hl.
Qed.

Lemma free_one st i nx :
  item_ok (ws_bufs st) i ->
  ws_msgs st !! qi_loc i = Some (mk_worker_msg (qi_payload i) nx) ->
  free_worker_msg st (qi_loc i) = Some (popped st i (ws_closed st ++ item_fd i) (ws_h st)).
Proof.
  intros Hi Hl. unfold free_worker_msg, load_msg, popped, item_buf, item_fd. rewrite Hl.
  cbn [mbind option_bind wm_payload]. unfold item_ok in Hi. destruct (qi_payload i) as [m|m].
  - case_if; unfold free_msg, load_msg, close_fd; cbn [ws_msgs]; rewrite Hl; cbn [mbind option_bind];
      [done|by rewrite app_nil_r].
  - rewrite app_nil_r. destruct Hi as [_ Hd]. unfold free_buf, free_msg, load_msg.
    destruct (dp_data m) as [b|].
    + rewrite Hd. cbn [mbind option_bind ws_msgs]. by rewrite Hl.
    + cbn [mbind option_bind]. by rewrite Hl.
Qed.

Lemma lseg_popped st i q p e closed h :
  NoDup (qi_loc <$> i :: q) ->
  lseg (ws_msgs st) p q e -> lseg (ws_msgs (popped st i closed h)) p q e.
Proof.
  intros Hnd. apply lseg_frame. intros j Hj. apply lookup_delete_ne. intros E.
  apply NoDup_cons in Hnd as [Hni _]. apply Hni. rewrite E. by apply list_elem_of_fmap_2.
Qed.

(** The processing loop: every item once, in order, and everything is freed;
    what else is on the heap ([rest]) is left alone. *)
Lemma process_list_spec q rest fuel st p :
  heap_inv (ws_msgs st) (ws_bufs st) (q ++ rest) -> lseg (ws_msgs st) p q None ->
  (length q <= fuel)%nat ->
  exists st', process_list fuel st p = Some st' /\
    heap_inv (ws_msgs st') (ws_bufs st') rest /\
    (forall i, i ∈ rest -> ws_msgs st' !! qi_loc i = ws_msgs st !! qi_loc i) /\
    ws_w st' = ws_w st /\ ws_closed st' = ws_closed st /\
    ws_h st' = foldl (handle_item (w_id (ws_w st))) (ws_h st) q.
Proof.
  revert fuel st p. induction q as [|i q IH]; intros fuel st p Hi Hs Hf.
  - simpl in Hs. subst p. exists st. by destruct fuel.
  - destruct fuel as [|fuel]; [simpl in Hf; lia|]. destruct Hs as (-> & nx & Hl & Hs).
    pose proof (hi_ok _ _ _ Hi) as Hok. inversion Hok as [|? ? Hik _]; subst.
    pose proof (process_one st i nx Hik Hl) as Hone.
    destruct (worker_process_msg st (qi_loc i)) as [st1|] eqn:E1; [|done].
    cbn [mbind option_bind] in Hone.
    pose proof (hi_locs _ _ _ Hi) as Hnd. rewrite <- app_comm_cons in Hnd.
    destruct (IH fuel (popped st i (ws_closed st) (handle_item (w_id (ws_w st)) (ws_h st) i)) nx)
      as (st' & Hp & Hi' & Hr' & Hw' & Hc' & Hh').
    + by apply heap_inv_pop.
    + apply lseg_popped; [|done]. rewrite fmap_cons, fmap_app, app_comm_cons in Hnd.
      by apply NoDup_app in Hnd as [? _].
    + simpl in Hf. lia.
    + exists st'. split_and!; try done.
      * cbn [process_list]. unfold load_msg. rewrite Hl. cbn [mbind option_bind wm_next].
        rewrite E1. cbn [mbind option_bind]. by rewrite Hone.
      * intros j Hj. rewrite Hr' by done. apply lookup_delete_ne. intros E.
        apply NoDup_cons in Hnd as [Hni _]. apply Hni. rewrite E.
        apply list_elem_of_fmap_2. set_solver.
Qed.

Lemma free_list_spec q fuel st p :
  heap_inv (ws_msgs st) (ws_bufs st) q -> lseg (ws_msgs st) p q None ->
  (length q <= fuel)%nat ->
  exists st', free_list fuel st p = Some st' /\ ws_msgs st' = ∅ /\ ws_bufs st' = ∅ /\
    ws_w st' = ws_w st /\ ws_closed st' = ws_closed st ++ concat (item_fd <$> q) /\
    ws_h st' = ws_h st.
Proof.
  revert fuel st p. induction q as [|i q IH]; intros fuel st p Hi Hs Hf.
  - simpl in Hs. subst p. exists st. apply heap_inv_empty in Hi as [? ?].
    destruct fuel; simpl; rewrite app_nil_r; by split_and!.
  - destruct fuel as [|fuel]; [simpl in Hf; lia|]. destruct Hs as (-> & nx & Hl & Hs).
    pose proof (hi_ok _ _ _ Hi) as Hok. inversion Hok as [|? ? Hik _]; subst.
    destruct (IH fuel (popped st i (ws_closed st ++ item_fd i) (ws_h st)) nx)
      as (st' & Hp & Hm' & Hb' & Hw' & Hc' & Hh').
    + by apply heap_inv_pop.
    + apply lseg_popped; [apply (hi_locs _ _ _ Hi)|done].
    + simpl in Hf. lia.
    + exists st'. split_and!; try done.
      * cbn [free_list]. unfold load_msg. rewrite Hl. cbn [mbind option_bind wm_next].
        rewrite (free_one st i nx) by done. done.
      * rewrite Hc'. simpl. by rewrite <- app_assoc.
Qed.

Lemma heap_inv_size msgs bufs q : heap_inv msgs bufs q -> length q = size msgs.
Proof.
  intros Hi. rewrite <- size_dom, (hi_dom _ _ _ Hi), size_list_to_set by apply (hi_locs _ _ _ Hi).
  by rewrite length_fmap.
Qed.

Lemma process_pending_spec st q :
  queue_inv st q ->
  exists st', worker_process_pending st = Some st' /\ queue_inv st' [] /\
    ws_msgs st' = ∅ /\ ws_bufs st' = ∅ /\
    ws_w st' = set_pending (ws_w st) None None /\ ws_closed st' = ws_closed st /\
    ws_h st' = foldl (handle_item (w_id (ws_w st))) (ws_h st) q.
Proof.
  intros [Hi [Hs Ht]]. unfold worker_process_pending, worker_take_pending.
  destruct (process_list_spec q [] (size (ws_msgs st)) (with_w st (set_pending (ws_w st) None None))
    (w_pending_head (ws_w st))) as (st' & Hp & Hi' & _ & Hw & Hc & Hh).
  - by rewrite app_nil_r.
  - done.
  - rewrite (heap_inv_size _ _ _ Hi). lia.
  - exists st'. pose proof (proj1 (heap_inv_empty _ _) Hi') as [Hm Hb].
    split_and!; try done; [split; [done|]]. unfold queue_rep. simpl. by rewrite Hw.
Qed.

(** *** Wake-ups *)

Lemma drain_spec fuel st :
  (w_wakeups (ws_w st) < fuel)%nat ->
  drain_notify_fd fuel st = Some (with_w st (set_wakeups (ws_w st) 0)).
Proof.
  revert st. induction fuel as [|fuel IH]; intros st Hf; [lia|].
  cbn [drain_notify_fd]. unfold drain_round.
  destruct (Nat.eqb_spec (Nat.min 128 (w_wakeups (ws_w st))) 0) as [E|E].
  - assert (w_wakeups (ws_w st) = 0%nat) as Hz by lia.
    f_equal. destruct st as [? ? [] ? ?]. simpl in *. by subst.
  - destruct (Nat.ltb_spec (Nat.min 128 (w_wakeups (ws_w st))) 128) as [E'|E']; cbn [negb].
    + by replace (w_wakeups (ws_w st) - _)%nat with 0%nat by lia.
    + rewrite IH; [done|]. cbn [ws_w with_w set_wakeups w_wakeups]. lia.
Qed.

(** *** Enqueueing *)

(** A message that its producer has just allocated. *)
Definition allocated st (i : qitem) : wstate S :=
  mk_wstate (<[qi_loc i := mk_worker_msg (qi_payload i) None]> (ws_msgs st))
    (match item_buf i with Some b => <[b := qi_data i]> (ws_bufs st) | None => ws_bufs st end)
    (ws_w st) (ws_closed st) (ws_h st).

(** The allocator returned unused locations, and the packet is in place. *)
Definition fresh st (i : qitem) : Prop :=
  ws_msgs st !! qi_loc i = None /\
  (forall b, item_buf i = Some b -> ws_bufs st !! b = None) /\
  item_ok (ws_bufs (allocated st i)) i.

Lemma heap_inv_dom msgs msgs' bufs items :
  dom msgs' = dom msgs -> heap_inv msgs bufs items -> heap_inv msgs' bufs items.
Proof. intros Hd [? ? ? ? ?]. split; congruence. Qed.

Lemma queue_last_snoc (q : list qitem) l :
  qi_loc <$> last q = Some l -> exists q' j, q = q' ++ [j] /\ qi_loc j = l.
Proof.
  destruct q as [|j q' _] using rev_ind; [done|]. rewrite last_snoc. intros [= <-]. eauto.
Qed.

Lemma enqueue_link_spec pre q st i :
  heap_inv (ws_msgs st) (ws_bufs st) (pre ++ q) -> queue_rep st q -> fresh st i ->
  if w_stopping (ws_w st)
  then enqueue_link (allocated st i) (qi_loc i) = Some (false, allocated st i)
  else exists st', enqueue_link (allocated st i) (qi_loc i) = Some (true, st') /\
    heap_inv (ws_msgs st') (ws_bufs st') (pre ++ q ++ [i]) /\ queue_rep st' (q ++ [i]) /\
    (forall j, j ∈ pre -> ws_msgs st' !! qi_loc j = ws_msgs st !! qi_loc j) /\
    (exists p, ws_w st' = set_pending (ws_w st) p (Some (qi_loc i))) /\
    ws_closed st' = ws_closed st /\ ws_h st' = ws_h st.
Proof.
  intros Hi [Hs Ht] (Hf & Hfb & Hok). unfold enqueue_link.
  change (w_stopping (ws_w (allocated st i))) with (w_stopping (ws_w st)).
  destruct (w_stopping (ws_w st)); [done|].
  assert (Hpush := heap_inv_push _ _ _ i None Hi Hf Hfb Hok). rewrite <- app_assoc in Hpush.
  assert (forall j, j ∈ pre ++ q -> qi_loc j <> qi_loc i) as Hne.
  { intros j Hj E. apply not_elem_of_dom in Hf. apply Hf. rewrite (hi_dom _ _ _ Hi), <- E.
    apply elem_of_list_to_set. by apply list_elem_of_fmap_2. }
  pose proof (hi_locs _ _ _ Hi) as Hnd.
  unfold store_msg, load_msg, allocated. heap_step. rewrite lookup_insert_eq. heap_step.
  rewrite insert_insert_eq, Ht.
  destruct (last q) as [j|] eqn:El; cbn [fmap option_fmap option_map].
  - apply last_Some in El as [q' ->].
    assert (qi_loc j <> qi_loc i) as Hji by (apply Hne; set_solver).
    apply lseg_app in Hs as (m & Hs1 & -> & nx & Hlj & ->).
    assert (forall k, k ∈ pre ++ q' -> qi_loc k <> qi_loc j) as Hnj.
    { intros k Hk E. rewrite app_assoc, fmap_app in Hnd. apply NoDup_app in Hnd as (_ & Hnd & _).
      apply (Hnd (qi_loc k)); [by apply list_elem_of_fmap_2|]. rewrite E. simpl. set_solver. }
    rewrite (lookup_insert_ne _ (qi_loc i) (qi_loc j)) by done. rewrite Hlj. heap_step.
    eexists. split; [reflexivity|]. unfold with_w, queue_rep. heap_step. split_and!; try done.
    + eapply heap_inv_dom; [|exact Hpush]. rewrite !dom_insert_L.
      assert (qi_loc j ∈ dom (ws_msgs st)) by (apply elem_of_dom; eauto). set_solver.
    + rewrite <- app_assoc. apply lseg_app. exists (Some (qi_loc j)). split.
      * eapply lseg_frame; [|exact Hs1]. intros k Hk.
        rewrite !lookup_insert_ne; [done| |]; [|symmetry; apply Hnj; set_solver].
        symmetry. apply Hne. set_solver.
      * simpl. split; [done|]. exists (Some (qi_loc i)). rewrite lookup_insert_eq.
        split; [done|]. split; [done|]. exists None.
        by rewrite lookup_insert_ne, lookup_insert_eq.
    + by rewrite last_snoc.
    + intros k Hk. rewrite !lookup_insert_ne; [done| |]; symmetry; [apply Hne|apply Hnj]; set_solver.
    + by exists (w_pending_head (ws_w st)).
  - apply last_None in El. subst q. eexists. split; [reflexivity|].
    unfold with_w, queue_rep. heap_step. split_and!; try done.
    + simpl. split; [done|]. exists None. by rewrite lookup_insert_eq.
    + intros k Hk. rewrite lookup_insert_ne; [done|]. symmetry. apply Hne. set_solver.
    + by exists (Some (qi_loc i)).
Qed.

Lemma popped_allocated st i closed :
  fresh st i -> popped (allocated st i) i closed (ws_h st) =
  mk_wstate (ws_msgs st) (ws_bufs st) (ws_w st) closed (ws_h st).
Proof.
  intros (Hf & Hfb & _). unfold popped, allocated. heap_step.
  rewrite delete_insert_id by done. f_equal.
  destruct (item_buf i) as [b|]; [|done]. apply delete_insert_id. auto.
Qed.

Lemma enqueue_msg_spec st q i sent :
  queue_inv st q -> fresh st i ->
  exists rc st', worker_enqueue_msg sent (allocated st i) (qi_loc i) = Some (rc, st') /\
    ws_h st' = ws_h st /\
    if w_stopping (ws_w st)
    then rc = ECANCELED /\
         st' = mk_wstate (ws_msgs st) (ws_bufs st) (ws_w st) (ws_closed st ++ item_fd i) (ws_h st)
    else rc = 0 /\ queue_inv st' (q ++ [i]) /\ ws_closed st' = ws_closed st /\
         w_wakeups (ws_w st') =
           match sent with None => 1 + w_wakeups (ws_w st) | Some _ => w_wakeups (ws_w st) end%nat.
Proof.
  intros [Hi Hq] Hf. pose proof (enqueue_link_spec [] q st i Hi Hq Hf) as Hl.
  unfold worker_enqueue_msg. destruct (w_stopping (ws_w st)).
  - rewrite Hl. cbn [mbind option_bind]. rewrite (free_one (allocated st i) i None).
    + cbn [mbind option_bind]. eexists _, _. split; [reflexivity|].
      change (ws_h (allocated st i)) with (ws_h st).
      change (ws_closed (allocated st i)) with (ws_closed st).
      by rewrite popped_allocated.
    + apply Hf.
    + unfold allocated. heap_step. by rewrite lookup_insert_eq.
  - destruct Hl as (st' & -> & Hi' & Hq' & _ & [p Hw] & Hc & Hh). cbn [mbind option_bind].
    eexists _, _. split; [reflexivity|]. unfold notify_worker.
    destruct sent as [e|]; [case_if|]; simpl; unfold queue_inv, queue_rep in *;
      rewrite ?Hw in *; simpl in *; split_and!; done || apply Hq'.
Qed.
End queue.

(** The handlers that only record what they were asked to do. *)
Inductive handled : Type :=
| HAdopt (worker : Z) (m : stream_client_msg)
| HCleanup (ctx : nat)
| HPacket (worker : Z) (m : datagram_packet_msg) (data : list byte).

#[export] Instance recording_handlers : WorkerHandlers (list handled) := {
  worker_adopt_client_fd id m h := h ++ [HAdopt id m];
  cleanup_idle_datagram_clients ctx h := h ++ [HCleanup ctx];
  datagram_route_handle_packet id m d h := h ++ [HPacket id m d]
}.

Definition example_worker : worker :=
  mk_worker 1 true true true false 10 11 true None None 0.
Definition example_st : wstate (list handled) :=
  mk_wstate ∅ ∅ example_worker [] [].

Lemma example_st_inv : queue_inv example_st [].
Proof. split; [by apply heap_inv_empty|done]. Qed.

(** ** The theorems on one thread *)

Section theorems.
Context {S : Type} `{WorkerHandlers S}.

Definition stream_item (l : loc) (r : route) (fd : Z) (addr : option sockaddr) (n : Z) : qitem :=
  mk_item l (WORKER_MSG_STREAM_CLIENT
    match addr with
    | Some a => if 0 <? n then mk_stream_client r fd (copy_storage a n) n
                else mk_stream_client r fd storage_zero 0
    | None => mk_stream_client r fd storage_zero 0
    end) [].

Lemma stream_item_fresh (st : wstate S) l r fd addr n :
  ws_msgs st !! l = None -> fresh st (stream_item l r fd addr n).
Proof. intros Hl. by split_and!. Qed.

Lemma stream_item_fd l r fd addr n :
  socket_is_valid fd = true -> item_fd (stream_item l r fd addr n) = [fd].
Proof.
  intros Hv. unfold item_fd, stream_item. simpl.
  destruct addr; [destruct (0 <? n)|]; simpl; by rewrite Hv.
Qed.

Lemma stream_item_allocated (st : wstate S) l r fd addr n :
  allocated st (stream_item l r fd addr n) =
  alloc_msg st l (mk_worker_msg (qi_payload (stream_item l r fd addr n)) None).
Proof. done. Qed.

Definition packet_item (l : loc) (b : loc) (r : route) (ctx : nat) (pa : sockaddr) (n : Z)
    (data : list byte) : qitem :=
  mk_item l (WORKER_MSG_DATAGRAM_PACKET (mk_datagram_packet r ctx (copy_storage pa n) n
    (if 0 <? len data then Some b else None) (len data))) data.

Lemma packet_item_fresh (st : wstate S) l b r ctx pa n data :
  ws_msgs st !! l = None -> ws_bufs st !! b = None ->
  fresh st (packet_item l b r ctx pa n data).
Proof.
  intros Hl Hb. split; [done|]. unfold item_ok, packet_item, item_buf, allocated. simpl. split.
  - intros b' E. case_if_in E; by simplify_eq.
  - split; [done|]. case_if; simpl; [by rewrite lookup_insert_eq|]. bool_to_prop.
    pose proof (len_nonneg data). apply len_zero. lia.
Qed.

(** Accepting a stream client. With any queue and any outcome of the
    allocation and of the wake-up, the call answers EINVAL or ENOMEM and
    changes nothing; or, when the worker is stopping, closes the descriptor,
    frees the message and answers ECANCELED; or appends exactly one message
    with the route, the descriptor and the peer address at the end of the
    queue, adds one wake-up if the byte could be sent, and answers 0. *)
Theorem worker_enqueue_stream_spec : forall (st : wstate S) q calloc sent r fd addr n,
  queue_inv st q -> (forall l, calloc = Some l -> ws_msgs st !! l = None) ->
  exists rc st', worker_enqueue_stream_client calloc sent st r fd addr n = Some (rc, st') /\
    ws_h st' = ws_h st /\
    match r, calloc with
    | None, _ => rc = EINVAL /\ st' = st
    | Some r, _ =>
        if negb (socket_is_valid fd) || (SIZEOF_SOCKADDR_STORAGE <? n) then rc = EINVAL /\ st' = st
        else match calloc with
             | None => rc = ENOMEM /\ st' = st
             | Some l =>
                 if w_stopping (ws_w st)
                 then rc = ECANCELED /\ st' = mk_wstate (ws_msgs st) (ws_bufs st) (ws_w st)
                                                (ws_closed st ++ [fd]) (ws_h st)
                 else rc = 0 /\ queue_inv st' (q ++ [stream_item l r fd addr n]) /\
                      ws_closed st' = ws_closed st /\
                      w_wakeups (ws_w st') =
                        match sent with
                        | None => 1 + w_wakeups (ws_w st) | Some _ => w_wakeups (ws_w st)
                        end%nat
             end
    end.
Proof.
  intros st q calloc sent r fd addr n Hq Hfr. unfold worker_enqueue_stream_client.
  destruct r as [r|]; [|by eauto 10]. destruct (socket_is_valid fd) eqn:Ev; cbn [negb orb];
    [|by eauto 10].
  case_if; [by eauto 10|]. destruct calloc as [l|]; [|by eauto 10].
  pose proof (stream_item_fresh st l r fd addr n (Hfr _ eq_refl)) as Hf.
  destruct (enqueue_msg_spec st q _ sent Hq Hf) as (rc & st' & He & Hh & Hrest).
  exists rc, st'. split; [exact He|]. split; [done|].
  rewrite stream_item_fd in Hrest by done. exact Hrest.
Qed.

(** Dispatching a datagram. The call answers EINVAL or ENOMEM and changes
    nothing, or ECANCELED (stopping) with the message and the copied packet
    freed; or it appends one message that owns a fresh copy of the packet. *)
Theorem worker_enqueue_datagram_spec :
  forall (st : wstate S) q l b sent ctx r listen_fd pa n data,
  queue_inv st q -> ws_msgs st !! l = None -> ws_bufs st !! b = None ->
  socket_is_valid listen_fd = true -> 0 < n <= SIZEOF_SOCKADDR_STORAGE ->
  exists rc st',
    worker_enqueue_datagram_packet (Some l) (Some b) sent st ctx (Some r) listen_fd (Some pa) n
      (Some data) (len data) = Some (rc, st') /\ ws_h st' = ws_h st /\
    if w_stopping (ws_w st) then rc = ECANCELED /\ st' = st
    else rc = 0 /\ queue_inv st' (q ++ [packet_item l b r ctx pa n data]) /\
         ws_closed st' = ws_closed st.
Proof.
  intros st q l b sent ctx r lfd pa n data Hq Hl Hb Hv Hn.
  unfold worker_enqueue_datagram_packet. rewrite Hv. cbn [negb].
  rewrite (proj2 (Z.eqb_neq _ _)), (proj2 (Z.ltb_ge _ _)) by lia. cbn [orb].
  rewrite bool_decide_false by done. cbn [andb default].
  pose proof (packet_item_fresh st l b r ctx pa n data Hl Hb) as Hf.
  destruct (enqueue_msg_spec st q _ sent Hq Hf) as (rc & st' & He & Hh & Hrest).
  exists rc, st'. split; [|split; [done|]].
  - assert (take (Z.to_nat (len data)) data = data) as Ht
      by (unfold Zlength; by rewrite Nat2Z.id, take_ge).
    rewrite <- He. unfold packet_item, allocated, item_buf, alloc_buf, alloc_msg. simpl.
    destruct (0 <? len data) eqn:E0; [by rewrite Ht|]. bool_to_prop.
    pose proof (len_nonneg data). by replace (len data) with 0 by lia.
  - destruct (w_stopping (ws_w st)).
    + destruct Hrest as [? ->]. split; [done|]. destruct st. simpl. by rewrite app_nil_r.
    + tauto.
Qed.

(** C9: one wake-up of the worker. From any state whose queue holds [q], the
    callback drains every wake-up byte and hands all the messages of [q] to
    their handlers, once each and in the order they were enqueued; every
    message and packet buffer is freed, none twice, none read after it is
    freed, and no client descriptor is closed; it terminates, and it breaks
    the event loop exactly when the worker is stopping. *)
Theorem worker_notify_fifo : forall (st : wstate S) q,
  queue_inv st q ->
  exists st', worker_notify_cb st = Some (w_stopping (ws_w st), st') /\
    ws_h st' = foldl (handle_item (w_id (ws_w st))) (ws_h st) q /\
    queue_inv st' [] /\ ws_msgs st' = ∅ /\ ws_bufs st' = ∅ /\
    w_wakeups (ws_w st') = 0%nat /\ ws_closed st' = ws_closed st.
Proof.
  intros st q Hq. unfold worker_notify_cb. rewrite drain_spec by lia. cbn [mbind option_bind].
  destruct (process_pending_spec (with_w st (set_wakeups (ws_w st) 0)) q Hq)
    as (st' & -> & Hq' & Hm & Hb & Hw & Hc & Hh).
  cbn [mbind option_bind]. rewrite Hw. exists st'. split_and!; try done; try apply Hq'.
  by rewrite Hw.
Qed.

(** Shutting a worker down. If the thread, until it exits, leaves a
    well-formed queue [q'], [worker_free] frees every message and buffer that
    is still queued, closes exactly the client descriptors these messages own
    and then the two notification sockets, each once. *)
Theorem worker_free_closes : forall sent thread (st : wstate S) st1 q',
  thread (worker_stop sent st) = Some st1 -> w_started (ws_w st) = true ->
  queue_inv st1 q' ->
  exists st', worker_free sent thread st = Some st' /\ ws_msgs st' = ∅ /\ ws_bufs st' = ∅ /\
    ws_h st' = ws_h st1 /\
    ws_closed st' = ws_closed st1 ++ concat (item_fd <$> q') ++
      List.filter socket_is_valid [w_notify_recv_fd (ws_w st1); w_notify_send_fd (ws_w st1)] /\
    w_started (ws_w st') = false /\ w_notify_recv_fd (ws_w st') = EVUTIL_INVALID_SOCKET /\
    w_notify_send_fd (ws_w st') = EVUTIL_INVALID_SOCKET.
Proof.
  intros sent thread st st1 q' Ht Hst [Hi [Hs _]]. unfold worker_free, worker_join.
  assert (w_started (ws_w (worker_stop sent st)) = true) as ->.
  { unfold worker_stop. simpl. rewrite Hst. unfold notify_worker.
    destruct sent; [case_if|]; done. }
  rewrite Ht. cbn [mbind option_bind]. unfold worker_take_pending. simpl.
  match goal with |- context [free_list _ ?s _] =>
    destruct (free_list_spec q' (size (ws_msgs st1)) s (w_pending_head (ws_w st1)))
      as (st' & -> & Hm & Hb & Hw & Hc & Hh) end; [done|done| |].
  { rewrite (heap_inv_size _ _ _ Hi). lia. }
  cbn [mbind option_bind]. eexists. split; [reflexivity|]. rewrite !Hw. simpl in *.
  unfold List.filter. destruct (socket_is_valid (w_notify_recv_fd (ws_w st1))) eqn:E1, (socket_is_valid (w_notify_send_fd (ws_w st1))) eqn:E2;
    simpl; rewrite ?E1, ?E2; simpl; rewrite ?Hc; simpl; rewrite <- ?app_assoc, ?app_nil_r;
    by split_and!.
Qed.
End theorems.

Lemma worker_enqueue_stream_spec_witness :
  exists rc st',
    worker_enqueue_stream_client (Some 1%positive) None example_st (Some route_zero) 9 None 0
      = Some (rc, st') /\ rc = 0 /\
    queue_inv st' [stream_item 1%positive route_zero 9 None 0].
Proof.
  destruct (worker_enqueue_stream_spec example_st [] (Some 1%positive) None (Some route_zero) 9 None 0)
    as (rc & st' & H1 & _ & H2 & H3 & _).
  - exact example_st_inv.
  - intros l _. reflexivity.
  - exists rc, st'. split; [exact H1|]. split; [exact H2|exact H3].
Defined.

Lemma worker_enqueue_datagram_spec_witness :
  exists rc st',
    worker_enqueue_datagram_packet (Some 1%positive) (Some 2%positive) None example_st 0
      (Some route_zero) 5 (Some storage_zero) 16 (Some (str "ping")) 4 = Some (rc, st') /\
    rc = 0 /\ queue_inv st' [packet_item 1%positive 2%positive route_zero 0 storage_zero 16 (str "ping")].
Proof.
  destruct (worker_enqueue_datagram_spec example_st [] 1%positive 2%positive None 0 route_zero 5
    storage_zero 16 (str "ping")) as (rc & st' & H1 & _ & H2 & H3 & _).
  - exact example_st_inv.
  - reflexivity.
  - reflexivity.
  - reflexivity.
  - split; [reflexivity|]. vm_compute. discriminate.
  - exists rc, st'. split; [exact H1|]. split; [exact H2|exact H3].
Defined.

(** A worker with one queued client, descriptor 9. *)
Definition example_queued : wstate (list handled) :=
  mk_wstate {[1%positive := mk_worker_msg (WORKER_MSG_STREAM_CLIENT
               (mk_stream_client route_zero 9 storage_zero 0)) None]} ∅
    (mk_worker 1 true true true false 10 11 true (Some 1%positive) (Some 1%positive) 1) [] [].

Lemma example_queued_inv :
  queue_inv example_queued [stream_item 1%positive route_zero 9 None 0].
Proof.
  split; [split|split].
  - apply NoDup_singleton.
  - simpl. set_solver.
  - constructor.
  - done.
  - by repeat constructor.
  - simpl. split; [done|]. exists None. by rewrite lookup_singleton_eq.
  - done.
Qed.

Lemma worker_notify_fifo_witness :
  exists st', worker_notify_cb example_queued = Some (false, st') /\
    ws_h st' = [HAdopt 1 (mk_stream_client route_zero 9 storage_zero 0)].
Proof.
  destruct (worker_notify_fifo example_queued _ example_queued_inv) as (st' & H1 & H2 & _).
  exists st'. split; [exact H1|exact H2].
Defined.

Lemma worker_free_closes_witness :
  exists st', worker_free None Some example_queued = Some st' /\ ws_closed st' = [9; 10; 11].
Proof.
  destruct (worker_free_closes None Some example_queued (worker_stop None example_queued)
    [stream_item 1%positive route_zero 9 None 0]) as (st' & H1 & _ & _ & _ & H2 & _).
  - reflexivity.
  - reflexivity.
  - exact example_queued_inv.
  - exists st'. split; [exact H1|exact H2].
Defined.

(** [worker_init] either succeeds, owning an event base, a mutex, the two
    ends of the socket pair and an event, and an empty queue; or it fails having
    released exactly what it acquired, and leaves the worker zeroed, so that no
    descriptor leaks on any of its five failure paths. *)
Theorem worker_init_balanced : forall base mutex pair ev_new ev_add id,
  let o := worker_init base mutex pair ev_new ev_add id in
  (io_rc o = 0 /\ io_released o = [] /\
   exists fd0 fd1, io_acquired o = [RBase; RMutex; RFd fd0; RFd fd1; REvent] /\
     io_worker o = mk_worker id true true false false fd0 fd1 true None None 0) \/
  (Permutation (io_acquired o) (io_released o) /\ io_worker o = worker_zero id /\
   (io_rc o = 0 -> pair = Err 0)).
Proof.
  intros base mutex pair ev_new ev_add id. unfold worker_init.
  destruct base; cbn [negb]; [|right; by split_and!].
  destruct mutex as [e|]; [right; simpl; split_and!; try done|].
  { case_if; bool_to_prop; [done|]. intros ->. lia. }
  destruct pair as [[fd0 fd1]|e]; [|right; simpl; split_and!; try done].
  2: { constructor. }
  2: { by intros ->. }
  destruct ev_new; cbn [negb].
  2: { right. simpl. split_and!; try done. rewrite (Permutation_app_comm [RBase; RMutex] [RFd fd0; RFd fd1]).
       simpl. do 2 constructor. constructor. }
  destruct ev_add; cbn [negb].
  - left. simpl. eauto 10.
  - right. simpl. split_and!; try done.
    rewrite (Permutation_app_comm [RBase; RMutex] [RFd fd0; RFd fd1; REvent]). simpl.
    rewrite (Permutation_app_comm [RFd fd0; RFd fd1] [REvent; RBase; RMutex]). simpl.
    constructor. rewrite (Permutation_app_comm [RBase; RMutex] [RFd fd0; RFd fd1]). simpl.
    do 2 constructor. constructor.
Qed.
