(* ===== verification/WorkerConc.v ===== *)
(** * Producers, shutdown and the worker thread, interleaved

    The accept loops enqueue from their threads, [worker_stop] is called from
    the main thread, and the worker runs [worker_notify_cb] on its own. Each
    step below is one critical section, one [send]/[recv] or one round of a
    loop of [worker.c], with the definitions of [Worker.v]; the steps of
    different threads interleave freely. *)

From stdpp Require Import gmap relations.
From S2P Require Import Prelude CString Endpoint Worker WorkerFacts.

(** Where the worker thread is: in [event_base_dispatch], or inside
    [worker_notify_cb]. *)
Inductive wpc : Type :=
| WWait                        (* waiting for the notify socket *)
| WDrain                       (* in the loop of drain_notify_fd *)
| WTake                        (* before worker_take_pending *)
| WProc (msg : option loc)     (* at the head of the loop of worker_process_pending *)
| WCheck                       (* before it reads [stopping] *)
| WExit.                       (* the event loop was broken *)

Record cstate (S : Type) : Type := mk_cstate {
  c_st : wstate S;
  c_pc : wpc;
  c_inflight : nat;            (* threads between their critical section and notify_worker *)
  c_lost : nat;                (* sends that failed with another error than EAGAIN *)
  c_enq : list qitem;          (* the messages linked so far, in order *)
  c_done : nat                 (* how many of them were processed *)
}.
Arguments mk_cstate {S} _ _ _ _ _ _.
Arguments c_st {S} _.
Arguments c_pc {S} _.
Arguments c_inflight {S} _.
Arguments c_lost {S} _.
Arguments c_enq {S} _.
Arguments c_done {S} _.

Section conc.
Context {S : Type} `{WorkerHandlers S}.
Implicit Types (st : wstate S) (c : cstate S).

(** The other threads. *)
Inductive pstep : cstate S -> cstate S -> Prop :=
| ps_enqueue st pc n lost enq dn i st' :
    fresh st i -> enqueue_link (allocated st i) (qi_loc i) = Some (true, st') ->
    pstep (mk_cstate st pc n lost enq dn) (mk_cstate st' pc (1 + n) lost (enq ++ [i]) dn)
| ps_cancel st pc n lost enq dn i st' sent :
    fresh st i -> worker_enqueue_msg sent (allocated st i) (qi_loc i) = Some (ECANCELED, st') ->
    pstep (mk_cstate st pc n lost enq dn) (mk_cstate st' pc n lost enq dn)
| ps_notify st pc n lost enq dn sent rc st' :
    (* errno is not 0 after a failed send; a full socket buffer is not empty *)
    sent <> Some 0 -> (sent = Some EAGAIN -> (0 < w_wakeups (ws_w st))%nat) ->
    notify_worker sent st = (rc, st') ->
    pstep (mk_cstate st pc (1 + n) lost enq dn)
          (mk_cstate st' pc n (if rc =? 0 then lost else 1 + lost) enq dn)
| ps_stop st pc n lost enq dn :
    pstep (mk_cstate st pc n lost enq dn)
          (mk_cstate (with_w st (set_stopping (ws_w st))) pc (1 + n) lost enq dn).

(** The worker thread. *)
Inductive wstep : cstate S -> cstate S -> Prop :=
| wst_wake st n lost enq dn :
    (0 < w_wakeups (ws_w st))%nat ->
    wstep (mk_cstate st WWait n lost enq dn) (mk_cstate st WDrain n lost enq dn)
| wst_drain st n lost enq dn (again : bool) st' :
    drain_round st = (again, st') ->
    wstep (mk_cstate st WDrain n lost enq dn)
          (mk_cstate st' (if again then WDrain else WTake) n lost enq dn)
| wst_take st n lost enq dn msg st' :
    worker_take_pending st = (msg, st') ->
    wstep (mk_cstate st WTake n lost enq dn) (mk_cstate st' (WProc msg) n lost enq dn)
| wst_process st n lost enq dn l m st1 st2 :
    load_msg st l = Some m -> worker_process_msg st l = Some st1 ->
    free_processed_worker_msg st1 l = Some st2 ->
    wstep (mk_cstate st (WProc (Some l)) n lost enq dn)
          (mk_cstate st2 (WProc (wm_next m)) n lost enq (1 + dn))
| wst_end st n lost enq dn :
    wstep (mk_cstate st (WProc None) n lost enq dn) (mk_cstate st WCheck n lost enq dn)
| wst_check st n lost enq dn :
    wstep (mk_cstate st WCheck n lost enq dn)
          (mk_cstate st (if w_stopping (ws_w st) then WExit else WWait) n lost enq dn).

Definition cstep c c' : Prop := pstep c c' \/ wstep c c'.

(** A started worker with an empty queue, with handlers in state [h0]. *)
Definition cinit (id : Z) (h0 : S) c : Prop :=
  queue_inv (c_st c) [] /\ c_pc c = WWait /\ c_inflight c = 0%nat /\ c_lost c = 0%nat /\
  c_enq c = [] /\ c_done c = 0%nat /\ w_stopping (ws_w (c_st c)) = false /\
  w_id (ws_w (c_st c)) = id /\ ws_h (c_st c) = h0.

Definition reachable id h0 c : Prop := exists c0, cinit id h0 c0 /\ rtc cstep c0 c.

(** ** The invariant *)

Definition taken_ptr (pc : wpc) : option loc :=
  match pc with WProc m => m | _ => None end.

(** A pending wake-up: unread, about to be sent, or lost to a failed [send]. *)
Definition awake c : Prop :=
  (0 < w_wakeups (ws_w (c_st c)))%nat \/ (0 < c_inflight c)%nat \/ (0 < c_lost c)%nat.

Record cinv (id : Z) (h0 : S) (qt qq : list qitem) c : Prop := {
  ci_heap : heap_inv (ws_msgs (c_st c)) (ws_bufs (c_st c)) (qt ++ qq);
  ci_taken : lseg (ws_msgs (c_st c)) (taken_ptr (c_pc c)) qt None;
  ci_queue : queue_rep (c_st c) qq;
  ci_fifo : c_enq c = take (c_done c) (c_enq c) ++ qt ++ qq;
  ci_done : (c_done c <= length (c_enq c))%nat;
  ci_id : w_id (ws_w (c_st c)) = id;
  ci_h : ws_h (c_st c) = foldl (handle_item id) h0 (take (c_done c) (c_enq c));
  ci_wake : qq <> [] -> awake c \/ c_pc c = WDrain \/ c_pc c = WTake \/ c_pc c = WExit;
  ci_stop : w_stopping (ws_w (c_st c)) = true -> awake c \/ c_pc c <> WWait;
  ci_exit : c_pc c = WExit -> w_stopping (ws_w (c_st c)) = true
}.

Lemma lseg_nil msgs qt : lseg msgs None qt None -> qt = [].
Proof. destruct qt; [done|]. by intros [? _]. Qed.

Lemma notify_w sent st rc st' :
  sent <> Some 0 -> notify_worker sent st = (rc, st') ->
  exists k, st' = with_w st (set_wakeups (ws_w st) k) /\ (w_wakeups (ws_w st) <= k)%nat /\
    (rc = 0 -> sent = Some EAGAIN \/ (0 < k)%nat).
Proof.
  intros Hs0. assert (st = with_w st (set_wakeups (ws_w st) (w_wakeups (ws_w st)))) as Hid
    by (by destruct st as [? ? [] ? ?]).
  unfold notify_worker. destruct sent as [e|].
  - case_if; intros [= <- <-]; bool_to_prop.
    + exists (w_wakeups (ws_w st)). split; [done|]. split; [lia|]. subst. auto.
    + exists (w_wakeups (ws_w st)). split; [done|]. split; [lia|]. by intros ->.
  - intros [= <- <-]. eexists. split; [reflexivity|]. split; [lia|]. lia.
Qed.

Lemma cinv_pstep id h0 qt qq c c' :
  cinv id h0 qt qq c -> pstep c c' -> exists qq', cinv id h0 qt qq' c'.
Proof.
  intros [Hh Ht Hq Hf Hd Hid Hhd Hw Hs He] Hstep.
  destruct Hstep as [st pc n lost enq dn i st' Hfr Hl|st pc n lost enq dn i st' sent Hfr Hl
    |st pc n lost enq dn sent rc st' Hs0 Hag Hn|st pc n lost enq dn]; simpl in *.
  - exists (qq ++ [i]). pose proof (enqueue_link_spec qt qq st i Hh Hq Hfr) as Hspec.
    destruct (w_stopping (ws_w st)) eqn:Est; [by rewrite Hl in Hspec|].
    destruct Hspec as (st'' & Hl' & Hh' & Hq' & Hfrm & [p Hw'] & Hc' & Hhh').
    rewrite Hl in Hl'. injection Hl' as <-.
    assert (take dn (enq ++ [i]) = take dn enq) as Htk by (by apply take_app_le).
    split; simpl; try done.
    + eapply lseg_frame; [|exact Ht]. done.
    + rewrite Htk, !app_assoc. f_equal. by rewrite <- app_assoc.
    + rewrite length_app. lia.
    + by rewrite Hw'.
    + by rewrite Hhh', Htk.
    + intros _. left. right. left. simpl. lia.
    + intros _. left. right. left. simpl. lia.
    + rewrite Hw'. simpl. by rewrite Est.
  - exists qq. assert (Hi0 : w_stopping (ws_w st) = true /\ st' =
        mk_wstate (ws_msgs st) (ws_bufs st) (ws_w st) (ws_closed st ++ item_fd i) (ws_h st)).
    { pose proof (enqueue_link_spec qt qq st i Hh Hq Hfr) as Hspec.
      unfold worker_enqueue_msg in Hl. destruct (w_stopping (ws_w st)) eqn:Est.
      - rewrite Hspec in Hl. cbn [mbind option_bind] in Hl.
        rewrite (free_one (allocated st i) i None) in Hl;
          [|apply Hfr|unfold allocated; simpl; by rewrite lookup_insert_eq].
        cbn [mbind option_bind] in Hl. injection Hl as <-.
        change (ws_h (allocated st i)) with (ws_h st).
        change (ws_closed (allocated st i)) with (ws_closed st). by rewrite popped_allocated.
      - destruct Hspec as (st'' & Hl' & _). rewrite Hl' in Hl. cbn [mbind option_bind] in Hl.
        unfold ECANCELED in Hl. by simplify_eq. }
    destruct Hi0 as [Est ->]. split; simpl; try done.
  - exists qq. destruct (notify_w _ _ _ _ Hs0 Hn) as (k & -> & Hk & Hz). split; simpl; try done.
    + intros Hne. destruct (Hw Hne) as [Ha|?]; [|by right]. left. unfold awake in *; simpl in *.
      case_if; [|right; right; lia]. bool_to_prop. destruct (Hz E); [left|left; lia].
      specialize (Hag ltac:(done)). lia.
    + intros Hst. left. unfold awake in *; simpl in *.
      case_if; [|right; right; lia]. bool_to_prop. destruct (Hz E); [left|left; lia].
      specialize (Hag ltac:(done)). lia.
  - exists qq. split; simpl; try done.
    + intros _. left. right. left. simpl. lia.
    + intros _. left. right. left. simpl. lia.
Qed.

Lemma drain_round_w st again st' :
  drain_round st = (again, st') ->
  exists k, st' = with_w st (set_wakeups (ws_w st) k) /\ (k <= w_wakeups (ws_w st))%nat /\
    (if again then k + 128 <= w_wakeups (ws_w st) else k = 0)%nat.
Proof.
  unfold drain_round. destruct (Nat.eqb_spec (Nat.min 128 (w_wakeups (ws_w st))) 0) as [E|E].
  - intros [= <- <-]. exists (w_wakeups (ws_w st)). split_and!; [|lia|lia].
    by destruct st as [? ? [] ? ?].
  - intros E2. apply pair_equal_spec in E2 as [<- <-]. eexists. split; [reflexivity|].
    destruct (Nat.ltb_spec (Nat.min 128 (w_wakeups (ws_w st))) 128); cbn [negb]; split; lia.
Qed.

Lemma cinv_wstep id h0 qt qq c c' :
  cinv id h0 qt qq c -> wstep c c' -> exists qt' qq', cinv id h0 qt' qq' c'.
Proof.
  intros [Hh Ht Hq Hf Hd Hid Hhd Hw Hs He] Hstep.
  destruct Hstep as [st n lost enq dn Hwk|st n lost enq dn again st' Hdr
    |st n lost enq dn msg st' Htk|st n lost enq dn l m st1 st2 Hl H1 H2
    |st n lost enq dn|st n lost enq dn]; simpl in *.
  - exists qt, qq. by split; simpl; auto.
  - exists qt, qq. destruct (drain_round_w _ _ _ Hdr) as (k & -> & _ & _).
    by destruct again; split; simpl; auto.
  - apply lseg_nil in Ht. subst qt. unfold worker_take_pending in Htk. injection Htk as <- <-.
    exists qq, []. destruct Hq. by split; simpl; rewrite ?app_nil_r; auto.
  - destruct qt as [|i qt]; [done|]. destruct Ht as ([= ->] & nx & Hli & Ht).
    unfold load_msg in Hl. rewrite Hli in Hl. injection Hl as <-. simpl wm_next.
    pose proof (hi_ok _ _ _ Hh) as Hok. inversion Hok as [|? ? Hik _]; subst.
    pose proof (process_one st i nx Hik Hli) as Hone. rewrite H1 in Hone.
    cbn [mbind option_bind] in Hone. rewrite H2 in Hone. injection Hone as ->.
    assert (take (1 + dn) enq = take dn enq ++ [i]) as Htk.
    { apply take_S_r. rewrite Hf, lookup_app_r; rewrite length_take; [|lia].
      by rewrite Nat.min_l, Nat.sub_diag by done. }
    pose proof (hi_locs _ _ _ Hh) as Hnd. rewrite <- app_comm_cons in Hnd.
    exists qt, qq. split; simpl; auto; try done.
    + by apply heap_inv_pop.
    + apply (lseg_popped st i _ _ _ [] h0); [|done]. rewrite fmap_cons, fmap_app, app_comm_cons in Hnd.
      by apply NoDup_app in Hnd as [? _].
    + destruct Hq as [Hq1 Hq2]. split; [|done]. apply (lseg_popped st i _ _ _ [] h0); [|done].
      rewrite fmap_cons, fmap_app in Hnd. apply NoDup_cons in Hnd as [Hni Hnd].
      apply NoDup_app in Hnd as (_ & _ & Hnd). simpl. apply NoDup_cons. set_solver.
    + change (Datatypes.S dn) with (1 + dn)%nat. rewrite Htk, <- app_assoc. exact Hf.
    + assert (length enq = length (take dn enq ++ i :: qt ++ qq)) as Hlen
        by exact (f_equal length Hf).
      rewrite length_app, length_take in Hlen. simpl in Hlen. lia.
    + change (Datatypes.S dn) with (1 + dn)%nat. rewrite Htk, foldl_app, <- Hhd. done.
    + intros Hne. destruct (Hw Hne) as [?|[?|[?|?]]]; try done. by left.
  - exists qt, qq. split; simpl; auto; try done.
    intros Hne. destruct (Hw Hne) as [?|[?|[?|?]]]; try done. by left.
  - exists qt, qq. destruct (w_stopping (ws_w st)) eqn:Est; split; simpl; auto; try done.
    + intros Hne. destruct (Hw Hne) as [?|[?|[?|?]]]; try done. by left.
    + rewrite Est. done.
Qed.

Lemma reachable_cinv id h0 c : reachable id h0 c -> exists qt qq, cinv id h0 qt qq c.
Proof.
  intros (c0 & Hi & Hr).
  assert (exists qt qq, cinv id h0 qt qq c0) as H0.
  { destruct Hi as ([? ?] & Hpc & ? & ? & He & Hd & Hs & ? & Hh0). exists [], [].
    split; try done; rewrite ?Hpc, ?He, ?Hd, ?Hs; try done. }
  clear Hi. induction Hr as [c|c c1 c2 [Hp|Hw] _ IH]; [done| |];
    apply IH; destruct H0 as (qt & qq & Hc).
  - destruct (cinv_pstep _ _ _ _ _ _ Hc Hp) as [qq' ?]. eauto.
  - exact (cinv_wstep _ _ _ _ _ _ Hc Hw).
Qed.

(** ** Progress and termination of the worker's own steps *)

(** The worker is where only another thread can move it. *)
Definition resting c : Prop :=
  c_pc c = WExit \/ (c_pc c = WWait /\ w_wakeups (ws_w (c_st c)) = 0%nat).

Lemma worker_progress id h0 qt qq c :
  cinv id h0 qt qq c -> resting c \/ exists c', wstep c c'.
Proof.
  intros Hc. destruct c as [st pc n lost enq dn], pc as [| | |[l|]| |].
  - destruct (w_wakeups (ws_w st)) eqn:E; [by left; right|].
    right. eexists. constructor. lia.
  - right. destruct (drain_round st) as [again st'] eqn:E. eexists. by econstructor.
  - right. eexists. by constructor.
  - right. pose proof (ci_taken _ _ _ _ _ Hc) as Ht. simpl in Ht. destruct qt as [|i qt]; [done|].
    destruct Ht as ([= ->] & nx & Hl & _). pose proof (ci_heap _ _ _ _ _ Hc) as Hh.
    pose proof (hi_ok _ _ _ Hh) as Hok. inversion Hok as [|? ? Hik _]; subst.
    pose proof (process_one st i nx Hik Hl) as Hone.
    destruct (worker_process_msg st (qi_loc i)) as [st1|] eqn:E1; [|done].
    cbn [mbind option_bind] in Hone. eexists. by econstructor.
  - right. eexists. constructor.
  - right. eexists. constructor.
  - by left; left.
Qed.

Definition pc_measure (pc : wpc) (w : nat) : nat :=
  match pc with
  | WWait => 10 * w
  | WDrain => if (w =? 0)%nat then 5 else 10 * w - 1
  | WTake => 10 * w + 4
  | WProc _ => 10 * w + 3
  | WCheck => 10 * w + 1
  | WExit => 0
  end.

Definition measure c : nat :=
  size (ws_msgs (c_st c)) + pc_measure (c_pc c) (w_wakeups (ws_w (c_st c))).

Lemma wstep_decreases id h0 qt qq c c' :
  cinv id h0 qt qq c -> wstep c c' -> (measure c' < measure c)%nat.
Proof.
  intros Hc Hstep.
  destruct Hstep as [st n lost enq dn Hwk|st n lost enq dn again st' Hdr
    |st n lost enq dn msg st' Htk|st n lost enq dn l m st1 st2 Hl H1 H2
    |st n lost enq dn|st n lost enq dn]; unfold measure; cbn [c_st c_pc].
  - cbn [pc_measure]. destruct (Nat.eqb_spec (w_wakeups (ws_w st)) 0); lia.
  - destruct (drain_round_w _ _ _ Hdr) as (k & -> & Hk & Ha).
    cbn [ws_msgs ws_w with_w w_wakeups set_wakeups]. destruct again; cbn [pc_measure];
      destruct (Nat.eqb_spec (w_wakeups (ws_w st)) 0), (Nat.eqb_spec k 0); lia.
  - unfold worker_take_pending in Htk. injection Htk as <- <-.
    cbn [ws_msgs ws_w with_w w_wakeups set_pending pc_measure]. lia.
  - pose proof (ci_taken _ _ _ _ _ Hc) as Ht. simpl in Ht. destruct qt as [|i qt]; [done|].
    destruct Ht as ([= ->] & nx & Hli & _). pose proof (ci_heap _ _ _ _ _ Hc) as Hh.
    pose proof (hi_ok _ _ _ Hh) as Hok. inversion Hok as [|? ? Hik _]; subst.
    pose proof (process_one st i nx Hik Hli) as Hone. rewrite H1 in Hone.
    cbn [mbind option_bind] in Hone. rewrite H2 in Hone. injection Hone as ->.
    cbn [ws_msgs ws_w popped pc_measure].
    rewrite map_size_delete_Some by (rewrite Hli; eauto).
    assert (size (ws_msgs st) <> 0%nat).
    { intros E. apply map_size_empty_inv in E. by rewrite E, lookup_empty in Hli. }
    lia.
  - cbn [pc_measure]. lia.
  - destruct (w_stopping (ws_w st)); cbn [pc_measure]; lia.
Qed.

Lemma wstep_keeps c c' :
  wstep c c' -> c_inflight c' = c_inflight c /\ c_lost c' = c_lost c /\ c_enq c' = c_enq c.
Proof. by destruct 1. Qed.

(** Left alone, the worker comes to rest. *)
Lemma worker_rests id h0 qt qq c :
  cinv id h0 qt qq c ->
  exists c' qt' qq', rtc wstep c c' /\ cinv id h0 qt' qq' c' /\ resting c' /\
    c_inflight c' = c_inflight c /\ c_lost c' = c_lost c /\ c_enq c' = c_enq c.
Proof.
  remember (measure c) as k eqn:Ek. revert qt qq c Ek.
  induction (lt_wf k) as [k _ IH]. intros qt qq c -> Hc.
  destruct (worker_progress _ _ _ _ _ Hc) as [Hr|[c1 H1]]; [by exists c, qt, qq|].
  destruct (cinv_wstep _ _ _ _ _ _ Hc H1) as (qt1 & qq1 & Hc1).
  destruct (IH _ (wstep_decreases _ _ _ _ _ _ Hc H1) _ _ _ eq_refl Hc1)
    as (c' & qt' & qq' & Hs & Hc' & Hr & E1 & E2 & E3).
  destruct (wstep_keeps _ _ H1) as (F1 & F2 & F3). exists c', qt', qq'. split_and!; try done.
  - by econstructor.
  - congruence.
  - congruence.
  - congruence.
Qed.

(** ** The theorems *)

(** C5: exactly once, in order, under every interleaving. In every reachable
    state the messages enqueued so far are, in order, the ones already
    processed followed by the ones still linked on the heap, and the handlers
    have seen precisely the processed ones, in that order; the heap holds
    exactly the unprocessed messages with their packets. *)
Theorem conc_exactly_once : forall id h0 c,
  reachable id h0 c ->
  exists pending,
    c_enq c = take (c_done c) (c_enq c) ++ pending /\
    ws_h (c_st c) = foldl (handle_item id) h0 (take (c_done c) (c_enq c)) /\
    heap_inv (ws_msgs (c_st c)) (ws_bufs (c_st c)) pending.
Proof.
  intros id h0 c Hr. destruct (reachable_cinv _ _ _ Hr) as (qt & qq & Hc).
  exists (qt ++ qq). split_and!; apply Hc.
Qed.

(** C19: no lost wake-up. In every reachable state where the worker sleeps and
    no thread is about to notify it, if no [send] failed for another reason
    than a full socket, then unprocessed messages, and a requested stop, are
    announced by an unread wake-up byte: the worker will be woken. *)
Theorem conc_no_lost_wakeup : forall id h0 c,
  reachable id h0 c -> c_pc c = WWait -> c_inflight c = 0%nat -> c_lost c = 0%nat ->
  (c_done c < length (c_enq c))%nat \/ w_stopping (ws_w (c_st c)) = true ->
  (0 < w_wakeups (ws_w (c_st c)))%nat.
Proof.
  intros id h0 c Hr Hpc Hi Hl Hwork. destruct (reachable_cinv _ _ _ Hr) as (qt & qq & Hc).
  assert (awake c) as Ha.
  { destruct Hwork as [Hd|Hs].
    - pose proof (ci_taken _ _ _ _ _ Hc) as Ht. rewrite Hpc in Ht. apply lseg_nil in Ht. subst qt.
      destruct (ci_wake _ _ _ _ _ Hc) as [?|[?|[?|?]]]; try done; try congruence.
      intros ->. pose proof (f_equal length (ci_fifo _ _ _ _ _ Hc)) as Hf.
      rewrite length_app, length_take in Hf. simpl in Hf. lia.
    - destruct (ci_stop _ _ _ _ _ Hc Hs) as [?|?]; done. }
  destruct Ha as [?|[?|?]]; [done|lia|lia].
Qed.

(** C20: liveness. From every reachable state in which all wake-ups were
    delivered, the worker's own steps (which never get stuck: no message is
    read or freed when it is not allocated) reach, without any help, either a
    state where it sleeps and every message enqueued so far is processed, or,
    if a stop was requested, its exit. *)
Theorem conc_worker_live : forall id h0 c,
  reachable id h0 c -> c_inflight c = 0%nat -> c_lost c = 0%nat ->
  exists c', rtc wstep c c' /\ c_enq c' = c_enq c /\
    ((c_pc c' = WWait /\ c_done c' = length (c_enq c) /\ w_stopping (ws_w (c_st c')) = false) \/
     (c_pc c' = WExit /\ w_stopping (ws_w (c_st c')) = true)).
Proof.
  intros id h0 c Hr Hi Hl. destruct (reachable_cinv _ _ _ Hr) as (qt & qq & Hc).
  destruct (worker_rests _ _ _ _ _ Hc) as (c' & qt' & qq' & Hs & Hc' & Hrest & E1 & E2 & E3).
  exists c'. split_and!; [done..|]. destruct Hrest as [Hx|[Hx Hz]].
  { right. split; [done|]. by apply (ci_exit _ _ _ _ _ Hc'). }
  left. assert (~ awake c') as Hna by (intros [?|[?|?]]; lia).
  pose proof (ci_taken _ _ _ _ _ Hc') as Ht. rewrite Hx in Ht. apply lseg_nil in Ht. subst qt'.
  assert (qq' = []) as ->.
  { destruct qq'; [done|]. destruct (ci_wake _ _ _ _ _ Hc') as [?|[?|[?|?]]]; try done; congruence. }
  split_and!; [done| |].
  - pose proof (f_equal length (ci_fifo _ _ _ _ _ Hc')) as Hf.
    pose proof (ci_done _ _ _ _ _ Hc'). rewrite length_app, length_take in Hf. simpl in Hf.
    rewrite <- E3. lia.
  - destruct (w_stopping _) eqn:Es; [|done].
    by destruct (ci_stop _ _ _ _ _ Hc' Es) as [?|?].
Qed.
End conc.

(** A run: one client is enqueued on an idle worker, then the producer notifies. *)
Definition example_c0 : cstate (list handled) := mk_cstate example_st WWait 0 0 [] 0.
Definition example_item : qitem := stream_item 1%positive route_zero 9 None 0.
Definition example_c1 : cstate (list handled) :=
  mk_cstate (with_w example_queued (set_wakeups (ws_w example_queued) 0)) WWait 1 0 [example_item] 0.
Definition example_c2 : cstate (list handled) :=
  mk_cstate example_queued WWait 0 0 [example_item] 0.

Lemma example_c2_reachable : reachable 1 [] example_c2.
Proof.
  exists example_c0. split.
  - split_and!; try done. exact example_st_inv.
  - eapply rtc_l; [|eapply rtc_l; [|apply rtc_refl]].
    + left. apply (ps_enqueue example_st WWait 0 0 [] 0 example_item
        (with_w example_queued (set_wakeups (ws_w example_queued) 0))).
      * by apply stream_item_fresh.
      * vm_compute. reflexivity.
    + left. apply (ps_notify (with_w example_queued (set_wakeups (ws_w example_queued) 0)) WWait 0 0
        [example_item] 0 None 0 example_queued); try done.
Qed.

Lemma conc_exactly_once_witness :
  exists pending, [example_item] = take 0 [example_item] ++ pending /\
    heap_inv (ws_msgs example_queued) (ws_bufs example_queued) pending.
Proof.
  destruct (conc_exactly_once 1 [] example_c2 example_c2_reachable) as (p & H1 & _ & H3).
  exists p. split; [exact H1|exact H3].
Defined.

Lemma conc_no_lost_wakeup_witness : (0 < w_wakeups (ws_w (c_st example_c2)))%nat.
Proof.
  apply (conc_no_lost_wakeup 1 [] example_c2 example_c2_reachable); try reflexivity.
  left. simpl. lia.
Defined.

Lemma conc_worker_live_witness :
  exists c', rtc wstep example_c2 c' /\ c_enq c' = [example_item].
Proof.
  destruct (conc_worker_live 1 [] example_c2 example_c2_reachable) as (c' & H1 & H2 & _);
    [reflexivity|reflexivity|].
  exists c'. split; [exact H1|exact H2].
Defined.
