(* ===== verification/WorkerPool.v ===== *)
(** * The worker pool and the accept callback ([worker_pool.c], [accept_cb] of
    [stream_listener.c])

    Each worker has its own queue heap, so the pool is a list of [wstate]s. *)

From stdpp Require Import gmap.
From S2P Require Import Prelude CString Endpoint Worker WorkerFacts.

Record worker_pool (S : Type) : Type := mk_pool {
  p_workers : option (list (wstate S));     (* NULL is None *)
  p_count : Z;
  p_next : Z                                (* size_t *)
}.
Arguments mk_pool {S} _ _ _.
Arguments p_workers {S} _.
Arguments p_count {S} _.
Arguments p_next {S} _.

Section pool.
Context {S : Type} `{WorkerHandlers S}.
Implicit Types (p : worker_pool S).

Definition pool_zero : worker_pool S := mk_pool None 0 0.

(** *** [worker_pool_init] *)

(** [inits i] is what [worker_init(&workers[i], i + 1)] did; a worker that
    succeeded starts with the state [start w]. *)
Context (inits : nat -> init_out) (start : worker -> wstate S).

(** The loop: the initialised workers, or the error and the workers that are
    freed again, in the order of the inner [while (i > 0)]. *)
Fixpoint pool_init_loop (n i : nat) (acc : list (wstate S))
    : list (wstate S) + (Z * list (wstate S)) :=
  match n with
  | O => inl acc
  | Datatypes.S n =>
      let o := inits i in
      if io_rc o =? 0 then pool_init_loop n (1 + i) (acc ++ [start (io_worker o)])
      else inr (io_rc o, reverse acc)
  end.

(** Return code, the pool, and the workers passed to [worker_free]. *)
Definition worker_pool_init (calloc_ok : bool) (count : Z)
    : Z * worker_pool S * list (wstate S) :=
  if count =? 0 then (EINVAL, pool_zero, []) else
  if negb calloc_ok then (ENOMEM, pool_zero, []) else
  match pool_init_loop (Z.to_nat count) 0 [] with
  | inl ws => (0, mk_pool (Some ws) count 0, [])
  | inr (rc, freed) => (rc, mk_pool None 0 0, freed)
  end.

(** *** [worker_pool_start] *)

Context (thread : wstate S -> option (wstate S)).

(** [worker_stop] then [worker_join] on the workers already started, from the
    last to the first. *)
Fixpoint stop_back (started : list (wstate S)) : option (list (wstate S)) :=
  match started with
  | [] => Some []
  | w :: rest =>
      rest ← stop_back rest;
      w ← worker_join thread (worker_stop None w);
      Some (w :: rest)
  end.

Fixpoint pool_start_loop (created : nat -> Z) (i : nat) (started todo : list (wstate S))
    : option (Z * list (wstate S)) :=
  match todo with
  | [] => Some (0, started)
  | w :: rest =>
      let '(rc, w') := worker_start (created i) w in
      if rc =? 0 then pool_start_loop created (1 + i) (started ++ [w']) rest
      else ws ← stop_back started; Some (rc, ws ++ w' :: rest)
  end.

Definition worker_pool_start (created : nat -> Z) p : option (Z * worker_pool S) :=
  match p_workers p with
  | None => Some (EINVAL, p)
  | Some ws =>
      '(rc, ws) ← pool_start_loop created 0 [] ws;
      Some (rc, mk_pool (Some ws) (p_count p) (p_next p))
  end.

Definition worker_pool_stop (sent : option Z) p : worker_pool S :=
  match p_workers p with
  | None => p
  | Some ws => mk_pool (Some (worker_stop sent <$> ws)) (p_count p) (p_next p)
  end.

Definition worker_pool_join p : option (worker_pool S) :=
  match p_workers p with
  | None => Some p
  | Some ws =>
      ws ← mapM (worker_join thread) ws;
      Some (mk_pool (Some ws) (p_count p) (p_next p))
  end.

(** The pool, and the workers as [worker_free] left them. *)
Definition worker_pool_free (sent : option Z) p : option (worker_pool S * list (wstate S)) :=
  match p_workers p with
  | None => Some (p, [])
  | Some ws => ws ← mapM (worker_free sent thread) ws; Some (pool_zero, ws)
  end.

(** *** [worker_pool_next]: the index of the worker *)

Definition worker_pool_next p : option nat * worker_pool S :=
  match p_workers p with
  | None => (None, p)
  | Some ws =>
      if p_count p =? 0 then (None, p) else
      (Some (Z.to_nat (p_next p mod p_count p)),
       mk_pool (Some ws) (p_count p) (u64 (p_next p + 1)))
  end.

(** *** [accept_cb] *)

(** [addr] is the accepted peer address; the result is the pool, with the
    queue of the chosen worker, and the descriptors the callback itself
    closes ([worker_enqueue_msg] records the ones it closes in the worker). *)
Definition accept_cb (calloc : option loc) (sent : option Z) (r : route) (p : worker_pool S)
    (client_fd : Z) (addr : option sockaddr) (socklen : Z)
    : option (worker_pool S * list Z) :=
  if bool_decide (addr = None) || (socklen <=? 0) || (SIZEOF_SOCKADDR_STORAGE <? socklen)
  then Some (p, [client_fd]) else
  let '(w, p) := worker_pool_next p in
  match w with
  | None => Some (p, [client_fd])
  | Some i =>
      ws ← p_workers p;
      w ← ws !! i;
      '(rc, w) ← worker_enqueue_stream_client calloc sent w (Some r) client_fd addr socklen;
      Some (mk_pool (Some (<[i := w]> ws)) (p_count p) (p_next p),
            if rc =? 0 then [] else [client_fd])
  end.

(** ** Well-formed pools *)

Definition pool_wf p : Prop :=
  exists ws, p_workers p = Some ws /\ p_count p = len ws /\ 0 < p_count p < 2 ^ 64 /\
    0 <= p_next p < 2 ^ 64.

Lemma pool_next_wf p :
  pool_wf p ->
  exists i, worker_pool_next p =
    (Some i, mk_pool (p_workers p) (p_count p) (u64 (p_next p + 1))) /\
    Z.of_nat i = p_next p mod p_count p /\ Z.of_nat i < p_count p /\
    pool_wf (mk_pool (p_workers p) (p_count p) (u64 (p_next p + 1))).
Proof.
  intros (ws & Hw & Hc & Hpos & Hn). unfold worker_pool_next. rewrite Hw.
  rewrite (proj2 (Z.eqb_neq _ _)) by lia. eexists. split; [reflexivity|].
  pose proof (Z.mod_pos_bound (p_next p) (p_count p) ltac:(lia)).
  rewrite Z2Nat.id by lia. split; [done|]. split; [lia|].
  exists ws. split_and!; simpl; try done; try lia; apply Z.mod_pos_bound; lia.
Qed.

(** The workers chosen by the next [n] calls. *)
Fixpoint picks (n : nat) p : list (option nat) :=
  match n with
  | O => []
  | Datatypes.S n => let '(w, p) := worker_pool_next p in w :: picks n p
  end.

Lemma picks_seq n p :
  pool_wf p -> p_next p + Z.of_nat n < 2 ^ 64 ->
  picks n p = (fun k => Some (Z.to_nat ((p_next p + Z.of_nat k) mod p_count p))) <$> seq 0 n.
Proof.
  revert p. induction n as [|n IH]; intros p Hp Hn; [done|].
  destruct (pool_next_wf p Hp) as (i & Hnx & Hi & _ & Hp'). cbn [picks]. rewrite Hnx.
  destruct Hp as (ws & _ & _ & Hpos & Hr).
  assert (u64 (p_next p + 1) = p_next p + 1) as Hu by (apply Z.mod_small; lia).
  rewrite IH; [|done|simpl; lia]. simpl. rewrite Hu. f_equal.
  - f_equal. rewrite Z.add_0_r, <- Hi. lia.
  - rewrite <- fmap_S_seq, <- list_fmap_compose. apply list_fmap_ext. intros ? k _. simpl.
    do 3 f_equal. lia.
Qed.

Lemma mod_inj a c k1 k2 :
  0 < c -> 0 <= k1 < c -> 0 <= k2 < c -> (a + k1) mod c = (a + k2) mod c -> k1 = k2.
Proof.
  intros Hc H1 H2 E. pose proof (Z.div_mod (a + k1) c ltac:(lia)).
  pose proof (Z.div_mod (a + k2) c ltac:(lia)).
  assert (k1 - k2 = c * ((a + k1) / c - (a + k2) / c)) as Hd by lia.
  destruct (Z.lt_trichotomy ((a + k1) / c - (a + k2) / c) 0) as [?|[?|?]]; nia.
Qed.

(** C31: fair dispatch. From any well-formed pool, short of the wrap-around of
    the 64-bit counter, every window of [count] consecutive calls of
    [worker_pool_next] picks each worker exactly once, and every index is in
    bounds of the workers' array. *)
Theorem pool_round_robin : forall p : worker_pool S,
  pool_wf p -> p_next p + p_count p < 2 ^ 64 ->
  Permutation (picks (Z.to_nat (p_count p)) p) (Some <$> seq 0 (Z.to_nat (p_count p))).
Proof.
  intros p Hp Hn. pose proof Hp as (ws & _ & _ & Hpos & Hr). rewrite picks_seq by (done || lia).
  rewrite (list_fmap_compose (fun k => Z.to_nat ((p_next p + Z.of_nat k) mod p_count p)) Some).
  apply fmap_Permutation. apply NoDup_Permutation_bis.
  - apply base.NoDup_ListNoDup. apply NoDup_fmap_2_strong; [|apply NoDup_seq].
    intros k1 k2 H1 H2 E. apply elem_of_seq in H1, H2.
    pose proof (Z.mod_pos_bound (p_next p + Z.of_nat k1) (p_count p) ltac:(lia)).
    pose proof (Z.mod_pos_bound (p_next p + Z.of_nat k2) (p_count p) ltac:(lia)).
    assert ((p_next p + Z.of_nat k1) mod p_count p = (p_next p + Z.of_nat k2) mod p_count p) as E' by lia.
    apply mod_inj in E'; lia.
  - by rewrite length_fmap, !length_seq.
  - intros x Hx. rewrite <- list_elem_of_In in *. apply list_elem_of_fmap in Hx as (k & -> & _).
    apply elem_of_seq. pose proof (Z.mod_pos_bound (p_next p + Z.of_nat k) (p_count p) ltac:(lia)). lia.
Qed.

Lemma pool_init_loop_spec n i acc :
  match pool_init_loop n i acc with
  | inl ws => ws = acc ++ ((fun k => start (io_worker (inits k))) <$> seq i n) /\
      forall k, (i <= k < i + n)%nat -> io_rc (inits k) = 0
  | inr (rc, freed) => exists k, (i <= k < i + n)%nat /\ rc = io_rc (inits k) /\ rc <> 0 /\
      freed = reverse (acc ++ ((fun k => start (io_worker (inits k))) <$> seq i (k - i))) /\
      forall k', (i <= k' < k)%nat -> io_rc (inits k') = 0
  end.
Proof.
  revert i acc. induction n as [|n IH]; intros i acc; cbn [pool_init_loop].
  - rewrite app_nil_r. split; [done|lia].
  - case_if; bool_to_prop.
    + specialize (IH (1 + i)%nat (acc ++ [start (io_worker (inits i))])).
      destruct (pool_init_loop _ _ _) as [ws|[rc freed]].
      * destruct IH as [-> Hz]. split; [by rewrite <- app_assoc|]. intros k Hk.
        destruct (decide (k = i)) as [->|]; [done|]. apply Hz. lia.
      * destruct IH as (k & Hk & Hrc & Hnz & -> & Hz). exists k. split; [lia|]. split_and!; try done.
        -- rewrite <- app_assoc. do 2 f_equal. destruct (k - i)%nat eqn:Ek; [lia|].
           replace (k - (1 + i))%nat with n0 by lia. done.
        -- intros k' Hk'. destruct (decide (k' = i)) as [->|]; [done|]. apply Hz. lia.
    + exists i. split_and!; try done; try lia. rewrite Nat.sub_diag. simpl. by rewrite app_nil_r.
Qed.

(** [worker_pool_init] is all or nothing: it returns 0 with [count] workers,
    each as its own [worker_init] left it, or it returns the error of the
    first worker that failed, frees exactly the workers before it, from the
    last to the first, and leaves an empty pool. *)
Theorem pool_init_all_or_nothing : forall count,
  0 < count ->
  let '(rc, p, freed) := worker_pool_init true count in
  (rc = 0 /\ freed = [] /\ p_count p = count /\
   p_workers p = Some ((fun k => start (io_worker (inits k))) <$> seq 0 (Z.to_nat count))) \/
  (exists k, Z.of_nat k < count /\ rc = io_rc (inits k) /\ rc <> 0 /\ p = pool_zero /\
   freed = reverse ((fun k => start (io_worker (inits k))) <$> seq 0 k) /\
   forall k', (k' < k)%nat -> io_rc (inits k') = 0).
Proof.
  intros count Hc. unfold worker_pool_init. rewrite (proj2 (Z.eqb_neq _ _)) by lia. cbn [negb].
  pose proof (pool_init_loop_spec (Z.to_nat count) 0 []) as Hl.
  destruct (pool_init_loop _ _ _) as [ws|[rc freed]].
  - destruct Hl as [-> _]. left. done.
  - destruct Hl as (k & Hk & ? & ? & Hf & Hz). rewrite Nat.sub_0_r in Hf. right.
    exists k. split_and!; try done; [lia|]. intros k' Hk'. apply Hz. lia.
Qed.

Lemma accept_next p i p' :
  worker_pool_next p = (Some i, p') -> pool_wf p -> forall ws, p_workers p = Some ws ->
  p_workers p' = Some ws /\ exists w, ws !! i = Some w.
Proof.
  intros Hn Hp ws Hw. pose proof Hp as (ws' & Hw' & Hc & _).
  destruct (pool_next_wf p Hp) as (j & Hj & _ & Hlt & _). rewrite Hn in Hj. injection Hj as -> ->.
  split; [done|]. apply lookup_lt_is_Some. rewrite Hw in Hw'. injection Hw' as <-.
  unfold Zlength in Hc. lia.
Qed.

(** The three ways an accepted descriptor can end up: in the queue of worker [i]
    and nowhere closed; closed once; closed twice. *)
Definition enqueued (ws : list (wstate S)) (i : nat) (l : loc) (r : route) (fd : Z) (addr : sockaddr) (n : Z)
    (p' : worker_pool S) (closed : list Z) : Prop :=
  exists w w' q, ws !! i = Some w /\ p_workers p' = Some (<[i := w']> ws) /\ closed = [] /\
    ws_closed w' = ws_closed w /\ queue_inv w q /\ queue_inv w' (q ++ [stream_item l r fd (Some addr) n]).

Definition closed_once (p : worker_pool S) (fd : Z) (p' : worker_pool S) (closed : list Z) : Prop :=
  closed = [fd] /\ p_workers p' = p_workers p.

Definition closed_twice (ws : list (wstate S)) (i : nat) (fd : Z) (p' : worker_pool S) (closed : list Z) : Prop :=
  exists w w', ws !! i = Some w /\ p_workers p' = Some (<[i := w']> ws) /\ closed = [fd] /\
    ws_closed w' = ws_closed w ++ [fd] /\ ws_msgs w' = ws_msgs w.

(** The pool has no worker to offer, or it is well formed and its queues are. *)
Definition accept_ready (calloc : option loc) (p : worker_pool S) : Prop :=
  p_workers p = None \/ p_count p = 0 \/
  (pool_wf p /\ forall ws i w, p_workers p = Some ws -> ws !! i = Some w ->
     (forall l, calloc = Some l -> ws_msgs w !! l = None) /\ exists q, queue_inv w q).

(** C32: an accepted connection. Whatever the address, the pool and the
    allocator are, the callback returns, and the descriptor is
    - closed once, by the callback, with no worker changed, when the address is
      missing or its length is not in 1..128, when there is no worker, or when
      the message cannot be allocated;
    - otherwise enqueued on exactly the next worker, behind what it has, and not
      closed, unless that worker is stopping: then it is closed twice, once by
      [worker_enqueue_msg] and once by the callback. *)
Theorem accept_cb_owns_fd : forall calloc sent r (p : worker_pool S) fd addr n,
  socket_is_valid fd = true -> accept_ready calloc p ->
  exists p' closed, accept_cb calloc sent r p fd addr n = Some (p', closed) /\
    match addr, calloc, p_workers p with
    | Some a, Some l, Some ws =>
        if (0 <? n) && (n <=? SIZEOF_SOCKADDR_STORAGE) && negb (p_count p =? 0) then
          let i := Z.to_nat (p_next p mod p_count p) in
          if bool_decide (w_stopping <$> (ws_w <$> ws !! i) = Some true)
          then closed_twice ws i fd p' closed
          else enqueued ws i l r fd a n p' closed
        else closed_once p fd p' closed
    | _, _, _ => closed_once p fd p' closed
    end.
Proof.
  intros calloc sent r p fd addr n Hv Hready. unfold accept_cb, closed_once.
  destruct addr as [a|]; [|by eexists _, _]. rewrite (bool_decide_false (Some a = None)) by done. cbn [orb].
  destruct (n <=? 0) eqn:E0; cbn [orb]; bool_to_prop.
  { eexists _, _. split; [reflexivity|]. rewrite (proj2 (Z.ltb_ge 0 n)) by lia.
    by destruct calloc, (p_workers p). }
  rewrite (proj2 (Z.ltb_lt 0 n)) by lia. cbn [andb].
  destruct (SIZEOF_SOCKADDR_STORAGE <? n) eqn:E1; bool_to_prop.
  { eexists _, _. split; [reflexivity|]. rewrite (proj2 (Z.leb_gt n _)) by lia.
    by destruct calloc, (p_workers p). }
  rewrite (proj2 (Z.leb_le n _)) by lia. cbn [andb].
  destruct Hready as [Hw|[Hc|[Hp Hq]]].
  { unfold worker_pool_next. rewrite Hw. eexists _, _. split; [reflexivity|]. by destruct calloc. }
  { unfold worker_pool_next. destruct (p_workers p) eqn:Ew; rewrite ?Hc; cbn [Z.eqb negb];
      (eexists _, _; split; [reflexivity|]); by destruct calloc. }
  pose proof Hp as (ws & Hws & Hcount & Hpos & _). rewrite Hws.
  destruct (pool_next_wf p Hp) as (i & Hnx & Hi & _). rewrite Hnx. rewrite <- Hi, Nat2Z.id.
  rewrite (proj2 (Z.eqb_neq (p_count p) 0)) by lia. cbn [negb].
  destruct (accept_next _ _ _ Hnx Hp ws Hws) as (_ & w & Hw). simpl p_workers. rewrite Hws.
  cbn [mbind option_bind]. rewrite Hw. cbn [mbind option_bind].
  destruct (Hq ws i w Hws Hw) as (Hl & q & Hqi). unfold worker_enqueue_stream_client.
  rewrite Hv, (proj2 (Z.ltb_ge _ _)) by lia. cbn [negb].
  destruct calloc as [l|]; cbn [mbind option_bind].
  2: { eexists _, _. split; [reflexivity|]. simpl. by rewrite list_insert_id. }
  pose proof (stream_item_fresh w l r fd (Some a) n (Hl l eq_refl)) as Hf.
  destruct (enqueue_msg_spec w q _ sent Hqi Hf) as (rc & w' & He & _ & Hrest).
  rewrite stream_item_fd in Hrest by done.
  match goal with |- context [worker_enqueue_msg ?x ?y ?z] =>
    replace (worker_enqueue_msg x y z) with (Some (rc, w')) by exact (eq_sym He) end.
  cbn [mbind option_bind]. eexists _, _. split; [reflexivity|]. simpl fmap.
  destruct (w_stopping (ws_w w)).
  - rewrite bool_decide_true by done. destruct Hrest as [-> ->]. eexists w, _. by split_and!.
  - rewrite bool_decide_false by done. destruct Hrest as (-> & Hq' & Hc & _). by exists w, w', q.
Qed.
End pool.

Definition example_pool : worker_pool (list handled) :=
  mk_pool (Some [example_st; example_st; example_st]) 3 4.

Lemma example_pool_wf : pool_wf example_pool.
Proof. exists [example_st; example_st; example_st]. by split_and!. Qed.

Lemma pool_round_robin_witness :
  Permutation [Some 1%nat; Some 2%nat; Some 0%nat] [Some 0%nat; Some 1%nat; Some 2%nat].
Proof. exact (pool_round_robin example_pool example_pool_wf eq_refl). Defined.

(** Three workers of which the third cannot be initialised. *)
Definition example_inits (k : nat) : init_out :=
  worker_init (k <? 2)%nat None (Ok (2 * Z.of_nat k, 2 * Z.of_nat k + 1)) true true (Z.of_nat k + 1).
Definition example_start (w : worker) : wstate (list handled) := mk_wstate ∅ ∅ w [] [].

Lemma pool_init_all_or_nothing_witness :
  (worker_pool_init example_inits example_start true 3).1.1 = ENOMEM /\
  length (worker_pool_init example_inits example_start true 3).2 = 2%nat.
Proof.
  pose proof (pool_init_all_or_nothing example_inits example_start 3 eq_refl) as H.
  vm_compute in H. destruct H as [[H _]|_]; [discriminate H|]. split; reflexivity.
Defined.

Lemma accept_cb_owns_fd_witness :
  exists p' closed,
    accept_cb (Some 1%positive) None route_zero example_pool 9 (Some storage_zero) 16
      = Some (p', closed) /\ closed = [].
Proof.
  destruct (accept_cb_owns_fd (Some 1%positive) None route_zero example_pool 9 (Some storage_zero) 16)
    as (p' & closed & H1 & H2).
  - reflexivity.
  - right. right. split; [exact example_pool_wf|]. intros ws i w [= <-] Hi.
    assert (w = example_st) as -> by (do 3 (destruct i as [|i]; [by injection Hi|]); done).
    split; [intros l _; apply lookup_empty|]. exists []. exact example_st_inv.
  - exists p', closed. split; [exact H1|]. destruct H2 as (w & w' & q & _ & _ & Hc & _). exact Hc.
Defined.
