(* ===== verification/Bind.v ===== *)
(** * Binding a listening socket with a wait ([bind.c]) *)

From S2P Require Import Prelude CString Endpoint.

Definition BIND_WAIT_INTERVAL_MS : Z := 100.

(** [1000 * r->opts.bind_wait_sec] in [int]: undefined when it overflows;
    [s32] is the wrapped value. *)
Definition wait_ms (bind_wait_sec : Z) : Z := s32 (1000 * bind_wait_sec).

Section bind.
(** The [i]-th call of [bind]: [None] for 0, or the errno. *)
Context (bind : nat -> option Z).

(** The [for (;;)] loop from its [i]-th round on; [None] when the fuel ends.
    The result is the return code and the number of calls of [bind]. *)
Fixpoint bind_loop (fuel : nat) (wait waited : Z) (i : nat) : option (Z * nat) :=
  match fuel with
  | O => None
  | S fuel =>
      match bind i with
      | None => Some (0, S i)
      | Some err =>
          if negb (err =? EADDRINUSE) || (wait <=? 0) || (wait <=? waited)
          then Some (if err =? 0 then - EIO else - err, S i)
          else bind_loop fuel wait (s32 (waited + BIND_WAIT_INTERVAL_MS)) (S i)
      end
  end.

(** One attempt per interval of the wait, and a last one. *)
Definition bind_with_wait (opts : route_options) : option (Z * nat) :=
  let wait := wait_ms (opt_bind_wait_sec opts) in
  bind_loop (2 + Z.to_nat (wait / BIND_WAIT_INTERVAL_MS + 1)) wait 0 0.

Lemma bind_loop_spec fuel wait i :
  0 <= wait <= 2147483000 -> 100 * Z.of_nat i <= wait + 100 ->
  wait + 100 < 100 * (Z.of_nat i + Z.of_nat fuel) ->
  exists rc n, bind_loop fuel wait (100 * Z.of_nat i) i = Some (rc, n) /\ (i < n)%nat /\
    100 * Z.of_nat n <= Z.max (wait + 200) (100 * (Z.of_nat i + 1)) /\
    (forall k, (i <= k < n - 1)%nat -> bind k = Some EADDRINUSE) /\
    (rc = 0 <-> bind (n - 1)%nat = None) /\
    (bind (n - 1)%nat = Some EADDRINUSE -> wait <= 100 * Z.of_nat (n - 1)).
Proof.
  revert i. induction fuel as [|fuel IH]; intros i Hw Hi Hf; [lia|]. cbn [bind_loop].
  destruct (bind i) as [err|] eqn:Eb.
  2: { exists 0, (S i). replace (S i - 1)%nat with i by lia. rewrite Eb.
       split_and!; try done; try lia. }
  destruct (negb (err =? EADDRINUSE) || (wait <=? 0) || (wait <=? 100 * Z.of_nat i)) eqn:Estop.
  - eexists _, (S i). split; [reflexivity|]. replace (S i - 1)%nat with i by lia. rewrite Eb.
    split_and!; try lia.
    + split; [|done]. case_if; bool_to_prop; [done|]. lia.
    + intros [= ->]. unfold EADDRINUSE in *. bool_to_prop.
      destruct Estop as [Es|Es]; bool_to_prop; [destruct Es as [Es|Es]; bool_to_prop; lia|lia].
  - bool_to_prop.
    assert (s32 (100 * Z.of_nat i + BIND_WAIT_INTERVAL_MS) = 100 * Z.of_nat (S i)) as ->.
    { unfold s32, BIND_WAIT_INTERVAL_MS. rewrite Z.mod_small by lia.
      rewrite (proj2 (Z.ltb_lt _ _)) by lia. lia. }
    destruct (IH (S i)) as (rc & n & Hl & Hn & Hb & Hbef & Hrc & Hlast); [lia|lia|lia|].
    exists rc, n. split_and!; try done; try lia.
    intros k Hk. destruct (decide (k = i)) as [->|]; [|apply Hbef; lia].
    rewrite Eb. f_equal. lia.
Qed.
End bind.

(** The loop runs to its end when the wait fits in an [int]. *)
Lemma bind_with_wait_run : forall bind opts,
  0 <= opt_bind_wait_sec opts <= 2147483 ->
  exists rc n, bind_with_wait bind opts = Some (rc, n) /\ (0 < n)%nat /\
    100 * Z.of_nat n <= 1000 * opt_bind_wait_sec opts + 200 /\
    (forall k, (k < n - 1)%nat -> bind k = Some EADDRINUSE) /\
    (rc = 0 <-> bind (n - 1)%nat = None) /\
    (bind (n - 1)%nat = Some EADDRINUSE ->
       1000 * opt_bind_wait_sec opts <= 100 * Z.of_nat (n - 1)).
Proof.
  intros bind opts Hs. unfold bind_with_wait, wait_ms, s32, BIND_WAIT_INTERVAL_MS.
  rewrite Z.mod_small by lia. rewrite (proj2 (Z.ltb_lt _ _)) by lia.
  set (w := 1000 * opt_bind_wait_sec opts) in *.
  destruct (bind_loop_spec bind (2 + Z.to_nat (w / 100 + 1)) w 0)
    as (rc & n & Hl & Hn & Hb & Hbef & Hrc & Hlast); [lia|lia| |].
  { assert (0 <= w / 100) by (apply Z.div_pos; lia). rewrite Nat2Z.inj_add, Z2Nat.id by lia. div_lia. }
  exists rc, n. split_and!; try done; try lia. intros k Hk. apply Hbef. lia.
Qed.

(** C37: with a wait the configuration can hold without overflow, the bind loop
    terminates: it retries only on EADDRINUSE, returns 0 exactly when its last
    attempt succeeded, gives up on EADDRINUSE only after the whole wait, and
    makes at most one attempt per 100 ms of the wait plus two. *)
Theorem bind_with_wait_spec : forall bind opts,
  0 <= opt_bind_wait_sec opts <= 2147483 ->
  exists rc n, bind_with_wait bind opts = Some (rc, n) /\ (0 < n)%nat /\
    100 * Z.of_nat n <= 1000 * opt_bind_wait_sec opts + 200 /\
    (forall k, (k < n - 1)%nat -> bind k = Some EADDRINUSE) /\
    (rc = 0 <-> bind (n - 1)%nat = None) /\
    (bind (n - 1)%nat = Some EADDRINUSE ->
       1000 * opt_bind_wait_sec opts <= 100 * Z.of_nat (n - 1)).
Proof. exact bind_with_wait_run. Qed.

Lemma bind_with_wait_spec_witness :
  exists rc n,
    bind_with_wait (fun i => if (i <? 3)%nat then Some EADDRINUSE else None)
      (mk_opts false false false 60 5 1 BROADCAST_REPLY_OFF) = Some (rc, n) /\ (0 < n)%nat.
Proof.
  destruct (bind_with_wait_spec (fun i => if (i <? 3)%nat then Some EADDRINUSE else None)
    (mk_opts false false false 60 5 1 BROADCAST_REPLY_OFF)) as (rc & n & H1 & H2 & _);
    [simpl; lia|].
  exists rc, n. split; [exact H1|exact H2].
Defined.

(** The wait is computed in [int]: for [bind_wait=2147484], which the
    configuration accepts, the product overflows; with the wrapped value the
    wait is negative, so that an address in use fails at once instead of being
    waited for. *)
Theorem bind_wait_overflow :
  1000 * 2147484 > INT_MAX /\
  forall bind opts, opt_bind_wait_sec opts = 2147484 -> bind 0%nat = Some EADDRINUSE ->
    bind_with_wait bind opts = Some (- EADDRINUSE, 1%nat).
Proof.
  split; [done|]. intros bind opts Hs Hb. unfold bind_with_wait. rewrite Hs.
  change (wait_ms 2147484) with (-2147483296). cbn [bind_loop Nat.add]. by rewrite Hb.
Qed.

Lemma bind_wait_overflow_witness :
  bind_with_wait (fun _ => Some EADDRINUSE)
    (mk_opts false false false 60 5 2147484 BROADCAST_REPLY_OFF) = Some (- EADDRINUSE, 1%nat).
Proof. apply bind_wait_overflow; reflexivity. Defined.
