(* ===== verification/Datagram.v ===== *)
(** * Datagram routes ([datagram_client.c], [datagram_listener.c],
    [datagram_builtin.c], [datagram_route.c])

    A datagram route keeps a list of clients, one per peer address, each with
    its own socket towards the upstream. Every operation runs under
    [clients_mu], so an operation is a function on the route's context; what it
    does to the outside is the list of [daction]s it performs, in order. The
    answers of the operating system are arguments: [send], [sendto], the clock,
    and for the creation of a client the record [create_os]. This is the code of
    the non-Windows build. *)

From S2P Require Import Prelude CString Endpoint ProxyV2 RawUdp Bind Worker WorkerPool.

(** ** State *)

Record datagram_client : Type := mk_client {
  cl_fd : Z;
  cl_ev : bool;                     (* ev != NULL *)
  cl_unix_local_path : list byte;   (* char [108] *)
  cl_addr : sockaddr;
  cl_addr_len : Z;
  cl_last_seen : Z                  (* time_t *)
}.

Record datagram_route_ctx : Type := mk_dctx {
  dc_route : route;
  dc_listen_fd : Z;
  dc_listen_ev : bool;
  dc_local_addr : sockaddr;
  dc_local_addr_len : Z;
  dc_clients : list datagram_client;
  dc_raw_fd : Z
}.

Definition set_clients (ctx : datagram_route_ctx) (cs : list datagram_client) : datagram_route_ctx :=
  mk_dctx (dc_route ctx) (dc_listen_fd ctx) (dc_listen_ev ctx) (dc_local_addr ctx)
    (dc_local_addr_len ctx) cs (dc_raw_fd ctx).

Definition touch (c : datagram_client) (now : Z) : datagram_client :=
  mk_client (cl_fd c) (cl_ev c) (cl_unix_local_path c) (cl_addr c) (cl_addr_len c) now.

Inductive daction : Type :=
| DSend (fd : Z) (data : list byte)
| DSendTo (fd : Z) (data : list byte) (dst : sockaddr) (dst_len : Z)
| DClose (fd : Z)
| DUnlink (path : list byte)
| DEventFree.

(** ** [datagram_client.c] *)

Definition free_datagram_client (c : datagram_client) : list daction :=
  (if cl_ev c then [DEventFree] else []) ++
  (if 0 <=? cl_fd c then [DClose (cl_fd c)] else []) ++
  (match cl_unix_local_path c with [] => [] | p => [DUnlink p] end).

(** [memcmp] over [a_len] bytes: the two bytes of the family, then the data. *)
Definition sockaddr_equal (a : sockaddr) (a_len : Z) (b : sockaddr) (b_len : Z) : bool :=
  if negb (a_len =? b_len) then false else
  if negb (sa_family a =? sa_family b) then false else
  take (Z.to_nat (a_len - 2)) (sa_data a) =s take (Z.to_nat (a_len - 2)) (sa_data b).

(** The [while ( *pp != NULL)] walk. *)
Fixpoint cleanup_walk (now timeout : Z) (cs : list datagram_client)
    : list datagram_client * list daction :=
  match cs with
  | [] => ([], [])
  | c :: rest =>
      let '(kept, acts) := cleanup_walk now timeout rest in
      if now - cl_last_seen c <=? timeout then (c :: kept, acts)
      else (kept, free_datagram_client c ++ acts)
  end.

Definition cleanup_idle_datagram_clients (now : Z) (ctx : datagram_route_ctx)
    : datagram_route_ctx * list daction :=
  let '(kept, acts) :=
    cleanup_walk now (opt_idle_timeout_sec (r_opts (dc_route ctx))) (dc_clients ctx) in
  (set_clients ctx kept, acts).

(** The position of the client in the list. *)
Fixpoint find_client (cs : list datagram_client) (addr : sockaddr) (addr_len : Z) : option nat :=
  match cs with
  | [] => None
  | c :: rest =>
      if sockaddr_equal (cl_addr c) (cl_addr_len c) addr addr_len then Some 0%nat
      else S <$> find_client rest addr addr_len
  end.

Definition find_datagram_client (ctx : datagram_route_ctx) (addr : sockaddr) (addr_len : Z)
    : option nat :=
  find_client (dc_clients ctx) addr addr_len.

(** *** Creating a client *)

(** What the system calls of one creation answer: [None] is success, [Some e]
    the errno. *)
Record create_os : Type := mk_os {
  os_calloc : bool;
  os_socket : result Z;
  os_bind : option Z;
  os_connect : option Z;
  os_nonblocking : bool;
  os_event_new : bool;
  os_event_add : bool;
  os_runtime_dir : list byte;
  os_pid : Z;
  os_ptr : list byte                (* the client's address as %p prints it *)
}.

Section client.
Context (inet_pton : Z -> list byte -> option (list byte)).

(** Return code, [c->fd], [c->unix_local_path], and what was done. *)
Definition connect_datagram_upstream (os : create_os) (upstream : endpoint)
    : Z * Z * list byte * list daction :=
  match ep_kind upstream with
  | ENDPOINT_INET | ENDPOINT_INET6 =>
      match endpoint_to_sockaddr inet_pton upstream with
      | Err rc => (rc, -1, [], [])
      | Ok _ =>
          match os_socket os with
          | Err e => (- e, -1, [], [])
          | Ok fd =>
              match os_connect os with
              | Some e => (- e, -1, [], [DClose fd])
              | None => (0, fd, [], [])
              end
          end
      end
  | ENDPOINT_UNIX_DGRAM =>
      match ep_path upstream with
      | [] => (- EINVAL, -1, [], [])
      | path =>
          if PATH_SIZE <=? len path then (- ENAMETOOLONG, -1, [], []) else
          match os_socket os with
          | Err e => (- e, -1, [], [])
          | Ok fd =>
              let text := os_runtime_dir os ++ str "/udp-" ++ sdec (os_pid os) ++ str "-"
                          ++ os_ptr os ++ str ".sock" in
              let local := snprintf_content PATH_SIZE text in
              if PATH_SIZE <=? len text then (- ENAMETOOLONG, fd, local, []) else
              match os_bind os with
              | Some e => (- e, fd, local, [DUnlink local])
              | None =>
                  match os_connect os with
                  | Some e => (- e, fd, local, [DUnlink local])
                  | None => (0, fd, local, [DUnlink local])
                  end
              end
          end
      end
  | _ => (- ENOTSUP, -1, [], [])
  end.

(** The client at the head of the list, or [None] for NULL. *)
Definition create_datagram_client (os : create_os) (now : Z) (ctx : datagram_route_ctx)
    (addr : sockaddr) (addr_len : Z)
    : option datagram_client * datagram_route_ctx * list daction :=
  if negb (os_calloc os) then (None, ctx, []) else
  let '(rc, fd, path, acts) := connect_datagram_upstream os (r_upstream (dc_route ctx)) in
  let c ev := mk_client fd ev path addr addr_len now in
  if rc <? 0 then (None, ctx, acts ++ free_datagram_client (c false)) else
  if negb (os_nonblocking os) then (None, ctx, acts ++ free_datagram_client (c false)) else
  if negb (os_event_new os) then (None, ctx, acts ++ free_datagram_client (c false)) else
  if negb (os_event_add os) then (None, ctx, acts ++ free_datagram_client (c true)) else
  (Some (c true), set_clients ctx (c true :: dc_clients ctx), acts).

(** *** Payloads *)

(** [send(fd, data)]: the bytes sent or an errno. *)
Context (send : Z -> list byte -> result Z).
Context (sendto : Z -> list byte -> sockaddr -> result Z).
Context (h : host) (calloc_ok : Z -> bool).

(** Return code and the packet sent; [None] is a store outside [hdr]. *)
Definition send_datagram_payload_to_upstream (ctx : datagram_route_ctx) (c : datagram_client)
    (payload : list byte) : option (Z * list daction) :=
  let go data :=
    Some (match send (cl_fd c) data with Ok _ => 0 | Err e => - e end, [DSend (cl_fd c) data]) in
  if negb (opt_proxy_v2 (r_opts (dc_route ctx))) then go payload else
  if negb (sa_family (cl_addr c) =? AF_INET) || negb (sa_family (dc_local_addr ctx) =? AF_INET)
  then Some (- EAFNOSUPPORT, []) else
  out ← proxy_v2_build (replicate 256 x00) 256 (Some (cl_addr c)) (cl_addr_len c)
          (Some (dc_local_addr ctx)) (dc_local_addr_len ctx) SOCK_DGRAM 0;
  if negb (pp_rc out =? 0) then Some (pp_rc out, []) else
  if UDP_MAX_PACKET <? pp_out_len out + len payload then Some (- EMSGSIZE, []) else
  go (take (Z.to_nat (pp_out_len out)) (pp_buf out) ++ payload).

Definition send_datagram_payload_to_client (ctx : datagram_route_ctx) (c : datagram_client)
    (data : list byte) : option (Z * list daction) :=
  if bool_decide (opt_broadcast_reply (r_opts (dc_route ctx)) = BROADCAST_REPLY_UPSTREAM) then
    match datagram_raw_send_udp_ipv4 h inet_pton calloc_ok sendto (dc_raw_fd ctx)
            (Some (r_upstream (dc_route ctx))) (Some (cl_addr c)) (cl_addr_len c) (Some data) with
    | None => None
    | Some (rc, sent) =>
        Some (rc, map (fun '(p, dst) => DSendTo (dc_raw_fd ctx) p dst SIZEOF_SOCKADDR_IN) sent)
    end
  else
    Some (match sendto (dc_listen_fd ctx) data (cl_addr c) with
          | Err e => - e
          | Ok n => if n =? len data then 0 else - EIO
          end,
          [DSendTo (dc_listen_fd ctx) data (cl_addr c) (cl_addr_len c)]).

(** The [for (;;)] loop over the answers of [recv]: packets, or an error; an
    exhausted list is EAGAIN. *)
Fixpoint upstream_read_cb (ctx : datagram_route_ctx) (c : datagram_client)
    (recv : list (result (list byte))) : option (list daction) :=
  match recv with
  | [] | Err _ :: _ | Ok [] :: _ => Some []
  | Ok data :: rest =>
      '(rc, acts) ← send_datagram_payload_to_client ctx c data;
      if rc =? 0 then more ← upstream_read_cb ctx c rest; Some (acts ++ more)
      else Some acts
  end.

(** ** [datagram_builtin.c] *)

(** [inet_ntop(af, addr, buf, n)]. *)
Context (inet_ntop : Z -> list byte -> Z -> option (list byte)).

Definition ntohs (l : list byte) : Z := default 0 (be16_val l).

Definition datagram_client_addr_string (addr : sockaddr) (buf_len : Z) : option (list byte) :=
  if buf_len =? 0 then None else
  let with_port text port :=
    match text with
    | None => None
    | Some buf => Some (buf ++ snprintf_content (buf_len - len buf) (str ":" ++ udec port))
    end in
  if sa_family addr =? AF_INET
  then with_port (inet_ntop AF_INET (sin_addr addr) buf_len) (ntohs (sin_port addr))
  else if sa_family addr =? AF_INET6
  then with_port (inet_ntop AF_INET6 (sin6_addr addr) buf_len) (ntohs (sin6_port addr))
  else Some (snprintf_content buf_len (str "unknown")).

Definition start_datagram_builtin (ctx : datagram_route_ctx) (c : datagram_client)
    : Z * list daction :=
  let req := mk_req (ep_builtin (r_upstream (dc_route ctx)))
               (datagram_client_addr_string (cl_addr c) 128) in
  match x_builtin_handle req with
  | Err rc => (rc, [])
  | Ok res =>
      match res_action res with
      | X_BUILTIN_ACTION_CLOSE =>
          if res_data_len res =? 0 then (0, []) else
          (match sendto (dc_listen_fd ctx) (res_data res) (cl_addr c) with
           | Err e => - e
           | Ok _ => 0
           end,
           [DSendTo (dc_listen_fd ctx) (res_data res) (cl_addr c) (cl_addr_len c)])
      | X_BUILTIN_ACTION_DISCARD => (0, [])
      | X_BUILTIN_ACTION_HANG => (0, [])
      | _ => (- EINVAL, [])
      end
  end.

(** ** [datagram_listener.c] *)

Definition handle_datagram_builtin_packet (now : Z) (ctx : datagram_route_ctx)
    (addr : sockaddr) (addr_len : Z) : Z * list daction :=
  start_datagram_builtin ctx (mk_client EVUTIL_INVALID_SOCKET false [] addr addr_len now).

(** The client, with its [last_seen] refreshed, and its position. *)
Definition datagram_route_get_or_create_client (os : create_os) (now : Z)
    (ctx : datagram_route_ctx) (addr : sockaddr) (addr_len : Z)
    : option datagram_client * datagram_route_ctx * list daction :=
  match find_datagram_client ctx addr addr_len with
  | Some i =>
      match dc_clients ctx !! i with
      | Some c => (Some (touch c now), set_clients ctx (<[i := touch c now]> (dc_clients ctx)), [])
      | None => (None, ctx, [])
      end
  | None =>
      match create_datagram_client os now ctx addr addr_len with
      | (None, ctx, acts) => (None, ctx, acts)
      | (Some c, ctx, acts) =>
          (Some (touch c now), set_clients ctx (<[0%nat := touch c now]> (dc_clients ctx)), acts)
      end
  end.

Definition datagram_route_handle_packet (os : create_os) (now : Z) (ctx : datagram_route_ctx)
    (addr : sockaddr) (addr_len : Z) (data : list byte)
    : option (Z * datagram_route_ctx * list daction) :=
  if bool_decide (ep_kind (r_upstream (dc_route ctx)) = ENDPOINT_BUILTIN) then
    let '(rc, acts) := handle_datagram_builtin_packet now ctx addr addr_len in
    Some (rc, ctx, acts)
  else
    match datagram_route_get_or_create_client os now ctx addr addr_len with
    | (None, ctx, acts) => Some (- ENOMEM, ctx, acts)
    | (Some c, ctx, acts) =>
        '(rc, sent) ← send_datagram_payload_to_upstream ctx c data;
        Some (rc, ctx, acts ++ sent)
    end.
End client.

(** *** Receiving and dispatching *)

Section dispatch.
Context {S : Type} `{WorkerHandlers S}.

(** [id] is the identity of the context, [pool] its worker pool. *)
Definition dispatch_datagram_packet (calloc malloc : option loc) (sent : option Z)
    (pool : worker_pool S) (id : nat) (ctx : datagram_route_ctx)
    (peer_addr : sockaddr) (peer_addr_len : Z) (data : list byte)
    : option (Z * worker_pool S) :=
  let '(w, pool) := worker_pool_next pool in
  match w with
  | None => Some (EINVAL, pool)
  | Some i =>
      ws ← p_workers pool;
      w ← ws !! i;
      '(rc, w) ← worker_enqueue_datagram_packet calloc malloc sent w id (Some (dc_route ctx))
          (dc_listen_fd ctx) (Some peer_addr) peer_addr_len (Some data) (len data);
      Some (rc, mk_pool (Some (<[i := w]> ws)) (p_count pool) (p_next pool))
  end.

(** [recvfrom]: a packet with its peer, or an errno. *)
Definition listen_read_cb (recvfrom : result (list byte * sockaddr * Z))
    (calloc malloc : option loc) (sent : option Z) (pool : worker_pool S) (id : nat)
    (ctx : datagram_route_ctx) : option (worker_pool S) :=
  match recvfrom with
  | Err _ => Some pool
  | Ok (data, peer_addr, peer_addr_len) =>
      '(_, pool) ← dispatch_datagram_packet calloc malloc sent pool id ctx peer_addr
                     peer_addr_len data;
      Some pool
  end.
End dispatch.

(** *** Opening the listener *)

(** The answers of the system calls of one start: [None] is success. *)
Record listen_os : Type := mk_los {
  lo_unlink : option Z;
  lo_socket : result Z;
  lo_broadcast : option Z;
  lo_v6only : option Z;
  lo_nonblocking : option Z;
  lo_reuseaddr : option Z;
  lo_bind : nat -> option Z;
  lo_getsockname : result (sockaddr * Z);
  lo_event_new : bool;
  lo_event_add : bool
}.

Definition ENOENT : Z := 2.
Definition EEXIST : Z := 17.

Definition set_listen (ctx : datagram_route_ctx) (fd : Z) (ev : bool) (sa : sockaddr) (n : Z)
    : datagram_route_ctx :=
  mk_dctx (dc_route ctx) fd ev sa n (dc_clients ctx) (dc_raw_fd ctx).

Section listener.
Context (inet_pton : Z -> list byte -> option (list byte)).
Context (lo : listen_os).

(** The common end: [getsockname], [event_new], [event_add]. *)
Definition listener_finish (getsockname_rc : Z -> Z) (ctx : datagram_route_ctx) (fd : Z)
    : Z * datagram_route_ctx :=
  let c ev sa n := set_listen ctx fd ev sa n in
  match lo_getsockname lo with
  | Err e => (getsockname_rc e, c false storage_zero SIZEOF_SOCKADDR_STORAGE)
  | Ok (sa, n) =>
      if negb (lo_event_new lo) then (- ENOMEM, c false sa n) else
      if negb (lo_event_add lo) then (- EINVAL, c true sa n) else (0, c true sa n)
  end.

(** [ctx->listen_fd] alone is set once the socket is open. *)
Definition opened (ctx : datagram_route_ctx) (fd : Z) : datagram_route_ctx :=
  set_listen ctx fd (dc_listen_ev ctx) (dc_local_addr ctx) (dc_local_addr_len ctx).

Definition bind_unix_datagram_listener (ctx : datagram_route_ctx) : Z * datagram_route_ctx :=
  let r := dc_route ctx in
  let path := ep_path (r_listen r) in
  if path =s [] then (- EINVAL, ctx) else
  if PATH_SIZE <=? len path then (- ENAMETOOLONG, ctx) else
  let unlink_err := match lo_unlink lo with
                    | Some e => if negb (e =? ENOENT) then Some e else None
                    | None => None
                    end in
  match unlink_err with
  | Some e => (- e, ctx)
  | None =>
      match lo_socket lo with
      | Err e => (- e, opened ctx (-1))
      | Ok fd =>
          let ctx := opened ctx fd in
          if negb (bool_decide (opt_broadcast_reply (r_opts r) = BROADCAST_REPLY_OFF))
          then (- EINVAL, ctx) else
          match lo_nonblocking lo with
          | Some e => (if e =? 0 then - EINVAL else - e, ctx)
          | None =>
              match lo_bind lo 0 with
              | Some e => (- e, ctx)
              | None => listener_finish (fun e => if e =? 0 then - EINVAL else - e) ctx fd
              end
          end
      end
  end.

(** [None] only if the bind loop outlives its fuel. *)
Definition bind_udp_datagram_listener (ctx : datagram_route_ctx)
    : option (Z * datagram_route_ctx) :=
  let r := dc_route ctx in
  match endpoint_to_sockaddr inet_pton (r_listen r) with
  | Err rc => Some (rc, ctx)
  | Ok _ =>
      match ep_kind (r_listen r) with
      | ENDPOINT_INET | ENDPOINT_INET6 =>
          match lo_socket lo with
          | Err e => Some (- e, opened ctx (-1))
          | Ok fd =>
              let ctx := opened ctx fd in
              let v4 := bool_decide (ep_kind (r_listen r) = ENDPOINT_INET) in
              let broadcast := negb (bool_decide (opt_broadcast_reply (r_opts r) = BROADCAST_REPLY_OFF)) in
              if broadcast && negb v4 then Some (- EINVAL, ctx) else
              match (if broadcast then lo_broadcast lo else None),
                    (if v4 then None else lo_v6only lo),
                    lo_nonblocking lo, lo_reuseaddr lo with
              | Some e, _, _, _ => Some (- e, ctx)
              | None, Some e, _, _ => Some (- e, ctx)
              | None, None, Some _, _ => Some (- EINVAL, ctx)
              | None, None, None, Some e => Some (- e, ctx)
              | None, None, None, None =>
                  '(rc, _) ← bind_with_wait (lo_bind lo) (r_opts r);
                  if rc <? 0 then Some (rc, ctx) else Some (listener_finish Z.opp ctx fd)
              end
          end
      | _ => Some (- EINVAL, ctx)
      end
  end.

Definition bind_datagram_listener (ctx : datagram_route_ctx) : option (Z * datagram_route_ctx) :=
  match ep_kind (r_listen (dc_route ctx)) with
  | ENDPOINT_INET | ENDPOINT_INET6 => bind_udp_datagram_listener ctx
  | ENDPOINT_UNIX_DGRAM => Some (bind_unix_datagram_listener ctx)
  | _ => Some (- ENOTSUP, ctx)
  end.
End listener.

(** ** [datagram_route.c] *)

(** What [lstat] says of the listener's path. *)
Inductive lstat_result : Type := LstatErr (e : Z) | LstatSocket | LstatOther.

Definition stop_unix_datagram_route (lstat : lstat_result) (r : route) : list daction :=
  if negb (bool_decide (ep_kind (r_listen r) = ENDPOINT_UNIX_DGRAM)) then [] else
  match ep_path (r_listen r) with
  | [] => []
  | path =>
      match lstat with
      | LstatErr _ => []
      | LstatOther => []
      | LstatSocket => [DUnlink path]
      end
  end.

(** [memset(ctx, 0)] and an invalid listening socket. *)
Definition dctx_zero : datagram_route_ctx :=
  mk_dctx route_zero EVUTIL_INVALID_SOCKET false storage_zero 0 [] 0.

Definition stop_datagram_route_listener (ctx : datagram_route_ctx)
    : datagram_route_ctx * list daction :=
  if dc_listen_ev ctx
  then (set_listen ctx (dc_listen_fd ctx) false (dc_local_addr ctx) (dc_local_addr_len ctx), [DEventFree])
  else (ctx, []).

Definition free_datagram_route (lstat : lstat_result) (ctx : datagram_route_ctx)
    : datagram_route_ctx * list daction :=
  (dctx_zero,
   concat (map free_datagram_client (dc_clients ctx)) ++
   (if socket_is_valid (dc_raw_fd ctx) then [DClose (dc_raw_fd ctx)] else []) ++
   (if dc_listen_ev ctx then [DEventFree] else []) ++
   (if socket_is_valid (dc_listen_fd ctx) then [DClose (dc_listen_fd ctx)] else []) ++
   stop_unix_datagram_route lstat (dc_route ctx)).

Section start.
Context (inet_pton : Z -> list byte -> option (list byte)) (lo : listen_os) (h : host).
Context (raw_socket : result Z) (raw_setsockopt : Z -> option Z).
(** [compat_mutex_init] (0 is success), [mkdir] of the runtime directory. *)
Context (mutex_init : Z) (mkdir : option Z) (lstat : lstat_result).

Definition prepare_datagram_route (ctx : datagram_route_ctx) : Z :=
  if bool_decide (ep_kind (r_upstream (dc_route ctx)) = ENDPOINT_UNIX_DGRAM) then
    match mkdir with
    | Some e => if negb (e =? EEXIST) then - e else 0
    | None => 0
    end
  else 0.

(** Return code, the context, and the descriptors closed (events freed). *)
Definition start_datagram_route (r : route) : option (Z * datagram_route_ctx * list daction) :=
  let ctx0 := mk_dctx r EVUTIL_INVALID_SOCKET false storage_zero 0 [] EVUTIL_INVALID_SOCKET in
  let '(rc, raw_fd, closed) :=
    if bool_decide (opt_broadcast_reply (r_opts r) = BROADCAST_REPLY_UPSTREAM)
    then datagram_raw_open_ipv4 h raw_socket raw_setsockopt
    else (0, Some EVUTIL_INVALID_SOCKET, []) in
  let acts := map DClose closed in
  let ctx1 := mk_dctx r EVUTIL_INVALID_SOCKET false storage_zero 0 []
                (default EVUTIL_INVALID_SOCKET raw_fd) in
  if negb (rc =? 0) then Some (rc, ctx0, acts) else
  if negb (mutex_init =? 0) then Some (mutex_init, dctx_zero, acts) else
  let rc := prepare_datagram_route ctx1 in
  if negb (rc =? 0) then
    let '(ctx, freed) := free_datagram_route lstat ctx1 in Some (rc, ctx, acts ++ freed)
  else
    '(rc, ctx2) ← bind_datagram_listener inet_pton lo ctx1;
    if negb (rc =? 0) then
      let '(ctx, freed) := free_datagram_route lstat ctx2 in Some (rc, ctx, acts ++ freed)
    else Some (0, ctx2, acts).
End start.
