(* ===== verification/DatagramFacts.v ===== *)
(** * The table of datagram clients

    One client per peer address ([dinv]), kept by every operation; a packet is
    sent on the socket of its own peer and replies go back to that peer only. *)

From S2P Require Import Prelude CString Endpoint ProxyV2 RawUdp Bind Worker WorkerFacts WorkerPool Datagram.

(** What [sockaddr_equal] compares. *)
Definition addr_key (sa : sockaddr) (n : Z) : Z * Z * list byte :=
  (n, sa_family sa, take (Z.to_nat (n - 2)) (sa_data sa)).
Definition client_key (c : datagram_client) : Z * Z * list byte :=
  addr_key (cl_addr c) (cl_addr_len c).

Lemma sockaddr_equal_iff a n b m : sockaddr_equal a n b m = true <-> addr_key a n = addr_key b m.
Proof.
  unfold sockaddr_equal, addr_key, bytes_eqb. split.
  - case_if; [done|]. case_if; [done|]. bool_to_prop. case_bool_decide; [|done]. congruence.
  - intros [= -> Hf Hd]. rewrite Hf, !Z.eqb_refl. simpl. by apply bool_decide_true.
Qed.

Record dinv (ctx : datagram_route_ctx) : Prop := {
  di_keys : NoDup (client_key <$> dc_clients ctx);
  di_fds : NoDup (cl_fd <$> dc_clients ctx);
  di_live : Forall (fun c => 0 <= cl_fd c /\ cl_ev c = true) (dc_clients ctx)
}.

(** ** Expiry *)

Definition expired (now timeout : Z) (c : datagram_client) : bool :=
  negb (now - cl_last_seen c <=? timeout).

Lemma cleanup_walk_spec now timeout cs :
  cleanup_walk now timeout cs =
  (List.filter (fun c => negb (expired now timeout c)) cs,
   concat (map free_datagram_client (List.filter (expired now timeout) cs))).
Proof.
  unfold expired. induction cs as [|c cs IH]; [done|]. cbn [cleanup_walk]. rewrite IH. simpl.
  by destruct (now - cl_last_seen c <=? timeout).
Qed.

Lemma filter_fmap_sublist {A B} (f : A -> B) p (l : list A) :
  sublist (f <$> List.filter p l) (f <$> l).
Proof.
  induction l as [|x l IH]; [done|]. simpl. destruct (p x); simpl; by constructor.
Qed.

Lemma dinv_filter ctx p : dinv ctx -> dinv (set_clients ctx (List.filter p (dc_clients ctx))).
Proof.
  intros [Hk Hf Hl]. split; simpl.
  - eapply sublist_NoDup; [eassumption|apply filter_fmap_sublist].
  - eapply sublist_NoDup; [eassumption|apply filter_fmap_sublist].
  - rewrite Forall_forall in *. intros c Hc. apply Hl. apply list_elem_of_In in Hc.
    apply List.filter_In in Hc as [Hc _]. by apply list_elem_of_In.
Qed.

(** ** Lookup *)

Lemma find_client_spec cs addr n :
  match find_client cs addr n with
  | Some i => exists c, cs !! i = Some c /\ client_key c = addr_key addr n
  | None => addr_key addr n ∉ (client_key <$> cs)
  end.
Proof.
  induction cs as [|c cs IH]; cbn [find_client]; [apply not_elem_of_nil|].
  destruct (sockaddr_equal (cl_addr c) (cl_addr_len c) addr n) eqn:E.
  - apply sockaddr_equal_iff in E. by exists c.
  - assert (addr_key addr n <> client_key c) as Hne.
    { intros Ek. symmetry in Ek. apply sockaddr_equal_iff in Ek. congruence. }
    destruct (find_client cs addr n) as [i|]; cbn [fmap option_fmap option_map].
    + destruct IH as (c' & ? & ?). by exists c'.
    + rewrite fmap_cons. apply not_elem_of_cons. done.
Qed.

Lemma find_client_unique cs addr n i c :
  NoDup (client_key <$> cs) -> cs !! i = Some c -> client_key c = addr_key addr n ->
  find_client cs addr n = Some i.
Proof.
  intros Hnd Hi Hk. pose proof (find_client_spec cs addr n) as Hs.
  destruct (find_client cs addr n) as [j|].
  - destruct Hs as (c' & Hj & Hk'). f_equal. eapply NoDup_lookup; [exact Hnd| |].
    + by rewrite list_lookup_fmap, Hj.
    + rewrite list_lookup_fmap, Hi. simpl. congruence.
  - exfalso. apply Hs. rewrite <- Hk. apply list_elem_of_fmap_2. by eapply list_elem_of_lookup_2.
Qed.

Lemma touch_key c now : client_key (touch c now) = client_key c.
Proof. done. Qed.

Lemma dinv_touch ctx i c now :
  dinv ctx -> dc_clients ctx !! i = Some c ->
  dinv (set_clients ctx (<[i := touch c now]> (dc_clients ctx))).
Proof.
  intros [Hk Hf Hl] Hi. split; simpl.
  - rewrite list_fmap_insert, touch_key, list_insert_id; [done|]. by rewrite list_lookup_fmap, Hi.
  - rewrite list_fmap_insert. change (cl_fd (touch c now)) with (cl_fd c).
    rewrite list_insert_id; [done|]. by rewrite list_lookup_fmap, Hi.
  - apply Forall_insert; [done|]. rewrite Forall_lookup in Hl. exact (Hl _ _ Hi).
Qed.

(** ** Creation *)

(** The descriptors a list of actions closes. *)
Definition closes (acts : list daction) : list Z :=
  omap (fun a => match a with DClose fd => Some fd | _ => None end) acts.

(** The packets a list of actions sends. *)
Definition sends (acts : list daction) : list daction :=
  List.filter (fun a => match a with DSend _ _ | DSendTo _ _ _ _ => true | _ => false end) acts.

(** The kernel: a new descriptor is not one of the open ones, an errno is positive. *)
Record os_ok (os : create_os) (ctx : datagram_route_ctx) : Prop := {
  ok_fresh : forall fd, os_socket os = Ok fd -> 0 <= fd /\ fd ∉ (cl_fd <$> dc_clients ctx);
  ok_socket : forall e, os_socket os = Err e -> 0 < e;
  ok_connect : forall e, os_connect os = Some e -> 0 < e;
  ok_bind : forall e, os_bind os = Some e -> 0 < e
}.

(** The upstream is one the code opens a socket for. *)
Definition connectable (inet_pton : Z -> list byte -> option (list byte)) (ep : endpoint) : bool :=
  match ep_kind ep with
  | ENDPOINT_INET | ENDPOINT_INET6 => is_ok (endpoint_to_sockaddr inet_pton ep)
  | ENDPOINT_UNIX_DGRAM => negb (ep_path ep =s []) && (len (ep_path ep) <? PATH_SIZE)
  | _ => false
  end.

Section creation.
Context (inet_pton : Z -> list byte -> option (list byte)).

Lemma closes_app a b : closes (a ++ b) = closes a ++ closes b.
Proof. apply omap_app. Qed.

Lemma sends_app a b : sends (a ++ b) = sends a ++ sends b.
Proof. apply List.filter_app. Qed.

Lemma free_client_closes c : closes (free_datagram_client c) = if 0 <=? cl_fd c then [cl_fd c] else [].
Proof.
  unfold free_datagram_client. rewrite !closes_app.
  destruct (cl_ev c), (0 <=? cl_fd c), (cl_unix_local_path c); done.
Qed.

Lemma free_client_sends c : sends (free_datagram_client c) = [].
Proof.
  unfold free_datagram_client. rewrite !sends_app.
  destruct (cl_ev c), (0 <=? cl_fd c), (cl_unix_local_path c); done.
Qed.

(** The outcome of the connection: success keeps the socket open; a failure
    leaves it to [free_datagram_client], or has closed it. *)
Lemma connect_spec os ctx ep :
  os_ok os ctx ->
  let '(rc, fd, path, acts) := connect_datagram_upstream inet_pton os ep in
  sends acts = [] /\
  ((rc = 0 /\ os_socket os = Ok fd /\ connectable inet_pton ep = true /\ closes acts = []) \/
   (rc < 0 /\ (connectable inet_pton ep = true -> forall fd', os_socket os = Ok fd' ->
      closes acts ++ (if 0 <=? fd then [fd] else []) = [fd']) /\
      (connectable inet_pton ep = false -> fd = -1 /\ closes acts = []))).
Proof.
  intros [Hfr Hs Hc Hb]. unfold connect_datagram_upstream, connectable.
  destruct (ep_kind ep) eqn:Ek; try (split; [done|right; split; [done|split; done]]).
  1, 2: destruct (endpoint_to_sockaddr inet_pton ep) as [[sa n]|rc] eqn:Es;
    [|assert (rc = - EINVAL) as ->
        by (unfold endpoint_to_sockaddr in Es; rewrite Ek in Es; destruct (inet_pton _ _); congruence);
      split; [done|right; split; [done|split; done]]].
  1, 2: simpl is_ok; destruct (os_socket os) as [fd|e];
    [|specialize (Hs _ eq_refl); split; [done|right; split; [lia|split; congruence]]];
    destruct (os_connect os) as [e|];
    [specialize (Hc _ eq_refl); split; [done|right; split; [lia|split; [intros _ ? [= ->]|]; done]]
    |split; [done|left; done]].
  destruct (ep_path ep) as [|b path] eqn:Ep; [split; [done|right; split; [done|split; done]]|].
  set (p := b :: path) in *. assert (negb (p =s []) = true) as -> by done. cbn [andb].
  destruct (PATH_SIZE <=? len p) eqn:El; bool_to_prop.
  { rewrite (proj2 (Z.ltb_ge _ _)) by lia. split; [done|right; split; [done|split; done]]. }
  rewrite (proj2 (Z.ltb_lt _ _)) by lia.
  destruct (os_socket os) as [fd|e];
    [|specialize (Hs _ eq_refl); split; [done|right; split; [lia|split; congruence]]].
  destruct (Hfr _ eq_refl) as [Hpos _].
  assert (forall fd', Ok fd = Ok fd' -> [] ++ (if 0 <=? fd then [fd] else []) = [fd']) as Hone.
  { intros fd' [= <-]. by rewrite (proj2 (Z.leb_le _ _)) by lia. }
  case_if; [split; [done|right; split; [done|split; [intros _; exact Hone|done]]]|].
  destruct (os_bind os) as [e|];
    [specialize (Hb _ eq_refl); split; [done|right; split; [lia|split; [intros _; exact Hone|done]]]|].
  destruct (os_connect os) as [e|];
    [specialize (Hc _ eq_refl); split; [done|right; split; [lia|split; [intros _; exact Hone|done]]]|].
  split; [done|left; done].
Qed.

Lemma create_spec os now ctx addr n :
  dinv ctx -> os_ok os ctx -> addr_key addr n ∉ (client_key <$> dc_clients ctx) ->
  let '(oc, ctx', acts) := create_datagram_client inet_pton os now ctx addr n in
  sends acts = [] /\
  match oc with
  | Some c => ctx' = set_clients ctx (c :: dc_clients ctx) /\ dinv ctx' /\
      cl_addr c = addr /\ cl_addr_len c = n /\ cl_last_seen c = now /\
      os_socket os = Ok (cl_fd c) /\ closes acts = []
  | None => ctx' = ctx /\
      forall fd, os_calloc os = true ->
        connectable inet_pton (r_upstream (dc_route ctx)) = true ->
        os_socket os = Ok fd -> closes acts = [fd]
  end.
Proof.
  intros Hi Hok Hk. unfold create_datagram_client. destruct (os_calloc os); cbn [negb]; [|by split].
  pose proof (connect_spec os ctx (r_upstream (dc_route ctx)) Hok) as Hc.
  destruct (connect_datagram_upstream _ _ _) as [[[rc fd] path] acts].
  destruct Hc as [Hs [(-> & Hfd & Hcon & Hcl)|(Hrc & Hopen & _)]].
  2: { rewrite (proj2 (Z.ltb_lt _ _)) by lia. rewrite sends_app, free_client_sends, Hs.
       split; [done|]. split; [done|]. intros fd' _ Hcn Hfd'.
       rewrite closes_app, free_client_closes. auto. }
  destruct (ok_fresh _ _ Hok _ Hfd) as [Hpos Hnew]. simpl (0 <? 0).
  assert (forall ev, closes (acts ++ free_datagram_client (mk_client fd ev path addr n now)) = [fd]) as Hfree.
  { intros ev. rewrite closes_app, free_client_closes, Hcl. simpl.
    by rewrite (proj2 (Z.leb_le _ _)) by lia. }
  assert (forall ev, sends (acts ++ free_datagram_client (mk_client fd ev path addr n now)) = []) as Hfs.
  { intros ev. by rewrite sends_app, free_client_sends, Hs. }
  destruct (os_nonblocking os); cbn [negb].
  2: { split; [done|]. split; [done|]. intros fd' _ _ [= <-]%(eq_trans (eq_sym Hfd)). done. }
  destruct (os_event_new os); cbn [negb].
  2: { split; [done|]. split; [done|]. intros fd' _ _ [= <-]%(eq_trans (eq_sym Hfd)). done. }
  destruct (os_event_add os); cbn [negb].
  2: { split; [done|]. split; [done|]. intros fd' _ _ [= <-]%(eq_trans (eq_sym Hfd)). done. }
  split; [done|]. split_and!; try done. destruct Hi as [Hk' Hf' Hl']. split; simpl.
  - by apply NoDup_cons.
  - by apply NoDup_cons.
  - by constructor.
Qed.
End creation.

(** ** Payloads *)

(** What the upstream gets for a client's payload: the payload, or a PROXY v2
    header that decodes to the client's and the listener's address, then the
    payload. *)
Definition upstream_payload (ctx : datagram_route_ctx) (addr : sockaddr) (data sent : list byte)
    : Prop :=
  if opt_proxy_v2 (r_opts (dc_route ctx))
  then pp2_decode sent =
         Some (mk_pp2_info PP2_IPv4 PP2_dgram (sin_addr addr) (sin_addr (dc_local_addr ctx))
                 (sa_port addr) (sa_port (dc_local_addr ctx)), data) /\
       len sent = 28 + len data /\ len sent <= UDP_MAX_PACKET
  else sent = data.

(** When a payload can be forwarded: always without PROXY v2; with it, when both
    addresses are IPv4 and complete and the packet with its header fits. *)
Definition forwardable (ctx : datagram_route_ctx) (addr : sockaddr) (addr_len : Z) (data : list byte) : Prop :=
  opt_proxy_v2 (r_opts (dc_route ctx)) = true ->
  sa_family addr = AF_INET /\ sa_family (dc_local_addr ctx) = AF_INET /\
  SIZEOF_SOCKADDR_IN <= addr_len /\ SIZEOF_SOCKADDR_IN <= dc_local_addr_len ctx /\
  28 + len data <= UDP_MAX_PACKET.

Section payload.
Context (inet_pton : Z -> list byte -> option (list byte)).
Context (send : Z -> list byte -> result Z).

Lemma send_upstream_spec ctx c data :
  sa_backed (cl_addr c) (cl_addr_len c) -> sa_backed (dc_local_addr ctx) (dc_local_addr_len ctx) ->
  exists rc acts, send_datagram_payload_to_upstream send ctx c data = Some (rc, acts) /\
    ((acts = [] /\ rc <> 0 /\ ~ forwardable ctx (cl_addr c) (cl_addr_len c) data) \/
     exists sent, acts = [DSend (cl_fd c) sent] /\ upstream_payload ctx (cl_addr c) data sent /\
       rc = match send (cl_fd c) sent with Ok _ => 0 | Err e => - e end /\
       forwardable ctx (cl_addr c) (cl_addr_len c) data).
Proof.
  intros Hb Hlb. unfold send_datagram_payload_to_upstream, upstream_payload, forwardable.
  destruct (opt_proxy_v2 _); cbn [negb];
    [|eexists _, _; split; [reflexivity|]; right; eexists; by split_and!].
  destruct (negb (sa_family (cl_addr c) =? AF_INET) || negb (sa_family (dc_local_addr ctx) =? AF_INET)) eqn:Ef.
  { eexists _, _. split; [reflexivity|]. left. split_and!; [done|done|]. intros Hf.
    destruct (Hf eq_refl) as (H1 & H2 & _). by rewrite H1, H2 in Ef. }
  bool_to_prop.
  destruct (proxy_v2_build_spec (replicate 256 x00) 256 (cl_addr c) (cl_addr_len c)
    (dc_local_addr ctx) (dc_local_addr_len ctx) SOCK_DGRAM 0) as (r & Hr & Hspec); [done..|].
  assert (pp2_kind (cl_addr c) (dc_local_addr ctx) SOCK_DGRAM = Some (PP2_IPv4, PP2_dgram)) as Hk.
  { unfold pp2_kind. match goal with A : sa_family _ = _, B : sa_family _ = _ |- _ => by rewrite A, B end. }
  rewrite Hk in Hspec. change (256 <? pp2_total PP2_IPv4) with false in Hspec.
  rewrite Hr. cbn [mbind option_bind].
  destruct ((cl_addr_len c <? _) || _) eqn:El.
  { subst r. eexists _, _. split; [reflexivity|]. left. split_and!; [done|done|]. intros Hf.
    destruct (Hf eq_refl) as (_ & _ & H1 & H2 & _). apply orb_true_iff in El as [El|El];
      bool_to_prop; simpl in El; lia. }
  destruct (proxy_v2_decodes (replicate 256 x00) 256 _ _ _ _ _ _ _ data ltac:(done) Hb Hlb Hr)
    as (fam & tr & Hk' & Ho & Hl & _ & Hdec); [by subst r|].
  rewrite Hk in Hk'. injection Hk' as <- <-. change (pp2_total PP2_IPv4) with 28 in *.
  rewrite Ho in *. replace (pp_rc r) with 0 by (by subst r). cbn [negb Z.eqb]. bool_to_prop.
  destruct (UDP_MAX_PACKET <? 28 + len data) eqn:Em; bool_to_prop.
  { eexists _, _. split; [reflexivity|]. left. split_and!; [done|done|]. intros Hf.
    destruct (Hf eq_refl) as (_ & _ & _ & _ & ?). lia. }
  eexists _, _. split; [reflexivity|]. right. eexists. split; [reflexivity|]. split_and!; try done.
  - rewrite len_app, Hl. done.
  - rewrite len_app, Hl. done.
Qed.
End payload.

(** ** Finding or creating the client of a packet *)

Definition others (ctx : datagram_route_ctx) (k : Z * Z * list byte) : list datagram_client :=
  List.filter (fun c => negb (bool_decide (client_key c = k))) (dc_clients ctx).

Section packets.
Context (inet_pton : Z -> list byte -> option (list byte)).
Context (send : Z -> list byte -> result Z).
Context (sendto : Z -> list byte -> sockaddr -> result Z).
Context (inet_ntop : Z -> list byte -> Z -> option (list byte)).

Lemma others_insert ctx i c c' k :
  dc_clients ctx !! i = Some c -> client_key c = k -> client_key c' = k ->
  others (set_clients ctx (<[i := c']> (dc_clients ctx))) k = others ctx k.
Proof.
  unfold others. simpl. generalize (dc_clients ctx) as cs. intros cs Hi Hk Hk'. revert i Hi.
  induction cs as [|x cs IH]; intros [|i] Hi; simpl in *; try done.
  - injection Hi as ->. by rewrite !bool_decide_true by done.
  - by rewrite IH.
Qed.

Lemma get_or_create_spec os now ctx addr n :
  dinv ctx -> os_ok os ctx ->
  let '(oc, ctx', acts) := datagram_route_get_or_create_client inet_pton os now ctx addr n in
  dinv ctx' /\ sends acts = [] /\ others ctx' (addr_key addr n) = others ctx (addr_key addr n) /\
  dc_route ctx' = dc_route ctx /\ dc_local_addr ctx' = dc_local_addr ctx /\
  dc_local_addr_len ctx' = dc_local_addr_len ctx /\ dc_listen_fd ctx' = dc_listen_fd ctx /\
  match oc with
  | Some c => c ∈ dc_clients ctx' /\ client_key c = addr_key addr n /\ cl_last_seen c = now /\
      closes acts = [] /\
      (forall c0, c0 ∈ dc_clients ctx -> client_key c0 = addr_key addr n ->
         cl_fd c0 = cl_fd c /\ cl_addr c0 = cl_addr c /\ cl_addr_len c0 = cl_addr_len c /\ acts = []) /\
      (addr_key addr n ∉ (client_key <$> dc_clients ctx) ->
         os_socket os = Ok (cl_fd c) /\ cl_addr c = addr /\ cl_addr_len c = n)
  | None => ctx' = ctx /\ addr_key addr n ∉ (client_key <$> dc_clients ctx)
  end.
Proof.
  intros Hi Hok. unfold datagram_route_get_or_create_client, find_datagram_client.
  pose proof (find_client_spec (dc_clients ctx) addr n) as Hf.
  destruct (find_client (dc_clients ctx) addr n) as [i|].
  - destruct Hf as (c & Hc & Hk). rewrite Hc. split_and!; try done.
    + by apply dinv_touch.
    + by eapply others_insert.
    + simpl. eapply list_elem_of_lookup_2. apply list_lookup_insert_eq. by eapply lookup_lt_Some.
    + intros c0 Hin Hk0. apply list_elem_of_lookup in Hin as [j Hj].
      assert (i = j) as ->.
      { eapply NoDup_lookup; [apply (di_keys _ Hi)| |]; rewrite list_lookup_fmap; [by rewrite Hc|].
        rewrite Hj. simpl. congruence. }
      by simplify_eq.
    + intros Hn. exfalso. apply Hn. rewrite <- Hk. apply list_elem_of_fmap_2.
      by eapply list_elem_of_lookup_2.
  - pose proof (create_spec inet_pton os now ctx addr n Hi Hok Hf) as Hc.
    destruct (create_datagram_client _ _ _ _ _ _) as [[[c|] ctx'] acts].
    + destruct Hc as (Hs & -> & Hi' & Ha & Hn & Hl & Hfd & Hcl).
      assert (touch c now = c) as Ht by (destruct c; simpl in *; by subst).
      rewrite Ht. assert (client_key c = addr_key addr n) as Hk by (unfold client_key; by rewrite Ha, Hn).
      cbn [dc_clients set_clients]. change (<[0%nat := c]> (c :: dc_clients ctx)) with (c :: dc_clients ctx).
      split_and!; try done.
      * unfold others. simpl. by rewrite bool_decide_true.
      * simpl. constructor.
      * intros c0 Hin Hk0. exfalso. apply Hf. rewrite <- Hk0. by apply list_elem_of_fmap_2.
    + destruct Hc as (Hs & -> & _). by split_and!.
Qed.

(** C8: one packet of a peer. On a route with a socket upstream the handler
    returns and keeps the table well formed: at most one client per peer
    address and per descriptor. The clients of the other peers are untouched.
    It sends at most one datagram, on the socket of the client whose address
    is the peer's, refreshed at [now], carrying the packet (behind a PROXY v2
    header that names the peer, when the route asks for it, and never more
    than 65,535 bytes); and it creates a client only for a new peer. *)
Theorem handle_packet_isolation : forall os now ctx addr n data,
  dinv ctx -> os_ok os ctx -> ep_kind (r_upstream (dc_route ctx)) <> ENDPOINT_BUILTIN ->
  Forall (fun c => sa_backed (cl_addr c) (cl_addr_len c)) (dc_clients ctx) ->
  sa_backed addr n -> sa_backed (dc_local_addr ctx) (dc_local_addr_len ctx) ->
  exists rc ctx' acts,
    datagram_route_handle_packet inet_pton send sendto inet_ntop os now ctx addr n data
      = Some (rc, ctx', acts) /\
    dinv ctx' /\ others ctx' (addr_key addr n) = others ctx (addr_key addr n) /\
    (sends acts = [] \/
     exists c sent, c ∈ dc_clients ctx' /\ client_key c = addr_key addr n /\
       cl_last_seen c = now /\ sends acts = [DSend (cl_fd c) sent] /\
       upstream_payload ctx (cl_addr c) data sent /\
       (addr_key addr n ∈ (client_key <$> dc_clients ctx) ->
          exists c0, c0 ∈ dc_clients ctx /\ client_key c0 = addr_key addr n /\ cl_fd c0 = cl_fd c)) /\
    (rc = 0 -> sends acts <> []).
Proof.
  intros os now ctx addr n data Hi Hok Hup Hbk Hb Hlb.
  unfold datagram_route_handle_packet. rewrite bool_decide_false by done.
  pose proof (get_or_create_spec os now ctx addr n Hi Hok) as Hg.
  destruct (datagram_route_get_or_create_client _ _ _ _ _ _) as [[[c|] ctx'] acts].
  2: { destruct Hg as (Hi' & Hs & Ho & _ & _ & _ & _ & -> & _). eexists _, _, _.
       split; [reflexivity|]. split_and!; try done. by left. }
  destruct Hg as (Hi' & Hs & Ho & Hr & Hla & Hln & _ & Hin & Hk & Hls & _ & Hold & Hnew).
  assert (sa_backed (cl_addr c) (cl_addr_len c)) as Hcb.
  { destruct (decide (addr_key addr n ∈ (client_key <$> dc_clients ctx))) as [Hin0|Hin0].
    - apply list_elem_of_fmap in Hin0 as (c0 & Hk0 & Hc0).
      destruct (Hold c0 Hc0 (eq_sym Hk0)) as (_ & <- & <- & _).
      rewrite Forall_forall in Hbk. by apply Hbk.
    - destruct (Hnew Hin0) as (_ & -> & ->). done. }
  destruct (send_upstream_spec send ctx' c data) as (rc & sent & -> & Hsent);
    [done|by rewrite Hla, Hln|]. cbn [mbind option_bind].
  eexists _, _, _. split; [reflexivity|]. split; [done|]. split; [done|].
  rewrite sends_app, Hs. cbn [app]. destruct Hsent as [(-> & Hrc & _)|(b & -> & Hpay & _)].
  { split; [by left|]. done. }
  split; [|done]. right. exists c, b. split_and!; try done.
  - unfold upstream_payload in *. by rewrite Hr, Hla in Hpay.
  - intros (c0 & Hk0 & Hc0)%list_elem_of_fmap. exists c0. split_and!; try done.
    by apply Hold.
Qed.

(** C33: session affinity. A peer that has been seen within the idle timeout
    keeps its upstream socket: after the expiry pass that precedes every packet,
    its next packet finds the same client, no client is created or closed and
    the peer's idle clock restarts. The packet goes out on that client's
    descriptor, behind a PROXY v2 header if the route asks for it; it is dropped,
    with an error, exactly when the route asks for the header and an address is
    not a complete IPv4 address or the result exceeds 65,535 bytes. *)
Theorem datagram_affinity : forall os now ctx c addr n data,
  dinv ctx -> os_ok os (cleanup_idle_datagram_clients now ctx).1 ->
  ep_kind (r_upstream (dc_route ctx)) <> ENDPOINT_BUILTIN ->
  sa_backed (cl_addr c) (cl_addr_len c) -> sa_backed (dc_local_addr ctx) (dc_local_addr_len ctx) ->
  c ∈ dc_clients ctx -> client_key c = addr_key addr n ->
  now - cl_last_seen c <= opt_idle_timeout_sec (r_opts (dc_route ctx)) ->
  exists rc ctx' c' acts,
    datagram_route_handle_packet inet_pton send sendto inet_ntop os now
      (cleanup_idle_datagram_clients now ctx).1 addr n data = Some (rc, ctx', acts) /\
    c' ∈ dc_clients ctx' /\ cl_fd c' = cl_fd c /\ client_key c' = client_key c /\
    cl_last_seen c' = now /\
    (forwardable ctx (cl_addr c) (cl_addr_len c) data ->
       exists sent, acts = [DSend (cl_fd c) sent] /\ upstream_payload ctx (cl_addr c) data sent) /\
    (~ forwardable ctx (cl_addr c) (cl_addr_len c) data -> acts = [] /\ rc <> 0).
Proof.
  intros os now ctx c addr n data Hi Hok Hup Hcb Hlb Hin Hk Ht.
  unfold cleanup_idle_datagram_clients in *. rewrite cleanup_walk_spec in *. cbn [fst] in *.
  set (ctx1 := set_clients ctx _) in *.
  assert (dinv ctx1) as Hi1 by (by apply dinv_filter).
  assert (c ∈ dc_clients ctx1) as Hin1.
  { unfold ctx1. simpl. apply list_elem_of_In, List.filter_In. split; [by apply list_elem_of_In|].
    unfold expired. rewrite negb_involutive. by apply Z.leb_le. }
  unfold datagram_route_handle_packet. rewrite bool_decide_false by done.
  pose proof (get_or_create_spec os now ctx1 addr n Hi1 Hok) as Hg.
  destruct (datagram_route_get_or_create_client _ _ _ _ _ _) as [[[c'|] ctx'] acts].
  2: { destruct Hg as (_ & _ & _ & _ & _ & _ & _ & _ & Hno). exfalso. apply Hno. rewrite <- Hk.
       by apply list_elem_of_fmap_2. }
  destruct Hg as (_ & _ & _ & Hr & Hla & Hln & _ & Hin' & Hk' & Hls & _ & Hold & _).
  destruct (Hold c Hin1 Hk) as (Hfd & Had & Hal & ->).
  destruct (send_upstream_spec send ctx' c' data) as (rc & sent & -> & Hsent).
  { by rewrite <- Had, <- Hal. }
  { by rewrite Hla, Hln. }
  unfold upstream_payload, forwardable in *. rewrite Hr, Hla, Hln, <- Had, <- Hal, <- Hfd in Hsent.
  change (dc_route ctx1) with (dc_route ctx) in Hsent.
  change (dc_local_addr ctx1) with (dc_local_addr ctx) in Hsent.
  change (dc_local_addr_len ctx1) with (dc_local_addr_len ctx) in Hsent.
  eexists _, _, c', _. split; [reflexivity|].
  split_and!; [done|done|congruence|done|..]; destruct Hsent as [(-> & Hrc & Hf)|(b & -> & Hpay & _ & Hf)];
    try tauto. intros _. eauto.
Qed.
End packets.

(** Expiry. The pass before a packet removes exactly the clients that have
    been idle for longer than the route's timeout, keeps the others in their
    order, keeps the table well formed, and closes the socket of each removed
    client once and no other socket. *)
Theorem cleanup_idle_spec : forall now ctx,
  dinv ctx ->
  let timeout := opt_idle_timeout_sec (r_opts (dc_route ctx)) in
  let '(ctx', acts) := cleanup_idle_datagram_clients now ctx in
  dinv ctx' /\
  dc_clients ctx' = List.filter (fun c => now - cl_last_seen c <=? timeout) (dc_clients ctx) /\
  closes acts = cl_fd <$> List.filter (fun c => timeout <? now - cl_last_seen c) (dc_clients ctx) /\
  sends acts = [].
Proof.
  intros now ctx Hi. cbv zeta. unfold cleanup_idle_datagram_clients. rewrite cleanup_walk_spec.
  split; [by apply dinv_filter|]. split; [simpl; apply filter_ext; intros c; apply negb_involutive|].
  pose proof (di_live _ Hi) as Hl. clear Hi. simpl. unfold expired.
  induction Hl as [|c cs [Hp _] _ IH]; [done|]. simpl. rewrite Z.leb_antisym, negb_involutive.
  destruct IH as [IH1 IH2]. case_if; [|done]. simpl.
  rewrite closes_app, sends_app, free_client_closes, free_client_sends, IH1, IH2.
  by rewrite (proj2 (Z.leb_le _ _)) by lia.
Qed.

(** ** Replies *)






(** Builtins over UDP. A packet to a builtin upstream never touches the
    client table; [client_addr] answers the peer, from the listening socket,
    with its printed address and a newline; [discard], [hang], [log_conn] and
    [close] answer nothing; [http_ok], although the configuration accepts it on
    a UDP route, answers nothing and fails with -EINVAL. *)
Theorem datagram_builtins : forall inet_pton send sendto inet_ntop os now ctx addr n data rc ctx' acts,
  ep_kind (r_upstream (dc_route ctx)) = ENDPOINT_BUILTIN ->
  datagram_route_handle_packet inet_pton send sendto inet_ntop os now ctx addr n data
    = Some (rc, ctx', acts) ->
  ctx' = ctx /\
  match ep_builtin (r_upstream (dc_route ctx)) with
  | X_BUILTIN_CLIENT_ADDR =>
      match datagram_client_addr_string inet_ntop addr 128 with
      | Some text => len text + 1 < RES_DATA_SIZE ->
          acts = [DSendTo (dc_listen_fd ctx) (text ++ [x0a]) addr n]
      | None => rc = - EINVAL /\ acts = []
      end
  | X_BUILTIN_HTTP_OK | X_BUILTIN_NONE => rc = - EINVAL /\ acts = []
  | X_BUILTIN_DISCARD | X_BUILTIN_HANG | X_BUILTIN_LOG_CONN | X_BUILTIN_CLOSE =>
      rc = 0 /\ acts = []
  end.
Proof.
  intros * Hk. unfold datagram_route_handle_packet. rewrite bool_decide_true by done.
  unfold handle_datagram_builtin_packet, start_datagram_builtin, x_builtin_handle. simpl.
  destruct (ep_builtin _); simpl; try (intros [= <- <- <-]; done).
  destruct (datagram_client_addr_string inet_ntop addr 128) as [text|];
    [|by intros [= <- <- <-]].
  assert (len (text ++ [x0a]) = len text + 1) as Hl by (by rewrite len_snoc).
  rewrite Hl. case_if; simpl; bool_to_prop.
  - intros [= <- <- <-]. split; [done|]. lia.
  - pose proof (len_nonneg text). rewrite (proj2 (Z.eqb_neq _ _)) by lia.
    by intros [= <- <- <-].
Qed.

(** ** Witnesses *)

Definition udp_route (builtin : bool) : route :=
  mk_route (mk_endpoint ENDPOINT_INET (str "10.0.0.1") 53 PROTO_UDP [] X_BUILTIN_NONE)
    (if builtin
     then mk_endpoint ENDPOINT_BUILTIN [] 0 PROTO_BUILTIN [] X_BUILTIN_HTTP_OK
     else mk_endpoint ENDPOINT_INET (str "10.0.0.1") 5353 PROTO_UDP [] X_BUILTIN_NONE)
    (mk_opts false false false 60 5 0 BROADCAST_REPLY_OFF) 1.

Definition example_peer : sockaddr := example_sa 40000 [x0a; x00; x00; x63].
Definition example_client : datagram_client := mk_client 7 true [] example_peer 16 1000.
Definition example_dctx : datagram_route_ctx :=
  mk_dctx (udp_route false) 5 true (example_sa 53 [x0a; x00; x00; x01]) 16 [example_client] (-1).
Definition example_os : create_os :=
  mk_os true (Ok 8) None None true true true (str "/tmp/tinyproxy") 42 (str "0x5578").

Lemma example_dinv : dinv example_dctx.
Proof. split; try apply NoDup_singleton. by repeat constructor. Qed.

Lemma example_os_ok cs : 8 ∉ (cl_fd <$> cs) -> os_ok example_os (set_clients example_dctx cs).
Proof. intros Hn. split; try done. intros fd [= <-]. split; [lia|done]. Qed.

Lemma handle_packet_isolation_witness :
  exists rc ctx' acts,
    datagram_route_handle_packet example_pton (fun _ d => Ok (len d)) (fun _ d _ => Ok (len d))
      (fun _ _ _ => None) example_os 1030 example_dctx (example_sa 40001 [x0a; x00; x00; x63]) 16
      (str "query") = Some (rc, ctx', acts) /\ dinv ctx' /\ (rc = 0 -> sends acts <> []).
Proof.
  destruct (handle_packet_isolation example_pton (fun _ d => Ok (len d)) (fun _ d _ => Ok (len d))
    (fun _ _ _ => None) example_os 1030 example_dctx (example_sa 40001 [x0a; x00; x00; x63]) 16
    (str "query")) as (rc & ctx' & acts & H1 & H2 & _ & _ & H3).
  - exact example_dinv.
  - apply (example_os_ok [example_client]). intros H. by inversion H as [|? ? ? H']; inversion H'.
  - discriminate.
  - repeat constructor. vm_compute. discriminate.
  - vm_compute. discriminate.
  - vm_compute. discriminate.
  - exists rc, ctx', acts. split; [exact H1|]. split; [exact H2|exact H3].
Defined.

Lemma datagram_affinity_witness :
  exists rc ctx' acts,
    datagram_route_handle_packet example_pton (fun _ d => Ok (len d)) (fun _ d _ => Ok (len d))
      (fun _ _ _ => None) example_os 1030 (cleanup_idle_datagram_clients 1030 example_dctx).1
      example_peer 16 (str "again") = Some (rc, ctx', acts) /\ acts = [DSend 7 (str "again")].
Proof.
  destruct (datagram_affinity example_pton (fun _ d => Ok (len d)) (fun _ d _ => Ok (len d))
    (fun _ _ _ => None) example_os 1030 example_dctx example_client example_peer 16 (str "again"))
    as (rc & ctx' & c' & acts & Ha & _ & _ & _ & _ & Hf & _).
  - exact example_dinv.
  - apply (example_os_ok [example_client]). intros H. by inversion H as [|? ? ? H']; inversion H'.
  - discriminate.
  - vm_compute. discriminate.
  - vm_compute. discriminate.
  - constructor.
  - reflexivity.
  - vm_compute. discriminate.
  - exists rc, ctx', acts. split; [exact Ha|].
    destruct Hf as (sent & -> & Hp); [discriminate|]. unfold upstream_payload in Hp. simpl in Hp.
    rewrite Hp. reflexivity.
Defined.

Lemma cleanup_idle_spec_witness :
  dinv (cleanup_idle_datagram_clients 1061 example_dctx).1 /\
  closes (cleanup_idle_datagram_clients 1061 example_dctx).2 = [7].
Proof.
  pose proof (cleanup_idle_spec 1061 example_dctx example_dinv) as H.
  cbv zeta in H. destruct (cleanup_idle_datagram_clients 1061 example_dctx) as [ctx' acts].
  destruct H as (H1 & _ & H2 & _). split; [exact H1|exact H2].
Defined.


Definition builtin_dctx : datagram_route_ctx :=
  mk_dctx (udp_route true) 5 true (example_sa 53 [x0a; x00; x00; x01]) 16 [] (-1).

Lemma datagram_builtins_witness :
  exists rc acts,
    datagram_route_handle_packet example_pton (fun _ d => Ok (len d)) (fun _ d _ => Ok (len d))
      (fun _ _ _ => None) example_os 1 builtin_dctx example_peer 16 (str "GET /")
      = Some (rc, builtin_dctx, acts) /\ rc = - EINVAL /\ acts = [].
Proof.
  eexists _, _. split; [vm_compute; reflexivity|].
  exact (proj2 (datagram_builtins example_pton (fun _ d => Ok (len d)) (fun _ d _ => Ok (len d))
    (fun _ _ _ => None) example_os 1 builtin_dctx example_peer 16 (str "GET /") (- EINVAL)
    builtin_dctx [] eq_refl eq_refl)).
Defined.
