(* ===== verification/DatagramFds.v ===== *)
(** * Descriptors of a datagram route

    Forwarding a packet and cleaning the table up account for every socket: what
    the clients held before, with the socket a new client opens, is what the
    clients hold after, with the sockets that were closed. *)

From stdpp Require Import sets.
From S2P Require Import Prelude CString Endpoint ProxyV2 RawUdp Worker Datagram DatagramFacts.

(** Occurrences of a descriptor in a list: descriptor numbers are reused by the
    kernel, so lists of descriptors are compared as multisets. *)
Definition occ (z : Z) (l : list Z) : nat := count_occ Z.eq_dec l z.

Lemma occ_app z a b : occ z (a ++ b) = (occ z a + occ z b)%nat.
Proof. apply count_occ_app. Qed.
Lemma occ_nil z : occ z [] = 0%nat.
Proof. done. Qed.
Lemma occ_cons z x l : occ z (x :: l) = (occ z [x] + occ z l)%nat.
Proof. unfold occ. simpl. destruct (Z.eq_dec x z); done. Qed.

Lemma occ_permutation a b : (forall z, occ z a = occ z b) <-> a ≡ₚ b.
Proof. symmetry. apply (Permutation_count_occ Z.eq_dec). Qed.

(** Replacing one element of a list of owners. *)
Lemma occ_insert {A} (f : A -> list Z) (l : list A) i x y z :
  l !! i = Some x ->
  (occ z (concat (f <$> <[i := y]> l)) + occ z (f x) = occ z (concat (f <$> l)) + occ z (f y))%nat.
Proof.
  revert i. induction l as [|a l IH]; intros [|i] Hi; try done.
  - injection Hi as ->. simpl. rewrite !occ_app. lia.
  - specialize (IH i Hi). simpl. rewrite !occ_app. unfold fmap in *. lia.
Qed.

Lemma occ_concat_app {A} (f : A -> list Z) (l1 l2 : list A) z :
  occ z (concat (f <$> l1 ++ l2)) = (occ z (concat (f <$> l1)) + occ z (concat (f <$> l2)))%nat.
Proof. by rewrite fmap_app, concat_app, occ_app. Qed.

Create Rewrite HintDb occ.
#[export] Hint Rewrite occ_app occ_nil @occ_concat_app : occ.

(** ** The sockets of the clients *)

Definition client_fds (c : datagram_client) : list Z := closes (free_datagram_client c).
Definition ctx_fds (ctx : datagram_route_ctx) : list Z := concat (client_fds <$> dc_clients ctx).

(** The addresses of the context are as long as their lengths say. *)
Record ctx_backed (ctx : datagram_route_ctx) : Prop := {
  cb_local : sa_backed (dc_local_addr ctx) (dc_local_addr_len ctx);
  cb_clients : Forall (fun c => sa_backed (cl_addr c) (cl_addr_len c)) (dc_clients ctx)
}.

Lemma cleanup_walk_fds now timeout cs z :
  let '(kept, acts) := cleanup_walk now timeout cs in
  (occ z (concat (client_fds <$> kept)) + occ z (closes acts) = occ z (concat (client_fds <$> cs)))%nat /\
  forall c, c ∈ kept -> c ∈ cs.
Proof.
  induction cs as [|c cs IH]; cbn [cleanup_walk]; [done|].
  destruct (cleanup_walk now timeout cs) as [kept acts]. destruct IH as [IH Hin].
  rewrite fmap_cons. case_if; rewrite ?fmap_cons, ?closes_app; cbn [concat]; rewrite ?occ_app;
    fold (client_fds c); (split; [lia|set_solver]).
Qed.

Lemma cleanup_accounts now ctx z :
  let '(ctx', acts) := cleanup_idle_datagram_clients now ctx in
  (occ z (ctx_fds ctx') + occ z (closes acts) = occ z (ctx_fds ctx))%nat /\
  (ctx_backed ctx -> ctx_backed ctx').
Proof.
  unfold cleanup_idle_datagram_clients.
  pose proof (cleanup_walk_fds now (opt_idle_timeout_sec (r_opts (dc_route ctx))) (dc_clients ctx) z) as Hw.
  destruct (cleanup_walk _ _ _) as [kept acts]. destruct Hw as [Hw Hin]. split; [done|].
  intros [Hl Hc]. split; [done|]. simpl. rewrite Forall_forall in *. auto.
Qed.

Section fds.
Context (inet_pton : Z -> list byte -> option (list byte)).

(** The socket that the creation of a client opens. *)
Definition create_opened (os : create_os) (ep : endpoint) : list Z :=
  if os_calloc os && connectable inet_pton ep
  then match os_socket os with Ok fd => [fd] | Err _ => [] end else [].

Lemma connect_no_socket os ep e :
  os_socket os = Err e ->
  let '(_, fd, _, acts) := connect_datagram_upstream inet_pton os ep in fd = -1 /\ closes acts = [].
Proof.
  intros He. unfold connect_datagram_upstream. rewrite He.
  destruct (ep_kind ep); try done; [by destruct (endpoint_to_sockaddr _ _)..|].
  destruct (ep_path ep); [done|]. by case_if.
Qed.

(** Whatever happens, the socket is in [c->fd] or was closed. *)
Lemma connect_accounts os ep :
  os_ok os dctx_zero -> os_calloc os = true ->
  let '(rc, fd, _, acts) := connect_datagram_upstream inet_pton os ep in
  closes acts ++ (if 0 <=? fd then [fd] else []) = create_opened os ep /\
  (rc < 0 \/ rc = 0).
Proof.
  intros Hok Hc. pose proof (connect_spec inet_pton os dctx_zero ep Hok) as Hs.
  pose proof (connect_no_socket os ep) as Hn. unfold create_opened. rewrite Hc. cbn [andb].
  destruct (connect_datagram_upstream _ _ _) as [[[rc fd] path] acts].
  destruct Hs as [_ [(-> & Hfd & -> & ->)|(Hrc & Hopen & Hno)]].
  - rewrite Hfd. destruct (ok_fresh _ _ Hok _ Hfd) as [Hp _].
    rewrite (proj2 (Z.leb_le _ _)) by lia. split; [done|by right].
  - split; [|by left]. destruct (connectable inet_pton ep).
    + destruct (os_socket os) as [fd'|e]; [by apply Hopen|]. by destruct (Hn e eq_refl) as [-> ->].
    + by destruct (Hno eq_refl) as [-> ->].
Qed.

Lemma create_accounts os now ctx addr n z :
  os_ok os dctx_zero ->
  let '(oc, ctx', acts) := create_datagram_client inet_pton os now ctx addr n in
  (occ z (ctx_fds ctx') + occ z (closes acts) =
   occ z (ctx_fds ctx) + occ z (create_opened os (r_upstream (dc_route ctx))))%nat /\
  match oc with
  | Some c => cl_addr c = addr /\ cl_addr_len c = n /\ ctx' = set_clients ctx (c :: dc_clients ctx)
  | None => ctx' = ctx
  end.
Proof.
  intros Hok. unfold create_datagram_client. destruct (os_calloc os) eqn:Ec; cbn [negb].
  2: { unfold create_opened. rewrite Ec. done. }
  pose proof (connect_accounts os (r_upstream (dc_route ctx)) Hok Ec) as Hs.
  destruct (connect_datagram_upstream _ _ _) as [[[rc fd] path] acts]. destruct Hs as [<- Hrc].
  set (fds := if 0 <=? fd then [fd] else []).
  assert (forall ev, closes (acts ++ free_datagram_client (mk_client fd ev path addr n now)) =
    closes acts ++ fds) as Hfree by (intros; by rewrite closes_app, free_client_closes).
  assert (forall ev, ctx_fds (set_clients ctx (mk_client fd ev path addr n now :: dc_clients ctx)) =
    fds ++ ctx_fds ctx) as Hnew.
  { intros ev. unfold ctx_fds. cbn [dc_clients set_clients]. rewrite fmap_cons. cbn [concat].
    f_equal. apply free_client_closes. }
  clearbody fds. repeat case_if; (split; [|done]); rewrite ?Hfree, ?Hnew; autorewrite with occ; lia.
Qed.

Lemma get_or_create_accounts os now ctx addr n z :
  os_ok os dctx_zero -> sa_backed addr n -> ctx_backed ctx ->
  let '(oc, ctx', acts) := datagram_route_get_or_create_client inet_pton os now ctx addr n in
  (occ z (ctx_fds ctx') + occ z (closes acts) =
   occ z (ctx_fds ctx) + occ z (match find_datagram_client ctx addr n with
                                | Some _ => []
                                | None => create_opened os (r_upstream (dc_route ctx))
                                end))%nat /\
  ctx_backed ctx' /\ forall c, oc = Some c -> sa_backed (cl_addr c) (cl_addr_len c).
Proof.
  intros Hok Hb [Hl Hc]. unfold datagram_route_get_or_create_client, find_datagram_client.
  destruct (find_client (dc_clients ctx) addr n) as [i|].
  - destruct (dc_clients ctx !! i) as [c|] eqn:Ei; [|by split_and!].
    pose proof (proj1 (Forall_lookup _ _) Hc _ _ Ei) as Hci.
    split_and!; [|split; [done|]|by intros ? [= <-]].
    + unfold ctx_fds. simpl. pose proof (occ_insert client_fds _ i c (touch c now) z Ei) as Ho.
      change (client_fds (touch c now)) with (client_fds c) in Ho. lia.
    + simpl. by apply Forall_insert.
  - pose proof (create_accounts os now ctx addr n z Hok) as Hcr.
    destruct (create_datagram_client _ _ _ _ _ _) as [[[c|] ctx'] acts].
    + destruct Hcr as (Ha & <- & <- & ->). split_and!; [exact Ha|split; [done|by constructor]|by intros ? [= <-]].
    + destruct Hcr as (Ha & ->). by split_and!.
Qed.

Context (send : Z -> list byte -> result Z).
Context (sendto : Z -> list byte -> sockaddr -> result Z).
Context (inet_ntop : Z -> list byte -> Z -> option (list byte)).

(** The socket that forwarding a packet opens. *)
Definition packet_opened (os : create_os) (ctx : datagram_route_ctx) (addr : sockaddr) (n : Z) : list Z :=
  if bool_decide (ep_kind (r_upstream (dc_route ctx)) = ENDPOINT_BUILTIN) then [] else
  match find_datagram_client ctx addr n with
  | Some _ => []
  | None => create_opened os (r_upstream (dc_route ctx))
  end.

(** One packet: the call returns, and every socket is accounted for. *)
Lemma packet_accounts os now ctx addr n data :
  os_ok os dctx_zero -> sa_backed addr n -> ctx_backed ctx ->
  exists rc ctx' acts,
    datagram_route_handle_packet inet_pton send sendto inet_ntop os now ctx addr n data
      = Some (rc, ctx', acts) /\ ctx_backed ctx' /\
    forall z, (occ z (ctx_fds ctx') + occ z (closes acts) =
               occ z (ctx_fds ctx) + occ z (packet_opened os ctx addr n))%nat.
Proof.
  intros Hok Hb Hc. unfold datagram_route_handle_packet, packet_opened. case_bool_decide.
  - unfold handle_datagram_builtin_packet, start_datagram_builtin.
    destruct (x_builtin_handle _) as [res|]; [|by eexists _, _, _].
    destruct (res_action res); try case_if; eexists _, _, _; (split; [reflexivity|done]).
  - pose proof (fun z => get_or_create_accounts os now ctx addr n z Hok Hb Hc) as Hg.
    destruct (datagram_route_get_or_create_client _ _ _ _ _ _) as [[[c|] ctx'] acts].
    + destruct (Hg 0) as (_ & Hc' & Hcb). specialize (Hcb c eq_refl).
      destruct (send_upstream_spec send ctx' c data Hcb (cb_local _ Hc')) as (rc & sent & -> & Hs).
      cbn [mbind option_bind]. eexists _, _, _. split; [reflexivity|]. split; [done|]. intros z.
      rewrite closes_app. destruct (Hg z) as [<- _].
      destruct Hs as [[-> _]|(sn & -> & _)]; simpl; by rewrite app_nil_r.
    + destruct (Hg 0) as (_ & Hc' & _). eexists _, _, _. split; [reflexivity|]. split; [done|].
      intros z. apply (Hg z).
Qed.
End fds.

(** ** Replies *)

Lemma sum16_range data s : 0 <= s < 2 ^ 32 -> 0 <= sum16 data s < 2 ^ 32.
Proof.
  revert s. induction data as [|a|a b l IH] using list_ind2; intros s Hs; cbn [sum16]; [done| |].
  - unfold u32. apply Z.mod_pos_bound. lia.
  - apply IH. unfold u32. apply Z.mod_pos_bound. lia.
Qed.

Lemma checksum16_total data : exists sum, checksum16 data = Some sum.
Proof.
  unfold checksum16. destruct (fold16_spec (sum16 data 0)) as (r & -> & _); [by apply sum16_range|].
  by eexists.
Qed.

(** The read callback of a live client returns, whatever arrives and whatever
    fails, and closes nothing. *)
Lemma upstream_read_total inet_pton sendto hst calloc_ok ctx c recv :
  exists acts, upstream_read_cb inet_pton sendto hst calloc_ok ctx c recv = Some acts /\ closes acts = [].
Proof.
  assert (forall d, exists rc acts,
    send_datagram_payload_to_client inet_pton sendto hst calloc_ok ctx c d = Some (rc, acts) /\
    closes acts = []) as Hsend.
  { intros d. unfold send_datagram_payload_to_client. case_bool_decide; [|by eexists _, _].
    unfold datagram_raw_send_udp_ipv4. do 4 (case_if; [by eexists _, _|]).
    destruct (endpoint_to_sockaddr_in _ _) as [src|]; [|by eexists _, _].
    do 2 (case_if; [by eexists _, _|]). unfold raw_packet.
    match goal with |- context [checksum16 ?x] => destruct (checksum16_total x) as [sum ->] end.
    cbn [mbind option_bind]. destruct (sendto _ _ _); by eexists _, _. }
  induction recv as [|[[|b d]|e] recv IH]; try by eexists.
  cbn [upstream_read_cb]. destruct (Hsend (b :: d)) as (rc & acts & -> & Hc). cbn [mbind option_bind].
  case_if; [|by eexists]. destruct IH as (more & -> & Hm). cbn [mbind option_bind].
  eexists. split; [reflexivity|]. by rewrite closes_app, Hc, Hm.
Qed.
