(* ===== verification/DatagramConc.v ===== *)
(** * Several workers on one datagram route

    Packets of a route are spread over all the workers, so the table of clients
    is shared. Each step below is one critical section of [clients_mu], or what
    a thread does without the mutex: [worker_process_msg] calls
    [cleanup_idle_datagram_clients] and then [datagram_route_handle_packet], each
    with its own critical section; the event loop of the worker that created a
    client dispatches [upstream_read_cb], which reads [c->ctx] before it takes
    the mutex. The clients' addresses are explicit ([dd_ptrs], parallel to the
    list), so that an access to a client that was freed is visible. *)

From stdpp Require Import relations.
From S2P Require Import Prelude CString Endpoint ProxyV2 RawUdp Worker Datagram DatagramFacts DatagramFds.

(** Where a worker thread is. *)
Inductive dpc : Type :=
| DIdle                                             (* in its event loop *)
| DPacket (addr : sockaddr) (n : Z) (data : list byte)   (* between clean-up and forwarding *)
| DRead (p : loc)                                   (* upstream_read_cb(p), before [c->ctx] *)
| DLock (p : loc).                                  (* the same, waiting for the mutex *)

Record dstate : Type := mk_dd {
  dd_ctx : datagram_route_ctx;
  dd_ptrs : list (loc * nat);       (* the address of each client, and the worker of its event *)
  dd_pc : list dpc;                 (* one per worker *)
  dd_fault : bool                   (* a freed client was accessed *)
}.

(** [calloc] of a new client returned [l] to worker [t]; otherwise the list of
    addresses is unchanged. *)
Definition link_ptr (old new : datagram_route_ctx) (l : loc) (t : nat) (ps : list (loc * nat))
    : list (loc * nat) :=
  if (length (dc_clients old) <? length (dc_clients new))%nat then (l, t) :: ps else ps.

(** The addresses of the clients that the clean-up keeps. *)
Fixpoint kept_ptrs (now timeout : Z) (cs : list datagram_client) (ps : list (loc * nat))
    : list (loc * nat) :=
  match cs, ps with
  | c :: cs, p :: ps =>
      if now - cl_last_seen c <=? timeout then p :: kept_ptrs now timeout cs ps
      else kept_ptrs now timeout cs ps
  | _, _ => []
  end.

(** The client at address [p]. *)
Fixpoint client_at (p : loc) (cs : list datagram_client) (ps : list (loc * nat)) : option datagram_client :=
  match cs, ps with
  | c :: cs, (q, _) :: ps => if bool_decide (p = q) then Some c else client_at p cs ps
  | _, _ => None
  end.

Section conc.
Context (inet_pton : Z -> list byte -> option (list byte)).
Context (send : Z -> list byte -> result Z).
Context (sendto : Z -> list byte -> sockaddr -> result Z).
Context (inet_ntop : Z -> list byte -> Z -> option (list byte)).
Context (hst : host) (calloc_ok : Z -> bool).

Definition client_live (s : dstate) (p : loc) : bool :=
  bool_decide (p ∈ (dd_ptrs s).*1).

Definition set_pc (s : dstate) (t : nat) (pc : dpc) : dstate :=
  mk_dd (dd_ctx s) (dd_ptrs s) (<[t := pc]> (dd_pc s)) (dd_fault s).

Inductive dstep : dstate -> dstate -> Prop :=
| ds_cleanup s t now ctx' acts addr n data :
    dd_pc s !! t = Some DIdle -> sa_backed addr n ->
    cleanup_idle_datagram_clients now (dd_ctx s) = (ctx', acts) ->
    dstep s (mk_dd ctx'
      (kept_ptrs now (opt_idle_timeout_sec (r_opts (dc_route (dd_ctx s)))) (dc_clients (dd_ctx s)) (dd_ptrs s))
      (<[t := DPacket addr n data]> (dd_pc s)) (dd_fault s))
| ds_packet s t os now addr n data rc ctx' acts l :
    dd_pc s !! t = Some (DPacket addr n data) -> os_ok os (dd_ctx s) ->
    l ∉ (dd_ptrs s).*1 ->
    datagram_route_handle_packet inet_pton send sendto inet_ntop os now (dd_ctx s) addr n data
      = Some (rc, ctx', acts) ->
    dstep s (mk_dd ctx' (link_ptr (dd_ctx s) ctx' l t (dd_ptrs s)) (<[t := DIdle]> (dd_pc s)) (dd_fault s))
| ds_dispatch s t p :
    dd_pc s !! t = Some DIdle -> (p, t) ∈ dd_ptrs s -> dstep s (set_pc s t (DRead p))
| ds_load s t p :
    dd_pc s !! t = Some (DRead p) -> client_live s p = true -> dstep s (set_pc s t (DLock p))
| ds_replies s t p c recv acts :
    dd_pc s !! t = Some (DLock p) -> client_at p (dc_clients (dd_ctx s)) (dd_ptrs s) = Some c ->
    upstream_read_cb inet_pton sendto hst calloc_ok (dd_ctx s) c recv = Some acts ->
    dstep s (set_pc s t DIdle)
| ds_fault s t p pc :
    dd_pc s !! t = Some pc -> pc = DRead p \/ pc = DLock p -> client_live s p = false ->
    dstep s (mk_dd (dd_ctx s) (dd_ptrs s) (<[t := DIdle]> (dd_pc s)) true).

(** [n] idle workers on a route without clients. *)
Definition dd_init (ctx : datagram_route_ctx) (n : nat) : dstate :=
  mk_dd (set_clients ctx []) [] (replicate n DIdle) false.

(** ** The table under any interleaving *)

(** Threads hold packets whose address is backed. *)
Definition pc_ok (pc : dpc) : Prop :=
  match pc with DPacket addr n _ => sa_backed addr n | _ => True end.

Record ddinv (s : dstate) : Prop := {
  dv_table : dinv (dd_ctx s);
  dv_backed : ctx_backed (dd_ctx s);
  dv_len : length (dd_ptrs s) = length (dc_clients (dd_ctx s));
  dv_ptrs : NoDup (dd_ptrs s).*1;
  dv_pc : Forall pc_ok (dd_pc s)
}.

Lemma kept_ptrs_spec now timeout cs ps :
  length ps = length cs ->
  length (kept_ptrs now timeout cs ps) = length (cleanup_walk now timeout cs).1 /\
  sublist (kept_ptrs now timeout cs ps).*1 ps.*1.
Proof.
  revert ps. induction cs as [|c cs IH]; intros [|p ps] Hl; try done.
  cbn [kept_ptrs cleanup_walk]. destruct (IH ps) as [H1 H2]; [simpl in Hl; lia|].
  destruct (cleanup_walk now timeout cs) as [kept acts]. simpl in H1.
  destruct (now - cl_last_seen c <=? timeout); simpl; (split; [lia|by constructor]).
Qed.

Lemma get_or_create_length os now ctx addr n :
  os_ok os dctx_zero ->
  let ctx' := (datagram_route_get_or_create_client inet_pton os now ctx addr n).1.2 in
  length (dc_clients ctx') = length (dc_clients ctx) \/
  length (dc_clients ctx') = S (length (dc_clients ctx)).
Proof.
  intros Hok. unfold datagram_route_get_or_create_client.
  destruct (find_datagram_client ctx addr n) as [i|].
  - destruct (dc_clients ctx !! i); [|by left]. left. simpl. by rewrite length_insert.
  - pose proof (create_accounts inet_pton os now ctx addr n 0 Hok) as Hc.
    destruct (create_datagram_client _ _ _ _ _ _) as [[[c|] ctx'] acts].
    + destruct Hc as (_ & _ & _ & ->). by right.
    + destruct Hc as (_ & ->). by left.
Qed.

Lemma packet_table os now ctx addr n data :
  dinv ctx -> ctx_backed ctx -> os_ok os ctx -> sa_backed addr n ->
  exists rc ctx' acts,
    datagram_route_handle_packet inet_pton send sendto inet_ntop os now ctx addr n data
      = Some (rc, ctx', acts) /\ dinv ctx' /\ ctx_backed ctx' /\
    (length (dc_clients ctx') = length (dc_clients ctx) \/
     length (dc_clients ctx') = S (length (dc_clients ctx))).
Proof.
  intros Hi Hb Hok Ha.
  assert (os_ok os dctx_zero) as Hok0.
  { destruct Hok as [Hf ? ? ?]. split; try done. intros fd Hfd. split; [by apply Hf|apply not_elem_of_nil]. }
  destruct (packet_accounts inet_pton send sendto inet_ntop os now ctx addr n data Hok0 Ha Hb)
    as (rc & ctx' & acts & He & Hb' & _).
  exists rc, ctx', acts. split; [done|]. split_and!; [|done|]; revert He; unfold datagram_route_handle_packet.
  - case_bool_decide; [destruct (handle_datagram_builtin_packet _ _ _ _ _ _); by intros [= <- <- <-]|].
    pose proof (get_or_create_spec inet_pton os now ctx addr n Hi Hok) as Hg.
    destruct (datagram_route_get_or_create_client _ _ _ _ _ _) as [[[c|] ctx1] acts1].
    + destruct (send_datagram_payload_to_upstream _ _ _ _) as [[? ?]|]; [|done].
      cbn [mbind option_bind]. intros [= <- <- <-]. apply Hg.
    + intros [= <- <- <-]. apply Hg.
  - case_bool_decide; [destruct (handle_datagram_builtin_packet _ _ _ _ _ _); intros [= <- <- <-]; by left|].
    pose proof (get_or_create_length os now ctx addr n Hok0) as Hg.
    destruct (datagram_route_get_or_create_client _ _ _ _ _ _) as [[[c|] ctx1] acts1].
    + destruct (send_datagram_payload_to_upstream _ _ _ _) as [[? ?]|]; [|done].
      cbn [mbind option_bind]. by intros [= <- <- <-].
    + by intros [= <- <- <-].
Qed.

Lemma ddinv_pc s t pc : ddinv s -> pc_ok pc -> ddinv (set_pc s t pc).
Proof. intros [? ? ? ? Hp] Hpc. split; try done. by apply Forall_insert. Qed.

Lemma ddinv_step s s' : ddinv s -> dstep s s' -> ddinv s'.
Proof.
  intros Hs Hst. pose proof Hs as [Ht Hb Hl Hn Hp].
  destruct Hst as [s t now ctx' acts addr n data Hpc Ha Hc|s t os now addr n data rc ctx' acts l Hpc Hok Hf He
    |s t p Hpc Hin|s t p Hpc Hlv|s t p c recv acts Hpc Hc Hr|s t p pc Hpc Ho Hlv].
  - pose proof (cleanup_accounts now (dd_ctx s) 0) as Hca. rewrite Hc in Hca.
    unfold cleanup_idle_datagram_clients in Hc.
    destruct (kept_ptrs_spec now (opt_idle_timeout_sec (r_opts (dc_route (dd_ctx s)))) _ _ Hl) as [K1 K2].
    rewrite cleanup_walk_spec in Hc. rewrite cleanup_walk_spec in K1. injection Hc as <- <-. split; simpl.
    + by apply dinv_filter.
    + by apply Hca.
    + exact K1.
    + by eapply sublist_NoDup.
    + by apply Forall_insert.
  - pose proof (proj1 (Forall_lookup _ _) Hp _ _ Hpc) as Ha. simpl in Ha.
    destruct (packet_table os now (dd_ctx s) addr n data Ht Hb Hok Ha) as (rc' & ctx1 & acts1 & E & H1 & H2 & H3).
    rewrite He in E. injection E as <- <- <-. unfold link_ptr. split; simpl; try done.
    + destruct (Nat.ltb_spec (length (dc_clients (dd_ctx s))) (length (dc_clients ctx'))); simpl; lia.
    + case_if; [|done]. rewrite fmap_cons. by apply NoDup_cons.
    + by apply Forall_insert.
  - by apply ddinv_pc.
  - by apply ddinv_pc.
  - by apply ddinv_pc.
  - split; try done. simpl. by apply Forall_insert.
Qed.

Lemma ddinv_init ctx n : ctx_backed ctx -> ddinv (dd_init ctx n).
Proof.
  intros [Hl _]. split; simpl; try done; try apply NoDup_nil_2.
  - split; simpl; try apply NoDup_nil_2. done.
  - by apply Forall_replicate.
Qed.

(** ** One worker *)

(** The only worker reads a client that is linked. *)
Definition one_ok (s : dstate) : Prop :=
  dd_fault s = false /\ exists pc, dd_pc s = [pc] /\
    match pc with DRead p | DLock p => client_live s p = true | _ => True end.

Lemma one_step s s' : one_ok s -> dstep s s' -> one_ok s'.
Proof.
  intros (Hf & pc0 & Ep & Hp) Hst. unfold one_ok.
  destruct Hst as [s t now ctx' acts addr n data Hpc Ha Hc|s t os now addr n data rc ctx' acts l Hpc Hok Hfr He
    |s t p Hpc Hin|s t p Hpc Hlv|s t p c recv acts Hpc Hc Hr|s t p pc Hpc Ho Hlv];
    rewrite Ep in Hpc; (destruct t as [|t]; [|done]); injection Hpc as ->;
    unfold set_pc; simpl; rewrite Ep; simpl.
  1, 2, 4, 5: split; [done|]; eexists; split; [reflexivity|done].
  - split; [done|]. eexists. split; [reflexivity|]. apply bool_decide_true.
    change p with (p, 0%nat).1. by apply list_elem_of_fmap_2.
  - exfalso. destruct Ho as [-> | ->]; simpl in Hp; congruence.
Qed.

(** C12: the table of clients under any interleaving of the workers' critical
    sections. In every reachable state of a route shared by any number of
    workers, there is at most one client per peer address and per descriptor,
    each at its own address; a worker that holds a packet can always forward
    it; and with a single worker no client is ever accessed after it was
    freed. *)
Theorem dgram_interleaved : forall ctx n s,
  ctx_backed ctx -> rtc dstep (dd_init ctx n) s ->
  dinv (dd_ctx s) /\ NoDup (dd_ptrs s).*1 /\ length (dd_ptrs s) = length (dc_clients (dd_ctx s)) /\
  (forall t addr m data os now, dd_pc s !! t = Some (DPacket addr m data) -> os_ok os (dd_ctx s) ->
     exists rc ctx' acts,
       datagram_route_handle_packet inet_pton send sendto inet_ntop os now (dd_ctx s) addr m data
         = Some (rc, ctx', acts) /\ dinv ctx') /\
  (n = 1%nat -> dd_fault s = false).
Proof.
  intros ctx n s Hb Hr.
  assert (ddinv s /\ (n = 1%nat -> one_ok s)) as [Hs Ho].
  { assert (ddinv (dd_init ctx n) /\ (n = 1%nat -> one_ok (dd_init ctx n))) as Hi.
    { split; [by apply ddinv_init|]. intros ->. split; [done|]. by exists DIdle. }
    revert Hi. induction Hr as [s|s1 s2 s3 Hst _ IH]; [done|]. intros [H1 H2]. apply IH.
    split; [by eapply ddinv_step|]. intros E. eapply one_step; [by apply H2|exact Hst]. }
  split_and!; [apply Hs|apply Hs|apply Hs| |by intros E; apply Ho].
  intros t addr m data os now Hpc Hok. pose proof (proj1 (Forall_lookup _ _) (dv_pc _ Hs) _ _ Hpc) as Ha.
  destruct (packet_table os now (dd_ctx s) addr m data (dv_table _ Hs) (dv_backed _ Hs) Hok Ha)
    as (rc & ctx' & acts & He & Hi' & _). eauto.
Qed.
End conc.

(** ** Two workers *)

Definition conc_pkt (port : Z) : sockaddr := example_sa port [x0a; x00; x00; x63].
Definition conc_step : dstate -> dstate -> Prop :=
  dstep example_pton (fun _ d => Ok (len d)) (fun _ d _ => Ok (len d)) (fun _ _ _ => None)
    (mk_host false false true) (fun _ => true).
Definition conc_ctx (cs : list datagram_client) : datagram_route_ctx := set_clients example_dctx cs.
Definition conc_client : datagram_client := mk_client 8 true [] (conc_pkt 40000) 16 1000.

(** C13: with two workers a client can be used after it was freed. Worker 0
    creates a client and, when the upstream replies, enters
    [upstream_read_cb] for it; before it reads [c->ctx], worker 1 receives a
    packet of another peer after the idle timeout, and its clean-up frees the
    client: the read of [c->ctx] is an access to freed memory. The mutex does
    not help, because it is reached through the freed client. *)
Theorem dgram_uaf_reachable :
  exists s, rtc conc_step (dd_init example_dctx 2) s /\ dd_fault s = true.
Proof.
  set (p0 := DPacket (conc_pkt 40000) 16 (str "query")).
  set (p1 := DPacket (conc_pkt 40001) 16 (str "other")).
  exists (mk_dd (conc_ctx []) [] [DIdle; p1] true). split; [|done].
  apply (rtc_l _ _ (mk_dd (conc_ctx []) [] [p0; DIdle] false)).
  { eapply (ds_cleanup _ _ _ _ _ _ (dd_init example_dctx 2) 0 1000); done. }
  apply (rtc_l _ _ (mk_dd (conc_ctx [conc_client]) [(1%positive, 0%nat)] [DIdle; DIdle] false)).
  { apply (ds_packet _ _ _ _ _ _ (mk_dd (conc_ctx []) [] [p0; DIdle] false) 0 example_os 1000
      (conc_pkt 40000) 16 (str "query") 0 (conc_ctx [conc_client]) [DSend 8 (str "query")] 1%positive).
    - done.
    - apply example_os_ok. apply not_elem_of_nil.
    - apply not_elem_of_nil.
    - vm_compute. reflexivity. }
  apply (rtc_l _ _ (mk_dd (conc_ctx [conc_client]) [(1%positive, 0%nat)] [DRead 1%positive; DIdle] false)).
  { apply (ds_dispatch _ _ _ _ _ _ (mk_dd (conc_ctx [conc_client]) [(1%positive, 0%nat)] [DIdle; DIdle] false)
      0 1%positive); [done|]. apply list_elem_of_singleton. done. }
  apply (rtc_l _ _ (mk_dd (conc_ctx []) [] [DRead 1%positive; p1] false)).
  { eapply (ds_cleanup _ _ _ _ _ _
      (mk_dd (conc_ctx [conc_client]) [(1%positive, 0%nat)] [DRead 1%positive; DIdle] false) 1 1061); done. }
  apply rtc_once.
  apply (ds_fault _ _ _ _ _ _ (mk_dd (conc_ctx []) [] [DRead 1%positive; p1] false) 0 1%positive
    (DRead 1%positive)); [done|by left|vm_compute; reflexivity].
Qed.

Lemma dgram_interleaved_witness :
  dinv (conc_ctx [conc_client]) /\ [1%positive] = [(1%positive, 0%nat)].*1.
Proof.
  destruct (dgram_interleaved example_pton (fun _ d => Ok (len d)) (fun _ d _ => Ok (len d))
    (fun _ _ _ => None) (mk_host false false true) (fun _ => true) example_dctx 1
    (mk_dd (conc_ctx [conc_client]) [(1%positive, 0%nat)] [DIdle] false)) as (Hd & _).
  - split; [vm_compute; discriminate|]. repeat constructor. vm_compute. discriminate.
  - apply (rtc_l _ _ (mk_dd (conc_ctx []) [] [DPacket (conc_pkt 40000) 16 (str "query")] false)).
    + eapply (ds_cleanup _ _ _ _ _ _ (dd_init example_dctx 1) 0 1000); done.
    + apply rtc_once.
      apply (ds_packet _ _ _ _ _ _
        (mk_dd (conc_ctx []) [] [DPacket (conc_pkt 40000) 16 (str "query")] false) 0 example_os 1000
        (conc_pkt 40000) 16 (str "query") 0 (conc_ctx [conc_client]) [DSend 8 (str "query")] 1%positive).
      * done.
      * apply example_os_ok. apply not_elem_of_nil.
      * apply not_elem_of_nil.
      * vm_compute. reflexivity.
  - split; [exact Hd|reflexivity].
Defined.
