(* ===== verification/Stream.v ===== *)
(** * Stream connections ([stream_conn.c], [stream_pipe.c], [stream_builtin.c],
    [stream_file.c])

    libevent's bufferevents are a parameter: the class [Bufferevent] has the
    operations the code calls, and [BuffereventLaws] states what their manual
    documents, as the effect of each on the observable part of a bufferevent
    ([bview]): the two buffers, whether reading and writing are enabled, the
    descriptor and the timeouts. A callback is a function on the connection; it
    returns [None] when it has freed it, with the system calls it made. *)

From S2P Require Import Prelude CString Endpoint Sniff ProxyV2 Worker Datagram.

(** ** libevent *)

Record bview : Type := mk_bview {
  v_in : list byte;
  v_out : list byte;
  v_rd : bool;                   (* EV_READ enabled *)
  v_wr : bool;                   (* EV_WRITE enabled *)
  v_fd : Z;
  v_rto : option Z;              (* timeouts, in seconds *)
  v_wto : option Z
}.

Definition v_set_rw (v : bview) (rd wr : bool) : bview :=
  mk_bview (v_in v) (v_out v) rd wr (v_fd v) (v_rto v) (v_wto v).
Definition v_set_bufs (v : bview) (i o : list byte) : bview :=
  mk_bview i o (v_rd v) (v_wr v) (v_fd v) (v_rto v) (v_wto v).
Definition v_set_tos (v : bview) (r w : option Z) : bview :=
  mk_bview (v_in v) (v_out v) (v_rd v) (v_wr v) (v_fd v) r w.

Definition v_set_fd (v : bview) (fd : Z) : bview :=
  mk_bview (v_in v) (v_out v) (v_rd v) (v_wr v) fd (v_rto v) (v_wto v).

Class Bufferevent (B : Type) : Type := {
  be_view : B -> bview;
  bufferevent_socket_new : Z -> B;
  (* bufferevent_socket_connect, when it succeeds: the descriptor it opened *)
  be_connect : B -> Z -> B;
  (* evbuffer_add_buffer(output of dst, input of src) *)
  evbuffer_add_buffer : B -> B -> B * B;
  bufferevent_write : B -> list byte -> B;
  evbuffer_drain_input : B -> B;
  (* (read, write) flags *)
  bufferevent_enable : B -> bool -> bool -> B;
  bufferevent_disable : B -> bool -> bool -> B;
  bufferevent_set_timeouts : B -> option Z -> option Z -> B;
  (* the event loop: bytes arrive; the first bytes of the output are written *)
  be_recv : B -> list byte -> B;
  be_flush : B -> nat -> B
}.

Class BuffereventLaws (B : Type) `{Bufferevent B} : Prop := {
  law_new fd : be_view (bufferevent_socket_new fd) = mk_bview [] [] false true fd None None;
  law_connect b fd : be_view (be_connect b fd) = v_set_fd (be_view b) fd;
  law_add_dst dst src : be_view (evbuffer_add_buffer dst src).1 =
    v_set_bufs (be_view dst) (v_in (be_view dst)) (v_out (be_view dst) ++ v_in (be_view src));
  law_add_src dst src : be_view (evbuffer_add_buffer dst src).2 =
    v_set_bufs (be_view src) [] (v_out (be_view src));
  law_write b d : be_view (bufferevent_write b d) =
    v_set_bufs (be_view b) (v_in (be_view b)) (v_out (be_view b) ++ d);
  law_drain b : be_view (evbuffer_drain_input b) = v_set_bufs (be_view b) [] (v_out (be_view b));
  law_enable b r w : be_view (bufferevent_enable b r w) =
    v_set_rw (be_view b) (v_rd (be_view b) || r) (v_wr (be_view b) || w);
  law_disable b r w : be_view (bufferevent_disable b r w) =
    v_set_rw (be_view b) (v_rd (be_view b) && negb r) (v_wr (be_view b) && negb w);
  law_timeouts b r w : be_view (bufferevent_set_timeouts b r w) = v_set_tos (be_view b) r w;
  law_recv b d : be_view (be_recv b d) =
    v_set_bufs (be_view b) (v_in (be_view b) ++ d) (v_out (be_view b));
  law_flush b n : be_view (be_flush b n) =
    v_set_bufs (be_view b) (v_in (be_view b)) (drop n (v_out (be_view b)))
}.

(** The laws are satisfiable: a bufferevent that is its observable part. *)
#[export] Instance bview_bufferevent : Bufferevent bview := {
  be_view := id;
  bufferevent_socket_new fd := mk_bview [] [] false true fd None None;
  be_connect := v_set_fd;
  evbuffer_add_buffer dst src :=
    (v_set_bufs dst (v_in dst) (v_out dst ++ v_in src), v_set_bufs src [] (v_out src));
  bufferevent_write b d := v_set_bufs b (v_in b) (v_out b ++ d);
  evbuffer_drain_input b := v_set_bufs b [] (v_out b);
  bufferevent_enable b r w := v_set_rw b (v_rd b || r) (v_wr b || w);
  bufferevent_disable b r w := v_set_rw b (v_rd b && negb r) (v_wr b && negb w);
  bufferevent_set_timeouts := v_set_tos;
  be_recv b d := v_set_bufs b (v_in b ++ d) (v_out b);
  be_flush b n := v_set_bufs b (v_in b) (drop n (v_out b))
}.

#[export] Instance bview_laws : BuffereventLaws bview.
Proof. by split. Qed.

(** ** Connections *)

(** The callbacks that are installed on the client. *)
Inductive conn_mode : Type :=
| ModePipe
| ModeBuiltinClose               (* builtin_close_after_write_cb *)
| ModeBuiltinHttp                (* builtin_http_close_after_write_cb *)
| ModeDiscard                    (* builtin_client_read_cb only *)
| ModeHang
(* the descriptor of the stream, and what fread will return from it *)
| ModeFile (fd : Z) (chunks : list (list byte)) (ferror : bool).

Record conn (B : Type) : Type := mk_conn {
  c_route : route;
  c_client : B;
  c_upstream : option B;
  c_peer_addr : sockaddr;
  c_peer_addr_len : Z;
  c_sniff : stream_sniff;
  c_upstream_connected : bool;
  c_close_after_client_eof : bool;
  c_close_client_after_drain : bool;
  c_activity_seq : Z;            (* uint64_t *)
  c_idle_check_seq : Z;
  c_idle_ev : bool;              (* idle_ev != NULL *)
  c_idle_timer : option Z;       (* the timer is pending, with its delay *)
  c_mode : conn_mode
}.
Arguments mk_conn {B} _ _ _ _ _ _ _ _ _ _ _ _ _ _.
Arguments c_route {B} _.
Arguments c_client {B} _.
Arguments c_upstream {B} _.
Arguments c_peer_addr {B} _.
Arguments c_peer_addr_len {B} _.
Arguments c_sniff {B} _.
Arguments c_upstream_connected {B} _.
Arguments c_close_after_client_eof {B} _.
Arguments c_close_client_after_drain {B} _.
Arguments c_activity_seq {B} _.
Arguments c_idle_check_seq {B} _.
Arguments c_idle_ev {B} _.
Arguments c_idle_timer {B} _.
Arguments c_mode {B} _.

(** System calls on descriptors: [shutdown(fd, SHUT_WR)], and the close that
    [BEV_OPT_CLOSE_ON_FREE] makes of [bufferevent_free] or that [fclose] makes. *)
Inductive seffect : Type := SShutdown (fd : Z) | SClose (fd : Z).

Section stream.
Context {B : Type} `{Bufferevent B}.
Implicit Types (c : conn B) (b : B).

Definition set_bevs c (client : B) (upstream : option B) : conn B :=
  mk_conn (c_route c) client upstream (c_peer_addr c) (c_peer_addr_len c) (c_sniff c)
    (c_upstream_connected c) (c_close_after_client_eof c) (c_close_client_after_drain c)
    (c_activity_seq c) (c_idle_check_seq c) (c_idle_ev c) (c_idle_timer c) (c_mode c).
Definition set_client c (client : B) : conn B := set_bevs c client (c_upstream c).
Definition set_upstream c (upstream : B) : conn B := set_bevs c (c_client c) (Some upstream).
Definition set_flags c (connected after_eof after_drain : bool) : conn B :=
  mk_conn (c_route c) (c_client c) (c_upstream c) (c_peer_addr c) (c_peer_addr_len c) (c_sniff c)
    connected after_eof after_drain
    (c_activity_seq c) (c_idle_check_seq c) (c_idle_ev c) (c_idle_timer c) (c_mode c).
Definition set_idle c (activity check : Z) (ev : bool) (timer : option Z) : conn B :=
  mk_conn (c_route c) (c_client c) (c_upstream c) (c_peer_addr c) (c_peer_addr_len c) (c_sniff c)
    (c_upstream_connected c) (c_close_after_client_eof c) (c_close_client_after_drain c)
    activity check ev timer (c_mode c).
Definition set_sniff c (s : stream_sniff) : conn B :=
  mk_conn (c_route c) (c_client c) (c_upstream c) (c_peer_addr c) (c_peer_addr_len c) s
    (c_upstream_connected c) (c_close_after_client_eof c) (c_close_client_after_drain c)
    (c_activity_seq c) (c_idle_check_seq c) (c_idle_ev c) (c_idle_timer c) (c_mode c).
Definition set_mode c (m : conn_mode) : conn B :=
  mk_conn (c_route c) (c_client c) (c_upstream c) (c_peer_addr c) (c_peer_addr_len c) (c_sniff c)
    (c_upstream_connected c) (c_close_after_client_eof c) (c_close_client_after_drain c)
    (c_activity_seq c) (c_idle_check_seq c) (c_idle_ev c) (c_idle_timer c) m.

Definition conn_touch c : conn B :=
  set_idle c (u64 (c_activity_seq c + 1)) (c_idle_check_seq c) (c_idle_ev c) (c_idle_timer c).

Definition be_output_len b : Z := len (v_out (be_view b)).

Definition bufferevent_free b : list seffect :=
  if 0 <=? v_fd (be_view b) then [SClose (v_fd (be_view b))] else [].

Definition free_conn c : list seffect :=
  bufferevent_free (c_client c) ++ default [] (bufferevent_free <$> c_upstream c).

(** What a callback leaves: the connection, unless it freed it. *)
Definition cres : Type := option (conn B) * list seffect.
Definition live c : cres := (Some c, []).
Definition freed c : cres := (None, free_conn c).

(** *** Timers *)

Definition bev_output_len (b : option B) : Z :=
  match b with None => 0 | Some b => be_output_len b end.

Definition set_connect_timeout c : conn B :=
  match c_upstream c with
  | None => c
  | Some u =>
      set_upstream c (bufferevent_set_timeouts u None
        (Some (opt_connect_timeout_sec (r_opts (c_route c)))))
  end.

Definition clear_idle_timeout c : conn B :=
  set_bevs c (bufferevent_set_timeouts (c_client c) None None)
    ((fun u => bufferevent_set_timeouts u None None) <$> c_upstream c).

Definition schedule_conn_idle_timer c : conn B :=
  if negb (c_idle_ev c) then c else
  let t := opt_idle_timeout_sec (r_opts (c_route c)) in
  if t <=? 0 then c else
  set_idle c (c_activity_seq c) (c_idle_check_seq c) (c_idle_ev c) (Some t).

(** The timer fires: it is no longer pending. *)
Definition conn_idle_timeout_cb c : cres :=
  let c := set_idle c (c_activity_seq c) (c_idle_check_seq c) (c_idle_ev c) None in
  if negb (c_activity_seq c =? c_idle_check_seq c)
  then live (schedule_conn_idle_timer
         (set_idle c (c_activity_seq c) (c_activity_seq c) (c_idle_ev c) (c_idle_timer c)))
  else freed c.    (* both log messages lead to free_conn *)

(** [evtimer_new] may fail; the caller ignores the return code. *)
Definition start_conn_idle_timer (evtimer_new : bool) c : Z * conn B :=
  if opt_idle_timeout_sec (r_opts (c_route c)) <=? 0 then (0, c) else
  let c := set_idle c 1 1 evtimer_new (c_idle_timer c) in
  if negb evtimer_new then (-1, c) else (0, schedule_conn_idle_timer c).

Definition set_client_idle_timeout c : conn B :=
  let t := Some (opt_idle_timeout_sec (r_opts (c_route c))) in
  set_client c (bufferevent_set_timeouts (c_client c) t t).

(** *** Closing *)

Definition client_has_pending_output c : bool := 0 <? be_output_len (c_client c).

Definition finish_client_write c : conn B * list seffect :=
  let fd := v_fd (be_view (c_client c)) in
  let eff := if 0 <=? fd then [SShutdown fd] else [] in
  let b := bufferevent_disable (c_client c) false true in
  let b := bufferevent_enable b true false in
  let b := bufferevent_set_timeouts b (Some CLOSE_WAIT_TIMEOUT_SEC) None in
  (set_client c b, eff).

Definition drain_client_then_close c : conn B * list seffect :=
  let c := set_flags c (c_upstream_connected c) (c_close_after_client_eof c) true in
  let c := match c_upstream c with
           | Some u => set_upstream c (bufferevent_disable u true true)
           | None => c
           end in
  if negb (client_has_pending_output c) then
    let '(c, eff) := finish_client_write c in
    (set_flags c (c_upstream_connected c) true false, eff)
  else (c, []).

(** *** Event callbacks *)

Record bev_events : Type := mk_events {
  ev_connected : bool;
  ev_timeout : bool;
  ev_error : bool;
  ev_eof : bool
}.

Definition stream_client_event_cb (ev : bev_events) c : cres :=
  if ev_timeout ev then freed c
  else if ev_error ev then freed c    (* whatever the error, after a log message *)
  else if ev_eof ev then freed c
  else live c.

Definition stream_upstream_event_cb (evtimer_new : bool) (err : Z) (ev : bev_events) c : cres :=
  if ev_connected ev then
    let c := set_flags c true (c_close_after_client_eof c) (c_close_client_after_drain c) in
    let c := clear_idle_timeout c in
    let '(_, c) := start_conn_idle_timer evtimer_new c in
    live (set_client c (bufferevent_enable (c_client c) true true))
  else if ev_timeout ev then freed c
  else if ev_error ev then
    if client_has_pending_output c then
      let '(c, eff) := drain_client_then_close c in (Some c, eff)
    else freed c
  else if ev_eof ev then
    let '(c, eff) := drain_client_then_close c in (Some c, eff)
  else freed c.

(** *** The pipe ([stream_pipe.c]) *)

Context (evbuffer_copyout : list byte -> Z -> option (list byte)).

(** [None] if the sniffer's parser would read out of bounds. *)
Definition pipe_client_read_cb c : option (conn B) :=
  match c_upstream c with
  | None => Some c
  | Some u =>
      c ← (if opt_sni_sniff (r_opts (c_route c)) then
             s ← stream_sniff_peek_client_input evbuffer_copyout (c_sniff c)
                   (v_in (be_view (c_client c)));
             Some (set_sniff c s)
           else Some c);
      let c := conn_touch c in
      let '(dst, src) := evbuffer_add_buffer u (c_client c) in
      let src := if STREAM_READ_HIGH_WATER <=? be_output_len dst
                 then bufferevent_disable src true false else src in
      Some (set_bevs c src (Some dst))
  end.

Definition pipe_upstream_read_cb c : conn B :=
  match c_upstream c with
  | None => c
  | Some u =>
      let c := conn_touch c in
      let '(dst, src) := evbuffer_add_buffer (c_client c) u in
      let src := if STREAM_READ_HIGH_WATER <=? be_output_len dst
                 then bufferevent_disable src true false else src in
      set_bevs c dst (Some src)
  end.

Definition pipe_client_write_cb c : conn B * list seffect :=
  let output_len := be_output_len (c_client c) in
  if c_close_client_after_drain c && (output_len =? 0) then
    let '(c, eff) := finish_client_write c in
    (set_flags c (c_upstream_connected c) true false, eff)
  else
    match c_upstream c with
    | Some u => if output_len <? STREAM_WRITE_RESUME_WATER
                then (set_upstream c (bufferevent_enable u true false), [])
                else (c, [])
    | None => (c, [])
    end.

Definition pipe_upstream_write_cb c : conn B :=
  match c_upstream c with
  | None => c
  | Some u => if be_output_len u <? STREAM_WRITE_RESUME_WATER
              then set_client c (bufferevent_enable (c_client c) true false) else c
  end.
End stream.
Arguments cres B : clear implicits.

(** ** Opening a connection *)

(** The answers of the system while a client is adopted. *)
Record adopt_os : Type := mk_ados {
  ao_calloc : bool;
  ao_client_new : bool;                      (* bufferevent_socket_new != NULL *)
  ao_upstream_new : bool;
  ao_connect : result Z;                     (* the new descriptor, or errno *)
  ao_getsockname : result (sockaddr * Z);
  ao_write : bool;                           (* bufferevent_write >= 0 *)
  ao_getpeername : option sockaddr;
  (* the descriptor of the stream, what fread returns, and ferror at the end *)
  ao_fopen : result (Z * list (list byte) * bool);
  ao_calloc_fc : bool
}.

Section open.
Context {B : Type} `{Bufferevent B}.
Context (inet_pton : Z -> list byte -> option (list byte)).
Context (inet_ntop : Z -> list byte -> Z -> option (list byte)).
Implicit Types (c : conn B).

(** *** Builtins ([stream_builtin.c]) *)

Definition builtin_client_read_cb c : conn B := set_client c (evbuffer_drain_input (c_client c)).

Definition builtin_http_close_after_write_cb c : cres B :=
  if negb (be_output_len (c_client c) =? 0) then live c else
  let '(c, eff) := finish_client_write c in
  (Some (set_flags c (c_upstream_connected c) true (c_close_client_after_drain c)), eff).

Definition builtin_close_after_write_cb c : cres B :=
  if be_output_len (c_client c) =? 0 then freed c else live c.

Definition stream_client_addr_string (getpeername : option sockaddr) c (buf_len : Z)
    : option (list byte) :=
  if buf_len =? 0 then None else
  if v_fd (be_view (c_client c)) <? 0 then None else
  match getpeername with
  | None => None
  | Some ss =>
      let with_port text port :=
        match text with
        | None => None
        | Some buf => Some (buf ++ snprintf_content (buf_len - len buf) (str ":" ++ sdec port))
        end in
      if sa_family ss =? AF_INET
      then with_port (inet_ntop AF_INET (sin_addr ss) buf_len) (ntohs (sin_port ss))
      else if sa_family ss =? AF_INET6
      then with_port (inet_ntop AF_INET6 (sin6_addr ss) buf_len) (ntohs (sin6_port ss))
      else Some (snprintf_content buf_len (str "unknown"))
  end.

Definition start_stream_builtin (os : adopt_os) c : Z * cres B :=
  let req := mk_req (ep_builtin (r_upstream (c_route c)))
               (stream_client_addr_string (ao_getpeername os) c 128) in
  match x_builtin_handle req with
  | Err rc => (rc, freed c)
  | Ok res =>
      let eff := default [] (bufferevent_free <$> c_upstream c) in
      let c := set_client_idle_timeout (set_bevs c (c_client c) None) in
      let out (r : cres B) : cres B := (r.1, eff ++ r.2) in
      match res_action res with
      | X_BUILTIN_ACTION_CLOSE =>
          (0, out (if 0 <? res_data_len res then
                     let b := bufferevent_write (c_client c) (res_data res) in
                     live (set_mode (set_client c (bufferevent_enable b false true)) ModeBuiltinClose)
                   else freed c))
      | X_BUILTIN_ACTION_HTTP_RESP =>
          (0, out (if 0 <? res_data_len res then
                     let b := bufferevent_write (c_client c) (res_data res) in
                     live (set_mode (set_client c (bufferevent_enable b true true)) ModeBuiltinHttp)
                   else
                     let '(c, e) := finish_client_write c in
                     let c := set_flags c (c_upstream_connected c) true (c_close_client_after_drain c) in
                     (Some (set_mode (set_client c (bufferevent_enable (c_client c) true false))
                              ModeDiscard), e)))
      | X_BUILTIN_ACTION_DISCARD =>
          (0, out (live (set_mode (set_client c (bufferevent_enable (c_client c) true false)) ModeDiscard)))
      | X_BUILTIN_ACTION_HANG =>
          (0, out (live (set_mode (set_client c (bufferevent_enable (c_client c) true false)) ModeHang)))
      end
  end.

(** *** Files ([stream_file.c]) *)

(** The loop of [file_write_cb] over what [fread] returns ([n > 0] bytes at a
    time, then 0 with or without [ferror]): the client, the unread rest, and
    whether [file_done] was called. *)
Fixpoint file_loop (write_ok : bool) (chunks : list (list byte)) (ferror : bool) (b : B)
    : B * list (list byte) * bool :=
  if be_output_len b <? STREAM_READ_HIGH_WATER then
    match chunks with
    | ck :: rest =>
        if write_ok then file_loop write_ok rest ferror (bufferevent_write b ck)
        else (b, rest, true)
    | [] =>
        if ferror then (b, [], true)
        else (b, [], be_output_len b =? 0)
    end
  else (b, chunks, false).

(** [fclose] and [free_conn]. *)
Definition file_done (fd : Z) c : cres B := (None, SClose fd :: free_conn c).

Definition file_write_cb (write_ok : bool) c : cres B :=
  match c_mode c with
  | ModeFile fd chunks ferror =>
      let '(b, rest, done) := file_loop write_ok chunks ferror (c_client c) in
      let c := set_mode (set_client c b) (ModeFile fd rest ferror) in
      if done then file_done fd c else live c
  | _ => live c
  end.

(** It is only installed with a [struct file_conn]. *)
Definition file_event_cb c : cres B :=
  match c_mode c with
  | ModeFile fd _ _ => file_done fd c
  | _ => live c
  end.

Definition start_stream_file (os : adopt_os) c : Z * cres B :=
  match ao_fopen os with
  | Err err => (- err, freed c)
  | Ok (fd, chunks, ferror) =>
      let eff := default [] (bufferevent_free <$> c_upstream c) in
      let c := set_bevs c (c_client c) None in
      if negb (ao_calloc_fc os) then
        (- ENOMEM, (None, eff ++ SClose fd :: free_conn c))
      else
        let c := set_mode (set_client c (bufferevent_enable (c_client c) false true))
                   (ModeFile fd chunks ferror) in
        let c := set_client_idle_timeout c in
        let '(o, e) := file_write_cb (ao_write os) c in
        (0, (o, eff ++ e))
  end.

(** *** [connect_upstream] *)

Definition connect_upstream (os : adopt_os) (b : B) (ep : endpoint) : result B :=
  let connect :=
    match ao_connect os with
    | Ok fd => Ok (be_connect b fd)
    | Err e => Err (- e)
    end in
  match ep_kind ep with
  | ENDPOINT_INET | ENDPOINT_INET6 =>
      match endpoint_to_sockaddr inet_pton ep with
      | Err rc => Err rc
      | Ok _ => connect
      end
  | ENDPOINT_UNIX =>
      if ep_path ep =s [] then Err (- EINVAL) else
      if PATH_SIZE <=? len (ep_path ep) then Err (- ENAMETOOLONG) else connect
  | _ => Err (- ENOTSUP)
  end.

(** *** [worker_adopt_client_fd] *)

(** [local_addr] is a [struct sockaddr_in]. *)
Definition proxy_v2_header (ac : stream_client_msg) (local : sockaddr) (local_len : Z)
    : option (Z * list byte) :=
  out ← proxy_v2_build (replicate 256 x00) 256 (Some (sc_peer_addr ac)) (sc_peer_addr_len ac)
          (Some local) local_len SOCK_STREAM 0;
  Some (pp_rc out, take (Z.to_nat (pp_out_len out)) (pp_buf out)).

Definition queue_proxy_v2 (os : adopt_os) (ac : stream_client_msg) c (u : B) : option (cres B) :=
  if negb (opt_proxy_v2 (r_opts (c_route c))) then Some (live (set_upstream c u)) else
  let c := set_upstream c u in
  match ao_getsockname os with
  | Err _ => Some (freed c)
  | Ok (local, local_len) =>
      if sc_peer_addr_len ac <=? 0 then Some (freed c) else
      if negb (sa_family (sc_peer_addr ac) =? AF_INET) || negb (sa_family local =? AF_INET)
      then Some (freed c) else
      '(rc, hdr) ← proxy_v2_header ac local local_len;
      if rc =? 0 then
        if ao_write os then Some (live (set_upstream c (bufferevent_write u hdr)))
        else Some (freed c)
      else Some (freed c)
  end.

(** [None] if [proxy_v2_build] would store outside its buffer. *)
Definition worker_adopt_client_fd (os : adopt_os) (ac : stream_client_msg) : option (cres B) :=
  if negb (ao_calloc os) then Some (None, [SClose (sc_fd ac)]) else
  if negb (ao_client_new os) then Some (None, [SClose (sc_fd ac)]) else
  let r := sc_route ac in
  let c := mk_conn r (bufferevent_socket_new (sc_fd ac)) None (sc_peer_addr ac)
             (sc_peer_addr_len ac) sniff_init false false false 1 1 false None ModePipe in
  match ep_kind (r_upstream r) with
  | ENDPOINT_BUILTIN => Some (start_stream_builtin os c).2
  | ENDPOINT_FILE => Some (start_stream_file os c).2
  | _ =>
      if negb (ao_upstream_new os) then Some (freed c) else
      let u := bufferevent_socket_new (-1) in
      (* keepalive, chunk sizes and watermarks leave the observable part alone *)
      let c := set_client c (bufferevent_disable (c_client c) true false) in
      let c := set_connect_timeout (set_upstream c u) in
      match c_upstream c with
      | None => Some (freed c)
      | Some u =>
          match connect_upstream os u (r_upstream r) with
          | Err _ => Some (freed c)
          | Ok u =>
              '(o, eff) ← queue_proxy_v2 os ac c u;
              match o with
              | None => Some (None, eff)
              | Some c =>
                  Some (Some (match c_upstream c with
                              | Some u => set_upstream c (bufferevent_enable u true true)
                              | None => c
                              end), eff)
              end
          end
      end
  end.
End open.
