(* ===== verification/StreamFacts.v ===== *)
(** * The pipe: no byte lost, buffers bounded, no deadlock

    One connection with a socket upstream, driven by the event loop: bytes
    arrive, the kernel accepts bytes, the connection is established, the
    upstream ends or fails, the idle timer fires. The steps call the callbacks
    of [Stream.v]; that libevent calls the read callback only when reading is
    enabled, reads at most [STREAM_IO_CHUNK_SIZE] bytes at a time, and calls the
    write callback when the output buffer has become empty (the low watermark is
    0) is its documented behaviour. *)

From stdpp Require Import relations.
From S2P Require Import Prelude CString Endpoint Sniff SniffFacts ProxyV2 RawUdp Worker Datagram Stream.

Create Rewrite HintDb bev.
#[export] Hint Rewrite @law_new @law_connect @law_add_dst @law_add_src @law_write @law_drain
  @law_enable @law_disable @law_timeouts @law_recv @law_flush using (typeclasses eauto) : bev.

(** The connection and the bytes that went over its two sockets. *)
Record pstate (B : Type) : Type := mk_pstate {
  ps_conn : conn B;
  ps_from_client : list byte;
  ps_to_upstream : list byte;
  ps_from_upstream : list byte;
  ps_to_client : list byte
}.
Arguments mk_pstate {B} _ _ _ _ _.
Arguments ps_conn {B} _.
Arguments ps_from_client {B} _.
Arguments ps_to_upstream {B} _.
Arguments ps_from_upstream {B} _.
Arguments ps_to_client {B} _.

Section pipe.
Context {B : Type} `{BuffereventLaws B}.
Context (evbuffer_copyout : list byte -> Z -> option (list byte)).
Hypothesis copyout_prefix : forall input n bs,
  evbuffer_copyout input n = Some bs -> bs = take (Z.to_nat n) input.
Implicit Types (c : conn B) (u : B) (s : pstate B).

Definition ev_none : bev_events := mk_events false false false false.

(** A step of the event loop: the next state, [None] if the connection was
    freed, with the system calls made. Bytes of the upstream and its end may be
    reported before [BEV_EVENT_CONNECTED], since reading is enabled while the
    connection is being established; bytes are written to it only afterwards.
    A bufferevent that is neither reading nor writing reports nothing, except
    the outcome of a pending connection attempt. *)
Inductive pipe_step : pstate B -> option (pstate B) * list seffect -> Prop :=
| st_client_read c u d c' fc tu fu tc :
    c_upstream c = Some u -> v_rd (be_view (c_client c)) = true ->
    0 < len d <= STREAM_IO_CHUNK_SIZE ->
    pipe_client_read_cb evbuffer_copyout (set_client c (be_recv (c_client c) d)) = Some c' ->
    pipe_step (mk_pstate c fc tu fu tc) (Some (mk_pstate c' (fc ++ d) tu fu tc), [])
| st_upstream_read c u d fc tu fu tc :
    c_upstream c = Some u -> v_rd (be_view u) = true ->
    0 < len d <= STREAM_IO_CHUNK_SIZE ->
    pipe_step (mk_pstate c fc tu fu tc)
      (Some (mk_pstate (pipe_upstream_read_cb (set_upstream c (be_recv u d)))
               fc tu (fu ++ d) tc), [])
| st_client_write c n c' eff fc tu fu tc :
    v_wr (be_view (c_client c)) = true ->
    (0 < n <= length (v_out (be_view (c_client c))))%nat ->
    (let c1 := set_client c (be_flush (c_client c) n) in
     (if be_output_len (c_client c1) =? 0 then pipe_client_write_cb c1 else (c1, [])) = (c', eff)) ->
    pipe_step (mk_pstate c fc tu fu tc)
      (Some (mk_pstate c' fc tu fu (tc ++ take n (v_out (be_view (c_client c))))), eff)
| st_upstream_write c u n c' fc tu fu tc :
    c_upstream c = Some u -> c_upstream_connected c = true -> v_wr (be_view u) = true ->
    (0 < n <= length (v_out (be_view u)))%nat ->
    (let c1 := set_upstream c (be_flush u n) in
     (if be_output_len (be_flush u n) =? 0 then pipe_upstream_write_cb c1 else c1) = c') ->
    pipe_step (mk_pstate c fc tu fu tc)
      (Some (mk_pstate c' fc (tu ++ take n (v_out (be_view u))) fu tc), [])
| st_connected c u evtimer c' eff fc tu fu tc :
    c_upstream c = Some u -> c_upstream_connected c = false ->
    stream_upstream_event_cb evtimer 0 (mk_events true false false false) c = (Some c', eff) ->
    pipe_step (mk_pstate c fc tu fu tc) (Some (mk_pstate c' fc tu fu tc), eff)
| st_upstream_event c u evtimer err ev o eff fc tu fu tc :
    c_upstream c = Some u -> ev_connected ev = false ->
    (v_rd (be_view u) = true \/ v_wr (be_view u) = true \/
     (c_upstream_connected c = false /\ ev_eof ev = false)) ->
    stream_upstream_event_cb evtimer err ev c = (o, eff) ->
    pipe_step (mk_pstate c fc tu fu tc) ((fun c => mk_pstate c fc tu fu tc) <$> o, eff)
| st_client_event c ev o eff fc tu fu tc :
    stream_client_event_cb ev c = (o, eff) ->
    pipe_step (mk_pstate c fc tu fu tc) ((fun c => mk_pstate c fc tu fu tc) <$> o, eff)
| st_idle c o eff fc tu fu tc :
    c_idle_timer c <> None -> conn_idle_timeout_cb c = (o, eff) ->
    pipe_step (mk_pstate c fc tu fu tc) ((fun c => mk_pstate c fc tu fu tc) <$> o, eff).

(** ** The invariant *)

Abbreviation HIGH := STREAM_READ_HIGH_WATER.
Abbreviation CHUNK := STREAM_IO_CHUNK_SIZE.

(** What depends on how far the connection is. *)
Definition phase_ok c u (fc tu : list byte) : Prop :=
  let cv := be_view (c_client c) in
  let uv := be_view u in
  if c_close_after_client_eof c then
    (* the response is delivered; waiting for the client to close *)
    let lim := if c_upstream_connected c then HIGH + CHUNK else HIGH in
    c_close_client_after_drain c = false /\ v_rd uv = false /\ v_wr uv = false /\ v_out cv = [] /\
    (v_rd cv = true -> len (v_out uv) < lim) /\ len (v_out uv) < lim + CHUNK
  else if c_close_client_after_drain c then
    (* the upstream has ended; the rest of the response is being written *)
    v_rd uv = false /\ v_wr uv = false /\ v_wr cv = true /\ v_out cv <> [] /\
    if c_upstream_connected c
    then (v_rd cv = true -> len (v_out uv) < HIGH) /\ len (v_out uv) < HIGH + CHUNK
    else v_rd cv = false /\ fc = [] /\ len (v_out uv) < HIGH
  else
    v_wr uv = true /\ v_wr cv = true /\
    (v_rd uv = true -> len (v_out cv) < HIGH) /\ (v_rd uv = true \/ v_out cv <> []) /\
    if c_upstream_connected c
    then (v_rd cv = true -> len (v_out uv) < HIGH) /\ len (v_out uv) < HIGH + CHUNK /\
         (v_rd cv = true \/ v_out uv <> [])
    else v_rd cv = false /\ fc = [] /\ tu = [] /\ len (v_out uv) < HIGH.

Record pinv (hdr : list byte) s : Prop := {
  pi_wf : sniff_wf (c_sniff (ps_conn s));
  pi_client_in : v_in (be_view (c_client (ps_conn s))) = [];
  pi_client_out : len (v_out (be_view (c_client (ps_conn s)))) < HIGH + CHUNK;
  pi_to_client : ps_to_client s ++ v_out (be_view (c_client (ps_conn s))) = ps_from_upstream s;
  pi_upstream : exists u, c_upstream (ps_conn s) = Some u /\ v_in (be_view u) = [] /\
    ps_to_upstream s ++ v_out (be_view u) = hdr ++ ps_from_client s /\
    phase_ok (ps_conn s) u (ps_from_client s) (ps_to_upstream s)
}.

(** ** The callbacks on views *)

Ltac bev := autorewrite with bev; simpl.

Lemma bview_eta v : v_set_rw v (v_rd v) (v_wr v) = v.
Proof. by destruct v. Qed.

(** The flags of two connections agree. *)
Definition same_flags c c' : Prop :=
  c_upstream_connected c' = c_upstream_connected c /\
  c_close_after_client_eof c' = c_close_after_client_eof c /\
  c_close_client_after_drain c' = c_close_client_after_drain c.

Lemma client_read_spec c u d c' :
  c_upstream c = Some u -> v_in (be_view (c_client c)) = [] -> sniff_wf (c_sniff c) ->
  pipe_client_read_cb evbuffer_copyout (set_client c (be_recv (c_client c) d)) = Some c' ->
  let out := v_out (be_view u) ++ d in
  exists u', c_upstream c' = Some u' /\
    be_view u' = v_set_bufs (be_view u) (v_in (be_view u)) out /\
    be_view (c_client c') =
      v_set_rw (be_view (c_client c)) (v_rd (be_view (c_client c)) && (len out <? HIGH))
        (v_wr (be_view (c_client c))) /\
    same_flags c c' /\ sniff_wf (c_sniff c').
Proof.
  intros Hu Hin Hsw Hcb. cbv zeta.
  set (c1 := set_client c (be_recv (c_client c) d)) in Hcb.
  assert (exists c2, sniff_wf (c_sniff c2) /\ c_client c2 = c_client c1 /\ same_flags c c2 /\
    (let '(dst, src) := evbuffer_add_buffer u (c_client (conn_touch c2)) in
     Some (set_bevs (conn_touch c2)
       (if HIGH <=? be_output_len dst then bufferevent_disable src true false else src) (Some dst)))
    = Some c') as (c2 & Hs2 & Hcl & Hfl & Hc').
  { unfold pipe_client_read_cb in Hcb. change (c_upstream c1) with (c_upstream c) in Hcb.
    rewrite Hu in Hcb. destruct (opt_sni_sniff _).
    - destruct (peek_preserves_wf _ copyout_prefix (c_sniff c1) (v_in (be_view (c_client c1))) Hsw)
        as (s' & Hp & Hs' & _).
      rewrite Hp in Hcb. cbn [mbind option_bind] in Hcb.
      exists (set_sniff c1 s'). by split_and!.
    - exists c1. by split_and!. }
  destruct (evbuffer_add_buffer u _) as [dst src] eqn:Em. injection Hc' as <-.
  assert (be_view dst = v_set_bufs (be_view u) (v_in (be_view u)) (v_out (be_view u) ++ d)) as Hdst.
  { pose proof (law_add_dst u (c_client (conn_touch c2))) as Hl. rewrite Em in Hl. simpl in Hl.
    rewrite Hl, Hcl. unfold c1. simpl. bev. by rewrite Hin. }
  assert (be_view src = be_view (c_client c)) as Hsrc.
  { pose proof (law_add_src u (c_client (conn_touch c2))) as Hl. rewrite Em in Hl. simpl in Hl.
    rewrite Hl, Hcl. unfold c1. simpl. bev. unfold v_set_bufs. simpl. rewrite <- Hin.
    by destruct (be_view (c_client c)). }
  exists dst. split; [done|]. split; [done|]. split; [|done].
  simpl. unfold be_output_len. rewrite Hdst. simpl. case_if; bool_to_prop.
  - rewrite (proj2 (Z.ltb_ge _ _)) by done. bev. rewrite Hsrc. simpl. by rewrite andb_true_r.
  - rewrite (proj2 (Z.ltb_lt _ _)) by done. rewrite andb_true_r, bview_eta. done.
Qed.

Lemma upstream_read_spec c u d :
  c_upstream c = Some u -> v_in (be_view u) = [] ->
  let c' := pipe_upstream_read_cb (set_upstream c (be_recv u d)) in
  let out := v_out (be_view (c_client c)) ++ d in
  exists u', c_upstream c' = Some u' /\
    be_view u' = v_set_rw (be_view u) (v_rd (be_view u) && (len out <? HIGH)) (v_wr (be_view u)) /\
    be_view (c_client c') = v_set_bufs (be_view (c_client c)) (v_in (be_view (c_client c))) out /\
    same_flags c c' /\ c_sniff c' = c_sniff c.
Proof.
  intros Hu Hin. cbv zeta. unfold pipe_upstream_read_cb. simpl.
  destruct (evbuffer_add_buffer _ _) as [dst src] eqn:Em.
  assert (be_view dst = v_set_bufs (be_view (c_client c)) (v_in (be_view (c_client c)))
            (v_out (be_view (c_client c)) ++ d)) as Hdst.
  { pose proof (law_add_dst (c_client c) (be_recv u d)) as Hl. rewrite Em in Hl. simpl in Hl.
    rewrite Hl. bev. by rewrite Hin. }
  assert (be_view src = be_view u) as Hsrc.
  { pose proof (law_add_src (c_client c) (be_recv u d)) as Hl. rewrite Em in Hl. simpl in Hl.
    rewrite Hl. bev. unfold v_set_bufs. simpl. rewrite <- Hin. by destruct (be_view u). }
  simpl. eexists. split; [reflexivity|]. split; [|done].
  unfold be_output_len. rewrite Hdst. simpl. case_if; bool_to_prop.
  - rewrite (proj2 (Z.ltb_ge _ _)) by done. bev. rewrite Hsrc. simpl. by rewrite andb_true_r.
  - rewrite (proj2 (Z.ltb_lt _ _)) by done. rewrite andb_true_r, bview_eta. done.
Qed.

(** ** The invariant is kept *)

Lemma len_nonempty {A} (l : list A) : 0 < len l -> l <> [].
Proof. intros Hl ->. done. Qed.

Lemma chunk_pos : 0 < CHUNK.
Proof. done. Qed.

Lemma high_two : HIGH = 2 * CHUNK.
Proof. done. Qed.

Lemma pinv_client_read hdr c u d c' fc tu fu tc :
  pinv hdr (mk_pstate c fc tu fu tc) ->
  c_upstream c = Some u -> v_rd (be_view (c_client c)) = true -> 0 < len d <= CHUNK ->
  pipe_client_read_cb evbuffer_copyout (set_client c (be_recv (c_client c) d)) = Some c' ->
  pinv hdr (mk_pstate c' (fc ++ d) tu fu tc).
Proof.
  intros [Hw Hin Hout Htc (u0 & Hu0 & Huin & Htu & Hph)] Hu Hrd Hd Hcb. simpl in *.
  rewrite Hu in Hu0. injection Hu0 as <-.
  destruct (client_read_spec c u d c' Hu Hin Hw Hcb) as (u' & Hu' & Hvu & Hvc & (F1 & F2 & F3) & Hw').
  split; simpl; try done.
  - by rewrite Hvc.
  - by rewrite Hvc.
  - by rewrite Hvc.
  - exists u'. rewrite Hvu. simpl. split_and!; [done|done|by rewrite app_assoc, Htu, <- app_assoc|].
    assert (len (v_out (be_view u) ++ d) = len (v_out (be_view u)) + len d) as Hl by apply len_app.
    assert (v_out (be_view u) ++ d <> []) as Hne.
    { apply len_nonempty. pose proof (len_nonneg (v_out (be_view u))). lia. }
    pose proof chunk_pos. pose proof high_two.
    unfold phase_ok in *. rewrite F1, F2, F3, Hvc, Hvu. simpl. rewrite Hrd. simpl.
    destruct (c_close_after_client_eof c); [|destruct (c_close_client_after_drain c)].
    + destruct Hph as (? & ? & ? & ? & Hlim & ?). specialize (Hlim Hrd).
      split_and!; try done; [|destruct (c_upstream_connected c); lia].
      intros E. apply Z.ltb_lt in E. destruct (c_upstream_connected c); lia.
    + destruct Hph as (? & ? & ? & ? & Hb). split_and!; try done.
      destruct (c_upstream_connected c); destruct Hb as [Hlim ?]; [|congruence]. specialize (Hlim Hrd).
      split; [|lia]. intros E. by apply Z.ltb_lt in E.
    + destruct Hph as (? & ? & ? & ? & Hb). split_and!; try done.
      destruct (c_upstream_connected c); [destruct Hb as (Hlim & ? & _)|destruct Hb as (? & _); congruence].
      specialize (Hlim Hrd). split_and!; [|lia|by right]. intros E. by apply Z.ltb_lt in E.
Qed.

Lemma pinv_upstream_read hdr c u d fc tu fu tc :
  pinv hdr (mk_pstate c fc tu fu tc) ->
  c_upstream c = Some u -> v_rd (be_view u) = true -> 0 < len d <= CHUNK ->
  pinv hdr (mk_pstate (pipe_upstream_read_cb (set_upstream c (be_recv u d))) fc tu (fu ++ d) tc).
Proof.
  intros [Hw Hin Hout Htc (u0 & Hu0 & Huin & Htu & Hph)] Hu Hrd Hd. simpl in *.
  rewrite Hu in Hu0. injection Hu0 as <-.
  destruct (upstream_read_spec c u d Hu Huin) as (u' & Hu' & Hvu & Hvc & (F1 & F2 & F3) & Hs').
  assert (len (v_out (be_view (c_client c)) ++ d) = len (v_out (be_view (c_client c))) + len d) as Hl
    by apply len_app.
  assert (v_out (be_view (c_client c)) ++ d <> []) as Hne.
  { apply len_nonempty. pose proof (len_nonneg (v_out (be_view (c_client c)))). lia. }
  unfold phase_ok in Hph. destruct (c_close_after_client_eof c) eqn:E1; [naive_solver congruence|].
  destruct (c_close_client_after_drain c) eqn:E2; [naive_solver congruence|].
  destruct Hph as (P1 & P2 & P3 & P4 & Hb). specialize (P3 Hrd). split; simpl.
  - by rewrite Hs'.
  - by rewrite Hvc.
  - rewrite Hvc. simpl. lia.
  - rewrite Hvc. simpl. by rewrite app_assoc, Htc.
  - exists u'. rewrite Hvu. simpl. split_and!; try done.
    unfold phase_ok. rewrite F1, F2, F3, Hvc, Hvu. simpl. rewrite Hrd. simpl.
    split_and!; try done; [|by right]. intros E. by apply Z.ltb_lt in E.
Qed.

Lemma finish_spec c c' eff :
  finish_client_write c = (c', eff) ->
  be_view (c_client c') =
    v_set_tos (v_set_rw (be_view (c_client c)) true false) (Some CLOSE_WAIT_TIMEOUT_SEC) None /\
  c_upstream c' = c_upstream c /\ c_sniff c' = c_sniff c /\ same_flags c c' /\
  eff = if 0 <=? v_fd (be_view (c_client c)) then [SShutdown (v_fd (be_view (c_client c)))] else [].
Proof.
  unfold finish_client_write. intros [= <- <-]. simpl. split_and!; try done. bev.
  rewrite andb_true_r, andb_false_r, orb_true_r. done.
Qed.

Lemma pinv_client_write hdr c n c' eff fc tu fu tc :
  pinv hdr (mk_pstate c fc tu fu tc) ->
  v_wr (be_view (c_client c)) = true -> (0 < n <= length (v_out (be_view (c_client c))))%nat ->
  (let c1 := set_client c (be_flush (c_client c) n) in
   (if be_output_len (c_client c1) =? 0 then pipe_client_write_cb c1 else (c1, [])) = (c', eff)) ->
  pinv hdr (mk_pstate c' fc tu fu (tc ++ take n (v_out (be_view (c_client c))))).
Proof.
  intros [Hw Hin Hout Htc (u & Hu & Huin & Htu & Hph)] Hwr Hn Hcb. cbv zeta in Hcb.
  set (c1 := set_client c (be_flush (c_client c) n)) in Hcb. simpl in Hw, Hin, Hout, Htc, Hu, Htu, Hph.
  set (out := drop n (v_out (be_view (c_client c)))) in *.
  assert (be_view (c_client c1) = v_set_bufs (be_view (c_client c)) [] out) as Hv1.
  { unfold c1. simpl. bev. by rewrite Hin. }
  assert (c_upstream c1 = c_upstream c /\ c_sniff c1 = c_sniff c /\ same_flags c c1)
    as (Hu1 & Hs1 & (G1 & G2 & G3)) by (by split_and!). clearbody c1.
  assert (len out < len (v_out (be_view (c_client c)))) as Hlt.
  { unfold out, Zlength. rewrite length_drop. lia. }
  assert ((tc ++ take n (v_out (be_view (c_client c)))) ++ out = fu) as Htc'.
  { unfold out. by rewrite <- app_assoc, take_drop. }
  unfold be_output_len in Hcb. rewrite Hv1 in Hcb. simpl in Hcb.
  destruct (c_close_after_client_eof c) eqn:Eeof.
  { exfalso. unfold phase_ok in Hph. rewrite Eeof in Hph. destruct Hph as (_ & _ & _ & E & _).
    rewrite E in Hn. simpl in Hn. lia. }
  destruct (len out =? 0) eqn:El; bool_to_prop.
  - apply len_zero in El. unfold pipe_client_write_cb, be_output_len in Hcb.
    destruct (finish_client_write c1) as [c2 eff2] eqn:Ef. rewrite Hv1, El in Hcb.
    rewrite G3, Hu1 in Hcb. simpl in Hcb. rewrite andb_true_r in Hcb.
    destruct (c_close_client_after_drain c) eqn:Edr.
    + injection Hcb as <- <-.
      destruct (finish_spec _ _ _ Ef) as (Hv2 & Hu2 & Hs2 & (F1 & F2 & F3) & _).
      rewrite Hv1 in Hv2. split; simpl; rewrite ?Hv2, ?Hs2, ?Hs1; simpl; try done.
      * pose proof chunk_pos. pose proof high_two. rewrite El. change (len []) with 0. lia.
      * exists u. rewrite Hu2, Hu1. split_and!; try done. unfold phase_ok in *. simpl.
        rewrite Eeof, Edr in Hph. rewrite Hv2, F1, G1. simpl. destruct Hph as (? & ? & ? & ? & Hb).
        pose proof chunk_pos. destruct (c_upstream_connected c); destruct_and?; split_and!; try done; lia.
    + rewrite Hu in Hcb. injection Hcb as <- <-.
      split; simpl; try done.
      * by rewrite Hs1.
      * by rewrite Hv1.
      * rewrite Hv1. simpl. lia.
      * by rewrite Hv1.
      * exists (bufferevent_enable u true false). split; [done|]. bev.
        split; [done|]. split; [done|]. unfold phase_ok in *. simpl. rewrite G1, G2, G3, Eeof, Edr in *.
        bev. rewrite Hv1. simpl. rewrite El, orb_true_r, orb_false_r.
        destruct Hph as (? & ? & _ & _ & Hb). split_and!; try done. by left.
  - injection Hcb as <- <-. assert (out <> []) as Hne by (intros E; apply El; by rewrite E).
    split; simpl; try done; [by rewrite Hs1|by rewrite Hv1|rewrite Hv1; simpl; lia|by rewrite Hv1|].
    exists u. rewrite Hu1. split_and!; try done. unfold phase_ok in *. rewrite Hv1. simpl.
    rewrite G1, G2, G3, Eeof in *.
    destruct (c_close_client_after_drain c); [destruct Hph as (? & ? & ? & ? & ?); by split_and!|].
    destruct Hph as (? & ? & Hlim & ? & Hb). split_and!; try done; [|by right].
    intros E. specialize (Hlim E). lia.
Qed.

Lemma pinv_upstream_write hdr c u n c' fc tu fu tc :
  pinv hdr (mk_pstate c fc tu fu tc) ->
  c_upstream c = Some u -> c_upstream_connected c = true -> v_wr (be_view u) = true ->
  (0 < n <= length (v_out (be_view u)))%nat ->
  (let c1 := set_upstream c (be_flush u n) in
   (if be_output_len (be_flush u n) =? 0 then pipe_upstream_write_cb c1 else c1) = c') ->
  pinv hdr (mk_pstate c' fc (tu ++ take n (v_out (be_view u))) fu tc).
Proof.
  intros [Hw Hin Hout Htc (u0 & Hu0 & Huin & Htu & Hph)] Hu Hc Hwr Hn Hcb. simpl in *.
  rewrite Hu in Hu0. injection Hu0 as <-. unfold be_output_len in Hcb.
  assert (be_view (be_flush u n) = v_set_bufs (be_view u) [] (drop n (v_out (be_view u)))) as Hv.
  { bev. by rewrite Huin. }
  set (out := drop n (v_out (be_view u))) in *.
  assert (len out < len (v_out (be_view u))) as Hlt by (unfold out, Zlength; rewrite length_drop; lia).
  assert ((tu ++ take n (v_out (be_view u))) ++ out = hdr ++ fc) as Htu'.
  { unfold out. by rewrite <- app_assoc, take_drop. }
  rewrite Hv in Hcb. simpl in Hcb.
  assert (c_close_after_client_eof c = false /\ c_close_client_after_drain c = false) as [E1 E2].
  { unfold phase_ok in Hph. destruct (c_close_after_client_eof c); [naive_solver congruence|].
    destruct (c_close_client_after_drain c); [naive_solver congruence|]. done. }
  unfold phase_ok in Hph. rewrite E1, E2, Hc in Hph.
  destruct Hph as (P1 & P2 & P6 & P7 & P3 & P4 & P5).
  destruct (len out =? 0) eqn:El; bool_to_prop.
  - apply len_zero in El. unfold pipe_upstream_write_cb, be_output_len in Hcb. simpl in Hcb.
    rewrite Hv in Hcb. simpl in Hcb. rewrite El in Hcb. subst c'.
    split; simpl; autorewrite with bev; try done. exists (be_flush u n). rewrite Hv. simpl.
    split_and!; try done. unfold phase_ok. simpl. rewrite E1, E2, Hc, Hv. bev.
    rewrite El, orb_true_r, orb_false_r. change (len []) with 0.
    pose proof chunk_pos. pose proof high_two. split_and!; try done; try lia.
  - subst c'. assert (out <> []) as Hne by (intros E; apply El; by rewrite E).
    split; simpl; try done. exists (be_flush u n). rewrite Hv. simpl. split_and!; try done.
    unfold phase_ok. simpl. rewrite E1, E2, Hc, Hv. simpl.
    split_and!; try done; [intros E; specialize (P3 E); lia|lia|by right].
Qed.

Lemma pinv_connected hdr c u evtimer c' eff fc tu fu tc :
  pinv hdr (mk_pstate c fc tu fu tc) ->
  c_upstream c = Some u -> c_upstream_connected c = false ->
  stream_upstream_event_cb evtimer 0 (mk_events true false false false) c = (Some c', eff) ->
  pinv hdr (mk_pstate c' fc tu fu tc) /\ eff = [].
Proof.
  intros [Hw Hin Hout Htc (u0 & Hu0 & Huin & Htu & Hph)] Hu Hc Hcb. simpl in Hw, Hin, Hout, Htc, Hu0, Htu, Hph.
  rewrite Hu in Hu0. injection Hu0 as <-.
  unfold stream_upstream_event_cb in Hcb. cbn [ev_connected] in Hcb.
  set (c1 := clear_idle_timeout _) in Hcb.
  destruct (start_conn_idle_timer evtimer c1) as [rc c2] eqn:Es.
  assert (c_client c2 = c_client c1 /\ c_upstream c2 = c_upstream c1 /\ c_sniff c2 = c_sniff c1 /\
          same_flags c1 c2) as (T1 & T2 & T3 & (F1 & F2 & F3)).
  { unfold start_conn_idle_timer in Es. case_if_in Es; [injection Es as <- <-; by split_and!|].
    cbv zeta in Es. case_if_in Es; injection Es as <- <-; [by split_and!|].
    unfold schedule_conn_idle_timer. case_if; [by split_and!|]. case_if; by split_and!. }
  injection Hcb as <- <-. split; [|done]. unfold c1 in *. simpl in T1, T2, T3, F1, F2, F3.
  rewrite Hu in T2. simpl in T2.
  split; simpl; rewrite ?T1, ?T3; bev; try done.
  exists (bufferevent_set_timeouts u None None). rewrite T2. bev. split_and!; try done.
  unfold phase_ok in *. simpl. rewrite F1, F2, F3, ?T1. simpl. bev. rewrite Hc in Hph.
  rewrite !orb_true_r. pose proof chunk_pos. pose proof high_two.
  destruct (c_close_after_client_eof c); [|destruct (c_close_client_after_drain c)]; destruct_and?;
    split_and!; try done; try lia.
Qed.

Lemma drain_close_spec c u c' eff :
  c_upstream c = Some u -> drain_client_then_close c = (c', eff) ->
  c_upstream c' = Some (bufferevent_disable u true true) /\ c_sniff c' = c_sniff c /\
  c_upstream_connected c' = c_upstream_connected c /\
  if be_output_len (c_client c) =? 0
  then c_close_after_client_eof c' = true /\ c_close_client_after_drain c' = false /\
       be_view (c_client c') =
         v_set_tos (v_set_rw (be_view (c_client c)) true false) (Some CLOSE_WAIT_TIMEOUT_SEC) None /\
       eff = if 0 <=? v_fd (be_view (c_client c)) then [SShutdown (v_fd (be_view (c_client c)))] else []
  else c_close_after_client_eof c' = c_close_after_client_eof c /\
       c_close_client_after_drain c' = true /\ c_client c' = c_client c /\ eff = [].
Proof.
  intros Hu. unfold drain_client_then_close. cbn [c_upstream set_flags]. rewrite Hu.
  set (c1 := set_upstream _ _). unfold client_has_pending_output.
  change (be_output_len (c_client c1)) with (be_output_len (c_client c)).
  pose proof (len_nonneg (v_out (be_view (c_client c)))) as Hn. fold (be_output_len (c_client c)) in Hn.
  destruct (finish_client_write c1) as [c2 eff2] eqn:Ef.
  destruct (be_output_len (c_client c) =? 0) eqn:E; bool_to_prop.
  - rewrite (proj2 (Z.ltb_ge _ _)) by lia. simpl. intros [= <- <-].
    destruct (finish_spec _ _ _ Ef) as (Hv & Hu2 & Hs2 & (F1 & F2 & F3) & ->). simpl.
    rewrite Hu2, Hs2, F1. by split_and!.
  - rewrite (proj2 (Z.ltb_lt _ _)) by lia. simpl. intros [= <- <-]. by split_and!.
Qed.

Lemma pinv_drain hdr c u c' eff fc tu fu tc :
  pinv hdr (mk_pstate c fc tu fu tc) -> c_upstream c = Some u ->
  c_close_after_client_eof c = false -> drain_client_then_close c = (c', eff) ->
  pinv hdr (mk_pstate c' fc tu fu tc) /\ (eff <> [] -> tc = fu).
Proof.
  intros [Hw Hin Hout Htc (u0 & Hu0 & Huin & Htu & Hph)] Hu E1 Hd. simpl in *.
  rewrite Hu in Hu0. injection Hu0 as <-.
  destruct (drain_close_spec c u c' eff Hu Hd) as (Hu' & Hs' & Hc' & Hrest).
  unfold phase_ok in Hph. rewrite E1 in Hph. pose proof chunk_pos.
  destruct (be_output_len (c_client c) =? 0) eqn:E; unfold be_output_len in E; bool_to_prop.
  - apply len_zero in E. destruct Hrest as (F2 & F3 & Hv & ->).
    destruct (c_close_client_after_drain c); [naive_solver|].
    split; [split; simpl; rewrite ?Hv, ?Hs', ?F2, ?F3; simpl; try done|].
    + exists (bufferevent_disable u true true). rewrite Hu'. bev. split_and!; try done.
      unfold phase_ok. rewrite F2, F3, Hc', Hv. bev. rewrite !andb_false_r.
      destruct (c_upstream_connected c); destruct_and?; split_and!; try done; lia.
    + intros _. rewrite E, app_nil_r in Htc. done.
  - destruct Hrest as (F2 & F3 & Hcl & ->).
    split; [split; simpl; rewrite ?Hcl, ?Hs', ?F2, ?F3; simpl; try done|done].
    exists (bufferevent_disable u true true). rewrite Hu'. bev. split_and!; try done.
    unfold phase_ok. rewrite F2, F3, Hcl, Hc', E1. bev. rewrite !andb_false_r.
    assert (v_out (be_view (c_client c)) <> []) by (intros E'; apply E; by rewrite E').
    destruct (c_close_client_after_drain c), (c_upstream_connected c); destruct_and?; by split_and!.
Qed.

Lemma pinv_idle hdr c c' eff fc tu fu tc :
  pinv hdr (mk_pstate c fc tu fu tc) -> conn_idle_timeout_cb c = (Some c', eff) ->
  pinv hdr (mk_pstate c' fc tu fu tc) /\ eff = [].
Proof.
  intros [Hw Hin Hout Htc (u & Hu & Huin & Htu & Hph)] Hcb. simpl in *.
  unfold conn_idle_timeout_cb in Hcb. case_if_in Hcb; [|done]. injection Hcb as <- <-.
  split; [|done]. unfold schedule_conn_idle_timer.
  repeat case_if; (split; simpl; [done|done|done|done|exists u; by split_and!]).
Qed.

(** An event of the upstream that keeps the connection leads to the drain, and
    happens only before the client's write side was shut down. *)
Lemma upstream_event_drains c u evtimer err ev c' eff fc tu :
  phase_ok c u fc tu -> ev_connected ev = false ->
  (v_rd (be_view u) = true \/ v_wr (be_view u) = true \/
   (c_upstream_connected c = false /\ ev_eof ev = false)) ->
  stream_upstream_event_cb evtimer err ev c = (Some c', eff) ->
  c_close_after_client_eof c = false /\ drain_client_then_close c = (c', eff).
Proof.
  intros Hph Hev Hact Hcb. unfold stream_upstream_event_cb in Hcb. rewrite Hev in Hcb. split.
  - destruct (c_close_after_client_eof c) eqn:Ec; [|done]. exfalso.
    unfold phase_ok in Hph. rewrite Ec in Hph. destruct Hph as (_ & Hr & Hwr & Ho & _).
    destruct Hact as [?|[?|[_ Hn]]]; [congruence..|]. rewrite Hn in Hcb.
    unfold client_has_pending_output, be_output_len in Hcb. rewrite Ho in Hcb.
    by destruct (ev_timeout ev), (ev_error ev).
  - destruct (ev_timeout ev); [done|].
    destruct (ev_error ev), (ev_eof ev), (client_has_pending_output c); try done;
      destruct (drain_client_then_close c) as [c2 e2]; by injection Hcb as -> ->.
Qed.

(** Any step keeps the invariant, and shuts the client's write side down only
    when the whole response has been written. *)
Lemma pinv_step hdr s o eff :
  pinv hdr s -> pipe_step s (o, eff) ->
  (forall s', o = Some s' -> pinv hdr s' /\
     forall fd, SShutdown fd ∈ eff -> ps_to_client s' = ps_from_upstream s').
Proof.
  intros Hi Hstep s' ->. remember (Some s', eff) as r eqn:Er.
  destruct Hstep as [c u d c' fc tu fu tc Hu Hrd Hd Hcb|c u d fc tu fu tc Hu Hrd Hd
    |c n c' e fc tu fu tc Hwr Hn Hcb|c u n c' fc tu fu tc Hu Hc Hwr Hn Hcb
    |c u evt c' e fc tu fu tc Hu Hc Hcb|c u evt err ev o e fc tu fu tc Hu Hev Hact Hcb
    |c ev o e fc tu fu tc Hcb|c o e fc tu fu tc Htm Hcb]; injection Er as Es He.
  - subst. split; [by eapply pinv_client_read|]. intros fd Hin. by inversion Hin.
  - subst. split; [by eapply pinv_upstream_read|]. intros fd Hin. by inversion Hin.
  - subst. pose proof (pinv_client_write _ _ _ _ _ _ _ _ _ Hi Hwr Hn Hcb) as Hi'.
    split; [done|]. intros fd Hin. simpl. destruct Hi' as [_ _ _ Htc _]. simpl in Htc.
    cbv zeta in Hcb. unfold be_output_len in Hcb.
    destruct (len _ =? 0) eqn:El; [|injection Hcb as <- <-; by inversion Hin].
    unfold pipe_client_write_cb in Hcb. case_if_in Hcb.
    + destruct (finish_client_write _) as [c2 e2] eqn:Ef. injection Hcb as <- <-.
      destruct (finish_spec _ _ _ Ef) as (Hv & _). rewrite <- Htc. simpl. rewrite Hv. simpl.
      bool_to_prop. apply len_zero in El. simpl in El. rewrite El. by rewrite app_nil_r.
    + exfalso. destruct (c_upstream _); [case_if_in Hcb|]; injection Hcb as <- <-; by inversion Hin.
  - subst. split; [by eapply pinv_upstream_write|]. intros fd Hin. by inversion Hin.
  - subst. destruct (pinv_connected _ _ _ _ _ _ _ _ _ _ Hi Hu Hc Hcb) as [? ->].
    split; [done|]. intros fd Hin. by inversion Hin.
  - subst e. destruct o as [c'|]; [|done]. injection Es as <-.
    destruct (pi_upstream _ _ Hi) as (u0 & Hu0 & _ & _ & Hph). simpl in Hu0, Hph.
    rewrite Hu in Hu0. injection Hu0 as <-.
    destruct (upstream_event_drains _ _ _ _ _ _ _ _ _ Hph Hev Hact Hcb) as [Hc Hdr].
    destruct (pinv_drain _ _ _ _ _ _ _ _ _ Hi Hu Hc Hdr) as [Hi' Hsh].
    split; [done|]. intros fd Hin. apply Hsh. intros ->. by inversion Hin.
  - subst e. destruct o as [c'|]; [|done]. injection Es as <-.
    unfold stream_client_event_cb in Hcb.
    destruct (ev_timeout ev), (ev_error ev), (ev_eof ev); try done. injection Hcb as <- <-.
    split; [done|]. intros fd Hin. by inversion Hin.
  - subst e. destruct o as [c'|]; [|done]. injection Es as <-.
    destruct (pinv_idle _ _ _ _ _ _ _ _ Hi Hcb) as [? ->].
    split; [done|]. intros fd Hin. by inversion Hin.
Qed.

(** ** Opening the connection *)

(** The PROXY v2 header of a connection: absent, or 28 bytes that decode to
    the client's address and the local address of the accepted socket. *)
Definition header_ok (os : adopt_os) (ac : stream_client_msg) (hdr : list byte) : Prop :=
  if opt_proxy_v2 (r_opts (sc_route ac)) then
    exists local local_len, ao_getsockname os = Ok (local, local_len) /\ len hdr = 28 /\
    forall payload, pp2_decode (hdr ++ payload) =
      Some (mk_pp2_info PP2_IPv4 PP2_stream (sin_addr (sc_peer_addr ac)) (sin_addr local)
              (sa_port (sc_peer_addr ac)) (sa_port local), payload)
  else hdr = [].

(** The storage behind the addresses is as long as the kernel says. *)
Definition addrs_backed (os : adopt_os) (ac : stream_client_msg) : Prop :=
  sa_backed (sc_peer_addr ac) (sc_peer_addr_len ac) /\
  forall local n, ao_getsockname os = Ok (local, n) -> sa_backed local n.

Definition socket_upstream (r : route) : bool :=
  match ep_kind (r_upstream r) with
  | ENDPOINT_INET | ENDPOINT_INET6 | ENDPOINT_UNIX => true
  | _ => false
  end.

Lemma queue_proxy_v2_spec os ac c u o eff :
  addrs_backed os ac -> r_opts (c_route c) = r_opts (sc_route ac) ->
  queue_proxy_v2 os ac c u = Some (o, eff) ->
  match o with
  | None => eff = free_conn (set_upstream c u)
  | Some c' => eff = [] /\ exists hdr u', header_ok os ac hdr /\ c' = set_upstream c u' /\
      be_view u' = v_set_bufs (be_view u) (v_in (be_view u)) (v_out (be_view u) ++ hdr)
  end.
Proof.
  intros [Hb Hlb] Hr. unfold queue_proxy_v2, header_ok. rewrite Hr.
  destruct (opt_proxy_v2 _); cbn [negb].
  2: { intros [= <- <-]. split; [done|]. exists [], u. split_and!; try done. rewrite app_nil_r.
       by destruct (be_view u). }
  destruct (ao_getsockname os) as [[local n]|e] eqn:Eg; [|by intros [= <- <-]].
  case_if; [by intros [= <- <-]|]. case_if; [by intros [= <- <-]|]. bool_to_prop.
  unfold proxy_v2_header.
  destruct (proxy_v2_build_spec (replicate 256 x00) 256 (sc_peer_addr ac) (sc_peer_addr_len ac)
    local n SOCK_STREAM 0) as (r & Hr' & _); [done|done|by apply Hlb|].
  rewrite Hr'. cbn [mbind option_bind]. case_if; [|by intros [= <- <-]]. bool_to_prop.
  destruct (ao_write os); [|by intros [= <- <-]]. intros [= <- <-]. split; [done|].
  destruct (proxy_v2_decodes (replicate 256 x00) 256 _ _ _ _ _ _ _ [] ltac:(done) Hb (Hlb _ _ eq_refl) Hr')
    as (fam & tr & Hk & Ho & Hl & _ & _); [done|].
  unfold pp2_kind in Hk.
  repeat match goal with E : sa_family _ = AF_INET |- _ => rewrite E in Hk end.
  simpl in Hk. injection Hk as <- <-.
  eexists _, _. split; [|split; [reflexivity|]].
  - exists local, n. split; [done|]. split; [exact Hl|]. intros payload.
    destruct (proxy_v2_decodes (replicate 256 x00) 256 _ _ _ _ _ _ _ payload ltac:(done) Hb
      (Hlb _ _ eq_refl) Hr') as (fam & tr & Hk & _ & _ & _ & Hdec); [done|].
    unfold pp2_kind in Hk.
    repeat match goal with E : sa_family _ = AF_INET |- _ => rewrite E in Hk end.
    simpl in Hk. injection Hk as <- <-. exact Hdec.
  - bev. done.
Qed.

Lemma adopt_socket inet_pton inet_ntop os ac c eff :
  addrs_backed os ac -> socket_upstream (sc_route ac) = true ->
  worker_adopt_client_fd inet_pton inet_ntop os ac = Some (Some c, eff) ->
  eff = [] /\ v_fd (be_view (c_client c)) = sc_fd ac /\
  exists hdr, header_ok os ac hdr /\ pinv hdr (mk_pstate c [] [] [] []).
Proof.
  intros Hb Hk. unfold worker_adopt_client_fd.
  destruct (ao_calloc os); cbn [negb]; [|done]. destruct (ao_client_new os); cbn [negb]; [|done].
  cbv zeta. set (c0 := mk_conn _ _ _ _ _ _ _ _ _ _ _ _ _ _).
  intros Hadopt.
  assert (ao_upstream_new os = true /\ exists u,
    connect_upstream inet_pton os
      (bufferevent_set_timeouts (bufferevent_socket_new (-1)) None
        (Some (opt_connect_timeout_sec (r_opts (sc_route ac))))) (r_upstream (sc_route ac)) = Ok u /\
    exists o e, queue_proxy_v2 os ac (set_upstream (set_client c0
        (bufferevent_disable (bufferevent_socket_new (sc_fd ac)) true false))
        (bufferevent_set_timeouts (bufferevent_socket_new (-1)) None
          (Some (opt_connect_timeout_sec (r_opts (sc_route ac)))))) u = Some (Some o, e) /\
      eff = e /\ c = match c_upstream o with
                     | Some u => set_upstream o (bufferevent_enable u true true)
                     | None => o
                     end) as (_ & u & Hc & o & e & Hq & -> & ->).
  { unfold socket_upstream in Hk. destruct (ep_kind (r_upstream (sc_route ac))); try done;
      (destruct (ao_upstream_new os); cbn [negb] in Hadopt; [|done]; split; [done|];
       simpl in Hadopt; destruct (connect_upstream _ _ _ _) as [u|]; [|done];
       exists u; split; [done|];
       match type of Hadopt with context [queue_proxy_v2 ?a ?b ?c ?d] =>
         destruct (queue_proxy_v2 a b c d) as [[[o|] e]|] eqn:Eq end;
       cbn [mbind option_bind] in Hadopt; try done; exists o, e;
       split; [exact Eq|]; by simplify_eq). }
  assert (exists fd, u = be_connect (bufferevent_set_timeouts (bufferevent_socket_new (-1)) None
        (Some (opt_connect_timeout_sec (r_opts (sc_route ac))))) fd) as [fd ->].
  { unfold connect_upstream in Hc. unfold socket_upstream in Hk.
    destruct (ep_kind (r_upstream (sc_route ac))); try done.
    1, 2: destruct (endpoint_to_sockaddr _ _); [|done].
    3: case_if_in Hc; [done|]; case_if_in Hc; [done|].
    all: destruct (ao_connect os) as [fd|]; [|done]; injection Hc as <-; by exists fd. }
  clear Hadopt. apply queue_proxy_v2_spec in Hq as (-> & hdr & u' & Hh & -> & Hv); [|done|done].
  simpl. split; [done|]. bev. split; [done|]. exists hdr. split; [done|].
  assert (be_view u' = mk_bview [] hdr false true fd None
    (Some (opt_connect_timeout_sec (r_opts (sc_route ac))))) as Hv'.
  { rewrite Hv. bev. done. }
  assert (len hdr < HIGH) as Hlen.
  { unfold header_ok in Hh. destruct (opt_proxy_v2 _); [|by rewrite Hh].
    destruct Hh as (? & ? & _ & -> & _). done. }
  split; simpl; bev; try done.
  - exists (bufferevent_enable u' true true). bev. rewrite Hv'. simpl. rewrite app_nil_r.
    split_and!; try done. unfold phase_ok. simpl. bev. rewrite Hv'. simpl. split_and!; try done; by left.
Qed.

(** ** Reachable states of a connection *)

Context (inet_pton : Z -> list byte -> option (list byte)).
Context (inet_ntop : Z -> list byte -> Z -> option (list byte)).

Definition live_step s s' : Prop := exists eff, pipe_step s (Some s', eff).

Definition preachable (os : adopt_os) (ac : stream_client_msg) s : Prop :=
  exists c eff, worker_adopt_client_fd inet_pton inet_ntop os ac = Some (Some c, eff) /\
    rtc live_step (mk_pstate c [] [] [] []) s.

Lemma preachable_pinv os ac s :
  addrs_backed os ac -> socket_upstream (sc_route ac) = true -> preachable os ac s ->
  exists hdr, header_ok os ac hdr /\ pinv hdr s.
Proof.
  intros Hb Hk (c & eff & Ha & Hr).
  destruct (adopt_socket _ _ _ _ _ _ Hb Hk Ha) as (_ & _ & hdr & Hh & Hi). exists hdr. split; [done|].
  clear Ha. induction Hr as [s|s s1 s2 [e Hs] _ IH]; [done|].
  apply IH. exact (proj1 (pinv_step _ _ _ _ Hi Hs _ eq_refl)).
Qed.

(** No byte is lost, duplicated or reordered. In every reachable state of
    a connection, what was written to the upstream socket followed by what is
    still buffered for it is the PROXY v2 header (28 bytes that decode to the
    client's address, when the route asks for it, or nothing) followed by
    exactly the bytes read from the client; and what was written to the
    client followed by what is buffered for it is exactly what was read from
    the upstream. In particular no client byte precedes the header. *)
Theorem pipe_conservation : forall os ac s,
  addrs_backed os ac -> socket_upstream (sc_route ac) = true -> preachable os ac s ->
  exists hdr u, header_ok os ac hdr /\ c_upstream (ps_conn s) = Some u /\
    ps_to_upstream s ++ v_out (be_view u) = hdr ++ ps_from_client s /\
    ps_to_client s ++ v_out (be_view (c_client (ps_conn s))) = ps_from_upstream s.
Proof.
  intros os ac s Hb Hk Hr. destruct (preachable_pinv _ _ _ Hb Hk Hr) as (hdr & Hh & Hi).
  destruct (pi_upstream _ _ Hi) as (u & Hu & _ & Htu & _).
  exists hdr, u. split_and!; try done. apply (pi_to_client _ _ Hi).
Qed.

(** C17: bounded buffers. Whatever the peers do, a connection never holds more
    than 384 KiB for the client and 512 KiB for the upstream, and nothing
    stays in the input buffers between callbacks. *)
Theorem pipe_bounded : forall os ac s,
  addrs_backed os ac -> socket_upstream (sc_route ac) = true -> preachable os ac s ->
  exists u, c_upstream (ps_conn s) = Some u /\
    v_in (be_view (c_client (ps_conn s))) = [] /\ v_in (be_view u) = [] /\
    len (v_out (be_view (c_client (ps_conn s)))) < 384 * 1024 /\
    len (v_out (be_view u)) < 512 * 1024.
Proof.
  intros os ac s Hb Hk Hr. destruct (preachable_pinv _ _ _ Hb Hk Hr) as (hdr & Hh & Hi).
  destruct (pi_upstream _ _ Hi) as (u & Hu & Hin & _ & Hph).
  pose proof (pi_client_out _ _ Hi) as Ho. exists u. split; [done|]. split; [apply (pi_client_in _ _ Hi)|].
  split; [done|]. change (HIGH + CHUNK) with (384 * 1024) in Ho. split; [done|].
  assert (HIGH = 256 * 1024) as Eh by done. assert (CHUNK = 128 * 1024) as Ec by done.
  unfold phase_ok in Hph. destruct (c_close_after_client_eof _); [|destruct (c_close_client_after_drain _)];
    destruct (c_upstream_connected _); cbv zeta in Hph; destruct_and?; lia.
Qed.

(** C16: backpressure does not deadlock. While both sides are open, whenever
    reading from the client is paused the upstream's buffer is not empty and
    being written, and the same holds in the other direction: the peer that
    drains its side always gets the pipe going again. *)
Theorem pipe_no_deadlock : forall os ac s,
  addrs_backed os ac -> socket_upstream (sc_route ac) = true -> preachable os ac s ->
  c_upstream_connected (ps_conn s) = true ->
  c_close_after_client_eof (ps_conn s) = false ->
  c_close_client_after_drain (ps_conn s) = false ->
  exists u, c_upstream (ps_conn s) = Some u /\
    let cv := be_view (c_client (ps_conn s)) in
    (v_rd cv = true \/ (v_out (be_view u) <> [] /\ v_wr (be_view u) = true)) /\
    (v_rd (be_view u) = true \/ (v_out cv <> [] /\ v_wr cv = true)).
Proof.
  intros os ac s Hb Hk Hr Hc E1 E2. destruct (preachable_pinv _ _ _ Hb Hk Hr) as (hdr & Hh & Hi).
  destruct (pi_upstream _ _ Hi) as (u & Hu & _ & _ & Hph). exists u. split; [done|].
  unfold phase_ok in Hph. rewrite Hc, E1, E2 in Hph. naive_solver.
Qed.

(** C18: the response is complete before the connection is shut down. A step
    of a reachable connection shuts down the client's write side only when
    every byte received from the upstream has been written to the client. *)
Theorem pipe_shutdown_complete : forall os ac s s' eff fd,
  addrs_backed os ac -> socket_upstream (sc_route ac) = true -> preachable os ac s ->
  pipe_step s (Some s', eff) -> SShutdown fd ∈ eff ->
  ps_to_client s' = ps_from_upstream s'.
Proof.
  intros os ac s s' eff fd Hb Hk Hr Hs Hin. destruct (preachable_pinv _ _ _ Hb Hk Hr) as (hdr & _ & Hi).
  exact (proj2 (pinv_step _ _ _ _ Hi Hs _ eq_refl) fd Hin).
Qed.
End pipe.

(** ** Witnesses: a connection that pipes a request and a response *)

Definition tcp_route (kind : endpoint_kind) (proto : endpoint_proto) : route :=
  mk_route (mk_endpoint ENDPOINT_INET (str "10.0.0.1") 80 PROTO_TCP [] X_BUILTIN_NONE)
    (mk_endpoint kind (str "10.0.0.1") 8080 proto (str "/srv/index") X_BUILTIN_HTTP_OK)
    (mk_opts true false false 60 5 0 BROADCAST_REPLY_OFF) 1.

Definition example_msg (kind : endpoint_kind) (proto : endpoint_proto) : stream_client_msg :=
  mk_stream_client (tcp_route kind proto) 9 (example_sa 40000 [x0a; x00; x00; x63]) 16.

Definition example_ados : adopt_os :=
  mk_ados true true true (Ok 12) (Ok (example_sa 80 [x0a; x00; x00; x01], 16)) true None
    (Ok (13, [str "hello, "; str "file"], false)) true.

(** Stages of the connection: adopted, connected, a request read, the upstream
    ended (each evaluated once). *)
Definition adopted_conn : conn bview :=
  Eval vm_compute in
  match worker_adopt_client_fd example_pton (fun _ _ _ => None) example_ados
          (example_msg ENDPOINT_INET PROTO_TCP) with
  | Some (Some c, _) => c
  | _ => mk_conn route_zero (mk_bview [] [] false false 0 None None) None storage_zero 0
           sniff_init false false false 0 0 false None ModePipe
  end.

Definition connected_conn : conn bview :=
  Eval vm_compute in
  default adopted_conn
    (stream_upstream_event_cb true 0 (mk_events true false false false) adopted_conn).1.

Definition requested_conn : conn bview :=
  Eval vm_compute in
  default adopted_conn (pipe_client_read_cb copyout_all
    (set_client connected_conn (be_recv (c_client connected_conn) (str "GET /")))).

Definition ended_conn : conn bview :=
  Eval vm_compute in (drain_client_then_close requested_conn).1.

Definition requested : pstate bview := mk_pstate requested_conn (str "GET /") [] [] [].
Definition ended : pstate bview := mk_pstate ended_conn (str "GET /") [] [] [].

Lemma copyout_all_prefix : forall input n bs,
  copyout_all input n = Some bs -> bs = take (Z.to_nat n) input.
Proof. by intros input n bs [= <-]. Qed.

Lemma example_backed kind proto : addrs_backed example_ados (example_msg kind proto).
Proof. split; [done|]. by intros local n [= <- <-]. Qed.

Lemma requested_reachable :
  preachable copyout_all example_pton (fun _ _ _ => None) example_ados
    (example_msg ENDPOINT_INET PROTO_TCP) requested.
Proof.
  exists adopted_conn, []. split; [vm_compute; reflexivity|].
  apply (rtc_l _ _ (mk_pstate connected_conn [] [] [] [])); [|apply (rtc_l _ _ requested); [|apply rtc_refl]].
  - exists []. eapply (st_connected _ adopted_conn _ true connected_conn [] [] [] [] []); vm_compute; reflexivity.
  - exists []. eapply (st_client_read _ connected_conn _ (str "GET /") requested_conn [] [] [] []);
      [vm_compute; reflexivity..|vm_compute; split; [reflexivity|discriminate]|vm_compute; reflexivity].
Qed.

Lemma pipe_conservation_witness :
  exists hdr u, header_ok example_ados (example_msg ENDPOINT_INET PROTO_TCP) hdr /\
    c_upstream (ps_conn requested) = Some u /\ [] ++ v_out (be_view u) = hdr ++ str "GET /".
Proof.
  destruct (pipe_conservation copyout_all copyout_all_prefix example_pton (fun _ _ _ => None)
    example_ados (example_msg ENDPOINT_INET PROTO_TCP) requested (example_backed _ _) eq_refl
    requested_reachable) as (hdr & u & H1 & H2 & H3 & _).
  exists hdr, u. split; [exact H1|]. split; [exact H2|exact H3].
Defined.

Lemma pipe_bounded_witness :
  len (v_out (be_view (c_client (ps_conn requested)))) < 384 * 1024.
Proof.
  destruct (pipe_bounded copyout_all copyout_all_prefix example_pton (fun _ _ _ => None)
    example_ados (example_msg ENDPOINT_INET PROTO_TCP) requested (example_backed _ _) eq_refl
    requested_reachable) as (u & _ & _ & _ & H & _).
  exact H.
Defined.

Lemma pipe_no_deadlock_witness :
  exists u, c_upstream (ps_conn requested) = Some u /\
    (v_rd (be_view (c_client (ps_conn requested))) = true \/
     (v_out (be_view u) <> [] /\ v_wr (be_view u) = true)).
Proof.
  destruct (pipe_no_deadlock copyout_all copyout_all_prefix example_pton (fun _ _ _ => None)
    example_ados (example_msg ENDPOINT_INET PROTO_TCP) requested (example_backed _ _) eq_refl
    requested_reachable) as (u & H1 & H2 & _); [vm_compute; reflexivity..|].
  exists u. split; [exact H1|exact H2].
Defined.

Lemma pipe_shutdown_complete_witness : ps_to_client ended = ps_from_upstream ended.
Proof.
  apply (pipe_shutdown_complete copyout_all copyout_all_prefix example_pton (fun _ _ _ => None)
    example_ados (example_msg ENDPOINT_INET PROTO_TCP) requested ended [SShutdown 9] 9).
  - apply example_backed.
  - reflexivity.
  - exact requested_reachable.
  - eapply (st_upstream_event _ requested_conn _ true 0 (mk_events false false false true)
      (Some ended_conn) [SShutdown 9] (str "GET /") [] [] []);
      [vm_compute; reflexivity|reflexivity|left; vm_compute; reflexivity|vm_compute; reflexivity].
  - constructor.
Defined.
