(* ===== verification/StreamOpen.v ===== *)
(** * Descriptors, files and timers of stream connections

    The descriptors a list of effects closes; a file upstream is served
    completely; the idle timer only ends connections that were idle. *)

From stdpp Require Import relations.
From S2P Require Import Prelude CString Endpoint Sniff SniffFacts ProxyV2 RawUdp Worker Datagram Stream StreamFacts.

Definition fd_closes (eff : list seffect) : list Z :=
  omap (fun e => match e with SClose fd => Some fd | SShutdown _ => None end) eff.

Lemma fd_closes_app a b : fd_closes (a ++ b) = fd_closes a ++ fd_closes b.
Proof. apply omap_app. Qed.

Section open_facts.
Context {B : Type} `{BuffereventLaws B}.
Context (inet_pton : Z -> list byte -> option (list byte)).
Context (inet_ntop : Z -> list byte -> Z -> option (list byte)).
Implicit Types (c : conn B) (o : option (conn B)).

Lemma bufferevent_free_closes (b : B) :
  fd_closes (bufferevent_free b) = if 0 <=? v_fd (be_view b) then [v_fd (be_view b)] else [].
Proof. unfold bufferevent_free. by case_if. Qed.

(** One call of the loop: what it moved from the file to the client's buffer. *)
Lemma file_loop_spec chunks fe (b : B) :
  let '(b', rest, done) := file_loop true chunks fe b in
  exists served, chunks = served ++ rest /\
    be_view b' = v_set_bufs (be_view b) (v_in (be_view b)) (v_out (be_view b) ++ concat served) /\
    (done = true -> rest = [] /\ (fe = true \/ v_out (be_view b') = [])) /\
    (done = false -> v_out (be_view b') <> []).
Proof.
  assert (forall b : B, STREAM_READ_HIGH_WATER <= be_output_len b -> v_out (be_view b) <> []) as Hhi.
  { unfold be_output_len. intros b0 Hb0 E. rewrite E in Hb0. by vm_compute in Hb0. }
  assert (forall b : B, be_view b = v_set_bufs (be_view b) (v_in (be_view b))
    (v_out (be_view b) ++ concat [])) as Hid by (intros b0; rewrite app_nil_r; by destruct (be_view b0)).
  revert b. induction chunks as [|ck rest IH]; intros b; cbn [file_loop].
  - case_if; bool_to_prop; [destruct fe|]; exists []; split_and!; try done; auto; unfold be_output_len.
    + intros Ho. bool_to_prop. split; [done|]. right. by apply len_zero.
    + intros Ho E'. bool_to_prop. rewrite E' in Ho. done.
  - case_if; bool_to_prop.
    2: { exists []. split_and!; try done. auto. }
    specialize (IH (bufferevent_write b ck)).
    destruct (file_loop true rest fe (bufferevent_write b ck)) as [[b' r'] done].
    destruct IH as (served & -> & Hv & Hd & Hn). exists (ck :: served). split; [done|].
    split; [|by split]. rewrite Hv, law_write. simpl. by rewrite <- app_assoc.
Qed.

Lemma file_loop_fd w chunks fe (b : B) : v_fd (be_view (file_loop w chunks fe b).1.1) = v_fd (be_view b).
Proof.
  revert b. induction chunks as [|ck rest IH]; intros b; cbn [file_loop].
  - by repeat case_if.
  - case_if; [|done]. destruct w; [|done]. rewrite IH, law_write. done.
Qed.

(** Queueing the PROXY header never leaves the 256-byte buffer. *)
Lemma queue_proxy_v2_total os ac c u :
  addrs_backed os ac -> queue_proxy_v2 os ac c u <> None.
Proof.
  intros Hb. unfold queue_proxy_v2, proxy_v2_header. case_if; [done|].
  destruct (ao_getsockname os) as [[local n]|] eqn:Eg; [|done]. do 2 (case_if; [done|]).
  destruct (proxy_v2_build_spec (replicate 256 x00) 256 (sc_peer_addr ac) (sc_peer_addr_len ac)
    local n SOCK_STREAM 0) as (r & -> & _); [done|exact (proj1 Hb)|exact (proj2 Hb _ _ Eg)|].
  cbn [mbind option_bind]. destruct (pp_rc r =? 0), (ao_write os); discriminate.
Qed.

(** ** Serving a file *)

(** The kernel takes [n] bytes of the client's buffer; the write callback runs
    when the buffer is empty. The bytes written so far are carried along. *)
Inductive file_step : conn B * list byte -> option (conn B) * list byte -> Prop :=
| fs_write c sent n :
    v_wr (be_view (c_client c)) = true -> (0 < n <= length (v_out (be_view (c_client c))))%nat ->
    file_step (c, sent)
      ((let c1 := set_client c (be_flush (c_client c) n) in
        if be_output_len (c_client c1) =? 0 then file_write_cb true c1 else live c1).1,
       sent ++ take n (v_out (be_view (c_client c)))).

Definition file_live_step (s s' : conn B * list byte) : Prop := file_step s (Some s'.1, s'.2).

Definition finv (content : list byte) (fe : bool) (s : conn B * list byte) : Prop :=
  let out := v_out (be_view (c_client s.1)) in
  exists fd rest, c_mode s.1 = ModeFile fd rest fe /\ s.2 ++ out ++ concat rest = content /\
    out <> [] /\ v_wr (be_view (c_client s.1)) = true /\
    Forall (fun ck => len ck <= 4096) rest /\ len out < STREAM_READ_HIGH_WATER + 4096.

Lemma file_loop_bound chunks fe (b : B) :
  Forall (fun ck => len ck <= 4096) chunks ->
  len (v_out (be_view b)) < STREAM_READ_HIGH_WATER + 4096 ->
  len (v_out (be_view (file_loop true chunks fe b).1.1)) < STREAM_READ_HIGH_WATER + 4096.
Proof.
  intros Hc. revert b. induction Hc as [|ck rest Hck _ IH]; intros b Hb; cbn [file_loop].
  - by repeat case_if.
  - case_if; [|done]. bool_to_prop. unfold be_output_len in E. apply IH. rewrite law_write. simpl.
    rewrite len_app. lia.
Qed.

(** The write callback on a connection whose buffer holds [v_out]. *)
Lemma file_write_cb_spec fd chunks fe c :
  c_mode c = ModeFile fd chunks fe -> v_wr (be_view (c_client c)) = true ->
  Forall (fun ck => len ck <= 4096) chunks ->
  len (v_out (be_view (c_client c))) < STREAM_READ_HIGH_WATER + 4096 ->
  match (file_write_cb true c).1 with
  | Some c' => forall sent content,
      sent ++ v_out (be_view (c_client c)) ++ concat chunks = content -> finv content fe (c', sent)
  | None => fe = false -> v_out (be_view (c_client c)) ++ concat chunks = []
  end.
Proof.
  intros Hm Hw Hch Hlen. unfold file_write_cb. rewrite Hm.
  pose proof (file_loop_spec chunks fe (c_client c)) as Hs.
  pose proof (file_loop_bound chunks fe (c_client c) Hch Hlen) as Hbd.
  destruct (file_loop true chunks fe (c_client c)) as [[b' rest] done].
  destruct Hs as (served & -> & Hv & Hd & Hn). cbn [fst] in Hbd. rewrite concat_app.
  destruct done; simpl.
  - intros Hfe. destruct (Hd eq_refl) as [-> [?|Ho]]; [congruence|]. rewrite Hv in Ho. simpl in Ho.
    by rewrite app_nil_r.
  - intros sent content Hc. exists fd, rest. simpl. apply Forall_app in Hch as [_ Hch].
    split_and!; try done.
    + rewrite Hv. simpl. by rewrite <- app_assoc.
    + auto.
    + by rewrite Hv.
Qed.

Lemma finv_step content fe s o sent :
  finv content fe s -> file_step s (o, sent) ->
  match o with
  | Some c' => finv content fe (c', sent)
  | None => fe = false -> sent = content
  end.
Proof.
  intros (fd & rest & Hm & Hc & Ho & Hw & Hch & Hb) Hs. inversion Hs as [c sent0 n Hw' Hn]; subst. clear Hs.
  simpl in *. set (c1 := set_client c (be_flush (c_client c) n)).
  assert (be_view (c_client c1) = v_set_bufs (be_view (c_client c)) (v_in (be_view (c_client c)))
    (drop n (v_out (be_view (c_client c))))) as Hv by (unfold c1; simpl; by rewrite law_flush).
  unfold be_output_len. change (be_flush (c_client c) n) with (c_client c1).
  set (out := v_out (be_view (c_client c))) in *.
  assert (len (drop n out) <= len out) as Hdl by (unfold Zlength; rewrite length_drop; lia).
  rewrite Hv. simpl. case_if; bool_to_prop.
  - apply len_zero in E.
    pose proof (file_write_cb_spec fd rest fe c1 Hm) as Hf. rewrite Hv in Hf. simpl in Hf. rewrite E in Hf.
    specialize (Hf Hw' Hch). assert (len (@nil byte) < STREAM_READ_HIGH_WATER + 4096) as H0' by done.
    specialize (Hf H0'). assert (take n out = out) as Ht.
    { rewrite <- (take_drop n out) at 2. by rewrite E, app_nil_r. }
    rewrite Ht. destruct (file_write_cb true c1).1 as [c'|].
    + apply Hf. by rewrite <- app_assoc.
    + intros Hfe. specialize (Hf Hfe). simpl in Hf. by rewrite Hf, app_nil_r.
  - simpl. exists fd, rest. simpl. rewrite law_flush. simpl. split_and!; try done; try lia.
    + by rewrite <- app_assoc, (app_assoc (take n out)), take_drop.
    + intros E'. apply E. fold out in E'. by rewrite E'.
    + fold out. lia.
Qed.

Lemma finv_rtc content fe s s' : finv content fe s -> rtc file_live_step s s' -> finv content fe s'.
Proof.
  intros Hi Hr. induction Hr as [s|s [c sent] s2 Hst _ IH]; [done|].
  apply IH. exact (finv_step _ _ _ (Some c) sent Hi Hst).
Qed.

(** C35: a file upstream is served whole. Starting from a file whose reads
    return [chunks], and whatever sizes the kernel accepts: at every moment
    the bytes sent, the bytes buffered and the bytes not yet read are, in
    order, the file; something is buffered, with writing enabled, until the
    end (the transfer cannot stall), never more than 260 KiB; and when the
    callback closes the connection without a read error, the client has been
    sent exactly the file. *)
Theorem file_served : forall os c0 fd chunks fe,
  ao_fopen os = Ok (fd, chunks, fe) -> ao_calloc_fc os = true -> ao_write os = true ->
  v_out (be_view (c_client c0)) = [] -> Forall (fun ck => len ck <= 4096) chunks ->
  match (start_stream_file os c0).2.1 with
  | None => fe = false -> concat chunks = []
  | Some c1 => forall s, rtc file_live_step (c1, []) s ->
      finv (concat chunks) fe s /\
      forall sent, file_step s (None, sent) -> fe = false -> sent = concat chunks
  end.
Proof.
  intros os c0 fd chunks fe Hf Hcal Hwr Hout Hch. unfold start_stream_file. rewrite Hf, Hcal, Hwr.
  cbn [negb].
  match goal with |- context [file_write_cb true ?c] => set (c1 := c) end.
  assert (c_mode c1 = ModeFile fd chunks fe) as Hm by done.
  assert (v_out (be_view (c_client c1)) = [] /\ v_wr (be_view (c_client c1)) = true) as [Ho Hw].
  { unfold c1, set_client_idle_timeout. simpl. autorewrite with bev. simpl.
    rewrite Hout, orb_true_r. done. }
  pose proof (file_write_cb_spec fd chunks fe c1 Hm Hw Hch) as Hs. rewrite Ho in Hs. specialize (Hs eq_refl).
  destruct (file_write_cb true c1) as [[c2|] e]; simpl in *; [|done].
  intros s Hr. assert (finv (concat chunks) fe s) as Hi.
  { eapply finv_rtc; [|exact Hr]. exact (Hs [] (concat chunks) eq_refl). }
  split; [done|]. intros sent Hst. exact (finv_step _ _ _ None sent Hi Hst).
Qed.

(** ** The idle timer *)

Context (evbuffer_copyout : list byte -> Z -> option (list byte)).
Implicit Types (s : pstate B).

(** The timer was started or has just been checked, and is pending. *)
Record idle_checked c : Prop := {
  ic_connected : c_upstream_connected c = true;
  ic_timeout : 0 < opt_idle_timeout_sec (r_opts (c_route c));
  ic_ev : c_idle_ev c = true;
  ic_timer : c_idle_timer c = Some (opt_idle_timeout_sec (r_opts (c_route c)));
  ic_range : 0 <= c_activity_seq c < 2 ^ 64;
  ic_check : c_idle_check_seq c = c_activity_seq c
}.

(** The step is the timer's. *)
Definition idle_fires s (r : option (pstate B) * list seffect) : Prop :=
  r = ((fun c => mk_pstate c (ps_from_client s) (ps_to_upstream s) (ps_from_upstream s)
                   (ps_to_client s)) <$> (conn_idle_timeout_cb (ps_conn s)).1,
       (conn_idle_timeout_cb (ps_conn s)).2).

(** Any callback of the connection but the timer's. *)
Definition unfired_step s s' : Prop :=
  exists eff, pipe_step evbuffer_copyout s (Some s', eff) /\ ~ idle_fires s (Some s', eff).

(** The two read callbacks called [k] times; nothing else touches the timer. *)
Record idle_moves (k : nat) c c' : Prop := {
  im_activity : c_activity_seq c' = Nat.iter k (fun z => u64 (z + 1)) (c_activity_seq c);
  im_check : c_idle_check_seq c' = c_idle_check_seq c;
  im_ev : c_idle_ev c' = c_idle_ev c;
  im_timer : c_idle_timer c' = c_idle_timer c;
  im_route : c_route c' = c_route c;
  im_connected : c_upstream_connected c' = c_upstream_connected c
}.

Lemma idle_moves_refl c : idle_moves 0 c c.
Proof. by split. Qed.

Lemma idle_moves_trans k1 k2 c1 c2 c3 :
  idle_moves k1 c1 c2 -> idle_moves k2 c2 c3 -> idle_moves (k2 + k1) c1 c3.
Proof. intros [A1 ?????] [A2 ?????]. split; try congruence. by rewrite A2, A1, Nat.iter_add. Qed.

Lemma finish_idle c c' eff : finish_client_write c = (c', eff) -> idle_moves 0 c c'.
Proof. unfold finish_client_write. by intros [= <- <-]. Qed.

Lemma drain_idle c c' eff : drain_client_then_close c = (c', eff) -> idle_moves 0 c c'.
Proof.
  unfold drain_client_then_close. cbn [c_upstream set_flags].
  set (c1 := match c_upstream c with Some u => _ | None => _ end).
  assert (idle_moves 0 c c1) as H1 by (unfold c1; by destruct (c_upstream c)).
  case_if; [|by intros [= <- <-]]. destruct (finish_client_write c1) as [c2 e] eqn:Ef.
  apply finish_idle in Ef. intros [= <- <-].
  eapply (idle_moves_trans 0 0); [exact H1|]. by eapply (idle_moves_trans 0 0); [exact Ef|].
Qed.

Lemma client_read_idle c u d c' :
  c_upstream c = Some u ->
  pipe_client_read_cb evbuffer_copyout (set_client c (be_recv (c_client c) d)) = Some c' -> idle_moves 1 c c'.
Proof.
  intros Hu. unfold pipe_client_read_cb. cbn [c_upstream set_client set_bevs]. rewrite Hu.
  destruct (opt_sni_sniff _); [destruct (stream_sniff_peek_client_input _ _ _); [|done]|];
    cbn [mbind option_bind]; destruct (evbuffer_add_buffer u _); intros [= <-]; by split.
Qed.

Lemma upstream_read_idle c u d :
  c_upstream c = Some u -> idle_moves 1 c (pipe_upstream_read_cb (set_upstream c (be_recv u d))).
Proof.
  intros Hu. unfold pipe_upstream_read_cb. simpl. destruct (evbuffer_add_buffer _ _). by split.
Qed.

Lemma client_write_idle c c' eff : pipe_client_write_cb c = (c', eff) -> idle_moves 0 c c'.
Proof.
  unfold pipe_client_write_cb. case_if.
  - destruct (finish_client_write c) as [c1 e] eqn:Ef. apply finish_idle in Ef. intros [= <- <-].
    by eapply (idle_moves_trans 0 0); [exact Ef|].
  - destruct (c_upstream c); [case_if|]; by intros [= <- <-].
Qed.

(** What one callback read: [k] calls of a read callback for at least [k] bytes. *)
Definition reads (k : nat) s s' : Prop :=
  exists d1 d2, ps_from_client s' = ps_from_client s ++ d1 /\
    ps_from_upstream s' = ps_from_upstream s ++ d2 /\
    (k = 0%nat -> d1 = [] /\ d2 = []) /\ Z.of_nat k <= len d1 + len d2.

Lemma reads_none s s' :
  ps_from_client s' = ps_from_client s -> ps_from_upstream s' = ps_from_upstream s -> reads 0 s s'.
Proof. intros E1 E2. exists [], []. by rewrite E1, E2, !app_nil_r. Qed.

Lemma reads_trans k1 k2 s1 s2 s3 : reads k1 s1 s2 -> reads k2 s2 s3 -> reads (k2 + k1) s1 s3.
Proof.
  intros (a1 & a2 & A1 & A2 & A3 & A4) (b1 & b2 & B1 & B2 & B3 & B4).
  exists (a1 ++ b1), (a2 ++ b2). rewrite B1, B2, A1, A2, <- !app_assoc, !len_app.
  split_and!; [done|done| |lia]. intros Hk. destruct A3 as [-> ->]; [lia|]. destruct B3 as [-> ->]; [lia|done].
Qed.

Lemma unfired_idle s s' :
  c_upstream_connected (ps_conn s) = true -> unfired_step s s' ->
  exists k, idle_moves k (ps_conn s) (ps_conn s') /\ reads k s s'.
Proof.
  intros Hconn (eff & Hstep & Hnot). remember (Some s', eff) as r eqn:Er.
  destruct Hstep as [c u d c' fc tu fu tc Hu Hrd Hd Hcb|c u d fc tu fu tc Hu Hrd Hd
    |c n c' e fc tu fu tc Hwr Hn Hcb|c u n c' fc tu fu tc Hu Hc Hwr Hn Hcb
    |c u evt c' e fc tu fu tc Hu Hc Hcb|c u evt err ev o e fc tu fu tc Hu Hev Hact Hcb
    |c ev o e fc tu fu tc Hcb|c o e fc tu fu tc Htm Hcb]; injection Er as Es He; simpl in Hconn.
  - subst s'. exists 1%nat. split; [by eapply client_read_idle|].
    exists d, []. rewrite app_nil_r. split_and!; try done. change (len []) with 0. lia.
  - subst s'. exists 1%nat. split; [by apply upstream_read_idle|].
    exists [], d. rewrite app_nil_r. split_and!; try done. change (len []) with 0. lia.
  - subst s'. exists 0%nat. split; [|by apply reads_none]. cbv zeta in Hcb. simpl. case_if_in Hcb.
    + apply client_write_idle in Hcb. by eapply (idle_moves_trans 0 0); [|exact Hcb].
    + by injection Hcb as <- <-.
  - subst s'. exists 0%nat. split; [|by apply reads_none]. cbv zeta in Hcb. subst c'. simpl.
    unfold pipe_upstream_write_cb. simpl. by repeat case_if.
  - congruence.
  - destruct o as [c'|]; [|done]. injection Es as <-. exists 0%nat. split; [|by apply reads_none]. simpl.
    unfold stream_upstream_event_cb in Hcb. rewrite Hev in Hcb.
    repeat case_if_in Hcb; try done; destruct (drain_client_then_close c) as [c1 e1] eqn:Ed;
      injection Hcb as <- <-; by eapply drain_idle.
  - destruct o as [c'|]; [|done]. injection Es as <-. exists 0%nat. split; [|by apply reads_none]. simpl.
    unfold stream_client_event_cb in Hcb. repeat case_if_in Hcb; try done. by injection Hcb as <- _.
  - destruct Hnot. unfold idle_fires. simpl. rewrite Hcb. by destruct o.
Qed.

(** No callback changes the route. *)
Lemma pipe_step_route s s' eff :
  pipe_step evbuffer_copyout s (Some s', eff) -> c_route (ps_conn s') = c_route (ps_conn s).
Proof.
  intros Hstep. remember (Some s', eff) as r eqn:Er.
  destruct Hstep as [c u d c' fc tu fu tc Hu Hrd Hd Hcb|c u d fc tu fu tc Hu Hrd Hd
    |c n c' e fc tu fu tc Hwr Hn Hcb|c u n c' fc tu fu tc Hu Hc Hwr Hn Hcb
    |c u evt c' e fc tu fu tc Hu Hc Hcb|c u evt err ev o e fc tu fu tc Hu Hev Hact Hcb
    |c ev o e fc tu fu tc Hcb|c o e fc tu fu tc Htm Hcb]; injection Er as Es He; try subst s'; simpl.
  - exact (im_route _ _ _ (client_read_idle _ _ _ _ Hu Hcb)).
  - exact (im_route _ _ _ (upstream_read_idle _ _ d Hu)).
  - cbv zeta in Hcb. case_if_in Hcb; [|by injection Hcb as <- <-].
    exact (im_route _ _ _ (client_write_idle _ _ _ Hcb)).
  - cbv zeta in Hcb. subst c'. unfold pipe_upstream_write_cb. simpl. by repeat case_if.
  - unfold stream_upstream_event_cb, start_conn_idle_timer, schedule_conn_idle_timer in Hcb. simpl in Hcb.
    repeat case_if_in Hcb; by injection Hcb as <- _.
  - destruct o as [c'|]; [|done]. injection Es as <-. simpl.
    unfold stream_upstream_event_cb in Hcb. rewrite Hev in Hcb.
    repeat case_if_in Hcb; try done; destruct (drain_client_then_close c) as [c1 e1] eqn:Ed;
      injection Hcb as <- <-; exact (im_route _ _ _ (drain_idle _ _ _ Ed)).
  - destruct o as [c'|]; [|done]. injection Es as <-. simpl.
    unfold stream_client_event_cb in Hcb. repeat case_if_in Hcb; try done. by injection Hcb as <- _.
  - destruct o as [c'|]; [|done]. injection Es as <-. simpl.
    unfold conn_idle_timeout_cb, schedule_conn_idle_timer in Hcb.
    repeat case_if_in Hcb; try done; by injection Hcb as <- _.
Qed.

Lemma unfired_run s s' :
  c_upstream_connected (ps_conn s) = true -> rtc unfired_step s s' ->
  exists k, idle_moves k (ps_conn s) (ps_conn s') /\ reads k s s'.
Proof.
  intros Hc Hr. induction Hr as [s|s s1 s2 Hst _ IH].
  - exists 0%nat. split; [apply idle_moves_refl|by apply reads_none].
  - destruct (unfired_idle _ _ Hc Hst) as (k1 & Hm1 & Hr1).
    destruct IH as (k2 & Hm2 & Hr2); [by rewrite (im_connected _ _ _ Hm1)|].
    exists (k2 + k1)%nat. split; [by eapply idle_moves_trans|by eapply reads_trans].
Qed.

Lemma seq_iter k a : 0 <= a < 2 ^ 64 -> Nat.iter k (fun z => u64 (z + 1)) a = (a + Z.of_nat k) mod 2 ^ 64.
Proof.
  intros Ha. induction k as [|k IH]; [simpl; rewrite Z.add_0_r, Z.mod_small by lia; done|].
  rewrite Nat.iter_succ, IH. unfold u64. rewrite Zplus_mod_idemp_l. f_equal. lia.
Qed.

Lemma seq_differs a k : 0 <= a < 2 ^ 64 -> 0 < k < 2 ^ 64 -> (a + k) mod 2 ^ 64 <> a.
Proof.
  intros Ha Hk E. destruct (Z.ltb_spec (a + k) (2 ^ 64)) as [Hs|Hs].
  - rewrite Z.mod_small in E by lia. lia.
  - replace (a + k) with (a + k - 2 ^ 64 + 1 * 2 ^ 64) in E by lia.
    rewrite Z.mod_add, Z.mod_small in E by lia. lia.
Qed.

(** C36: the idle timer cuts exactly the silent connections. It is pending,
    with the route's timeout, once the upstream is connected. When it fires
    after any callbacks of the connection (reads, writes, events; fewer than
    2^64 bytes read), it frees the connection if and only if no byte was read
    from either side since it was started or last checked; otherwise it is
    pending again with the route's timeout, and the next period is measured from
    now. *)
Theorem idle_timer_activity :
  (forall c c' eff, 0 < opt_idle_timeout_sec (r_opts (c_route c)) ->
     stream_upstream_event_cb true 0 (mk_events true false false false) c = (Some c', eff) ->
     idle_checked c') /\
  (forall s s', idle_checked (ps_conn s) -> rtc unfired_step s s' ->
     len (ps_from_client s') + len (ps_from_upstream s') <
       len (ps_from_client s) + len (ps_from_upstream s) + 2 ^ 64 ->
     c_idle_timer (ps_conn s') = Some (opt_idle_timeout_sec (r_opts (c_route (ps_conn s)))) /\
     let silent := ps_from_client s' = ps_from_client s /\ ps_from_upstream s' = ps_from_upstream s in
     match (conn_idle_timeout_cb (ps_conn s')).1 with
     | None => silent
     | Some c' => ~ silent /\ idle_checked c'
     end).
Proof.
  split.
  - intros c c' eff Ht. unfold stream_upstream_event_cb, start_conn_idle_timer, schedule_conn_idle_timer.
    simpl. rewrite (proj2 (Z.leb_gt _ _)) by done. intros [= <- _]. by split.
  - intros s s' [C1 C2 C3 C4 C5 C6] Hr Hlen. cbv zeta.
    destruct (unfired_run _ _ C1 Hr) as (k & [M1 M2 M3 M4 M5 M6] & d1 & d2 & R1 & R2 & R3 & R4).
    rewrite seq_iter in M1 by done. rewrite R1, R2, !len_app in Hlen.
    split; [congruence|]. unfold conn_idle_timeout_cb. simpl.
    destruct k as [|k].
    + rewrite M1, M2, C6, Z.add_0_r, Z.mod_small, Z.eqb_refl by lia. simpl.
      destruct (R3 eq_refl) as [-> ->]. by rewrite R1, R2, !app_nil_r.
    + assert (c_activity_seq (ps_conn s') <> c_idle_check_seq (ps_conn s')) as Hne.
      { rewrite M1, M2, C6. apply seq_differs; lia. }
      rewrite (proj2 (Z.eqb_neq _ _)) by done. unfold schedule_conn_idle_timer. simpl.
      rewrite M3, C3, M5. simpl. rewrite (proj2 (Z.leb_gt _ _)) by done. simpl. split.
      * rewrite R1, R2. intros [E1 E2].
        apply (f_equal length) in E1, E2. rewrite length_app in E1, E2. unfold Zlength in R4. lia.
      * split; simpl; rewrite ?M5, ?M6; try done. rewrite M1. apply Z.mod_pos_bound. lia.
Qed.
End open_facts.

(** ** Witnesses *)

Definition file_conn0 : conn bview :=
  mk_conn (tcp_route ENDPOINT_FILE PROTO_FILE) (bufferevent_socket_new 9) None storage_zero 0
    sniff_init false false false 1 1 false None ModePipe.

Lemma file_served_witness :
  match (start_stream_file example_ados file_conn0).2.1 with
  | None => False
  | Some c1 => finv (str "hello, file") false (c1, [])
  end.
Proof.
  pose proof (file_served example_ados file_conn0 13 [str "hello, "; str "file"] false eq_refl eq_refl eq_refl
    eq_refl) as H.
  assert (Forall (fun ck => len ck <= 4096) [str "hello, "; str "file"]) as Hc
    by (repeat constructor; vm_compute; discriminate).
  specialize (H Hc). destruct (start_stream_file example_ados file_conn0).2.1 as [c1|] eqn:E.
  - apply H. apply rtc_refl.
  - vm_compute in E. discriminate E.
Defined.

(** The request of [requested] is read after the timer was started. *)
Lemma idle_timer_activity_witness :
  match (conn_idle_timeout_cb (ps_conn requested)).1 with
  | None => str "GET /" = []
  | Some c' => idle_checked c'
  end.
Proof.
  destruct (idle_timer_activity copyout_all) as [Hstart Hrun].
  assert (idle_checked connected_conn) as Hc.
  { apply (Hstart adopted_conn connected_conn []); [reflexivity|vm_compute; reflexivity]. }
  destruct (Hrun (mk_pstate connected_conn [] [] [] []) requested Hc) as [_ Hend].
  - apply rtc_once. exists []. split.
    + eapply (st_client_read _ connected_conn _ (str "GET /") requested_conn [] [] [] []);
        [vm_compute; reflexivity..|vm_compute; split; [reflexivity|discriminate]|vm_compute; reflexivity].
    + intros E. vm_compute in E. discriminate E.
  - reflexivity.
  - cbv zeta in Hend. destruct (conn_idle_timeout_cb (ps_conn requested)).1 as [c'|].
    + exact (proj2 Hend).
    + exact (proj1 Hend).
Defined.

(** ** A ClientHello in two reads *)

(** The sniffer after the pipe has read [chunks] one after the other: each read
    moves the client's input to the upstream before the next one arrives. *)
Definition sniff_reads (chunks : list (list byte)) : option stream_sniff :=
  foldl (fun s d => s ← s; stream_sniff_peek_client_input copyout_all s d) (Some sniff_init) chunks.

(** A ClientHello that arrives in one read is recognised, but the same
    bytes split over two reads are not: the input that the sniffer asked to see
    again is moved to the upstream before the rest arrives, and the second half
    is parsed as if it were the start of the stream. *)
Theorem sni_split_hello :
  exists hello a b, hello = a ++ b /\
    (exists s, sniff_reads [hello] = Some s /\ stream_sniff_log_sni (Some s) = str "example.com") /\
    (exists s, sniff_reads [a; b] = Some s /\ sn_status s = STREAM_SNIFF_NOT_TLS).
Proof.
  exists (enc_record example_hello), (take 40 (enc_record example_hello)),
    (drop 40 (enc_record example_hello)).
  split; [by rewrite take_drop|].
  split; (eexists; split; [vm_compute; reflexivity|vm_compute; reflexivity]).
Qed.
