(* ===== verification/StreamFds.v ===== *)
(** * Descriptors of a connection over its whole life

    The callbacks of every mode (pipe, builtin, file) as one step relation, and
    the accounting behind it: a callback that keeps the connection keeps its
    descriptors and closes none; a callback that frees it closes exactly the
    descriptors it holds. Adopting a client accounts in the same way for the
    accepted descriptor and for the one the connection to the upstream opens. *)

From stdpp Require Import relations.
From S2P Require Import Prelude CString Endpoint Sniff SniffFacts ProxyV2 RawUdp Worker Datagram Stream StreamFacts StreamOpen.

Section fds.
Context {B : Type} `{BuffereventLaws B}.
Context (evbuffer_copyout : list byte -> Z -> option (list byte)).
Context (inet_pton : Z -> list byte -> option (list byte)).
Context (inet_ntop : Z -> list byte -> Z -> option (list byte)).
Implicit Types (c : conn B) (s : pstate B) (u : B).

(** ** The callbacks of a connection, by mode *)

(** [bufferevent_setcb]: the client's write callback. *)
Definition mode_write_cb (write_ok : bool) c : cres B :=
  match c_mode c with
  | ModeBuiltinClose => builtin_close_after_write_cb c
  | ModeBuiltinHttp => builtin_http_close_after_write_cb c
  | ModeFile _ _ _ => file_write_cb write_ok c
  | ModePipe | ModeDiscard | ModeHang => live c
  end.

(** The client's event callback. *)
Definition mode_event_cb (ev : bev_events) c : cres B :=
  match c_mode c with
  | ModeFile _ _ _ => file_event_cb c
  | _ => stream_client_event_cb ev c
  end.

(** [builtin_client_read_cb] is installed; without a read callback the bytes
    stay in the input buffer. *)
Definition mode_drains (m : conn_mode) : bool :=
  match m with ModeBuiltinHttp | ModeDiscard => true | _ => false end.

Definition is_pipe (m : conn_mode) : bool := match m with ModePipe => true | _ => false end.

Inductive conn_step : pstate B -> option (pstate B) * list seffect -> Prop :=
| cs_pipe s r :
    is_pipe (c_mode (ps_conn s)) = true -> pipe_step evbuffer_copyout s r -> conn_step s r
| cs_read c d fc tu fu tc :
    is_pipe (c_mode c) = false -> v_rd (be_view (c_client c)) = true -> 0 < len d ->
    conn_step (mk_pstate c fc tu fu tc)
      (Some (mk_pstate (let c1 := set_client c (be_recv (c_client c) d) in
                        if mode_drains (c_mode c) then builtin_client_read_cb c1 else c1)
               (fc ++ d) tu fu tc), [])
| cs_write c n write_ok o eff fc tu fu tc :
    is_pipe (c_mode c) = false -> v_wr (be_view (c_client c)) = true ->
    (0 < n <= length (v_out (be_view (c_client c))))%nat ->
    (let c1 := set_client c (be_flush (c_client c) n) in
     (if be_output_len (c_client c1) =? 0 then mode_write_cb write_ok c1 else live c1) = (o, eff)) ->
    conn_step (mk_pstate c fc tu fu tc)
      ((fun c' => mk_pstate c' fc tu fu (tc ++ take n (v_out (be_view (c_client c))))) <$> o, eff)
| cs_event c ev o eff fc tu fu tc :
    is_pipe (c_mode c) = false -> mode_event_cb ev c = (o, eff) ->
    conn_step (mk_pstate c fc tu fu tc) ((fun c => mk_pstate c fc tu fu tc) <$> o, eff).

(** ** What a callback does to the descriptors *)

(** The descriptor of the file that is being served. *)
Definition file_fd (m : conn_mode) : list Z :=
  match m with ModeFile fd _ _ => [fd] | _ => [] end.

(** The descriptors a connection holds: the file's, and those [free_conn]
    closes. *)
Definition conn_fds c : list Z := file_fd (c_mode c) ++ fd_closes (free_conn c).

Definition same_fds c c' : Prop :=
  v_fd (be_view (c_client c')) = v_fd (be_view (c_client c)) /\
  (fun u => v_fd (be_view u)) <$> c_upstream c' = (fun u => v_fd (be_view u)) <$> c_upstream c /\
  file_fd (c_mode c') = file_fd (c_mode c).

Definition fds_kept c (r : cres B) : Prop :=
  match r.1 with
  | Some c' => same_fds c c' /\ c_mode c' = c_mode c /\ fd_closes r.2 = []
  | None => fd_closes r.2 = conn_fds c
  end.

Lemma conn_fds_same c c' : same_fds c c' -> conn_fds c' = conn_fds c.
Proof.
  intros (Hc & Hu & Hf). unfold conn_fds, free_conn. rewrite !fd_closes_app, !bufferevent_free_closes, Hc, Hf.
  do 2 f_equal. destruct (c_upstream c) as [u|], (c_upstream c') as [u'|]; simpl in *; try done.
  injection Hu as Hu. by rewrite !bufferevent_free_closes, Hu.
Qed.

Lemma same_fds_trans c1 c2 c3 : same_fds c1 c2 -> same_fds c2 c3 -> same_fds c1 c3.
Proof. intros (? & ? & ?) (? & ? & ?). split_and!; congruence. Qed.

Lemma fds_kept_live c c' : same_fds c c' -> c_mode c' = c_mode c -> fds_kept c (live c').
Proof. by intros. Qed.

(** [free_conn] alone is enough when no file is open. *)
Lemma fds_kept_freed c c' : file_fd (c_mode c) = [] -> same_fds c c' -> fds_kept c (freed c').
Proof.
  intros Hf Hs. unfold fds_kept. simpl. rewrite <- (conn_fds_same _ _ Hs). unfold conn_fds.
  by rewrite (proj2 (proj2 Hs)), Hf.
Qed.

Lemma pipe_no_file m : is_pipe m = true -> file_fd m = [].
Proof. by destruct m. Qed.

(** Steps that only touch buffers, flags and timers. *)
Ltac kept := unfold same_fds; simpl; autorewrite with bev; simpl;
  repeat match goal with E : c_upstream _ = _ |- _ => rewrite E end; simpl; autorewrite with bev; by split_and?.

Lemma finish_fds c c' eff :
  finish_client_write c = (c', eff) -> same_fds c c' /\ c_mode c' = c_mode c /\ fd_closes eff = [].
Proof. unfold finish_client_write. intros [= <- <-]. split; [kept|]. split; [done|]. by case_if. Qed.

Lemma schedule_fds c : same_fds c (schedule_conn_idle_timer c) /\ c_mode (schedule_conn_idle_timer c) = c_mode c.
Proof. unfold schedule_conn_idle_timer. by repeat case_if. Qed.

Lemma idle_fds c : file_fd (c_mode c) = [] -> fds_kept c (conn_idle_timeout_cb c).
Proof.
  intros Hf. unfold conn_idle_timeout_cb. case_if; [|by apply fds_kept_freed].
  match goal with |- context [schedule_conn_idle_timer ?c1] => destruct (schedule_fds c1) as [Hs Hm] end.
  by apply fds_kept_live.
Qed.

Lemma client_event_fds ev c : file_fd (c_mode c) = [] -> fds_kept c (stream_client_event_cb ev c).
Proof. intros Hf. unfold stream_client_event_cb. repeat case_if; (by apply fds_kept_freed) || by apply fds_kept_live. Qed.

Lemma drain_fds c c' eff :
  drain_client_then_close c = (c', eff) -> same_fds c c' /\ c_mode c' = c_mode c /\ fd_closes eff = [].
Proof.
  unfold drain_client_then_close. cbn [c_upstream set_flags].
  set (c1 := match c_upstream c with Some u => _ | None => _ end).
  assert (same_fds c c1 /\ c_mode c1 = c_mode c) as [Hs Hm].
  { unfold c1. destruct (c_upstream c) eqn:E; split; done || kept. }
  case_if; [|intros [= <- <-]; done].
  destruct (finish_client_write c1) as [c2 e] eqn:Ef. apply finish_fds in Ef as (Hs2 & Hm2 & He).
  intros [= <- <-]. split; [|split; [simpl; congruence|done]].
  exact (same_fds_trans _ _ _ Hs Hs2).
Qed.

Lemma upstream_event_fds evt err ev c :
  file_fd (c_mode c) = [] -> fds_kept c (stream_upstream_event_cb evt err ev c).
Proof.
  intros Hf. unfold stream_upstream_event_cb. case_if.
  - set (c1 := clear_idle_timeout _).
    assert (same_fds c c1 /\ c_mode c1 = c_mode c) as [Hs Hm].
    { unfold c1, clear_idle_timeout, same_fds. simpl. split; [|done]. autorewrite with bev.
      split; [done|]. split; [|done]. destruct (c_upstream c); [simpl; by autorewrite with bev|done]. }
    destruct (start_conn_idle_timer evt c1) as [rc c2] eqn:Es.
    assert (same_fds c1 c2 /\ c_mode c2 = c_mode c1) as [Ht Hm2].
    { unfold start_conn_idle_timer in Es. case_if_in Es; [by injection Es as <- <-|].
      cbv zeta in Es. case_if_in Es; injection Es as <- <-; [done|].
      match goal with |- context [schedule_conn_idle_timer ?c3] => destruct (schedule_fds c3) as [Hq Hq'] end.
      done. }
    apply fds_kept_live; [|simpl; congruence].
    eapply same_fds_trans; [exact (same_fds_trans _ _ _ Hs Ht)|kept].
  - repeat case_if; try by apply fds_kept_freed.
    all: destruct (drain_client_then_close c) as [c1 e] eqn:Ed; by apply drain_fds in Ed.
Qed.

Lemma add_buffer_fds (dst src : B) :
  v_fd (be_view (evbuffer_add_buffer dst src).1) = v_fd (be_view dst) /\
  v_fd (be_view (evbuffer_add_buffer dst src).2) = v_fd (be_view src).
Proof. by rewrite law_add_dst, law_add_src. Qed.

Lemma client_read_fds c c' :
  pipe_client_read_cb evbuffer_copyout c = Some c' -> same_fds c c' /\ c_mode c' = c_mode c.
Proof.
  unfold pipe_client_read_cb. destruct (c_upstream c) as [u|] eqn:Eu; [|by intros [= <-]].
  intros Hcb.
  assert (exists c1, c_client c1 = c_client c /\ c_mode c1 = c_mode c /\
    (let '(dst, src) := evbuffer_add_buffer u (c_client (conn_touch c1)) in
     Some (set_bevs (conn_touch c1)
       (if STREAM_READ_HIGH_WATER <=? be_output_len dst then bufferevent_disable src true false else src) (Some dst)))
    = Some c') as (c1 & Hcl & Hm & Hc').
  { destruct (opt_sni_sniff _); [|by exists c]. destruct (stream_sniff_peek_client_input _ _ _) as [s|]; [|done].
    by exists (set_sniff c s). }
  pose proof (add_buffer_fds u (c_client (conn_touch c1))) as [Hd Hs].
  destruct (evbuffer_add_buffer u _) as [dst src]. injection Hc' as <-. simpl in *.
  split; [|done]. unfold same_fds. simpl. rewrite Eu, Hm. simpl. rewrite Hd. split; [|done].
  case_if; autorewrite with bev; simpl; by rewrite Hs, Hcl.
Qed.

Lemma upstream_read_fds c : same_fds c (pipe_upstream_read_cb c) /\ c_mode (pipe_upstream_read_cb c) = c_mode c.
Proof.
  unfold pipe_upstream_read_cb. destruct (c_upstream c) as [u|] eqn:Eu; [|done].
  pose proof (add_buffer_fds (c_client (conn_touch c)) u) as [Hd Hs].
  destruct (evbuffer_add_buffer _ u) as [dst src]. simpl in *. split; [|done]. split; [done|].
  simpl. rewrite Eu. simpl. split; [|done]. f_equal. by case_if; autorewrite with bev.
Qed.

Lemma client_write_fds c c' eff :
  pipe_client_write_cb c = (c', eff) -> same_fds c c' /\ c_mode c' = c_mode c /\ fd_closes eff = [].
Proof.
  unfold pipe_client_write_cb. case_if.
  - destruct (finish_client_write c) as [c1 e] eqn:Ef. apply finish_fds in Ef as (? & ? & ?).
    by intros [= <- <-].
  - destruct (c_upstream c) as [u|] eqn:Eu; [case_if|]; intros [= <- <-]; try done. split; [kept|done].
Qed.

Lemma upstream_write_fds c : same_fds c (pipe_upstream_write_cb c) /\ c_mode (pipe_upstream_write_cb c) = c_mode c.
Proof.
  unfold pipe_upstream_write_cb. destruct (c_upstream c) as [u|] eqn:Eu; [case_if|]; try done.
  split; [kept|done].
Qed.
Lemma fds_kept_from c c1 r : same_fds c c1 -> c_mode c1 = c_mode c -> fds_kept c1 r -> fds_kept c r.
Proof.
  intros Hs Hm. unfold fds_kept. destruct r as [[c'|] e]; simpl.
  - intros (Hs' & Hm' & He). split; [by eapply same_fds_trans|]. split; [congruence|done].
  - intros ->. by apply conn_fds_same.
Qed.

Lemma recv_fds c d : same_fds c (set_client c (be_recv (c_client c) d)).
Proof. kept. Qed.
Lemma flush_fds c n : same_fds c (set_client c (be_flush (c_client c) n)).
Proof. kept. Qed.

Lemma pipe_step_fds s o eff :
  file_fd (c_mode (ps_conn s)) = [] ->
  pipe_step evbuffer_copyout s (o, eff) -> fds_kept (ps_conn s) (ps_conn <$> o, eff).
Proof.
  intros Hf Hstep. remember (o, eff) as r eqn:Er.
  destruct Hstep as [c u d c' fc tu fu tc Hu Hrd Hd Hcb|c u d fc tu fu tc Hu Hrd Hd
    |c n c' e fc tu fu tc Hwr Hn Hcb|c u n c' fc tu fu tc Hu Hc Hwr Hn Hcb
    |c u evt c' e fc tu fu tc Hu Hc Hcb|c u evt err ev o' e fc tu fu tc Hu Hev Hact Hcb
    |c ev o' e fc tu fu tc Hcb|c o' e fc tu fu tc Htm Hcb]; injection Er as <- <-; simpl.
  - apply client_read_fds in Hcb as [Hs Hm]. eapply fds_kept_from; [apply recv_fds|done|by apply fds_kept_live].
  - destruct (upstream_read_fds (set_upstream c (be_recv u d))) as [Hs Hm].
    apply (fds_kept_from c (set_upstream c (be_recv u d))); [kept|done|by apply fds_kept_live].
  - cbv zeta in Hcb. eapply (fds_kept_from c _ (Some c', e) (flush_fds c n)); [done|]. case_if_in Hcb.
    + by apply client_write_fds in Hcb.
    + injection Hcb as <- <-. done.
  - cbv zeta in Hcb. apply (fds_kept_from c (set_upstream c (be_flush u n))); [kept|done|].
    subst c'. case_if; [|done]. destruct (upstream_write_fds (set_upstream c (be_flush u n))) as [Hs Hm].
    by apply fds_kept_live.
  - pose proof (upstream_event_fds evt 0 (mk_events true false false false) c Hf) as Hk. by rewrite Hcb in Hk.
  - pose proof (upstream_event_fds evt err ev c Hf) as Hk. rewrite Hcb in Hk. by destruct o'.
  - pose proof (client_event_fds ev c Hf) as Hk. rewrite Hcb in Hk. by destruct o'.
  - pose proof (idle_fds c Hf) as Hk. rewrite Hcb in Hk. by destruct o'.
Qed.

(** The file's own mode changes with every read: the descriptors do not. *)
Definition fds_kept' c (r : cres B) : Prop :=
  match r.1 with
  | Some c' => same_fds c c' /\ is_pipe (c_mode c') = is_pipe (c_mode c) /\ fd_closes r.2 = []
  | None => fd_closes r.2 = conn_fds c
  end.

Lemma fds_kept_weaken c r : fds_kept c r -> fds_kept' c r.
Proof. unfold fds_kept, fds_kept'. destruct (r.1); [|done]. by intros (? & -> & ?). Qed.

Lemma mode_write_fds w c : fds_kept' c (mode_write_cb w c).
Proof.
  unfold mode_write_cb. destruct (c_mode c) as [| | | | |fd chunks fe] eqn:Em;
    try (by apply fds_kept_weaken, fds_kept_live).
  - apply fds_kept_weaken. unfold builtin_close_after_write_cb. case_if; [apply fds_kept_freed; by rewrite ?Em|done].
  - apply fds_kept_weaken. unfold builtin_http_close_after_write_cb. case_if; [done|].
    destruct (finish_client_write c) as [c1 e] eqn:Ef. by apply finish_fds in Ef as (? & ? & ?).
  - unfold file_write_cb. rewrite Em. pose proof (file_loop_fd w chunks fe (c_client c)) as Hf.
    destruct (file_loop w chunks fe (c_client c)) as [[b rest] done]. simpl in Hf.
    destruct done; unfold fds_kept'; simpl; [|unfold same_fds; simpl; by rewrite Em].
    set (c1 := set_mode (set_client c b) (ModeFile fd rest fe)).
    change (fd :: fd_closes (free_conn c1)) with (conn_fds c1). apply conn_fds_same.
    unfold same_fds. simpl. by rewrite Em.
Qed.

Lemma mode_event_fds ev c : fds_kept c (mode_event_cb ev c).
Proof.
  unfold mode_event_cb, file_event_cb. destruct (c_mode c) eqn:Em; try (apply client_event_fds; by rewrite Em).
  unfold fds_kept, conn_fds. simpl. by rewrite Em.
Qed.

(** A step keeps the descriptors, or frees the connection and closes them all. *)
Lemma conn_step_fds s o eff : conn_step s (o, eff) -> fds_kept' (ps_conn s) (ps_conn <$> o, eff).
Proof.
  intros Hstep. remember (o, eff) as r eqn:Er.
  destruct Hstep as [s r Hm Hp|c d fc tu fu tc Hm Hrd Hd|c n w o' e fc tu fu tc Hm Hwr Hn Hcb
    |c ev o' e fc tu fu tc Hm Hcb]; [subst r|injection Er as <- <-..]; simpl.
  - apply fds_kept_weaken, pipe_step_fds; [by apply pipe_no_file|done].
  - apply fds_kept_weaken. case_if; unfold fds_kept; simpl; (split; [kept|done]).
  - cbv zeta in Hcb. set (c1 := set_client c (be_flush (c_client c) n)) in Hcb.
    assert (fds_kept' c1 (o', e)) as Hk.
    { case_if_in Hcb; [rewrite <- Hcb; apply mode_write_fds|injection Hcb as <- <-; done]. }
    pose proof (flush_fds c n) as Hf. fold c1 in Hf.
    unfold fds_kept' in *. destruct o' as [c'|]; simpl fst in *.
    + destruct Hk as (Hs & ? & ?). by split; [eapply same_fds_trans|].
    + simpl. rewrite <- (conn_fds_same _ _ Hf). exact Hk.
  - pose proof (mode_event_fds ev c) as Hk. rewrite Hcb in Hk. apply fds_kept_weaken. by destruct o'.
Qed.

(** ** Adopting a client *)

(** The descriptor that the connection to the upstream opens. *)
Definition connect_opened (os : adopt_os) (ep : endpoint) : list Z :=
  match connect_upstream inet_pton os (bufferevent_socket_new (-1) : B) ep with
  | Ok u => [v_fd (be_view u)]
  | Err _ => []
  end.

(** The descriptors that the kernel opens while the client is adopted. *)
Definition adopt_opened (os : adopt_os) (ac : stream_client_msg) : list Z :=
  if ao_calloc os && ao_client_new os then
    match ep_kind (r_upstream (sc_route ac)) with
    | ENDPOINT_BUILTIN => []
    | ENDPOINT_FILE => match ao_fopen os with Ok (fd, _, _) => [fd] | Err _ => [] end
    | _ => if ao_upstream_new os then connect_opened os (r_upstream (sc_route ac)) else []
    end
  else [].

(** The descriptors a result accounts for: still held, or closed. *)
Definition res_fds (r : cres B) : list Z :=
  default [] (conn_fds <$> r.1) ++ fd_closes r.2.

Lemma kept_res_fds c r : fds_kept' c r -> res_fds r = conn_fds c.
Proof.
  unfold fds_kept', res_fds. destruct r as [[c'|] e]; simpl; [|done].
  intros (Hs & _ & ->). rewrite app_nil_r. by apply conn_fds_same.
Qed.

Lemma connect_cases os (b : B) ep :
  match connect_upstream inet_pton os b ep with
  | Ok u => exists fd, ao_connect os = Ok fd /\ u = be_connect b fd /\ connect_opened os ep = [fd]
  | Err _ => connect_opened os ep = []
  end.
Proof.
  unfold connect_opened, connect_upstream.
  destruct (ep_kind ep); try done.
  1, 2: destruct (endpoint_to_sockaddr inet_pton ep); [|done].
  3: case_if; [done|]; case_if; [done|].
  all: destruct (ao_connect os) as [fd|e]; [|done]; exists fd; by rewrite law_connect.
Qed.

Lemma queue_fds os ac c u r :
  file_fd (c_mode c) = [] -> queue_proxy_v2 os ac c u = Some r -> fds_kept (set_upstream c u) r.
Proof.
  intros Hf. pose proof (fds_kept_freed (set_upstream c u) (set_upstream c u) Hf ltac:(done)) as Hfr.
  unfold queue_proxy_v2. case_if; [by intros [= <-]|].
  destruct (ao_getsockname os) as [[local n]|]; [|by intros [= <-]].
  do 2 (case_if; [by intros [= <-]|]).
  destruct (proxy_v2_header ac local n) as [[rc hdr]|]; [|done]. cbn [mbind option_bind].
  repeat case_if; intros [= <-]; [|done..]. apply fds_kept_live; [kept|done].
Qed.

(** A connection whose client holds [fd] and that has no upstream. *)
Lemma conn_fds_client c fd :
  0 <= fd -> v_fd (be_view (c_client c)) = fd -> c_upstream c = None ->
  conn_fds c = file_fd (c_mode c) ++ [fd].
Proof.
  intros Hp Hc Hu. unfold conn_fds, free_conn. rewrite fd_closes_app, bufferevent_free_closes, Hc, Hu.
  by rewrite (proj2 (Z.leb_le _ _)) by lia.
Qed.

(** The result of starting a builtin or a file: the client's descriptor [fd],
    the file's, and no pipe. *)
Definition started_fds (file : list Z) (fd : Z) (r : cres B) : Prop :=
  res_fds r = file ++ [fd] /\ forall c, r.1 = Some c ->
    is_pipe (c_mode c) = false /\ v_fd (be_view (c_client c)) = fd.

Lemma started_live file fd c :
  0 <= fd -> v_fd (be_view (c_client c)) = fd -> c_upstream c = None -> is_pipe (c_mode c) = false ->
  file_fd (c_mode c) = file -> started_fds file fd (live c).
Proof.
  intros Hp Hc Hu Hm <-. split; [|by intros ? [= <-]]. unfold res_fds. simpl. rewrite app_nil_r.
  by apply conn_fds_client.
Qed.

Lemma started_freed fd c :
  0 <= fd -> v_fd (be_view (c_client c)) = fd -> c_upstream c = None -> file_fd (c_mode c) = [] ->
  started_fds [] fd (freed c).
Proof.
  intros Hp Hc Hu Hm. split; [|done]. unfold res_fds. simpl.
  pose proof (conn_fds_client c fd Hp Hc Hu) as Hf. unfold conn_fds in Hf. by rewrite Hm in Hf.
Qed.

Lemma builtin_fds os c fd :
  0 <= fd -> v_fd (be_view (c_client c)) = fd -> c_upstream c = None -> file_fd (c_mode c) = [] ->
  started_fds [] fd (start_stream_builtin inet_ntop os c).2.
Proof.
  intros Hp Hc Hu Hm. unfold start_stream_builtin.
  destruct (x_builtin_handle _) as [res|e]; [|by apply started_freed].
  rewrite Hu. simpl. set (c1 := set_client_idle_timeout _).
  assert (v_fd (be_view (c_client c1)) = fd) as Hc1 by (unfold c1; simpl; by autorewrite with bev).
  destruct (res_action res); simpl.
  - case_if; [apply started_live|by apply started_freed]; try done. simpl. by autorewrite with bev.
  - apply started_live; try done. simpl. by autorewrite with bev.
  - apply started_live; try done. simpl. by autorewrite with bev.
  - case_if; [apply started_live; try done; simpl; by autorewrite with bev|].
    split; [|intros ? [= <-]; split; [done|simpl; by autorewrite with bev]]. unfold res_fds. simpl.
    rewrite (conn_fds_client _ fd); [|done| |done].
    + by case_if.
    + simpl. by autorewrite with bev.
Qed.

Lemma file_fds os c fd :
  0 <= fd -> v_fd (be_view (c_client c)) = fd -> c_upstream c = None -> file_fd (c_mode c) = [] ->
  started_fds (match ao_fopen os with Ok (k, _, _) => [k] | Err _ => [] end) fd (start_stream_file os c).2.
Proof.
  intros Hp Hc Hu Hm. unfold start_stream_file. rewrite Hu. simpl default.
  destruct (ao_fopen os) as [[[k chunks] fe]|e]; [|by apply started_freed].
  destruct (ao_calloc_fc os); simpl negb; cbv iota.
  2: { destruct (started_freed fd (set_bevs c (c_client c) None)) as [Hf _]; try done.
       split; [|done]. unfold res_fds in *. simpl in *. by rewrite Hf. }
  match goal with |- context [file_write_cb ?w ?c0] => set (c1 := c0) end.
  assert (v_fd (be_view (c_client c1)) = fd) as Hc1 by (unfold c1; simpl; by autorewrite with bev).
  pose proof (mode_write_fds (ao_write os) c1) as Hk. unfold mode_write_cb in Hk. simpl c_mode in Hk.
  cbv iota in Hk. destruct (file_write_cb (ao_write os) c1) as [o e]. simpl. split.
  - rewrite (kept_res_fds _ _ Hk). by apply (conn_fds_client c1).
  - intros c' Ho. simpl in Ho. subst o. destruct Hk as ([Hs _] & -> & _). split; [done|congruence].
Qed.

(** The pipe's connection, once the descriptor [k] to the upstream is open. *)
Lemma conn_fds_pipe c u fd k :
  0 <= fd -> 0 <= k -> v_fd (be_view (c_client c)) = fd -> v_fd (be_view u) = k ->
  file_fd (c_mode c) = [] -> conn_fds (set_upstream c u) = [fd; k].
Proof.
  intros Hp Hk Hc Hu Hm. unfold conn_fds, free_conn. simpl. rewrite Hm.
  rewrite fd_closes_app, !bufferevent_free_closes, Hc, Hu, !(proj2 (Z.leb_le _ _)) by lia. done.
Qed.

Lemma adopt_accounts os ac r :
  0 <= sc_fd ac -> (forall k, ao_connect os = Ok k -> 0 <= k) ->
  worker_adopt_client_fd inet_pton inet_ntop os ac = Some r ->
  res_fds r ≡ₚ sc_fd ac :: adopt_opened os ac /\
  forall c, r.1 = Some c -> is_pipe (c_mode c) = socket_upstream (sc_route ac) /\
    v_fd (be_view (c_client c)) = sc_fd ac.
Proof.
  intros Hfd Hk. unfold worker_adopt_client_fd, adopt_opened.
  destruct (ao_calloc os); cbn [negb andb]; [|by intros [= <-]].
  destruct (ao_client_new os); cbn [negb andb]; [|by intros [= <-]].
  cbv zeta. set (c0 := mk_conn _ _ _ _ _ _ _ _ _ _ _ _ _ _).
  assert (v_fd (be_view (c_client c0)) = sc_fd ac) as Hc0 by (unfold c0; simpl; by autorewrite with bev).
  set (c1 := set_connect_timeout _). intros Hr.
  assert (forall u, c_upstream c1 = Some u -> v_fd (be_view u) = -1) as Hu1.
  { intros u. unfold c1. simpl. intros [= <-]. by autorewrite with bev. }
  assert (v_fd (be_view (c_client c1)) = sc_fd ac) as Hc1 by (unfold c1; simpl; by autorewrite with bev).
  assert (conn_fds c1 = [sc_fd ac]) as Hf1.
  { unfold conn_fds, free_conn. rewrite fd_closes_app, bufferevent_free_closes, Hc1.
    rewrite (proj2 (Z.leb_le _ _)) by lia. destruct (c_upstream c1) as [u|]; [|done]. simpl.
    by rewrite bufferevent_free_closes, (Hu1 u eq_refl). }
  assert (forall u r, c_upstream c1 = Some u -> match connect_upstream inet_pton os u (r_upstream (sc_route ac)) with
    | Ok u => '(o, eff) ← queue_proxy_v2 os ac c1 u;
        match o with
        | Some c => Some (Some match c_upstream c with
                               | Some u => set_upstream c (bufferevent_enable u true true)
                               | None => c end, eff)
        | None => Some (None, eff)
        end
    | Err _ => Some (freed c1)
    end = Some r -> res_fds r = sc_fd ac :: connect_opened os (r_upstream (sc_route ac)) /\
      forall c, r.1 = Some c -> is_pipe (c_mode c) = true /\ v_fd (be_view (c_client c)) = sc_fd ac)
    as Hconn.
  { intros u r' Hu. pose proof (connect_cases os u (r_upstream (sc_route ac))) as Hcase.
    destruct (connect_upstream inet_pton os u _) as [u'|e].
    2: { intros [= <-]. rewrite Hcase. by split. }
    destruct Hcase as (k & Hok & -> & ->). specialize (Hk _ Hok).
    destruct (queue_proxy_v2 os ac c1 _) as [[o eff]|] eqn:Eq; [|done].
    apply queue_fds, fds_kept_weaken in Eq; [|done]. cbn [mbind option_bind].
    rewrite <- (conn_fds_pipe c1 (be_connect u k) (sc_fd ac) k) by (done || by rewrite law_connect).
    rewrite <- (kept_res_fds _ _ Eq). unfold res_fds. destruct o as [c|]; intros [= <-]; simpl; [|done].
    destruct Eq as ([Hs _] & Hm & _). rewrite <- Hc1.
    change (c_client (set_upstream c1 (be_connect u k))) with (c_client c1) in Hs.
    split; [|intros c' [= <-]; by destruct (c_upstream c)].
    f_equal. destruct (c_upstream c) as [u2|] eqn:Ec; [|done].
    apply conn_fds_same. split; [done|]. simpl. rewrite Ec. simpl. by autorewrite with bev. }
  unfold socket_upstream.
  destruct (ep_kind (r_upstream (sc_route ac))) eqn:Ek.
  all: try (destruct (ao_upstream_new os); cbn [negb] in Hr; [|injection Hr as <-; split; [|done];
    by destruct (started_freed (sc_fd ac) c0) as [-> _]]).
  all: try (destruct (Hconn _ r eq_refl Hr) as [-> ?]; by split).
  - unfold connect_upstream in Hr. simpl in Hr. rewrite Ek in Hr. injection Hr as <-.
    unfold connect_opened, connect_upstream. rewrite Ek. split; [|done].
    change (res_fds (freed c1)) with (conn_fds c1). by rewrite Hf1.
  - injection Hr as <-. destruct (builtin_fds os c0 (sc_fd ac)) as [-> ?]; done.
  - injection Hr as <-. destruct (file_fds os c0 (sc_fd ac)) as [-> ?]; try done. split; [|done].
    by rewrite Permutation_app_comm.
Qed.

(** The adoption returns. *)
Lemma adopt_total os m :
  addrs_backed os m -> exists r : cres B, worker_adopt_client_fd inet_pton inet_ntop os m = Some r.
Proof.
  intros Hb. unfold worker_adopt_client_fd.
  destruct (ao_calloc os); cbn [negb]; [|by eauto]. destruct (ao_client_new os); cbn [negb]; [|by eauto].
  cbv zeta. set (c1 := set_connect_timeout _).
  assert (forall u, exists r, match connect_upstream inet_pton os u (r_upstream (sc_route m)) with
    | Ok u => '(o, eff) ← queue_proxy_v2 os m c1 u;
        match o with
        | Some c => Some (Some match c_upstream c with
                               | Some u => set_upstream c (bufferevent_enable u true true)
                               | None => c end, eff)
        | None => Some (None, eff)
        end
    | Err _ => Some (freed c1)
    end = Some r) as Hc.
  { intros u. destruct (connect_upstream inet_pton os u _) as [u'|]; [|by eauto].
    destruct (queue_proxy_v2 os m c1 u') as [[[c|] eff]|] eqn:Eq; cbn [mbind option_bind]; [by eauto..|].
    by destruct (queue_proxy_v2_total os m c1 u' Hb). }
  destruct (ep_kind (r_upstream (sc_route m))); try by eauto.
  all: destruct (ao_upstream_new os); cbn [negb]; [|by eauto]; apply Hc.
Qed.

Lemma adopt_route os ac c eff :
  worker_adopt_client_fd inet_pton inet_ntop os ac = Some (Some c, eff) ->
  socket_upstream (sc_route ac) = true -> c_route c = sc_route ac.
Proof.
  intros Ha Hk. revert Ha. unfold worker_adopt_client_fd, socket_upstream in *.
  destruct (ao_calloc os); cbn [negb]; [|done]. destruct (ao_client_new os); cbn [negb]; [|done].
  assert (forall c1 u c2 e, queue_proxy_v2 os ac c1 u = Some (Some c2, e) -> c_route c2 = c_route c1) as Hq.
  { intros c1 u c2 e. unfold queue_proxy_v2. case_if; [by intros [= <- _]|].
    destruct (ao_getsockname os) as [[local n]|]; [|done]. do 2 (case_if; [done|]).
    destruct (proxy_v2_header ac local n) as [[rc hdr]|]; [|done]. cbn [mbind option_bind].
    repeat case_if; try done. by intros [= <- _]. }
  destruct (ep_kind (r_upstream (sc_route ac))); try done.
  all: destruct (ao_upstream_new os); cbn [negb]; [|done]; simpl;
    destruct (connect_upstream _ _ _ _) as [u|]; [|done];
    match goal with |- context [queue_proxy_v2 ?a ?b ?c0 ?d] =>
      destruct (queue_proxy_v2 a b c0 d) as [[[c1|] e]|] eqn:Eq end; try done;
    apply Hq in Eq; cbn [mbind option_bind]; intros [= <- _]; simpl in Eq;
    destruct (c_upstream c1); exact Eq.
Qed.

(** ** Dispatch and keep-alive *)

(** [dispatch_client_fd]: a client goes to the queue of one worker. *)
Definition dispatch_client_fd {S} (calloc : option loc) (sent : option Z) (w : wstate S)
    (r : option route) (fd : Z) (addr : option sockaddr) (addr_len : Z) : option (Z * wstate S) :=
  worker_enqueue_stream_client calloc sent w r fd addr addr_len.


(** [setsockopt(fd, SOL_SOCKET, SO_KEEPALIVE, v)]: the error, or success. The
    result is the return code and the option that was asked for. *)
Definition set_socket_keepalive (setsockopt : Z -> Z -> option Z) (fd : Z) (r : route) : Z * (Z * Z) :=
  let v := if opt_keep_alive (r_opts r) then 1 else 0 in
  (match setsockopt fd v with Some e => - e | None => 0 end, (fd, v)).

(** The calls made while a client is adopted; their errors are only logged. *)
Definition keepalive_calls (setsockopt : Z -> Z -> option Z) (os : adopt_os) (ac : stream_client_msg)
    : list (Z * Z) :=
  let r := sc_route ac in
  if ao_calloc os && ao_client_new os then
    match ep_kind (r_upstream r) with
    | ENDPOINT_BUILTIN | ENDPOINT_FILE => []
    | k =>
        if ao_upstream_new os then
          (set_socket_keepalive setsockopt (sc_fd ac) r).2 ::
          (if opt_keep_alive (r_opts r) && bool_decide (k = ENDPOINT_INET)
           then map (fun fd => (set_socket_keepalive setsockopt fd r).2)
                  (List.filter (Z.leb 0) (connect_opened os (r_upstream r)))
           else [])
        else []
    end
  else [].

(** A connection to an IPv6 upstream never gets keep-alive probes, whatever the
    route says: the only call is for the client's socket. *)
Lemma keepalive_inet6 setsockopt os ac :
  ep_kind (r_upstream (sc_route ac)) = ENDPOINT_INET6 ->
  ao_calloc os = true -> ao_client_new os = true -> ao_upstream_new os = true ->
  keepalive_calls setsockopt os ac = [(sc_fd ac, if opt_keep_alive (r_opts (sc_route ac)) then 1 else 0)].
Proof.
  intros Hk Hc Hn Hu. unfold keepalive_calls. rewrite Hc, Hn, Hk, Hu. simpl. by rewrite andb_false_r.
Qed.

(** ** The hanging builtin *)

Definition conn_live_step s s' : Prop := exists eff, conn_step s (Some s', eff).

Lemma hang_reads c k fc tu fu tc :
  c_mode c = ModeHang -> v_rd (be_view (c_client c)) = true ->
  exists c', rtc conn_live_step (mk_pstate c fc tu fu tc) (mk_pstate c' (fc ++ replicate k x00) tu fu tc) /\
    v_in (be_view (c_client c')) = v_in (be_view (c_client c)) ++ replicate k x00.
Proof.
  revert c fc. induction k as [|k IH]; intros c fc Hm Hr.
  - exists c. rewrite !app_nil_r. split; [apply rtc_refl|done].
  - set (c1 := set_client c (be_recv (c_client c) [x00])).
    destruct (IH c1 (fc ++ [x00])) as (c' & Hst & Hv); [done|unfold c1; simpl; by autorewrite with bev|].
    rewrite <- app_assoc in Hst. exists c'. split.
    + eapply rtc_l; [|exact Hst]. exists [].
      pose proof (cs_read c [x00] fc tu fu tc) as Hc. rewrite Hm in Hc. simpl in Hc. by apply Hc.
    + rewrite Hv. unfold c1. simpl. autorewrite with bev. simpl. by rewrite <- app_assoc.
Qed.

(** C40: a client of the builtin upstream [hang] can make the proxy buffer without bound.
    The connection is kept with reading enabled, no read callback and no
    watermark: for every [n] there is an execution, of one-byte reads, after
    which the input buffer of the client holds [n] bytes that nothing will
    ever remove. *)
Theorem hang_unbounded : forall os ac (n : nat),
  ao_calloc os = true -> ao_client_new os = true ->
  ep_kind (r_upstream (sc_route ac)) = ENDPOINT_BUILTIN ->
  ep_builtin (r_upstream (sc_route ac)) = X_BUILTIN_HANG ->
  exists c, worker_adopt_client_fd inet_pton inet_ntop os ac = Some (Some c, []) /\
  exists s, rtc conn_live_step (mk_pstate c [] [] [] []) s /\
    len (v_in (be_view (c_client (ps_conn s)))) = Z.of_nat n.
Proof.
  intros os ac n Hc Hn Hk Hb. unfold worker_adopt_client_fd. rewrite Hc, Hn, Hk. cbn [negb].
  unfold start_stream_builtin. simpl. rewrite Hb. simpl. eexists. split; [reflexivity|].
  match goal with |- context [mk_pstate ?c0 [] [] [] []] => set (c := c0) end.
  destruct (hang_reads c n [] [] [] []) as (c' & Hst & Hv).
  - done.
  - unfold c. simpl. autorewrite with bev. simpl. done.
  - eexists. split; [exact Hst|]. simpl. rewrite Hv. unfold c. simpl. autorewrite with bev. simpl.
    unfold Zlength. by rewrite length_replicate.
Qed.
End fds.

Definition hang_msg : stream_client_msg :=
  mk_stream_client
    (mk_route (mk_endpoint ENDPOINT_INET (str "10.0.0.1") 80 PROTO_TCP [] X_BUILTIN_NONE)
       (mk_endpoint ENDPOINT_BUILTIN [] 0 PROTO_BUILTIN [] X_BUILTIN_HANG)
       (mk_opts false false false 60 5 0 BROADCAST_REPLY_OFF) 1)
    9 (example_sa 40000 [x0a; x00; x00; x63]) 16.

Lemma hang_unbounded_witness :
  exists c : conn bview,
    worker_adopt_client_fd example_pton (fun _ _ _ => None) example_ados hang_msg = Some (Some c, []) /\
    exists s, rtc (conn_live_step copyout_all) (mk_pstate c [] [] [] []) s /\
      len (v_in (be_view (c_client (ps_conn s)))) = 4096.
Proof.
  exact (hang_unbounded copyout_all example_pton (fun _ _ _ => None) example_ados hang_msg
    (Z.to_nat 4096) eq_refl eq_refl eq_refl eq_refl).
Defined.
