(* ===== verification/StreamRelay.v ===== *)
(** * The pipe refines a relay

    The abstract specification of a proxied connection: two unbounded queues of
    bytes, one per direction, and a flag for the client's write side. The
    specification does not know about chunks, watermarks, callbacks or the
    upstream's state; the theorem of this file shows that every execution of the
    callbacks of [Stream.v] is an execution of the relay with the same bytes on
    the two sockets. *)

From stdpp Require Import relations.
From S2P Require Import Prelude CString Endpoint Sniff SniffFacts ProxyV2 RawUdp Worker Datagram Stream StreamFacts StreamOpen StreamFds.

(** ** The specification *)

Record relay : Type := mk_relay {
  ry_up : list byte;             (* accepted from the client, not yet sent *)
  ry_down : list byte;           (* accepted from the upstream, not yet sent *)
  ry_shut : bool                 (* the client's write side was shut down *)
}.

Inductive revent : Type :=
| FromClient (d : list byte)
| ToUpstream (d : list byte)
| FromUpstream (d : list byte)
| ToClient (d : list byte)
| ShutClient.

(** The write side is shut down once, with an empty queue, and nothing travels
    to the client afterwards. *)
Inductive relay_step : relay -> revent -> relay -> Prop :=
| rs_from_client up down sh d :
    relay_step (mk_relay up down sh) (FromClient d) (mk_relay (up ++ d) down sh)
| rs_to_upstream up down sh d :
    relay_step (mk_relay (d ++ up) down sh) (ToUpstream d) (mk_relay up down sh)
| rs_from_upstream up down d :
    relay_step (mk_relay up down false) (FromUpstream d) (mk_relay up (down ++ d) false)
| rs_to_client up down d :
    relay_step (mk_relay up (d ++ down) false) (ToClient d) (mk_relay up down false)
| rs_shut up :
    relay_step (mk_relay up [] false) ShutClient (mk_relay up [] true).

Inductive relay_run : relay -> list revent -> relay -> Prop :=
| rr_nil r : relay_run r [] r
| rr_cons r1 ev r2 tr r3 : relay_step r1 ev r2 -> relay_run r2 tr r3 -> relay_run r1 (ev :: tr) r3.

(** The bytes of a trace on one side of a socket. *)
Definition bytes_of (f : revent -> option (list byte)) (tr : list revent) : list byte :=
  concat (omap f tr).

Definition on_from_client (e : revent) := match e with FromClient d => Some d | _ => None end.
Definition on_to_upstream (e : revent) := match e with ToUpstream d => Some d | _ => None end.
Definition on_from_upstream (e : revent) := match e with FromUpstream d => Some d | _ => None end.
Definition on_to_client (e : revent) := match e with ToClient d => Some d | _ => None end.

Lemma bytes_of_app f a b : bytes_of f (a ++ b) = bytes_of f a ++ bytes_of f b.
Proof. unfold bytes_of. by rewrite omap_app, concat_app. Qed.

Lemma relay_run_app r1 t1 r2 t2 r3 : relay_run r1 t1 r2 -> relay_run r2 t2 r3 -> relay_run r1 (t1 ++ t2) r3.
Proof. intros H1 H2. induction H1; [done|]. econstructor; [done|]. by apply IHrelay_run. Qed.

(** ** The abstraction *)

Section relay.
Context {B : Type} `{BuffereventLaws B}.
Context (evbuffer_copyout : list byte -> Z -> option (list byte)).
Hypothesis copyout_prefix : forall input n bs,
  evbuffer_copyout input n = Some bs -> bs = take (Z.to_nat n) input.
Implicit Types (c : conn B) (s : pstate B).

(** The queues are libevent's output buffers. *)
Definition abs_relay s : relay :=
  mk_relay (default [] ((fun u => v_out (be_view u)) <$> c_upstream (ps_conn s)))
    (v_out (be_view (c_client (ps_conn s)))) (c_close_after_client_eof (ps_conn s)).

(** What one step adds to the streams. *)
Record deltas s s' (fc tu fu tc : list byte) : Prop := {
  dl_fc : ps_from_client s' = ps_from_client s ++ fc;
  dl_tu : ps_to_upstream s' = ps_to_upstream s ++ tu;
  dl_fu : ps_from_upstream s' = ps_from_upstream s ++ fu;
  dl_tc : ps_to_client s' = ps_to_client s ++ tc
}.

Definition some_bytes (f : list byte -> revent) (d : list byte) : list revent :=
  match d with [] => [] | _ => [f d] end.

Definition step_trace (fc tu fu tc : list byte) (shut : bool) : list revent :=
  some_bytes FromClient fc ++ some_bytes ToUpstream tu ++ some_bytes FromUpstream fu ++
  some_bytes ToClient tc ++ (if shut then [ShutClient] else []).

(** The system call that goes with a change of the flag. *)
Definition shut_calls (fd : Z) (shut : bool) : list seffect :=
  if shut && (0 <=? fd) then [SShutdown fd] else [].

Definition shuts s s' : bool := negb (ry_shut (abs_relay s)) && ry_shut (abs_relay s').

(** The flag is never taken back, and while it is set nothing travels to the
    client; the step that sets it shuts the client's socket down, and no other
    step does. *)
Definition step_abs s s' (eff : list seffect) : Prop :=
  exists fc tu fu tc, deltas s s' fc tu fu tc /\
    (ry_shut (abs_relay s) = true -> fu = [] /\ tc = [] /\ ry_shut (abs_relay s') = true) /\
    eff = shut_calls (v_fd (be_view (c_client (ps_conn s)))) (shuts s s').

(** A step that leaves the flag alone. *)
Lemma step_abs_same s s' fc tu fu tc :
  deltas s s' fc tu fu tc -> c_close_after_client_eof (ps_conn s') = c_close_after_client_eof (ps_conn s) ->
  (c_close_after_client_eof (ps_conn s) = true -> fu = [] /\ tc = []) -> step_abs s s' [].
Proof.
  intros Hd Hf Hs. exists fc, tu, fu, tc. split; [done|]. unfold shuts, shut_calls. simpl. rewrite Hf. split.
  - intros E. by destruct (Hs E).
  - by destruct (c_close_after_client_eof (ps_conn s)).
Qed.

Ltac no_bytes := split; simpl; by rewrite ?app_nil_r.

Lemma client_write_abs hdr c n c' e fc tu fu tc :
  pinv hdr (mk_pstate c fc tu fu tc) ->
  (0 < n <= length (v_out (be_view (c_client c))))%nat ->
  (let c1 := set_client c (be_flush (c_client c) n) in
   (if be_output_len (c_client c1) =? 0 then pipe_client_write_cb c1 else (c1, [])) = (c', e)) ->
  step_abs (mk_pstate c fc tu fu tc) (mk_pstate c' fc tu fu (tc ++ take n (v_out (be_view (c_client c))))) e.
Proof.
  intros [_ _ _ _ (u0 & _ & _ & _ & Hph)] Hn Hcb. simpl in Hph.
  assert (c_close_after_client_eof c = false) as Hs.
  { destruct (c_close_after_client_eof c) eqn:Es; [|done]. unfold phase_ok in Hph. rewrite Es in Hph.
    destruct Hph as (_ & _ & _ & E & _). rewrite E in Hn. simpl in Hn. lia. }
  assert (deltas (mk_pstate c fc tu fu tc)
    (mk_pstate c' fc tu fu (tc ++ take n (v_out (be_view (c_client c))))) [] [] []
    (take n (v_out (be_view (c_client c))))) as Hd by no_bytes.
  cbv zeta in Hcb. case_if_in Hcb; [|injection Hcb as <- <-; eapply step_abs_same; [exact Hd|done|simpl; congruence]].
  unfold pipe_client_write_cb in Hcb. case_if_in Hcb.
  - destruct (finish_client_write _) as [c2 e2] eqn:Ef. injection Hcb as <- <-.
    destruct (finish_spec _ _ _ Ef) as (_ & _ & _ & _ & ->). simpl. autorewrite with bev. simpl.
    eexists [], [], [], _. split; [exact Hd|]. unfold shuts, shut_calls. simpl. by rewrite Hs.
  - destruct (c_upstream _); [case_if_in Hcb|]; injection Hcb as <- <-;
      (eapply step_abs_same; [exact Hd|done|simpl; congruence]).
Qed.

Lemma drain_abs c u c' e fc tu fu tc :
  c_upstream c = Some u -> c_close_after_client_eof c = false -> drain_client_then_close c = (c', e) ->
  step_abs (mk_pstate c fc tu fu tc) (mk_pstate c' fc tu fu tc) e.
Proof.
  intros Hu Hs Hd. destruct (drain_close_spec c u c' e Hu Hd) as (_ & _ & _ & Hrest).
  exists [], [], [], []. split; [no_bytes|]. unfold shuts, shut_calls. simpl. rewrite Hs. simpl.
  case_if_in Hrest; destruct Hrest as (-> & _ & _ & ->); [by case_if|]. by rewrite Hs.
Qed.

Lemma step_abstracts hdr s s' eff :
  pinv hdr s -> pipe_step evbuffer_copyout s (Some s', eff) -> step_abs s s' eff.
Proof.
  intros Hi Hstep. pose proof Hi as [Hw Hin _ _ (u0 & Hu0 & Huin & _ & Hph)].
  remember (Some s', eff) as r eqn:Er.
  destruct Hstep as [c u d c' fc tu fu tc Hu Hrd Hd Hcb|c u d fc tu fu tc Hu Hrd Hd
    |c n c' e fc tu fu tc Hwr Hn Hcb|c u n c' fc tu fu tc Hu Hc Hwr Hn Hcb
    |c u evt c' e fc tu fu tc Hu Hc Hcb|c u evt err ev o e fc tu fu tc Hu Hev Hact Hcb
    |c ev o e fc tu fu tc Hcb|c o e fc tu fu tc Htm Hcb]; injection Er as Es He; subst eff; simpl in *.
  - subst s'. apply (step_abs_same _ _ d [] [] []); [no_bytes| |done].
    destruct (client_read_spec evbuffer_copyout copyout_prefix c u d c' Hu Hin Hw Hcb)
      as (_ & _ & _ & _ & (_ & F2 & _) & _). exact F2.
  - subst s'. rewrite Hu in Hu0. injection Hu0 as <-. apply (step_abs_same _ _ [] [] d []); [no_bytes| |].
    + destruct (upstream_read_spec c u d Hu Huin) as (_ & _ & _ & _ & (_ & F2 & _) & _). exact F2.
    + simpl. intros Hs. unfold phase_ok in Hph. rewrite Hs in Hph. destruct Hph as (_ & E & _). congruence.
  - subst s'. by eapply client_write_abs.
  - subst s'. apply (step_abs_same _ _ [] (take n (v_out (be_view u))) [] []); [no_bytes| |done].
    simpl. rewrite <- Hcb. unfold pipe_upstream_write_cb. simpl. by repeat case_if.
  - subst s'. destruct (pinv_connected _ _ _ _ _ _ _ _ _ _ Hi Hu Hc Hcb) as [_ ->].
    apply (step_abs_same _ _ [] [] [] []); [no_bytes| |done]. simpl.
    unfold stream_upstream_event_cb in Hcb. simpl in Hcb.
    destruct (start_conn_idle_timer evt _) as [rc c2] eqn:Es. injection Hcb as <-. simpl.
    unfold start_conn_idle_timer, schedule_conn_idle_timer in Es.
    repeat case_if_in Es; by injection Es as _ <-.
  - destruct o as [c'|]; [|done]. injection Es as <-.
    rewrite Hu in Hu0. injection Hu0 as <-.
    destruct (upstream_event_drains _ _ _ _ _ _ _ _ _ Hph Hev Hact Hcb) as [Hs Hdr].
    by eapply drain_abs.
  - destruct o as [c'|]; [|done]. injection Es as <-.
    unfold stream_client_event_cb in Hcb. repeat case_if_in Hcb; try done. injection Hcb as <- <-.
    by apply (step_abs_same _ _ [] [] [] []); [no_bytes|..].
  - destruct o as [c'|]; [|done]. injection Es as <-.
    destruct (pinv_idle _ _ _ _ _ _ _ _ Hi Hcb) as [_ ->].
    apply (step_abs_same _ _ [] [] [] []); [no_bytes| |done]. simpl.
    unfold conn_idle_timeout_cb, schedule_conn_idle_timer in Hcb.
    repeat case_if_in Hcb; try done; by injection Hcb as <-.
Qed.

Lemma pinv_abs hdr s :
  pinv hdr s ->
  ps_to_upstream s ++ ry_up (abs_relay s) = hdr ++ ps_from_client s /\
  ps_to_client s ++ ry_down (abs_relay s) = ps_from_upstream s /\
  (ry_shut (abs_relay s) = true -> ry_down (abs_relay s) = []).
Proof.
  intros [_ _ _ Htc (u & Hu & _ & Htu & Hph)]. unfold abs_relay. simpl. rewrite Hu. simpl.
  split_and!; [done|done|]. intros Hs. unfold phase_ok in Hph. rewrite Hs in Hph. apply Hph.
Qed.

(** Four consecutive events move a relay as the deltas say. *)
Lemma relay_moves up up' down down' (sh sh' : bool) fc tu fu tc :
  up ++ fc = tu ++ up' -> down ++ fu = tc ++ down' ->
  (sh = true -> fu = [] /\ tc = [] /\ sh' = true) -> (sh' = true -> down' = []) ->
  relay_run (mk_relay up down sh) (step_trace fc tu fu tc (negb sh && sh')) (mk_relay up' down' sh').
Proof.
  intros Hup Hdown Hsh Hsh'. unfold step_trace.
  eapply relay_run_app with (r2 := mk_relay (up ++ fc) down sh).
  { destruct fc; [rewrite app_nil_r; constructor|]. econstructor; constructor. }
  rewrite Hup. eapply relay_run_app with (r2 := mk_relay up' down sh).
  { destruct tu; [constructor|]. econstructor; [|constructor]. apply (rs_to_upstream up' down sh (b :: tu)). }
  destruct sh.
  - destruct (Hsh eq_refl) as (-> & -> & ->). rewrite app_nil_r in Hdown. simpl in Hdown. subst down'. constructor.
  - eapply relay_run_app with (r2 := mk_relay up' (down ++ fu) false).
    { destruct fu; [rewrite app_nil_r; constructor|]. econstructor; constructor. }
    rewrite Hdown. eapply relay_run_app with (r2 := mk_relay up' down' false).
    { destruct tc; [constructor|]. econstructor; [|constructor]. apply (rs_to_client up' down' (b :: tc)). }
    destruct sh'; simpl; [|constructor]. rewrite (Hsh' eq_refl). econstructor; constructor.
Qed.

Lemma step_simulated hdr s s' eff :
  pinv hdr s -> pipe_step evbuffer_copyout s (Some s', eff) ->
  exists fc tu fu tc, deltas s s' fc tu fu tc /\
    relay_run (abs_relay s) (step_trace fc tu fu tc (shuts s s')) (abs_relay s') /\
    eff = shut_calls (v_fd (be_view (c_client (ps_conn s)))) (shuts s s').
Proof.
  intros Hi Hst. destruct (step_abstracts _ _ _ _ Hi Hst) as (fc & tu & fu & tc & Hd & Hsh & He).
  exists fc, tu, fu, tc. split; [done|]. split; [|done].
  pose proof (proj1 (pinv_step evbuffer_copyout copyout_prefix _ _ _ _ Hi Hst _ eq_refl)) as Hi'.
  destruct (pinv_abs _ _ Hi) as (Hu & Hc & _), (pinv_abs _ _ Hi') as (Hu' & Hc' & Hz').
  destruct Hd as [D1 D2 D3 D4]. rewrite D1, D2, <- app_assoc in Hu'. rewrite D3, D4, <- app_assoc in Hc'.
  rewrite (app_assoc hdr), <- Hu, <- app_assoc in Hu'. apply app_inv_head in Hu'.
  rewrite <- Hc, <- app_assoc in Hc'. apply app_inv_head in Hc'.
  apply relay_moves; done.
Qed.

Lemma step_trace_bytes fc tu fu tc sh :
  bytes_of on_from_client (step_trace fc tu fu tc sh) = fc /\
  bytes_of on_to_upstream (step_trace fc tu fu tc sh) = tu /\
  bytes_of on_from_upstream (step_trace fc tu fu tc sh) = fu /\
  bytes_of on_to_client (step_trace fc tu fu tc sh) = tc.
Proof.
  unfold step_trace. rewrite !bytes_of_app.
  destruct fc, tu, fu, tc, sh; unfold bytes_of; simpl; rewrite ?app_nil_r; done.
Qed.

Context (inet_pton : Z -> list byte -> option (list byte)).
Context (inet_ntop : Z -> list byte -> Z -> option (list byte)).

(** The trace carries the bytes of the connection. *)
Definition trace_of s (tr : list revent) : Prop :=
  bytes_of on_from_client tr = ps_from_client s /\ bytes_of on_to_upstream tr = ps_to_upstream s /\
  bytes_of on_from_upstream tr = ps_from_upstream s /\ bytes_of on_to_client tr = ps_to_client s.

(** An execution of the callbacks, with the system calls they made. *)
Inductive live_run : pstate B -> list seffect -> pstate B -> Prop :=
| lr_nil s : live_run s [] s
| lr_cons s eff s1 effs s2 :
    pipe_step evbuffer_copyout s (Some s1, eff) -> live_run s1 effs s2 -> live_run s (eff ++ effs) s2.

(** The system calls a trace of the relay stands for ([shutdown] is not called
    without a descriptor). *)
Definition trace_calls (fd : Z) (tr : list revent) : list seffect :=
  omap (fun e => match e with ShutClient => if 0 <=? fd then Some (SShutdown fd) else None | _ => None end) tr.

Lemma step_trace_calls fd fc tu fu tc sh :
  trace_calls fd (step_trace fc tu fu tc sh) = shut_calls fd sh.
Proof.
  unfold trace_calls, step_trace, shut_calls.
  destruct fc, tu, fu, tc, sh; simpl; by destruct (0 <=? fd).
Qed.

Lemma run_simulated fd hdr r0 s effs s' tr :
  pinv hdr s -> c_mode (ps_conn s) = ModePipe -> v_fd (be_view (c_client (ps_conn s))) = fd ->
  relay_run r0 tr (abs_relay s) -> trace_of s tr -> live_run s effs s' ->
  exists tr', relay_run r0 (tr ++ tr') (abs_relay s') /\ trace_of s' (tr ++ tr') /\ trace_calls fd tr' = effs.
Proof.
  intros Hi Hm Hv Hr Ht Hst. revert tr Hi Hm Hv Hr Ht.
  induction Hst as [s|s eff s1 effs s2 Hst _ IH]; intros tr Hi Hm Hv Hr Ht.
  { exists []. by rewrite app_nil_r. }
  destruct (step_simulated _ _ _ _ Hi Hst) as (fc & tu & fu & tc & [D1 D2 D3 D4] & Hrun & ->).
  set (tr1 := step_trace fc tu fu tc (shuts s s1)) in *.
  destruct (pipe_step_fds evbuffer_copyout _ _ _ ltac:(by rewrite Hm) Hst) as ([Hf _] & Hm1 & _). simpl in Hf, Hm1.
  destruct (IH (tr ++ tr1)) as (tr2 & Hr2 & Ht2 & Hc2).
  - exact (proj1 (pinv_step evbuffer_copyout copyout_prefix _ _ _ _ Hi Hst _ eq_refl)).
  - congruence.
  - congruence.
  - by eapply relay_run_app.
  - destruct Ht as (T1 & T2 & T3 & T4).
    pose proof (step_trace_bytes fc tu fu tc (shuts s s1)) as (S1 & S2 & S3 & S4).
    unfold trace_of. unfold tr1. rewrite !bytes_of_app, S1, S2, S3, S4, T1, T2, T3, T4. by split_and!.
  - exists (tr1 ++ tr2). rewrite app_assoc. split; [done|]. split; [done|].
    unfold trace_calls in *. rewrite omap_app, Hc2. f_equal.
    unfold tr1. fold (trace_calls fd (step_trace fc tu fu tc (shuts s s1))).
    by rewrite step_trace_calls, Hv.
Qed.

Lemma queue_flags os ac c u c' eff :
  queue_proxy_v2 os ac c u = Some (Some c', eff) ->
  c_close_after_client_eof c' = c_close_after_client_eof c /\ c_mode c' = c_mode c /\
  c_upstream_connected c' = c_upstream_connected c.
Proof.
  unfold queue_proxy_v2. case_if; [by intros [= <- _]|].
  destruct (ao_getsockname os) as [[local n]|]; [|done]. do 2 (case_if; [done|]).
  destruct (proxy_v2_header ac local n) as [[rc hdr]|]; [|done]. cbn [mbind option_bind].
  repeat case_if; try done. by intros [= <- _].
Qed.

Lemma adopt_flags os ac c eff :
  socket_upstream (sc_route ac) = true ->
  worker_adopt_client_fd inet_pton inet_ntop os ac = Some (Some c, eff) ->
  c_close_after_client_eof c = false /\ c_mode c = ModePipe /\ c_upstream_connected c = false.
Proof.
  intros Hk. unfold worker_adopt_client_fd, socket_upstream in *.
  destruct (ao_calloc os); cbn [negb]; [|done]. destruct (ao_client_new os); cbn [negb]; [|done].
  destruct (ep_kind (r_upstream (sc_route ac))); try done.
  all: destruct (ao_upstream_new os); cbn [negb]; [|done]; simpl;
    destruct (connect_upstream _ _ _ _) as [u|]; [|done];
    match goal with |- context [queue_proxy_v2 ?a ?b ?c0 ?d] =>
      destruct (queue_proxy_v2 a b c0 d) as [[[c1|] e]|] eqn:Eq end; try done;
    apply queue_flags in Eq; cbn [mbind option_bind]; intros [= <- _]; simpl in Eq;
    destruct (c_upstream c1); exact Eq.
Qed.

(** C2: a proxied connection refines the relay. Whatever the event loop does
    with an adopted connection (any chunks, backpressure, the connection to the
    upstream, timeouts, the end of either side), there is an execution of the
    abstract relay, started with the PROXY v2 header in its queue to the
    upstream, with exactly the bytes that went over the two sockets and exactly
    the calls of [shutdown] that were made on the client's socket (one for each
    [ShutClient]), that ends with libevent's output buffers as its queues. In
    particular the client's write side is shut down at most once, only when
    nothing is left to send, and nothing is sent to the client afterwards. *)
Theorem pipe_refines_relay : forall os ac c eff effs s,
  addrs_backed os ac -> socket_upstream (sc_route ac) = true ->
  worker_adopt_client_fd inet_pton inet_ntop os ac = Some (Some c, eff) ->
  live_run (mk_pstate c [] [] [] []) effs s ->
  exists hdr tr, header_ok os ac hdr /\ relay_run (mk_relay hdr [] false) tr (abs_relay s) /\
    trace_of s tr /\ eff ++ effs = trace_calls (sc_fd ac) tr.
Proof.
  intros os ac c eff effs s Hb Hk Ha Hr.
  destruct (adopt_socket _ _ _ _ _ _ Hb Hk Ha) as (-> & Hv & hdr & Hh & Hi).
  destruct (adopt_flags _ _ _ _ Hk Ha) as (Hf & Hm & _).
  assert (abs_relay (mk_pstate c [] [] [] []) = mk_relay hdr [] false) as H0'.
  { destruct (pinv_abs _ _ Hi) as (Hu & Hc & _). simpl in Hu, Hc. rewrite app_nil_r in Hu.
    unfold abs_relay. simpl. by rewrite Hu, Hc, Hf. }
  destruct (run_simulated (sc_fd ac) hdr (mk_relay hdr [] false) _ effs s [] Hi Hm Hv)
    as (tr & Hrun & Ht & Hc); [|done|done|].
  - rewrite H0'. constructor.
  - exists hdr, tr. by split_and!.
Qed.
End relay.

(** ** Witness: a request is queued for the upstream, which then ends *)

Lemma ended_run : live_run copyout_all (mk_pstate adopted_conn [] [] [] []) [SShutdown 9] ended.
Proof.
  apply (lr_cons _ _ [] (mk_pstate connected_conn [] [] [] []) [SShutdown 9]).
  { eapply (st_connected _ adopted_conn _ true connected_conn [] [] [] [] []); vm_compute; reflexivity. }
  apply (lr_cons _ _ [] requested [SShutdown 9]).
  { eapply (st_client_read _ connected_conn _ (str "GET /") requested_conn [] [] [] []);
      [vm_compute; reflexivity..|vm_compute; split; [reflexivity|discriminate]|vm_compute; reflexivity]. }
  apply (lr_cons _ _ [SShutdown 9] ended []); [|constructor].
  eapply (st_upstream_event _ requested_conn _ true 0 (mk_events false false false true)
    (Some ended_conn) [SShutdown 9] (str "GET /") [] [] []);
    [vm_compute; reflexivity|reflexivity|left; vm_compute; reflexivity|vm_compute; reflexivity].
Qed.

Lemma pipe_refines_relay_witness :
  exists hdr tr, relay_run (mk_relay hdr [] false) tr (abs_relay ended) /\
    bytes_of on_from_client tr = str "GET /" /\ [SShutdown 9] = trace_calls 9 tr.
Proof.
  destruct (pipe_refines_relay copyout_all copyout_all_prefix example_pton (fun _ _ _ => None)
    example_ados (example_msg ENDPOINT_INET PROTO_TCP) adopted_conn [] [SShutdown 9] ended)
    as (hdr & tr & _ & Hrun & (Ht & _) & Hc).
  - apply example_backed.
  - reflexivity.
  - vm_compute. reflexivity.
  - exact ended_run.
  - exists hdr, tr. split; [exact Hrun|]. split; [exact Ht|exact Hc].
Defined.
