(* ===== verification/System.v ===== *)
(** * The running proxy: listeners, workers, connections and datagram routes

    The components composed as [tinyproxy.c] composes them: the listeners hand
    accepted clients and packets to the workers of the pool; a worker that wakes
    up adopts the clients and forwards the packets of its queue; the event loops
    run the callbacks of the live connections. The class [WorkerHandlers] is
    instantiated with the operations of [Stream.v] and [Datagram.v], on the state
    the workers share. A step is one whole callback: the callbacks run one after
    the other, in any order, as they do with a single worker. What happens inside
    a callback of a worker while another worker runs is the subject of
    [WorkerConc.v] (the queues) and [DatagramConc.v] (the client tables, where
    two workers can reach a use after free that this file, by its atomic steps,
    excludes). *)

From stdpp Require Import gmap relations.
From S2P Require Import Prelude CString Endpoint Sniff SniffFacts ProxyV2 RawUdp Worker WorkerFacts WorkerPool Datagram DatagramFacts DatagramFds Stream StreamFacts StreamOpen StreamFds.

(** A live connection: its worker, the message it came from, what the system
    answered while it was adopted, and the bytes it has moved. *)
Record entry (B : Type) : Type := mk_entry {
  e_worker : Z;
  e_msg : stream_client_msg;
  e_os : adopt_os;
  e_ps : pstate B
}.
Arguments mk_entry {B} _ _ _ _.
Arguments e_worker {B} _.
Arguments e_msg {B} _.
Arguments e_os {B} _.
Arguments e_ps {B} _.

(** What the handlers share: the connections, the datagram routes (by index),
    the number of calls so far, and the descriptors opened and closed. *)
Record hstate (B : Type) : Type := mk_h {
  h_conns : list (entry B);
  h_ctxs : list datagram_route_ctx;
  h_tick : nat;
  h_opened : list Z;
  h_closed : list Z;
  h_fault : bool                   (* an access outside an object *)
}.
Arguments mk_h {B} _ _ _ _ _ _.
Arguments h_conns {B} _.
Arguments h_ctxs {B} _.
Arguments h_tick {B} _.
Arguments h_opened {B} _.
Arguments h_closed {B} _.
Arguments h_fault {B} _.

Record system (B : Type) : Type := mk_sys {
  sy_pool : worker_pool (hstate B);
  sy_h : hstate B;
  sy_accepted : list Z;            (* descriptors the listeners have accepted *)
  sy_closed : list Z               (* descriptors [accept_cb] closed *)
}.
Arguments mk_sys {B} _ _ _ _.
Arguments sy_pool {B} _.
Arguments sy_h {B} _.
Arguments sy_accepted {B} _.
Arguments sy_closed {B} _.

(** The answers of the operating system, by call. *)
Record sys_env : Type := mk_env {
  en_adopt : nat -> adopt_os;
  en_create : nat -> create_os;
  en_time : nat -> Z;
  en_send : Z -> list byte -> result Z;
  en_sendto : Z -> list byte -> sockaddr -> result Z;
  en_host : host;
  en_calloc : nat -> Z -> bool
}.

(** Errors are positive, descriptors are not negative, and an address has the
    bytes its length says. *)
Record env_ok (en : sys_env) : Prop := {
  eo_connect : forall k fd, ao_connect (en_adopt en k) = Ok fd -> 0 <= fd;
  eo_local : forall k local n, ao_getsockname (en_adopt en k) = Ok (local, n) -> sa_backed local n;
  eo_create : forall k, os_ok (en_create en k) dctx_zero
}.

Section system.
Context {B : Type} `{BuffereventLaws B}.
Context (evbuffer_copyout : list byte -> Z -> option (list byte)).
Context (inet_pton : Z -> list byte -> option (list byte)).
Context (inet_ntop : Z -> list byte -> Z -> option (list byte)).
Context (en : sys_env).
Implicit Types (h : hstate B) (s : system B) (e : entry B).

(** ** The handlers *)

Definition h_failed h : hstate B :=
  mk_h (h_conns h) (h_ctxs h) (h_tick h) (h_opened h) (h_closed h) true.

Definition adopt_handler (id : Z) (m : stream_client_msg) h : hstate B :=
  let os := en_adopt en (h_tick h) in
  match Stream.worker_adopt_client_fd inet_pton inet_ntop os m with
  | None => h_failed h
  | Some (o, eff) =>
      mk_h (h_conns h ++ match o : option (conn B) with
                         | Some c => [mk_entry id m os (mk_pstate c [] [] [] [])]
                         | None => []
                         end)
        (h_ctxs h) (S (h_tick h)) (h_opened h ++ adopt_opened (B := B) inet_pton os m)
        (h_closed h ++ fd_closes eff) (h_fault h)
  end.

Definition with_ctx h (i : nat) (ctx : datagram_route_ctx) (opened closed : list Z) : hstate B :=
  mk_h (h_conns h) (<[i := ctx]> (h_ctxs h)) (S (h_tick h)) (h_opened h ++ opened)
    (h_closed h ++ closed) (h_fault h).

Definition cleanup_handler (i : nat) h : hstate B :=
  match h_ctxs h !! i with
  | None => h_failed h
  | Some ctx =>
      let '(ctx, acts) := Datagram.cleanup_idle_datagram_clients (en_time en (h_tick h)) ctx in
      with_ctx h i ctx [] (closes acts)
  end.

Definition packet_handler (id : Z) (m : datagram_packet_msg) (d : list byte) h : hstate B :=
  match h_ctxs h !! dp_ctx m with
  | None => h_failed h
  | Some ctx =>
      let os := en_create en (h_tick h) in
      match Datagram.datagram_route_handle_packet inet_pton (en_send en) (en_sendto en) inet_ntop
              os (en_time en (h_tick h)) ctx (dp_peer_addr m) (dp_peer_addr_len m) d with
      | None => h_failed h
      | Some (_, ctx', acts) =>
          with_ctx h (dp_ctx m) ctx' (packet_opened inet_pton os ctx (dp_peer_addr m) (dp_peer_addr_len m))
            (closes acts)
      end
  end.

(** [upstream_read_cb] of a client: [recv] is what its socket delivers. *)
Definition reply_handler (ctx : datagram_route_ctx) (c : datagram_client)
    (recv : list (result (list byte))) h : hstate B :=
  match upstream_read_cb inet_pton (en_sendto en) (en_host en) (en_calloc en (h_tick h)) ctx c recv with
  | None => h_failed h
  | Some acts =>
      mk_h (h_conns h) (h_ctxs h) (S (h_tick h)) (h_opened h) (h_closed h ++ closes acts) (h_fault h)
  end.

#[local] Instance sys_handlers : WorkerHandlers (hstate B) := {
  worker_adopt_client_fd := adopt_handler;
  cleanup_idle_datagram_clients := cleanup_handler;
  datagram_route_handle_packet := packet_handler
}.

(** ** The steps *)

(** Every worker of the pool: an unused location for a new message. *)
Definition unused (s : system B) (get : wstate (hstate B) -> loc -> Prop) (l : option loc) : Prop :=
  forall l' ws i w, l = Some l' -> p_workers (sy_pool s) = Some ws -> ws !! i = Some w -> get w l'.

Definition not_stopping (s : system B) : Prop :=
  forall ws i w, p_workers (sy_pool s) = Some ws -> ws !! i = Some w -> w_stopping (ws_w w) = false.

(** The notification sockets a worker still owns. *)
Definition worker_fds (w : worker) : list Z :=
  List.filter socket_is_valid [w_notify_recv_fd w; w_notify_send_fd w].
Definition workers_fds (ws : list (wstate (hstate B))) : list Z :=
  concat ((fun w => worker_fds (ws_w w)) <$> ws).

Definition set_conns h (conns : list (entry B)) (closed : list Z) : hstate B :=
  mk_h conns (h_ctxs h) (h_tick h) (h_opened h) (h_closed h ++ closed) (h_fault h).

(** Worker [i] wakes up. *)
Inductive notified (i : nat) : system B -> system B -> Prop :=
| nt_worker s ws w brk w' :
    p_workers (sy_pool s) = Some ws -> ws !! i = Some w -> w_base (ws_w w) = true ->
    worker_notify_cb (with_h w (sy_h s)) = Some (brk, w') ->
    notified i s (mk_sys (mk_pool (Some (<[i := w']> ws)) (p_count (sy_pool s)) (p_next (sy_pool s)))
                  (ws_h w') (sy_accepted s) (sy_closed s)).

(** The workers of a list wake up, one after the other. *)
Inductive wake_seq : list nat -> system B -> system B -> Prop :=
| wk_nil s : wake_seq [] s s
| wk_cons i l s1 s2 s3 : notified i s1 s2 -> wake_seq l s2 s3 -> wake_seq (i :: l) s1 s3.

(** The listeners run in the main thread, which stops them before it stops the
    workers: nothing is accepted or received by a pool that is stopping. A worker
    wakes up as long as it has its event base; it is freed when its thread has
    been joined. The read callback runs for the clients in the tables: freeing
    one removes its event. *)
Inductive sys_step : system B -> system B -> Prop :=
| sy_accept s calloc sent r fd addr n p' closed :
    0 <= fd -> not_stopping s -> unused s (fun w l => ws_msgs w !! l = None) calloc ->
    accept_cb calloc sent r (sy_pool s) fd addr n = Some (p', closed) ->
    sys_step s (mk_sys p' (sy_h s) (sy_accepted s ++ [fd]) (sy_closed s ++ closed))
| sy_packet s calloc malloc sent recvfrom id ctx p' :
    h_ctxs (sy_h s) !! id = Some ctx -> not_stopping s ->
    unused s (fun w l => ws_msgs w !! l = None) calloc ->
    unused s (fun w l => ws_bufs w !! l = None) malloc ->
    (forall data addr n, recvfrom = Ok (data, addr, n) -> 0 <= n) ->
    listen_read_cb recvfrom calloc malloc sent (sy_pool s) id ctx = Some p' ->
    sys_step s (mk_sys p' (sy_h s) (sy_accepted s) (sy_closed s))
| sy_notify s i s' : notified i s s' -> sys_step s s'
| sy_reply s i ctx c recv :
    h_ctxs (sy_h s) !! i = Some ctx -> c ∈ dc_clients ctx ->
    sys_step s (mk_sys (sy_pool s) (reply_handler ctx c recv (sy_h s)) (sy_accepted s) (sy_closed s))
| sy_conn s i e o eff :
    h_conns (sy_h s) !! i = Some e -> conn_step evbuffer_copyout (e_ps e) (o, eff) ->
    sys_step s (mk_sys (sy_pool s)
      (set_conns (sy_h s)
         match o with
         | Some ps => <[i := mk_entry (e_worker e) (e_msg e) (e_os e) ps]> (h_conns (sy_h s))
         | None => delete i (h_conns (sy_h s))
         end (fd_closes eff))
      (sy_accepted s) (sy_closed s))
| sy_stop s sent :
    sys_step s (mk_sys (worker_pool_stop sent (sy_pool s)) (sy_h s) (sy_accepted s) (sy_closed s))
| sy_free s ws i w sent w' :
    p_workers (sy_pool s) = Some ws -> ws !! i = Some w -> w_stopping (ws_w w) = true ->
    worker_free sent Some (with_h w (sy_h s)) = Some w' ->
    sys_step s (mk_sys (mk_pool (Some (<[i := w']> ws)) (p_count (sy_pool s)) (p_next (sy_pool s)))
                  (ws_h w') (sy_accepted s) (sy_closed s)).

(** Idle workers, no connection, datagram routes without clients. *)
Definition sys_init (ws : list (wstate (hstate B))) (ctxs : list datagram_route_ctx) : system B :=
  mk_sys (mk_pool (Some ws) (len ws) 0) (mk_h [] ctxs 0 (workers_fds ws) [] false) [] [].

(** ** The invariant *)

Definition entry_fds e : list Z := conn_fds (ps_conn (e_ps e)).

Definition h_live h : list Z :=
  concat (entry_fds <$> h_conns h) ++ concat (ctx_fds <$> h_ctxs h).

(** A live connection: its client is the accepted descriptor, and a proxied
    connection satisfies the invariant of the pipe. *)
Definition entry_ok e : Prop :=
  is_pipe (c_mode (ps_conn (e_ps e))) = socket_upstream (sc_route (e_msg e)) /\
  v_fd (be_view (c_client (ps_conn (e_ps e)))) = sc_fd (e_msg e) /\
  (socket_upstream (sc_route (e_msg e)) = true ->
   exists hdr, header_ok (e_os e) (e_msg e) hdr /\ pinv hdr (e_ps e)).

Record hinv h : Prop := {
  hv_fault : h_fault h = false;
  hv_conns : Forall entry_ok (h_conns h);
  hv_ctxs : Forall ctx_backed (h_ctxs h)
}.

Definition item_good (nctx : nat) (i : qitem) : Prop :=
  match qi_payload i with
  | WORKER_MSG_STREAM_CLIENT m =>
      0 <= sc_fd m /\ sa_backed (sc_peer_addr m) (sc_peer_addr_len m)
  | WORKER_MSG_DATAGRAM_PACKET m =>
      (dp_ctx m < nctx)%nat /\ sa_backed (dp_peer_addr m) (dp_peer_addr_len m)
  end.

Definition queue_fds (q : list qitem) : list Z := concat (item_fd <$> q).
Definition queued (qs : list (list qitem)) : list Z := concat (queue_fds <$> qs).
Definition workers_closed (ws : list (wstate (hstate B))) : list Z := concat (ws_closed <$> ws).

Record sys_inv s ws qs : Prop := {
  sv_pool : pool_wf (sy_pool s);
  sv_ws : p_workers (sy_pool s) = Some ws;
  sv_queues : Forall2 queue_inv ws qs;
  sv_items : Forall (Forall (item_good (length (h_ctxs (sy_h s))))) qs;
  sv_h : hinv (sy_h s);
  sv_account : forall z,
    (occ z (sy_accepted s) + occ z (h_opened (sy_h s)) =
     occ z (queued qs) + occ z (h_live (sy_h s)) + occ z (sy_closed s) +
     occ z (workers_fds ws) + occ z (workers_closed ws) + occ z (h_closed (sy_h s)))%nat
}.

(** ** The handlers keep the invariant *)

Context (Hen : env_ok en).

(** What one call of a handler promises: the invariant is kept, and the
    descriptors [fds] it was given are accounted for. *)
Definition accounts h h' (fds : list Z) : Prop :=
  hinv h' /\ length (h_ctxs h') = length (h_ctxs h) /\
  forall z, (occ z (h_opened h) + occ z (h_live h') + occ z (h_closed h') + 0 =
             occ z (h_opened h') + occ z (h_live h) + occ z (h_closed h) + occ z fds)%nat.

Lemma accounts_trans h1 h2 h3 a b : accounts h1 h2 a -> accounts h2 h3 b -> accounts h1 h3 (a ++ b).
Proof.
  intros (_ & L1 & A1) (I2 & L2 & A2). split_and!; [done|congruence|]. intros z.
  specialize (A1 z). specialize (A2 z). rewrite occ_app. lia.
Qed.

Lemma adopt_ok id m h :
  hinv h -> 0 <= sc_fd m -> sa_backed (sc_peer_addr m) (sc_peer_addr_len m) ->
  accounts h (adopt_handler id m h) [sc_fd m].
Proof.
  intros [Hf Hc Hx] Hfd Hb. unfold adopt_handler. set (os := en_adopt en (h_tick h)).
  assert (addrs_backed os m) as Hab by (split; [done|apply (eo_local _ Hen)]).
  destruct (adopt_total inet_pton inet_ntop os m Hab) as [[o eff] Ha]. rewrite Ha.
  destruct (adopt_accounts inet_pton inet_ntop os m (o, eff) Hfd (eo_connect _ Hen _) Ha) as [Hr Hm].
  simpl in Hm. split_and!; [split; [done| |done]|done|].
  - apply Forall_app. split; [done|]. destruct o as [c|]; [|done]. apply Forall_singleton.
    destruct (Hm c eq_refl) as [Hp Hcl]. split; [done|]. split; [done|]. intros Hk.
    destruct (adopt_socket inet_pton inet_ntop os m c eff Hab Hk Ha) as (_ & _ & hdr & Hh & Hi). eauto.
  - intros z. unfold h_live. simpl. autorewrite with occ. unfold res_fds in Hr.
    apply (occ_permutation _ _) with (z := z) in Hr. rewrite (occ_cons z (sc_fd m)) in Hr. rewrite occ_app in Hr.
    simpl in Hr. destruct o as [c|]; simpl in *; unfold entry_fds; simpl; rewrite ?app_nil_r; lia.
Qed.

(** Replacing a context by one that accounts for [opened] and [closed]. *)
Lemma with_ctx_ok h i ctx ctx' opened closed :
  hinv h -> h_ctxs h !! i = Some ctx -> ctx_backed ctx' ->
  (forall z, occ z (ctx_fds ctx') + occ z closed = occ z (ctx_fds ctx) + occ z opened)%nat ->
  accounts h (with_ctx h i ctx' opened closed) [].
Proof.
  intros [Hf Hc Hx] Hi Hb Ha. unfold with_ctx.
  split_and!; [split; [done|done|by apply Forall_insert]|simpl; by rewrite length_insert|].
  intros z. unfold h_live. simpl. autorewrite with occ. specialize (Ha z).
  pose proof (occ_insert ctx_fds _ _ _ ctx' z Hi). lia.
Qed.

Lemma cleanup_ok i h :
  hinv h -> (i < length (h_ctxs h))%nat -> accounts h (cleanup_handler i h) [].
Proof.
  intros Hi Hl. unfold cleanup_handler.
  destruct (lookup_lt_is_Some_2 _ _ Hl) as [ctx Hctx]. rewrite Hctx.
  pose proof (cleanup_accounts (en_time en (h_tick h)) ctx) as Ha.
  destruct (Datagram.cleanup_idle_datagram_clients _ _) as [ctx' acts].
  apply (with_ctx_ok _ _ ctx); try done.
  - apply (Ha 0). exact (proj1 (Forall_lookup _ _) (hv_ctxs _ Hi) _ _ Hctx).
  - intros z. destruct (Ha z) as [Hz _]. rewrite occ_nil. lia.
Qed.

Lemma packet_ok id m d h :
  hinv h -> (dp_ctx m < length (h_ctxs h))%nat -> sa_backed (dp_peer_addr m) (dp_peer_addr_len m) ->
  accounts h (packet_handler id m d h) [].
Proof.
  intros Hi Hl Hb. unfold packet_handler.
  destruct (lookup_lt_is_Some_2 _ _ Hl) as [ctx Hctx]. rewrite Hctx.
  pose proof (proj1 (Forall_lookup _ _) (hv_ctxs _ Hi) _ _ Hctx) as Hcb.
  destruct (packet_accounts inet_pton (en_send en) (en_sendto en) inet_ntop _ (en_time en (h_tick h))
    ctx _ _ d (eo_create _ Hen (h_tick h)) Hb Hcb) as (rc & ctx' & acts & -> & Hcb' & Ha).
  by apply (with_ctx_ok _ _ ctx).
Qed.

Lemma item_fd_good n i : item_good n i ->
  item_fd i = match qi_payload i with WORKER_MSG_STREAM_CLIENT m => [sc_fd m] | _ => [] end.
Proof.
  unfold item_good, item_fd. destruct (qi_payload i) as [m|m]; [|done]. intros [Hp _].
  unfold socket_is_valid, EVUTIL_INVALID_SOCKET. by rewrite (proj2 (Z.eqb_neq _ _)) by lia.
Qed.

Lemma handle_item_ok id h i :
  hinv h -> item_good (length (h_ctxs h)) i -> accounts h (handle_item id h i) (item_fd i).
Proof.
  intros Hi Hg. rewrite (item_fd_good _ _ Hg). unfold item_good, handle_item in *.
  destruct (qi_payload i) as [m|m]; destruct Hg as [Hg Hb].
  - by apply adopt_ok.
  - change (@nil Z) with (@nil Z ++ []). pose proof (cleanup_ok (dp_ctx m) h Hi Hg) as Hc.
    eapply accounts_trans; [exact Hc|]. destruct Hc as (Hi' & Hl & _).
    apply packet_ok; [done|simpl; by rewrite Hl|done].
Qed.

Lemma handle_items_ok id q h :
  hinv h -> Forall (item_good (length (h_ctxs h))) q ->
  accounts h (foldl (handle_item id) h q) (queue_fds q).
Proof.
  intros Hi Hq. revert h Hi Hq. induction q as [|i q IH]; intros h Hi Hq.
  - split_and!; [done|done|]. intros z. unfold queue_fds. simpl. lia.
  - apply Forall_cons in Hq as [Hg Hq]. pose proof (handle_item_ok id h i Hi Hg) as Ha.
    change (queue_fds (i :: q)) with (item_fd i ++ queue_fds q).
    eapply accounts_trans; [exact Ha|]. destruct Ha as (Hi' & Hl & _).
    apply IH; [done|]. by rewrite Hl.
Qed.

Lemma copy_storage_backed a n : 0 < n <= SIZEOF_SOCKADDR_STORAGE -> sa_backed (copy_storage a n) n.
Proof.
  unfold SIZEOF_SOCKADDR_STORAGE. intros Hn. unfold sa_backed, copy_storage, Zlength. simpl.
  rewrite length_app, length_replicate, length_take. lia.
Qed.

(** ** Every step keeps the invariant *)

(** Replacing the worker [i], its queue and the handlers' state. *)
Lemma worker_replaced s ws qs i w w' q' h' acc cl :
  sys_inv s ws qs -> ws !! i = Some w -> queue_inv w' q' ->
  Forall (item_good (length (h_ctxs h'))) q' -> hinv h' ->
  length (h_ctxs h') = length (h_ctxs (sy_h s)) ->
  (forall q z, qs !! i = Some q ->
    occ z acc + occ z (h_opened h') + occ z (queue_fds q) + occ z (h_live (sy_h s)) +
      occ z (worker_fds (ws_w w)) + occ z (ws_closed w) + occ z (h_closed (sy_h s)) + occ z (sy_closed s) =
    occ z (sy_accepted s) + occ z (h_opened (sy_h s)) + occ z (queue_fds q') + occ z (h_live h') +
      occ z (worker_fds (ws_w w')) + occ z (ws_closed w') + occ z (h_closed h') + occ z cl)%nat ->
  forall next, 0 <= next < 2 ^ 64 ->
  sys_inv (mk_sys (mk_pool (Some (<[i := w']> ws)) (p_count (sy_pool s)) next) h' acc cl)
    (<[i := w']> ws) (<[i := q']> qs).
Proof.
  intros [Hp Hws Hq Hit Hh Ha] Hi Hq' Hg Hh' Hl Hz next Hn.
  destruct (Forall2_lookup_l _ _ _ _ _ Hq Hi) as (q & Hqi & _). split; simpl.
  - destruct Hp as (ws0 & E & Hc & Hpos & _). rewrite Hws in E. injection E as <-.
    exists (<[i := w']> ws). simpl. unfold Zlength in *. rewrite length_insert. done.
  - done.
  - by apply Forall2_insert.
  - rewrite <- Hl in Hit. by apply Forall_insert.
  - done.
  - intros z. specialize (Ha z). specialize (Hz q z Hqi). unfold queued, workers_closed, workers_fds in *.
    pose proof (occ_insert (fun w : wstate (hstate B) => worker_fds (ws_w w)) _ _ _ w' z Hi). simpl in *.
    pose proof (occ_insert queue_fds _ _ _ q' z Hqi). pose proof (occ_insert ws_closed _ _ _ w' z Hi). lia.
Qed.

Lemma notify_ok s ws qs i w :
  sys_inv s ws qs -> ws !! i = Some w ->
  exists w', worker_notify_cb (with_h w (sy_h s)) = Some (w_stopping (ws_w w), w') /\
    w_base (ws_w w') = w_base (ws_w w) /\
    sys_inv (mk_sys (mk_pool (Some (<[i := w']> ws)) (p_count (sy_pool s)) (p_next (sy_pool s)))
      (ws_h w') (sy_accepted s) (sy_closed s)) (<[i := w']> ws) (<[i := []]> qs).
Proof.
  intros Hs Hi. pose proof Hs as [Hp Hws Hq Hit Hh Ha].
  destruct (Forall2_lookup_l _ _ _ _ _ Hq Hi) as (q & Hqi & Hqw).
  pose proof (proj1 (Forall_lookup _ _) Hit _ _ Hqi) as Hg. unfold worker_notify_cb.
  rewrite drain_spec by lia. cbn [mbind option_bind].
  destruct (process_pending_spec (with_w (with_h w (sy_h s))
    (set_wakeups (ws_w (with_h w (sy_h s))) 0)) q Hqw)
    as (w' & -> & Hq' & _ & _ & Hw' & Hc' & Hh').
  cbn [mbind option_bind]. exists w'. split; [by rewrite Hw'|]. split; [by rewrite Hw'|].
  destruct (handle_items_ok (w_id (ws_w w)) q (sy_h s) Hh Hg) as (Hi' & Hl & Hz).
  cbn [ws_w ws_h with_w with_h w_id set_wakeups] in Hh', Hc', Hw'.
  rewrite <- Hh' in Hi', Hl, Hz. apply (worker_replaced _ _ _ _ w); try done.
  - intros q0 z E. rewrite Hqi in E. injection E as <-. specialize (Hz z). rewrite Hc'.
    assert (worker_fds (ws_w w') = worker_fds (ws_w w)) as -> by (by rewrite Hw').
    change (queue_fds []) with (@nil Z). rewrite occ_nil. simpl. lia.
  - by destruct Hp as (? & _ & _ & _ & ?).
Qed.

(** Enqueueing leaves the notification sockets alone. *)
Lemma enqueue_msg_fds sent (st : wstate (hstate B)) l rc st' :
  worker_enqueue_msg sent st l = Some (rc, st') -> worker_fds (ws_w st') = worker_fds (ws_w st).
Proof.
  unfold worker_enqueue_msg, enqueue_link, free_worker_msg, notify_worker.
  assert (forall l (st1 st2 : wstate (hstate B)), free_msg st1 l = Some st2 -> ws_w st2 = ws_w st1) as Hfm.
  { intros l0 st1 st2. unfold free_msg. destruct (load_msg st1 l0); [|done]. by intros [= <-]. }
  assert (forall p (st1 st2 : wstate (hstate B)), free_buf st1 p = Some st2 -> ws_w st2 = ws_w st1) as Hfb.
  { intros [b|] st1 st2; [|by intros [= <-]]. unfold free_buf. destruct (ws_bufs st1 !! b); [|done].
    by intros [= <-]. }
  assert (forall l m (st1 st2 : wstate (hstate B)), store_msg st1 l m = Some st2 -> ws_w st2 = ws_w st1) as Hsm.
  { intros l0 m st1 st2. unfold store_msg. destruct (load_msg st1 l0); [|done]. by intros [= <-]. }
  destruct (w_stopping (ws_w st)).
  - cbn [mbind option_bind]. destruct (load_msg st l) as [m|]; [|done]. cbn [mbind option_bind].
    destruct (wm_payload m) as [m0|m0].
    + destruct (free_msg _ l) as [st2|] eqn:Ef; [|done]. intros [= _ <-]. apply Hfm in Ef. rewrite Ef. by case_if.
    + destruct (free_buf st (dp_data m0)) as [st1|] eqn:Eb; [|done]. cbn [mbind option_bind].
      destruct (free_msg st1 l) as [st2|] eqn:Ef; [|done]. intros [= _ <-].
      by rewrite (Hfm _ _ _ Ef), (Hfb _ _ _ Eb).
  - destruct (load_msg st l) as [m|]; [|done]. cbn [mbind option_bind].
    destruct (store_msg st l _) as [st1|] eqn:E1; [|done]. cbn [mbind option_bind]. apply Hsm in E1.
    destruct (w_pending_tail (ws_w st1)) as [t|].
    + destruct (load_msg st1 t) as [mt|]; [|done]. cbn [mbind option_bind].
      destruct (store_msg st1 t _) as [st2|] eqn:E2; [|done]. cbn [mbind option_bind]. apply Hsm in E2.
      intros [= _ <-]. destruct sent; [case_if|]; simpl; by rewrite E2, E1.
    + cbn [mbind option_bind]. intros [= _ <-]. destruct sent; [case_if|]; simpl; by rewrite E1.
Qed.

(** The pool's counter only. *)
Lemma next_ok s ws qs i w q acc cl :
  sys_inv s ws qs -> ws !! i = Some w -> qs !! i = Some q ->
  (forall z, occ z acc + occ z (sy_closed s) = occ z (sy_accepted s) + occ z cl)%nat ->
  forall next, 0 <= next < 2 ^ 64 ->
  sys_inv (mk_sys (mk_pool (Some (<[i := w]> ws)) (p_count (sy_pool s)) next) (sy_h s) acc cl)
    (<[i := w]> ws) (<[i := q]> qs).
Proof.
  intros Hs Hi Hqi Hz next Hn. pose proof Hs as [Hp Hws Hq Hit Hh Ha].
  apply (worker_replaced s ws qs i w w q); try done.
  - by apply (Forall2_lookup_lr _ _ _ _ _ _ Hq Hi Hqi).
  - exact (proj1 (Forall_lookup _ _) Hit _ _ Hqi).
  - intros q0 z E. rewrite Hqi in E. injection E as <-. specialize (Hz z). lia.
Qed.

Lemma accept_ok s ws qs calloc sent r fd addr n p' closed :
  sys_inv s ws qs -> 0 <= fd -> not_stopping s ->
  unused s (fun w l => ws_msgs w !! l = None) calloc ->
  accept_cb calloc sent r (sy_pool s) fd addr n = Some (p', closed) ->
  exists ws' qs', sys_inv (mk_sys p' (sy_h s) (sy_accepted s ++ [fd]) (sy_closed s ++ closed)) ws' qs'.
Proof.
  intros Hs Hfd Hns Hfr. pose proof Hs as [Hp Hws Hq Hit Hh Ha]. unfold accept_cb.
  destruct (bool_decide (addr = None)) eqn:Ea; cbn [orb]; [|destruct (n <=? 0) eqn:En; cbn [orb];
    [|destruct (SIZEOF_SOCKADDR_STORAGE <? n) eqn:Ex]].
  1-3: intros [= <- <-]; exists ws, qs; split; try done; simpl; intros z; specialize (Ha z);
    rewrite !occ_app; lia.
  bool_to_prop. destruct addr as [addr|]; [|by destruct Ea].
  destruct (pool_next_wf _ Hp) as (i & Hnx & _). rewrite Hnx.
  destruct (accept_next _ _ _ Hnx Hp ws Hws) as (_ & w & Hi). simpl p_workers. rewrite Hws.
  cbn [mbind option_bind]. rewrite Hi. cbn [mbind option_bind].
  destruct (Forall2_lookup_l _ _ _ _ _ Hq Hi) as (q & Hqi & Hqw).
  unfold worker_enqueue_stream_client.
  assert (socket_is_valid fd = true) as Hv.
  { unfold socket_is_valid, EVUTIL_INVALID_SOCKET. by rewrite (proj2 (Z.eqb_neq _ _)) by lia. }
  rewrite Hv. cbn [negb]. rewrite (proj2 (Z.ltb_ge _ _)) by done.
  assert (0 <= u64 (p_next (sy_pool s) + 1) < 2 ^ 64) as Hn by (apply Z.mod_pos_bound; lia).
  destruct calloc as [l|].
  2: { cbn [mbind option_bind]. intros [= <- <-]. exists (<[i := w]> ws), (<[i := q]> qs).
       apply next_ok; try done. intros z. rewrite !occ_app. simpl. lia. }
  pose proof (stream_item_fresh w l r fd (Some addr) n (Hfr _ _ _ _ eq_refl Hws Hi)) as Hf.
  destruct (enqueue_msg_spec w q _ sent Hqw Hf) as (rc & w' & He & _ & Hrest).
  rewrite (Hns _ _ _ Hws Hi) in Hrest. destruct Hrest as (-> & Hq' & Hc & _).
  change (worker_enqueue_msg sent (allocated w (stream_item l r fd (Some addr) n)) _) with
    (worker_enqueue_msg sent (alloc_msg w l (mk_worker_msg (qi_payload (stream_item l r fd (Some addr) n)) None)) l)
    in He. unfold stream_item in He. simpl qi_payload in He. rewrite He. cbn [mbind option_bind].
  apply enqueue_msg_fds in He. simpl in He.
  intros [= <- <-]. eexists _, _. apply (worker_replaced s ws qs i w); try done.
  - apply Forall_app. split; [exact (proj1 (Forall_lookup _ _) Hit _ _ Hqi)|]. apply Forall_singleton.
    unfold item_good, stream_item. simpl. rewrite (proj2 (Z.ltb_lt _ _)) by lia. simpl.
    split; [done|]. apply copy_storage_backed. lia.
  - intros q0 z E. rewrite Hqi in E. injection E as <-. unfold queue_fds. rewrite Hc, He.
    autorewrite with occ. rewrite (fmap_cons item_fd), stream_item_fd by done. simpl. lia.
Qed.

Definition packet_for (id : nat) (i : qitem) : Prop :=
  exists m, qi_payload i = WORKER_MSG_DATAGRAM_PACKET m /\ dp_ctx m = id /\
    sa_backed (dp_peer_addr m) (dp_peer_addr_len m).

Lemma enqueue_packet_fds calloc malloc sent (w : wstate (hstate B)) id r fd pa n data dlen rc w' :
  worker_enqueue_datagram_packet calloc malloc sent w id r fd pa n data dlen = Some (rc, w') ->
  worker_fds (ws_w w') = worker_fds (ws_w w).
Proof.
  unfold worker_enqueue_datagram_packet. destruct r as [r|]; [|by intros [= _ <-]].
  case_if; [by intros [= _ <-]|]. destruct pa as [pa|]; [|by intros [= _ <-]].
  do 2 (case_if; [by intros [= _ <-]|]). destruct calloc as [l|]; [|by intros [= _ <-]].
  case_if; [destruct malloc as [b|]; [|by intros [= _ <-]]|]; intros He%enqueue_msg_fds; exact He.
Qed.

(** Whatever the allocations answer, the queue is longer by packets only. *)
Lemma datagram_enqueued (w : wstate (hstate B)) q calloc malloc sent id r fd pa n data :
  queue_inv w q -> (forall l, calloc = Some l -> ws_msgs w !! l = None) ->
  (forall b, malloc = Some b -> ws_bufs w !! b = None) -> 0 <= n ->
  exists rc w' q', worker_enqueue_datagram_packet calloc malloc sent w id (Some r) fd (Some pa) n
      (Some data) (len data) = Some (rc, w') /\ queue_inv w' (q ++ q') /\ ws_closed w' = ws_closed w /\
    Forall (packet_for id) q'.
Proof.
  intros Hq Hl Hb Hn.
  assert (forall rc : Z, exists rc' w' q', Some (rc, w) = Some (rc', w') /\ queue_inv w' (q ++ q') /\
    ws_closed w' = ws_closed w /\ Forall (packet_for id) q') as Hsame.
  { intros rc. exists rc, w, []. by rewrite app_nil_r. }
  assert (exists b, ws_bufs w !! b = None) as [b0 Hb0].
  { exists (stdpp.base.fresh (dom (ws_bufs w))). apply not_elem_of_dom, is_fresh. }
  assert (forall l b, ws_msgs w !! l = None -> ws_bufs w !! b = None ->
    socket_is_valid fd = true -> 0 < n <= SIZEOF_SOCKADDR_STORAGE ->
    exists rc w' q', worker_enqueue_datagram_packet (Some l) (Some b) sent w id (Some r) fd (Some pa) n
      (Some data) (len data) = Some (rc, w') /\ queue_inv w' (q ++ q') /\ ws_closed w' = ws_closed w /\
      Forall (packet_for id) q') as Hspec.
  { intros l b Hlf Hbf Hv Hr.
    destruct (worker_enqueue_datagram_spec w q l b sent id r fd pa n data Hq Hlf Hbf Hv Hr)
      as (rc & w' & He & _ & Hrest). rewrite He.
    destruct (w_stopping (ws_w w)); [destruct Hrest as [_ ->]; apply Hsame|].
    destruct Hrest as (_ & Hq' & Hc). exists rc, w', [packet_item l b r id pa n data].
    split_and!; try done. apply Forall_singleton. eexists. split; [reflexivity|]. split; [done|].
    by apply copy_storage_backed. }
  unfold worker_enqueue_datagram_packet in *. destruct (socket_is_valid fd); cbn [negb] in *; [|done].
  destruct (n =? 0) eqn:E0; cbn [orb] in *; [done|].
  destruct (SIZEOF_SOCKADDR_STORAGE <? n) eqn:E1; [done|]. bool_to_prop.
  rewrite bool_decide_false in * by done. cbn [andb] in *. destruct calloc as [l|]; [|done].
  destruct (0 <? len data); [destruct malloc as [b|]; [|done]|].
  - apply (Hspec l b); auto. lia.
  - apply (Hspec l b0); auto. lia.
Qed.

Lemma packet_step_ok s ws qs calloc malloc sent recvfrom id ctx p' :
  sys_inv s ws qs -> h_ctxs (sy_h s) !! id = Some ctx ->
  unused s (fun w l => ws_msgs w !! l = None) calloc ->
  unused s (fun w l => ws_bufs w !! l = None) malloc ->
  (forall data addr n, recvfrom = Ok (data, addr, n) -> 0 <= n) ->
  listen_read_cb recvfrom calloc malloc sent (sy_pool s) id ctx = Some p' ->
  exists ws' qs', sys_inv (mk_sys p' (sy_h s) (sy_accepted s) (sy_closed s)) ws' qs'.
Proof.
  intros Hs Hid Hfl Hfb Hn. pose proof Hs as [Hp Hws Hq Hit Hh Ha]. unfold listen_read_cb.
  destruct recvfrom as [[[data pa] n]|e]; [|intros [= <-]; exists ws, qs; by split].
  specialize (Hn _ _ _ eq_refl). unfold dispatch_datagram_packet.
  destruct (pool_next_wf _ Hp) as (i & Hnx & _). rewrite Hnx.
  destruct (accept_next _ _ _ Hnx Hp ws Hws) as (_ & w & Hi). simpl p_workers. rewrite Hws.
  cbn [mbind option_bind]. rewrite Hi. cbn [mbind option_bind].
  destruct (Forall2_lookup_l _ _ _ _ _ Hq Hi) as (q & Hqi & Hqw).
  destruct (datagram_enqueued w q calloc malloc sent id (dc_route ctx) (dc_listen_fd ctx) pa n data Hqw)
    as (rc & w' & q' & He & Hq' & Hc & Hg); [intros; by eapply Hfl|intros; by eapply Hfb|done|].
  rewrite He.
  apply enqueue_packet_fds in He.
  cbn [mbind option_bind]. intros [= <-]. eexists _, _. apply (worker_replaced s ws qs i w); try done.
  - apply Forall_app. split; [exact (proj1 (Forall_lookup _ _) Hit _ _ Hqi)|].
    eapply Forall_impl; [exact Hg|]. intros j (m & Hm & <- & Hb). simpl. unfold item_good. rewrite Hm.
    split; [|done]. by eapply lookup_lt_Some.
  - intros q0 z E. rewrite Hqi in E. injection E as <-. rewrite Hc, He. unfold queue_fds.
    autorewrite with occ. assert (concat (item_fd <$> q') = []) as ->.
    { clear -Hg. induction Hg as [|j q' (m & Hm & _) _ IH]; [done|]. rewrite fmap_cons. cbn [concat].
      rewrite IH. unfold item_fd. by rewrite Hm. }
    rewrite occ_nil. lia.
  - apply Z.mod_pos_bound. lia.
Qed.

Lemma occ_delete {A} (f : A -> list Z) (l : list A) i x z :
  l !! i = Some x ->
  occ z (concat (f <$> l)) = (occ z (f x) + occ z (concat (f <$> delete i l)))%nat.
Proof.
  intros Hi. rewrite <- (take_drop_middle l i x Hi) at 1. rewrite delete_take_drop.
  autorewrite with occ. rewrite fmap_cons. cbn [concat]. rewrite occ_app. lia.
Qed.

Context (copyout_prefix : forall input n bs,
  evbuffer_copyout input n = Some bs -> bs = take (Z.to_nat n) input).

Lemma entry_step e ps eff :
  entry_ok e -> conn_step evbuffer_copyout (e_ps e) (Some ps, eff) ->
  entry_ok (mk_entry (e_worker e) (e_msg e) (e_os e) ps).
Proof.
  intros (Hm & Hfd & Hi) Hstep.
  pose proof (conn_step_fds evbuffer_copyout _ _ _ Hstep) as ([Hcl _] & Hm' & _). simpl in *.
  split; [simpl; by rewrite Hm'|]. split; [simpl; congruence|]. simpl. intros Hk. rewrite Hk in Hm.
  destruct (Hi Hk) as (hdr & Hh & Hpi). exists hdr. split; [done|].
  assert (pipe_step evbuffer_copyout (e_ps e) (Some ps, eff)) as Hp.
  { inversion Hstep as [s0 r _ Hp|? ? ? ? ? ? Hn _ _ Es|? ? ? ? ? ? ? ? ? Hn _ _ _ Es
      |? ? ? ? ? ? ? ? Hn _ Es]; subst; [done|..];
      rewrite <- Es in Hm; simpl in Hm; congruence. }
  exact (proj1 (pinv_step evbuffer_copyout copyout_prefix _ _ _ _ Hpi Hp _ eq_refl)).
Qed.

Lemma conn_ok s ws qs i e o eff :
  sys_inv s ws qs -> h_conns (sy_h s) !! i = Some e ->
  conn_step evbuffer_copyout (e_ps e) (o, eff) ->
  sys_inv (mk_sys (sy_pool s)
    (set_conns (sy_h s)
       match o with
       | Some ps => <[i := mk_entry (e_worker e) (e_msg e) (e_os e) ps]> (h_conns (sy_h s))
       | None => delete i (h_conns (sy_h s))
       end (fd_closes eff)) (sy_accepted s) (sy_closed s)) ws qs.
Proof.
  intros [Hp Hws Hq Hit [Hf Hc Hx] Ha] Hi Hstep.
  pose proof (kept_res_fds _ _ (conn_step_fds evbuffer_copyout _ _ _ Hstep)) as Hr.
  split; try done.
  - split; [done| |done]. simpl. destruct o as [ps|]; [|by apply Forall_delete].
    apply Forall_insert; [done|]. eapply entry_step; [|exact Hstep].
    exact (proj1 (Forall_lookup _ _) Hc _ _ Hi).
  - intros z. specialize (Ha z). simpl. unfold h_live in *. simpl. autorewrite with occ in *.
    apply (f_equal (occ z)) in Hr. unfold res_fds in Hr. rewrite occ_app in Hr. simpl in Hr.
    destruct o as [ps|]; simpl in Hr.
    + pose proof (occ_insert entry_fds _ _ _ (mk_entry (e_worker e) (e_msg e) (e_os e) ps) z Hi) as Ho.
      unfold entry_fds in Ho at 2 4. simpl in Ho. lia.
    + pose proof (occ_delete entry_fds _ _ _ z Hi) as Ho. unfold entry_fds in Ho at 2. lia.
Qed.

Lemma stop_ok s ws qs sent :
  sys_inv s ws qs ->
  exists ws', sys_inv (mk_sys (worker_pool_stop sent (sy_pool s)) (sy_h s) (sy_accepted s) (sy_closed s)) ws' qs.
Proof.
  intros [Hp Hws Hq Hit Hh Ha]. exists (worker_stop sent <$> ws). unfold worker_pool_stop. rewrite Hws.
  assert (forall w : wstate (hstate B), ws_closed (worker_stop sent w) = ws_closed w /\
    worker_fds (ws_w (worker_stop sent w)) = worker_fds (ws_w w) /\ forall q, queue_inv w q -> queue_inv (worker_stop sent w) q) as Hst.
  { intros w. unfold worker_stop, notify_worker. case_if; [destruct sent; [case_if|]|]; done. }
  split; simpl; try done.
  - destruct Hp as (ws0 & E & Hc & Hpos & Hn). rewrite Hws in E. injection E as <-.
    exists (worker_stop sent <$> ws). simpl. unfold Zlength in *. by rewrite length_fmap.
  - apply Forall2_fmap_l. eapply Forall2_impl; [exact Hq|]. intros w q. apply Hst.
  - intros z. rewrite Ha. unfold workers_closed, workers_fds. rewrite <- !list_fmap_compose.
    do 3 f_equal; [f_equal|]; f_equal; apply list_fmap_ext; intros ? w _; simpl; symmetry; apply (Hst w).
Qed.

(** Releasing a worker closes what its queue and the worker itself own. *)
Lemma free_ok s ws qs i w sent w' :
  sys_inv s ws qs -> ws !! i = Some w -> worker_free sent Some (with_h w (sy_h s)) = Some w' ->
  sys_inv (mk_sys (mk_pool (Some (<[i := w']> ws)) (p_count (sy_pool s)) (p_next (sy_pool s)))
    (ws_h w') (sy_accepted s) (sy_closed s)) (<[i := w']> ws) (<[i := []]> qs).
Proof.
  intros Hs Hi Hf. pose proof Hs as [Hp Hws Hq Hit Hh Ha].
  destruct (Forall2_lookup_l _ _ _ _ _ Hq Hi) as (q & Hqi & Hqw). unfold worker_free in Hf.
  assert (exists st, worker_join Some (worker_stop sent (with_h w (sy_h s))) = Some st /\
    queue_inv st q /\ ws_h st = sy_h s /\ ws_closed st = ws_closed w /\
    w_notify_recv_fd (ws_w st) = w_notify_recv_fd (ws_w w) /\
    w_notify_send_fd (ws_w st) = w_notify_send_fd (ws_w w))
    as (st & Ej & [Hheap [Hs' Ht']] & Hsh & Hsc & Hr & Hsd).
  { unfold worker_join, worker_stop, notify_worker. simpl.
    destruct (w_started (ws_w w)) eqn:Es; [destruct sent as [e|]; [destruct (e =? EAGAIN)|]|]; simpl; rewrite ?Es;
      (eexists; split; [reflexivity|]; split; [exact Hqw|by split_and!]). }
  rewrite Ej in Hf. cbn [mbind option_bind] in Hf. unfold worker_take_pending in Hf.
  destruct (free_list_spec q (size (ws_msgs st)) (with_w st (set_pending (ws_w st) None None))
    (w_pending_head (ws_w st))) as (st2 & Ef & Hm & Hb & Hw2 & Hc2 & Hh2); [done|done| |].
  { rewrite (heap_inv_size _ _ _ Hheap). lia. }
  simpl in Hf. rewrite Ef in Hf. cbn [mbind option_bind] in Hf. rewrite !Hw2 in Hf. simpl in Hf, Hc2, Hh2.
  assert (ws_h w' = sy_h s /\ queue_inv w' [] /\ worker_fds (ws_w w') = [] /\
    ws_closed w' = ws_closed w ++ queue_fds q ++ worker_fds (ws_w w)) as (E1 & E2 & E3 & E4).
  { unfold worker_fds. cbn [List.filter]. rewrite <- Hr, <- Hsd, <- Hsc, <- Hsh, <- Hh2.
    unfold queue_fds. destruct (socket_is_valid (w_notify_recv_fd (ws_w st))),
      (socket_is_valid (w_notify_send_fd (ws_w st))); injection Hf as <-; simpl; rewrite Hc2, <- ?app_assoc, ?app_nil_r;
      (split_and!; try done; split; [by apply heap_inv_empty|done]). }
  rewrite E1. apply (worker_replaced s ws qs i w); try done.
  - intros q0 z E. rewrite Hqi in E. injection E as <-. rewrite E3, E4. autorewrite with occ.
    change (occ z (queue_fds [])) with 0%nat. lia.
  - by destruct Hp as (? & _ & _ & _ & ?).
Qed.

Lemma reply_ok s ws qs ctx c recv :
  sys_inv s ws qs ->
  sys_inv (mk_sys (sy_pool s) (reply_handler ctx c recv (sy_h s)) (sy_accepted s) (sy_closed s)) ws qs.
Proof.
  intros [Hp Hws Hq Hit [Hf Hc Hx] Ha]. unfold reply_handler.
  destruct (upstream_read_total inet_pton (en_sendto en) (en_host en) (en_calloc en (h_tick (sy_h s)))
    ctx c recv) as (acts & -> & Hcl).
  split; try done. intros z. specialize (Ha z). simpl. rewrite Hcl, app_nil_r. exact Ha.
Qed.

Lemma sys_step_inv s s' ws qs :
  sys_inv s ws qs -> sys_step s s' -> exists ws' qs', sys_inv s' ws' qs'.
Proof.
  intros Hs Hstep. destruct Hstep as [s calloc sent r fd addr n p' closed Hfd Hns Hfr Ha
    |s calloc malloc sent recv id ctx p' Hid Hns Hfl Hfb Hn Hl|s i s' [s0 ws0 w brk w' Hws Hi Hbase Hn]
    |s i ctx c recv Hctx Hc|s i e o eff Hi Hst|s sent|s ws0 i w sent w' Hws Hi Hstop Hf].
  - by eapply accept_ok.
  - by eapply packet_step_ok.
  - rewrite (sv_ws _ _ _ Hs) in Hws. injection Hws as <-.
    destruct (notify_ok _ _ _ _ _ Hs Hi) as (w1 & E & _ & Hs'). rewrite Hn in E. injection E as _ <-. eauto.
  - eexists _, _. by apply reply_ok.
  - eexists _, _. by eapply conn_ok.
  - destruct (stop_ok _ _ _ sent Hs) as [ws' Hs']. eauto.
  - rewrite (sv_ws _ _ _ Hs) in Hws. injection Hws as <-. eexists _, _. by eapply free_ok.
Qed.

(** ** Reachable states *)

(** The proxy before its first event: at least one worker, each with an empty
    queue; the datagram routes without clients. *)
Record start_ok (ws : list (wstate (hstate B))) (ctxs : list datagram_route_ctx) : Prop := {
  so_count : 0 < len ws < 2 ^ 64;
  so_ws : Forall (fun w => queue_inv w [] /\ ws_closed w = []) ws;
  so_ctxs : Forall (fun ctx => dc_clients ctx = [] /\ ctx_backed ctx) ctxs
}.

Lemma occ_concat_nil {A} (f : A -> list Z) (l : list A) z :
  Forall (fun x => f x = []) l -> occ z (concat (f <$> l)) = 0%nat.
Proof. intros Hl. induction Hl as [|x l Hx _ IH]; [done|]. rewrite fmap_cons. cbn [concat]. by rewrite Hx. Qed.

Lemma init_inv ws ctxs :
  start_ok ws ctxs -> sys_inv (sys_init ws ctxs) ws (replicate (length ws) []).
Proof.
  intros [Hc Hw Hx]. split; simpl.
  - exists ws. split_and!; simpl; done || lia.
  - done.
  - clear Hc Hx. induction Hw as [|w ws [Hq _] _ IH]; constructor; done.
  - by apply Forall_replicate.
  - split; [done|done|]. simpl. eapply Forall_impl; [exact Hx|]. by intros ctx [_ Hb].
  - intros z. unfold queued, workers_closed, h_live. simpl.
    rewrite !occ_concat_nil; [simpl; lia|..].
    + eapply Forall_impl; [exact Hw|]. by intros w [_ He].
    + eapply Forall_impl; [exact Hx|]. intros ctx [He _]. unfold ctx_fds. by rewrite He.
    + by apply Forall_replicate.
Qed.

Lemma reachable_inv ws ctxs s :
  start_ok ws ctxs -> rtc sys_step (sys_init ws ctxs) s -> exists ws' qs, sys_inv s ws' qs.
Proof.
  intros Hs Hr.
  assert (forall s1 s2, rtc sys_step s1 s2 -> (exists ws qs, sys_inv s1 ws qs) -> exists ws qs, sys_inv s2 ws qs)
    as Hind.
  { intros s1 s2 Hr12. induction Hr12 as [|s1 s2 s3 Hst _ IH]; [done|]. intros (ws1 & qs1 & H1).
    apply IH. by eapply sys_step_inv. }
  apply (Hind _ _ Hr). eexists _, _. by apply init_inv.
Qed.


(** C3: end to end. Every live connection of a reachable state serves the
    descriptor of the message it was adopted from; if its route has a socket
    upstream, what was sent to the upstream and what is buffered for it is the
    PROXY v2 header (when the route asks for it) followed by exactly what the
    client sent, what was sent to the client and what is buffered for it is
    exactly what the upstream sent, and both buffers are bounded. *)
Theorem sys_streams_conserve : forall ws0 ctxs s i e,
  start_ok ws0 ctxs -> rtc sys_step (sys_init ws0 ctxs) s ->
  h_conns (sy_h s) !! i = Some e ->
  v_fd (be_view (c_client (ps_conn (e_ps e)))) = sc_fd (e_msg e) /\
  (socket_upstream (sc_route (e_msg e)) = true ->
   exists hdr u, header_ok (e_os e) (e_msg e) hdr /\ c_upstream (ps_conn (e_ps e)) = Some u /\
     ps_to_upstream (e_ps e) ++ v_out (be_view u) = hdr ++ ps_from_client (e_ps e) /\
     ps_to_client (e_ps e) ++ v_out (be_view (c_client (ps_conn (e_ps e)))) = ps_from_upstream (e_ps e) /\
     len (v_out (be_view (c_client (ps_conn (e_ps e))))) < 384 * 1024).
Proof.
  intros ws0 ctxs s i e Hs Hr He. destruct (reachable_inv _ _ _ Hs Hr) as (ws & qs & Hi).
  destruct (proj1 (Forall_lookup _ _) (hv_conns _ (sv_h _ _ _ Hi)) _ _ He) as (_ & Hfd & Hp).
  split; [done|]. intros Hk. destruct (Hp Hk) as (hdr & Hh & Hpi).
  destruct (pi_upstream _ _ Hpi) as (u & Hu & _ & Htu & _).
  exists hdr, u. split_and!; try done; [apply (pi_to_client _ _ Hpi)|apply (pi_client_out _ _ Hpi)].
Qed.

(** Waking workers up, one after the other. *)
Lemma wake_workers l s ws qs :
  sys_inv s ws qs -> Forall (fun w => w_base (ws_w w) = true) ws ->
  Forall (fun i => (i < length ws)%nat) l ->
  exists s' ws' qs', wake_seq l s s' /\ sys_inv s' ws' qs' /\ length ws' = length ws /\
    sy_accepted s' = sy_accepted s /\
    (forall i, i ∈ l \/ qs !! i = Some [] -> qs' !! i = Some []).
Proof.
  intros Hs Hb Hl. revert s ws qs Hs Hb Hl. induction l as [|i l IH]; intros s ws qs Hs Hb Hl.
  - exists s, ws, qs. split_and!; try done; [constructor|]. intros i [Hi|Hi]; [by inversion Hi|done].
  - apply Forall_cons in Hl as [Hi Hl]. destruct (lookup_lt_is_Some_2 ws i Hi) as [w Hw].
    destruct (notify_ok _ _ _ _ _ Hs Hw) as (w' & Hn & Hbw & Hs2).
    pose proof (proj1 (Forall_lookup _ _) Hb _ _ Hw) as Hbase. simpl in Hbase.
    destruct (IH _ _ _ Hs2) as (s' & ws' & qs' & Hr & Hs' & Hlen & Hacc & Hq).
    { apply Forall_insert; [done|congruence]. }
    { by rewrite length_insert. }
    exists s', ws', qs'. rewrite length_insert in Hlen. split_and!; try done.
    + econstructor; [|exact Hr]. by econstructor; [apply (sv_ws _ _ _ Hs)|..].
    + assert (i < length qs)%nat as Hlt by (by rewrite <- (Forall2_length _ _ _ (sv_queues _ _ _ Hs))).
      intros j Hj. apply Hq. destruct (decide (j = i)) as [->|Hne].
      * right. by apply list_lookup_insert_eq.
      * rewrite list_lookup_insert_ne by done. destruct Hj as [Hj|Hj]; [|by right].
        apply elem_of_cons in Hj as [?|?]; [done|by left].
Qed.

(** C30: every accepted client is served or closed. From every state reached by
    whole callbacks whose workers have not been released, let every worker wake
    up once, in any order: each wake-up succeeds, no queue holds a message
    afterwards, nothing more has been accepted, and each accepted descriptor is
    then held by a live connection or has been closed. *)
Theorem sys_queues_drain : forall ws0 ctxs s ws order,
  start_ok ws0 ctxs -> rtc sys_step (sys_init ws0 ctxs) s ->
  p_workers (sy_pool s) = Some ws -> Forall (fun w => w_base (ws_w w) = true) ws ->
  order ≡ₚ seq 0 (length ws) ->
  exists s' ws', wake_seq order s s' /\ p_workers (sy_pool s') = Some ws' /\
    sy_accepted s' = sy_accepted s /\ Forall (fun w => queue_inv w []) ws' /\
    sy_accepted s ++ h_opened (sy_h s') ≡ₚ
      h_live (sy_h s') ++ workers_fds ws' ++ (sy_closed s' ++ workers_closed ws' ++ h_closed (sy_h s')).
Proof.
  intros ws0 ctxs s ws order Hs Hr Hws Hb Ho. destruct (reachable_inv _ _ _ Hs Hr) as (ws1 & qs & Hi).
  rewrite (sv_ws _ _ _ Hi) in Hws. injection Hws as ->.
  destruct (wake_workers order s ws qs Hi Hb) as (s' & ws' & qs' & Hr' & Hi' & Hl & Ha & Hq).
  { rewrite Ho. apply Forall_forall. intros i [_ ?]%elem_of_seq. lia. }
  pose proof (Forall2_length _ _ _ (sv_queues _ _ _ Hi')) as Hlq.
  assert (Forall (fun q => q = []) qs') as Hqs.
  { apply Forall_lookup. intros i q Hqi. assert (i < length ws)%nat as Hlt.
    { rewrite <- Hl, Hlq. by eapply lookup_lt_Some. }
    rewrite (Hq i) in Hqi; [by injection Hqi as <-|]. left. rewrite Ho. apply elem_of_seq. lia. }
  assert (queued qs' = []) as Hz.
  { clear -Hqs. unfold queued. induction Hqs as [|q qs -> _ IH]; [done|]. rewrite fmap_cons. cbn [concat].
    by rewrite IH. }
  exists s', ws'. split_and!; [done|apply Hi'|done| |].
  - apply Forall_lookup. intros i w Hw. destruct (Forall2_lookup_l _ _ _ _ _ (sv_queues _ _ _ Hi') Hw) as (q & Hqi & Hqw).
    by rewrite (proj1 (Forall_lookup _ _) Hqs _ _ Hqi) in Hqw.
  - apply occ_permutation. intros z. autorewrite with occ. pose proof (sv_account _ _ _ Hi' z) as Hacc.
    rewrite Hz, occ_nil, Ha in Hacc. lia.
Qed.
End system.


(** ** Witnesses: a client accepted and adopted by the only worker *)

Definition example_env : sys_env :=
  mk_env (fun _ => example_ados) (fun _ => example_os) (fun _ => 0) (fun _ d => Ok (len d))
    (fun _ d _ => Ok (len d)) (mk_host false false true) (fun _ _ => true).

Lemma example_env_ok : env_ok example_env.
Proof.
  split.
  - by intros _ fd [= <-].
  - by intros _ local n [= <- <-].
  - intros k. split; try done. intros fd [= <-]. split; [done|apply not_elem_of_nil].
Qed.

Definition sys_worker : wstate (hstate bview) :=
  mk_wstate ∅ ∅ example_worker [] (mk_h [] [] 0 [] [] false).

Lemma sys_worker_start : start_ok [sys_worker] [].
Proof.
  split; [done| |done]. apply Forall_singleton. split; [|done].
  split; [by apply heap_inv_empty|done].
Qed.

Definition sys_pool1 : worker_pool (hstate bview) :=
  Eval vm_compute in
    match accept_cb (Some 1%positive) None (tcp_route ENDPOINT_INET PROTO_TCP)
            (mk_pool (Some [sys_worker]) 1 0) 9 (Some (example_sa 40000 [x0a; x00; x00; x63])) 16 with
    | Some (p, _) => p
    | None => mk_pool None 0 0
    end.

Definition sys1 : system bview := mk_sys sys_pool1 (mk_h [] [] 0 [10; 11] [] false) [9] [].

Definition sys_queued : wstate (hstate bview) :=
  Eval vm_compute in match p_workers sys_pool1 with Some [w] => w | _ => sys_worker end.

Definition sys_adopted : wstate (hstate bview) :=
  Eval vm_compute in
    match @worker_notify_cb _ (sys_handlers example_pton (fun _ _ _ => None) example_env)
            (with_h sys_queued (sy_h sys1)) with
    | Some (_, w) => w
    | None => sys_worker
    end.

Definition sys2 : system bview :=
  mk_sys (mk_pool (Some [sys_adopted]) 1 1) (ws_h sys_adopted) [9] [].

Lemma sys1_reachable :
  rtc (sys_step copyout_all example_pton (fun _ _ _ => None) example_env) (sys_init [sys_worker] []) sys1.
Proof.
  apply rtc_once. apply (sy_accept copyout_all example_pton (fun _ _ _ => None) example_env
    (sys_init [sys_worker] []) (Some 1%positive) None (tcp_route ENDPOINT_INET PROTO_TCP) 9
    (Some (example_sa 40000 [x0a; x00; x00; x63])) 16 sys_pool1 []).
  - lia.
  - intros ws i w [= <-]. destruct i as [|i]; [by intros [= <-]|done].
  - intros l ws i w _ [= <-]. destruct i as [|i]; [by intros [= <-]|done].
  - vm_compute. reflexivity.
Qed.

Lemma sys2_reachable :
  rtc (sys_step copyout_all example_pton (fun _ _ _ => None) example_env) (sys_init [sys_worker] []) sys2.
Proof.
  eapply rtc_r; [exact sys1_reachable|].
  apply (sy_notify copyout_all example_pton (fun _ _ _ => None) example_env sys1 0).
  apply (nt_worker example_pton (fun _ _ _ => None) example_env 0 sys1 [sys_queued]
    sys_queued false sys_adopted); vm_compute; reflexivity.
Qed.


Lemma sys_streams_conserve_witness :
  exists e, h_conns (sy_h sys2) = [e] /\ sc_fd (e_msg e) = 9 /\
    v_fd (be_view (c_client (ps_conn (e_ps e)))) = 9.
Proof.
  destruct (h_conns (sy_h sys2)) as [|e l] eqn:E; [vm_compute in E; discriminate E|].
  destruct (sys_streams_conserve copyout_all example_pton (fun _ _ _ => None) example_env example_env_ok
    copyout_all_prefix [sys_worker] [] sys2 0 e sys_worker_start sys2_reachable) as [Hfd _];
    [by rewrite E|].
  exists e. vm_compute in E. injection E as <- <-. split; [reflexivity|]. split; [reflexivity|]. exact Hfd.
Defined.

Lemma sys_queues_drain_witness :
  exists s' ws', wake_seq example_pton (fun _ _ _ => None) example_env [0%nat] sys1 s' /\
    p_workers (sy_pool s') = Some ws' /\ sy_accepted s' = [9] /\ Forall (fun w => queue_inv w []) ws'.
Proof.
  destruct (sys_queues_drain copyout_all example_pton (fun _ _ _ => None) example_env example_env_ok
    copyout_all_prefix [sys_worker] [] sys1 [sys_queued] [0%nat] sys_worker_start sys1_reachable)
    as (s' & ws' & H1 & H2 & H3 & H4 & _).
  - reflexivity.
  - apply Forall_singleton. reflexivity.
  - reflexivity.
  - exists s', ws'. split; [exact H1|]. split; [exact H2|]. split; [exact H3|exact H4].
Defined.
