(* ===== verification/StreamRoute.v ===== *)
(** * Stream listeners and the route runtime ([stream_listener.c],
    [stream_route.c], [route_runtime.c])

    A stream route owns a libevent listener, which owns the listening socket
    (LEV_OPT_CLOSE_ON_FREE): the model's listener is that descriptor. The
    operations return the context and the system calls with an effect, in
    order; the answers of the system are in [slisten_os] ([None] is success).
    This is the code of the non-Windows build. *)

From S2P Require Import Prelude CString Endpoint RawUdp Bind Worker Datagram.

(** ** State *)

(** [accept_base] and [worker_pool] are handed through to libevent and to
    [accept_cb]; they are not represented. *)
Record stream_route_ctx : Type := mk_sctx {
  sr_route : option route;        (* NULL after memset *)
  sr_listener : option Z          (* the descriptor the listener owns *)
}.

Definition sctx_zero : stream_route_ctx := mk_sctx None None.

Inductive sact : Type :=
| SOpen (fd : Z)                  (* socket() returned fd *)
| SCloseFd (fd : Z)               (* evutil_closesocket, evconnlistener_free *)
| SUnlink (path : list byte)
| SErrorCb (fd : Z)               (* evconnlistener_set_error_cb *)
| SDisable (fd : Z)               (* evconnlistener_disable *)
| SLoopExit.                      (* event_base_loopexit(ctx->accept_base) *)

Record slisten_os : Type := mk_slos {
  sl_unlink : option Z;
  sl_socket : result Z;
  sl_reuseable : option Z;
  sl_nonblocking : option Z;
  sl_bind : nat -> option Z;
  sl_listen : option Z;
  sl_listener_new : option Z
}.

(** [err ? -err : -EIO] *)
Definition err_rc (err : Z) : Z := if err =? 0 then - EIO else - err.

(** ** [stream_listener.c] *)

Section listener.
Context (inet_pton : Z -> list byte -> option (list byte)) (so : slisten_os).

Definition sresult : Type := Z * stream_route_ctx * list sact.

(** [evconnlistener_new], the end of both functions. *)
Definition new_listener (ctx : stream_route_ctx) (fd : Z) (acts : list sact) : sresult :=
  match sl_listener_new so with
  | Some err => (err_rc err, ctx, acts ++ [SCloseFd fd])
  | None => (0, mk_sctx (sr_route ctx) (Some fd), acts)
  end.

(** The callback for a failed [accept]: the listener keeps its descriptor. *)
Definition accept_error_cb (listener : Z) : list sact := [SDisable listener; SLoopExit].

(** [None] only if the bind loop outlives its fuel. *)
Definition bind_tcp_stream_listener (ctx : stream_route_ctx) (r : route) : option sresult :=
  match endpoint_to_sockaddr inet_pton (r_listen r) with
  | Err rc => Some (rc, ctx, [])
  | Ok _ =>
      match sl_socket so with
      | Err err => Some (err_rc err, ctx, [])
      | Ok fd =>
          let fail rc := Some (rc, ctx, [SOpen fd; SCloseFd fd]) in
          match sl_reuseable so with Some err => fail (err_rc err) | None =>
          match sl_nonblocking so with Some err => fail (err_rc err) | None =>
          '(rc, _) ← bind_with_wait (sl_bind so) (r_opts r);
          if negb (rc =? 0) then fail rc else
          match sl_listen so with Some err => fail (err_rc err) | None =>
          Some (new_listener ctx fd [SOpen fd])
          end end end
      end
  end.

Definition bind_unix_stream_listener (ctx : stream_route_ctx) (r : route) : sresult :=
  let path := ep_path (r_listen r) in
  if path =s [] then (- EINVAL, ctx, []) else
  if PATH_SIZE <=? len path then (- ENAMETOOLONG, ctx, []) else
  let unlink_err := match sl_unlink so with
                    | Some e => if negb (e =? ENOENT) then Some e else None
                    | None => None
                    end in
  match unlink_err with
  | Some e => (- e, ctx, [SUnlink path])
  | None =>
      match sl_socket so with
      | Err err => (err_rc err, ctx, [SUnlink path])
      | Ok fd =>
          let fail rc := (rc, ctx, [SUnlink path; SOpen fd; SCloseFd fd]) in
          match sl_reuseable so with Some err => fail (- err) | None =>
          match sl_nonblocking so with Some err => fail (err_rc err) | None =>
          match sl_bind so 0 with Some err => fail (err_rc err) | None =>
          new_listener ctx fd [SUnlink path; SOpen fd]
          end end end
      end
  end.

Definition bind_stream_listener (ctx : stream_route_ctx) (r : route) : option sresult :=
  match ep_kind (r_listen r) with
  | ENDPOINT_INET | ENDPOINT_INET6 => bind_tcp_stream_listener ctx r
  | ENDPOINT_UNIX => Some (bind_unix_stream_listener ctx r)
  | _ => Some (- ENOTSUP, ctx, [])
  end.

(** ** [stream_route.c] *)

Definition start_stream_route (r : route) : option sresult :=
  '(rc, ctx, acts) ← bind_stream_listener (mk_sctx (Some r) None) r;
  if negb (rc =? 0) then Some (rc, sctx_zero, acts) else
  Some (0, ctx, acts ++ match sr_listener ctx with Some fd => [SErrorCb fd] | None => [] end).
End listener.

Definition stop_unix_stream_route (lstat : lstat_result) (ctx : stream_route_ctx) : list sact :=
  match sr_route ctx with
  | None => []
  | Some r =>
      if negb (bool_decide (ep_kind (r_listen r) = ENDPOINT_UNIX)) then [] else
      match ep_path (r_listen r) with
      | [] => []
      | path =>
          match lstat with
          | LstatErr _ => []
          | LstatOther => []
          | LstatSocket => [SUnlink path]
          end
      end
  end.

Definition stop_stream_route_listener (ctx : stream_route_ctx) : stream_route_ctx * list sact :=
  match sr_listener ctx with
  | Some fd => (mk_sctx (sr_route ctx) None, [SCloseFd fd])
  | None => (ctx, [])
  end.

Definition free_stream_route (lstat : lstat_result) (ctx : stream_route_ctx)
    : stream_route_ctx * list sact :=
  (sctx_zero, stop_unix_stream_route lstat ctx).

(** ** [route_runtime.c] *)

(** [enum route_ctx_kind] with the member of the union it selects. *)
Inductive route_ctx_u : Type :=
| ROUTE_CTX_NONE
| ROUTE_CTX_STREAM (s : stream_route_ctx)
| ROUTE_CTX_DATAGRAM (d : datagram_route_ctx).

Record route_ctx : Type := mk_rctx {
  rt_route : option route;
  rt_u : route_ctx_u
}.

Definition rctx_zero : route_ctx := mk_rctx None ROUTE_CTX_NONE.

Inductive ract : Type := RStream (a : sact) | RDgram (a : daction).

(** The answers of the system while one route starts. *)
Record route_os : Type := mk_ros {
  ro_stream : slisten_os;
  ro_dgram : listen_os;
  ro_raw_socket : result Z;
  ro_raw_setsockopt : Z -> option Z;
  ro_mutex_init : Z;
  ro_mkdir : option Z;
  ro_lstat : lstat_result
}.

Definition start_route (inet_pton : Z -> list byte -> option (list byte)) (h : host) (os : route_os)
    (r : route) : option (Z * route_ctx * list ract) :=
  let none := mk_rctx (Some r) ROUTE_CTX_NONE in
  if endpoint_is_stream (r_listen r) then
    '(rc, s, acts) ← start_stream_route inet_pton (ro_stream os) r;
    Some (rc, if negb (rc =? 0) then none else mk_rctx (Some r) (ROUTE_CTX_STREAM s),
          map RStream acts)
  else if endpoint_is_datagram (r_listen r) then
    '(rc, d, acts) ← start_datagram_route inet_pton (ro_dgram os) h (ro_raw_socket os)
                       (ro_raw_setsockopt os) (ro_mutex_init os) (ro_mkdir os) (ro_lstat os) r;
    Some (rc, if negb (rc =? 0) then none else mk_rctx (Some r) (ROUTE_CTX_DATAGRAM d),
          map RDgram acts)
  else Some (- EINVAL, none, []).

Definition stop_route_listeners (ctx : route_ctx) : route_ctx * list ract :=
  match rt_u ctx with
  | ROUTE_CTX_STREAM s =>
      let '(s, acts) := stop_stream_route_listener s in
      (mk_rctx (rt_route ctx) (ROUTE_CTX_STREAM s), map RStream acts)
  | ROUTE_CTX_DATAGRAM d =>
      let '(d, acts) := stop_datagram_route_listener d in
      (mk_rctx (rt_route ctx) (ROUTE_CTX_DATAGRAM d), map RDgram acts)
  | ROUTE_CTX_NONE => (ctx, [])
  end.

Definition free_route (lstat : lstat_result) (ctx : route_ctx) : route_ctx * list ract :=
  match rt_u ctx with
  | ROUTE_CTX_STREAM s => (rctx_zero, map RStream (free_stream_route lstat s).2)
  | ROUTE_CTX_DATAGRAM d => (rctx_zero, map RDgram (free_datagram_route lstat d).2)
  | ROUTE_CTX_NONE => (rctx_zero, [])
  end.

(** ** Ownership of descriptors *)

Definition sopens (acts : list sact) : list Z :=
  omap (fun a => match a with SOpen fd => Some fd | _ => None end) acts.

Definition scloses (acts : list sact) : list Z :=
  omap (fun a => match a with SCloseFd fd => Some fd | _ => None end) acts.

Definition listener_fds (ctx : stream_route_ctx) : list Z := option_list (sr_listener ctx).

(** The descriptors closed, over both kinds of routes. *)
Definition rcloses (acts : list ract) : list Z :=
  omap (fun a => match a with
                 | RStream (SCloseFd fd) | RDgram (DClose fd) => Some fd
                 | _ => None
                 end) acts.

(** The descriptors a datagram context owns: its clients', the raw socket and
    the listening socket. *)
Definition dgram_fds (d : datagram_route_ctx) : list Z :=
  List.filter (Z.leb 0) (cl_fd <$> dc_clients d) ++
  List.filter socket_is_valid [dc_raw_fd d; dc_listen_fd d].

(** The descriptors only the accepting thread uses, and those the workers use. *)
Definition accept_fds (ctx : route_ctx) : list Z :=
  match rt_u ctx with ROUTE_CTX_STREAM s => listener_fds s | _ => [] end.

Definition shared_fds (ctx : route_ctx) : list Z :=
  match rt_u ctx with ROUTE_CTX_DATAGRAM d => dgram_fds d | _ => [] end.

(** *** The lemmas *)

Section facts.
Context (inet_pton : Z -> list byte -> option (list byte)) (so : slisten_os).

(** A failed call leaves a non-zero [errno]. *)
Definition errno_set : Prop :=
  sl_unlink so <> Some 0 /\ sl_reuseable so <> Some 0.

(** What a bind function promises: the context owns the descriptor it opened,
    or whatever was opened is closed again. *)
Definition listener_outcome (ctx : stream_route_ctx) (o : sresult) : Prop :=
  let '(rc, ctx', acts) := o in
  (rc = 0 /\ exists fd, ctx' = mk_sctx (sr_route ctx) (Some fd) /\ sopens acts = [fd] /\
     scloses acts = []) \/
  (rc <> 0 /\ ctx' = ctx /\ sopens acts = scloses acts /\ (length (sopens acts) <= 1)%nat).

Lemma err_rc_nonzero e : err_rc e <> 0.
Proof. unfold err_rc, EIO. case_if; bool_to_prop; lia. Qed.

Lemma opp_nonzero e : Some e <> Some 0 -> - e <> 0.
Proof. intros Hn E. apply Hn. f_equal. lia. Qed.

Lemma new_listener_outcome ctx fd acts :
  sopens acts = [fd] -> scloses acts = [] ->
  listener_outcome ctx (new_listener so ctx fd acts).
Proof.
  intros Ho Hc. unfold new_listener, listener_outcome. destruct (sl_listener_new so) as [e|].
  - right. unfold sopens, scloses in *. rewrite !omap_app, Ho, Hc. simpl.
    split_and!; [apply err_rc_nonzero|done|done|lia].
  - left. eauto 10.
Qed.

Lemma failed_outcome ctx rc acts :
  rc <> 0 -> sopens acts = scloses acts -> (length (sopens acts) <= 1)%nat ->
  listener_outcome ctx (rc, ctx, acts).
Proof. intros. by right. Qed.

Lemma bind_unix_outcome ctx r :
  errno_set -> listener_outcome ctx (bind_unix_stream_listener so ctx r).
Proof.
  intros [Hu Hr]. unfold bind_unix_stream_listener.
  destruct (ep_path _ =s []); [by apply failed_outcome; simpl; auto with lia|].
  destruct (PATH_SIZE <=? _); [by apply failed_outcome; simpl; auto with lia|].
  destruct (match sl_unlink so with Some _ => _ | None => _ end) as [e|] eqn:Eu.
  { apply failed_outcome; [|done|simpl; lia]. destruct (sl_unlink so) as [e'|]; [|done].
    case_if_in Eu; [|done]. injection Eu as ->. by apply opp_nonzero. }
  destruct (sl_socket so) as [fd|e]; [|by apply failed_outcome; simpl; auto using err_rc_nonzero with lia].
  destruct (sl_reuseable so) as [e|]; [by apply failed_outcome; simpl; auto using opp_nonzero with lia|].
  destruct (sl_nonblocking so) as [e|]; [by apply failed_outcome; simpl; auto using err_rc_nonzero with lia|].
  destruct (sl_bind so 0) as [e|]; [by apply failed_outcome; simpl; auto using err_rc_nonzero with lia|].
  by apply new_listener_outcome.
Qed.

(** With a wait that does not overflow, the TCP case returns too. *)
Lemma bind_tcp_outcome ctx r :
  0 <= opt_bind_wait_sec (r_opts r) <= 2147483 ->
  exists o, bind_tcp_stream_listener inet_pton so ctx r = Some o /\ listener_outcome ctx o.
Proof.
  intros Hw. unfold bind_tcp_stream_listener.
  destruct (endpoint_to_sockaddr _ _) as [sa|rc] eqn:Ea.
  2: { apply endpoint_to_sockaddr_err in Ea as ->. eexists. split; [done|].
       by apply failed_outcome; simpl; auto with lia. }
  assert (forall fd rc, rc <> 0 -> exists o, Some (rc, ctx, [SOpen fd; SCloseFd fd]) = Some o /\
    listener_outcome ctx o) as Hfail.
  { intros fd rc Hrc. eexists. split; [done|]. apply failed_outcome; simpl; auto with lia. }
  destruct (sl_socket so) as [fd|e].
  2: { eexists. split; [done|]. apply failed_outcome; simpl; auto using err_rc_nonzero with lia. }
  destruct (sl_reuseable so) as [e|]; [apply Hfail, err_rc_nonzero|].
  destruct (sl_nonblocking so) as [e|]; [apply Hfail, err_rc_nonzero|].
  destruct (bind_with_wait_run (sl_bind so) (r_opts r) Hw) as (rc & n & -> & _). cbn [mbind option_bind].
  destruct (Z.eqb_spec rc 0) as [->|Hrc]; cbn [negb]; [|by apply Hfail].
  destruct (sl_listen so) as [e|]; [apply Hfail, err_rc_nonzero|].
  eexists. split; [done|]. by apply new_listener_outcome.
Qed.

Lemma bind_stream_outcome ctx r :
  errno_set -> 0 <= opt_bind_wait_sec (r_opts r) <= 2147483 ->
  exists o, bind_stream_listener inet_pton so ctx r = Some o /\ listener_outcome ctx o.
Proof.
  intros He Hw. unfold bind_stream_listener. destruct (ep_kind (r_listen r)).
  1, 2: by apply bind_tcp_outcome.
  1: eexists; split; [done|]; by apply bind_unix_outcome.
  all: eexists; split; [done|]; apply failed_outcome; simpl; auto with lia.
Qed.

Lemma start_stream_outcome r :
  errno_set -> 0 <= opt_bind_wait_sec (r_opts r) <= 2147483 ->
  exists rc ctx acts, start_stream_route inet_pton so r = Some (rc, ctx, acts) /\
    ((rc = 0 /\ exists fd, ctx = mk_sctx (Some r) (Some fd) /\ sopens acts = [fd] /\
        scloses acts = [] /\ SErrorCb fd ∈ acts) \/
     (rc <> 0 /\ ctx = sctx_zero /\ sopens acts = scloses acts /\ (length (sopens acts) <= 1)%nat)).
Proof.
  intros He Hw. unfold start_stream_route.
  destruct (bind_stream_outcome (mk_sctx (Some r) None) r He Hw) as ([[rc ctx] acts] & -> & Ho).
  cbn [mbind option_bind]. destruct Ho as [(-> & fd & -> & Ho & Hc)|(Hrc & -> & Ho & Hl)].
  - eexists _, _, _. split; [done|]. left. split; [done|]. exists fd. unfold sopens, scloses in *.
    rewrite !omap_app, Ho, Hc. simpl. split_and!; [done..|]. apply elem_of_app. right. by left.
  - rewrite (proj2 (Z.eqb_neq _ _)) by done. cbn [negb]. eexists _, _, _. split; [done|]. by right.
Qed.
End facts.

Lemma scloses_app a b : scloses (a ++ b) = scloses a ++ scloses b.
Proof. apply omap_app. Qed.

Lemma rcloses_app a b : rcloses (a ++ b) = rcloses a ++ rcloses b.
Proof. apply omap_app. Qed.

Lemma rcloses_stream acts : rcloses (map RStream acts) = scloses acts.
Proof. induction acts as [|a acts IH]; [done|]. destruct a; simpl; by rewrite ?IH. Qed.

Lemma stop_unix_stream_closes lstat ctx : scloses (stop_unix_stream_route lstat ctx) = [].
Proof.
  unfold stop_unix_stream_route. destruct (sr_route ctx) as [r|]; [|done]. case_if; [done|].
  by destruct (ep_path (r_listen r)), lstat.
Qed.

Lemma stop_stream_closes ctx :
  scloses (stop_stream_route_listener ctx).2 = listener_fds ctx /\
  listener_fds (stop_stream_route_listener ctx).1 = [].
Proof. unfold stop_stream_route_listener, listener_fds. by destruct (sr_listener ctx) eqn:E; simpl; rewrite ?E. Qed.

Lemma accept_errors_closes fds n :
  scloses (concat (replicate n (concat (accept_error_cb <$> fds)))) = [].
Proof.
  assert (scloses (concat (accept_error_cb <$> fds)) = []) as Hf by (by induction fds).
  induction n as [|n IH]; [done|]. rewrite replicate_S. cbn [concat]. by rewrite scloses_app, Hf, IH.
Qed.

(** C26: the life of a stream route. Whatever the system calls answer, starting
    the route returns, and if it is then stopped and freed, every descriptor
    that [socket] returned is closed exactly once, on the error paths of the
    start as well, and however many times accepting a client failed in between;
    the start succeeds exactly when the route owns a listener, and the listening
    socket is not closed before the stop. *)
Theorem stream_route_lifecycle : forall inet_pton so r lstat n,
  errno_set so -> 0 <= opt_bind_wait_sec (r_opts r) <= 2147483 ->
  exists rc ctx acts, start_stream_route inet_pton so r = Some (rc, ctx, acts) /\
    let '(ctx1, stopped) := stop_stream_route_listener ctx in
    let '(ctx2, freed) := free_stream_route lstat ctx1 in
    let failed := concat (replicate n (concat (accept_error_cb <$> listener_fds ctx))) in
    ctx2 = sctx_zero /\ (length (sopens acts) <= 1)%nat /\
    sopens acts = scloses (acts ++ failed ++ stopped ++ freed) /\
    (rc = 0 <-> sr_listener ctx <> None) /\ (rc = 0 -> scloses acts = []).
Proof.
  intros inet_pton so r lstat n He Hw.
  destruct (start_stream_outcome inet_pton so r He Hw) as (rc & ctx & acts & Hs & Ho).
  exists rc, ctx, acts. split; [done|].
  destruct (stop_stream_closes ctx) as [Hc1 Hc2].
  destruct (stop_stream_route_listener ctx) as [ctx1 stopped] eqn:E1. simpl in *.
  rewrite !scloses_app, accept_errors_closes, Hc1, stop_unix_stream_closes, app_nil_r. simpl.
  destruct Ho as [(-> & fd & -> & Ho & Hc & _)|(Hrc & -> & Ho & Hl)].
  - rewrite Ho, Hc. split_and!; try done; simpl; lia.
  - rewrite Ho, app_nil_r. split_and!; try done. by rewrite <- Ho.
Qed.

Definition example_slos : slisten_os :=
  mk_slos None (Ok 5) None None (fun _ => None) None (Some 12).

Lemma stream_route_lifecycle_witness :
  exists rc ctx acts,
    start_stream_route (fun _ _ => None) example_slos
      (mk_route (mk_endpoint ENDPOINT_UNIX [] 0 PROTO_UNIX_STREAM (str "/run/p") X_BUILTIN_NONE)
        endpoint_zero (mk_opts false false false 60 5 0 BROADCAST_REPLY_OFF) 1) = Some (rc, ctx, acts) /\
    (length (sopens acts) <= 1)%nat.
Proof.
  destruct (stream_route_lifecycle (fun _ _ => None) example_slos
    (mk_route (mk_endpoint ENDPOINT_UNIX [] 0 PROTO_UNIX_STREAM (str "/run/p") X_BUILTIN_NONE)
      endpoint_zero (mk_opts false false false 60 5 0 BROADCAST_REPLY_OFF) 1) LstatSocket 2)
    as (rc & ctx & acts & H1 & H2); [split; discriminate|simpl; lia|].
  exists rc, ctx, acts. split; [exact H1|].
  destruct (stop_stream_route_listener ctx) as [c1 a1].
  destruct (free_stream_route LstatSocket c1) as [c2 a2]. exact (proj1 (proj2 H2)).
Defined.

(** *** Both kinds of routes *)

Lemma rcloses_dgram acts :
  rcloses (map RDgram acts) = omap (fun a => match a with DClose fd => Some fd | _ => None end) acts.
Proof. induction acts as [|a acts IH]; [done|]. destruct a; simpl; by rewrite ?IH. Qed.

(** Stopping closes what the accepting thread owns and nothing the workers use. *)
Lemma stop_route_closes ctx :
  rcloses (stop_route_listeners ctx).2 = accept_fds ctx /\
  shared_fds (stop_route_listeners ctx).1 = shared_fds ctx.
Proof.
  unfold stop_route_listeners, accept_fds, shared_fds. destruct (rt_u ctx) as [|s|d] eqn:E; simpl.
  - by rewrite E.
  - destruct (stop_stream_closes s) as [Hc _].
    destruct (stop_stream_route_listener s) as [s' a]. simpl in *. by rewrite rcloses_stream.
  - unfold stop_datagram_route_listener. destruct (dc_listen_ev d); done.
Qed.

Lemma free_client_fds c :
  omap (fun a => match a with DClose fd => Some fd | _ => None end) (free_datagram_client c) =
  List.filter (Z.leb 0) [cl_fd c].
Proof.
  unfold free_datagram_client. rewrite !omap_app. simpl.
  destruct (cl_ev c), (0 <=? cl_fd c), (cl_unix_local_path c); done.
Qed.

(** Freeing closes what the workers used: clients, raw socket, listener. *)
Lemma free_route_closes lstat ctx : rcloses (free_route lstat ctx).2 = shared_fds ctx.
Proof.
  unfold free_route, shared_fds. destruct (rt_u ctx) as [|s|d]; simpl; [done| |].
  - by rewrite rcloses_stream, stop_unix_stream_closes.
  - rewrite rcloses_dgram, !omap_app.
    assert (forall cs, omap (fun a => match a with DClose fd => Some fd | _ => None end)
      (concat (map free_datagram_client cs)) = List.filter (Z.leb 0) (cl_fd <$> cs)) as ->.
    { induction cs as [|c cs IH]; [done|]. simpl. rewrite omap_app, IH, free_client_fds. simpl.
      by destruct (0 <=? cl_fd c). }
    unfold dgram_fds. f_equal. simpl.
    assert (omap (fun a => match a with DClose fd => Some fd | _ => None end)
      (stop_unix_datagram_route lstat (dc_route d)) = []) as ->.
    { unfold stop_unix_datagram_route. case_if; [done|].
      by destruct (ep_path (r_listen (dc_route d))), lstat. }
    destruct (socket_is_valid (dc_raw_fd d)), (dc_listen_ev d), (socket_is_valid (dc_listen_fd d)); done.
Qed.
