(* ===== verification/Platform.v ===== *)
(** * Signals, threads and the compatibility layer ([signals.c],
    [compat_thread.c], [compat.h], [sleep_ms] of [compat_cpu.c])

    These files wrap the platform. What the platform answers is an argument; the
    definitions follow both branches of the conditional compilation, and say
    which resources a call leaves behind. *)

From S2P Require Import Prelude CString Endpoint.

Inductive platform : Type := Posix | Windows.

(** ** Socket errors ([compat.h]) *)

Definition EINTR : Z := 4.
Definition EWOULDBLOCK : Z := EAGAIN.
Definition WSAEINTR : Z := 10004.
Definition WSAEACCES : Z := 10013.
Definition WSAEINVAL : Z := 10022.
Definition WSAEWOULDBLOCK : Z := 10035.
Definition WSAEMSGSIZE : Z := 10040.
Definition WSAEADDRNOTAVAIL : Z := 10049.
Definition WSAENETUNREACH : Z := 10051.
Definition WSAENOBUFS : Z := 10055.
Definition WSAEHOSTUNREACH : Z := 10065.

Definition socket_err_is_retriable (pl : platform) (err : Z) : bool :=
  match pl with
  | Windows => (err =? WSAEWOULDBLOCK) || (err =? WSAEINTR)
  | Posix => (err =? EAGAIN) || (err =? EWOULDBLOCK) || (err =? EINTR)
  end.

(** The errno values of the Windows C library. *)
Definition W_EIO : Z := 5.
Definition W_EACCES : Z := 13.
Definition W_EINVAL : Z := 22.
Definition W_EADDRNOTAVAIL : Z := 101.
Definition W_EHOSTUNREACH : Z := 110.
Definition W_EMSGSIZE : Z := 115.
Definition W_ENETUNREACH : Z := 118.
Definition W_ENOBUFS : Z := 119.

(** [err] is [WSAGetLastError()] or [errno]. *)
Definition compat_socket_errno (pl : platform) (err : Z) : Z :=
  match pl with
  | Posix => err
  | Windows =>
      if err =? WSAEACCES then W_EACCES
      else if err =? WSAEINVAL then W_EINVAL
      else if err =? WSAEADDRNOTAVAIL then W_EADDRNOTAVAIL
      else if err =? WSAEMSGSIZE then W_EMSGSIZE
      else if err =? WSAENETUNREACH then W_ENETUNREACH
      else if err =? WSAEHOSTUNREACH then W_EHOSTUNREACH
      else if err =? WSAENOBUFS then W_ENOBUFS
      else W_EIO
  end.

(** A caller that returns [-compat_socket_errno()] reports a failure, even when
    Windows has recorded no error; a retriable error is never one of those it
    reports by name. *)
Lemma compat_socket_errno_positive pl err :
  (pl = Posix -> 0 < err) -> 0 < compat_socket_errno pl err.
Proof. destruct pl; intros H; simpl; [by apply H|]. by repeat case_if. Qed.

Lemma retriable_unnamed err :
  socket_err_is_retriable Windows err = true -> compat_socket_errno Windows err = W_EIO.
Proof.
  unfold socket_err_is_retriable. intros [E|E]%orb_true_iff; apply Z.eqb_eq in E; by subst err.
Qed.

(** ** Sleeping *)

Record timespec : Type := mk_ts { tv_sec : Z; tv_nsec : Z }.

Definition ts_ns (ts : timespec) : Z := tv_sec ts * 1000000000 + tv_nsec ts.

Definition sleep_ts (ms : Z) : timespec := mk_ts (Z.quot ms 1000) (Z.rem ms 1000 * 1000000).

(** [nanosleep(&ts, &ts)] answers: interrupted, with the remaining time in
    [ts]; or the end of the sleep. An exhausted list is the end. The result is
    the time slept. *)
Fixpoint sleep_loop (answers : list timespec) (ts : timespec) : Z :=
  match answers with
  | [] => ts_ns ts
  | rest :: answers => (ts_ns ts - ts_ns rest) + sleep_loop answers rest
  end.

Definition sleep_ms (answers : list timespec) (ms : Z) : Z := sleep_loop answers (sleep_ts ms).

(** However often a signal interrupts it, the call sleeps [ms] milliseconds
    (an [unsigned int]), and the nanoseconds it passes are in range. *)
Lemma sleep_ms_exact answers ms :
  0 <= ms < 2 ^ 32 ->
  sleep_ms answers ms = ms * 1000000 /\ 0 <= tv_nsec (sleep_ts ms) < 1000000000.
Proof.
  intros Hm. assert (forall ts, sleep_loop answers ts = ts_ns ts) as Hl.
  { induction answers as [|rest answers IH]; intros ts; [done|]. simpl. rewrite IH. lia. }
  unfold sleep_ms. rewrite Hl. unfold ts_ns, sleep_ts. simpl.
  pose proof (Z.quot_rem ms 1000 ltac:(lia)). pose proof (Z.rem_bound_pos ms 1000 ltac:(lia) ltac:(lia)). lia.
Qed.

(** ** Threads ([compat_thread.c]) *)

(** What happens to the block that carries [fn] and [arg] to a new thread. *)
Inductive tev : Type := TAlloc | TFree | TRun.

#[export] Instance tev_eq_dec : EqDecision tev.
Proof. solve_decision. Defined.

(** The code a new thread runs on Windows. *)
Definition compat_thread_trampoline : list tev := [TFree; TRun].

(** Return code and what was done, with the new thread's part. [created] is the
    error of [CreateThread] or [pthread_create], or the success. *)
Definition win_thread_create (thread fn malloc : bool) (created : option Z) : Z * list tev :=
  if negb thread || negb fn then (EINVAL, []) else
  if negb malloc then (ENOMEM, []) else
  match created with
  | None => (0, TAlloc :: compat_thread_trampoline)
  | Some e => (e, [TAlloc; TFree])
  end.

Definition posix_thread_create (thread fn : bool) (created : option Z) : Z * list tev :=
  if negb thread || negb fn then (EINVAL, []) else
  match created with None => (0, [TRun]) | Some e => (e, []) end.

Definition compat_thread_create (pl : platform) (thread fn malloc : bool) (created : option Z)
    : Z * list tev :=
  match pl with
  | Windows => win_thread_create thread fn malloc created
  | Posix => posix_thread_create thread fn created
  end.

(** [handle] is not NULL; [waited] is the error of the wait. The second result
    is true when the handle was closed. *)
Definition win_thread_join (handle : bool) (waited : option Z) : Z * bool :=
  if negb handle then (EINVAL, false) else
  match waited with Some e => (e, false) | None => (0, true) end.

Definition posix_thread_join (waited : option Z) : Z := default 0 waited.

Definition times (e : tev) (l : list tev) : nat := length (List.filter (fun x => bool_decide (x = e)) l).

(** The start block is freed exactly once whenever it was allocated, by the new
    thread or by the caller, and [fn] runs once exactly when the call returns
    0. *)
Lemma thread_create_balanced pl thread fn malloc created :
  (forall e, created = Some e -> e <> 0) ->
  let '(rc, evs) := compat_thread_create pl thread fn malloc created in
  times TFree evs = times TAlloc evs /\ (rc = 0 <-> times TRun evs = 1%nat) /\ (times TRun evs <= 1)%nat.
Proof.
  intros Hc. destruct created as [e|]; [specialize (Hc e eq_refl)|];
    destruct pl, thread, fn, malloc; vm_compute; (split; [done|split; [|lia]]); split; intros; lia || congruence.
Qed.

(** ** Mutexes *)

Inductive mutex : Type := MUninit | MFree | MLocked.

(** [err] is the answer of [pthread_mutex_init]; [InitializeCriticalSection]
    cannot fail. *)
Definition posix_mutex_init (m : option mutex) (err : Z) : Z * option mutex :=
  match m with
  | None => (EINVAL, None)
  | Some m => if err =? 0 then (0, Some MFree) else (err, Some m)
  end.

Definition win_mutex_init (m : option mutex) : Z * option mutex :=
  match m with
  | None => (EINVAL, None)
  | Some _ => (0, Some MFree)
  end.

Definition compat_mutex_init (pl : platform) (m : option mutex) (err : Z) : Z * option mutex :=
  match pl with Posix => posix_mutex_init m err | Windows => win_mutex_init m end.

(** [None]: a mutex that is not initialised, or that the thread holds. *)
Definition compat_mutex_lock (m : mutex) : option mutex :=
  match m with MFree => Some MLocked | _ => None end.
Definition compat_mutex_unlock (m : mutex) : option mutex :=
  match m with MLocked => Some MFree | _ => None end.
Definition compat_mutex_destroy (m : mutex) : option mutex :=
  match m with MFree => Some MUninit | _ => None end.

(** ** Signals ([signals.c]) *)

Definition SIGINT : Z := 2.
Definition SIGTERM : Z := 15.

(** An event: NULL, or whether it is pending. *)
Record signal_events : Type := mk_signals {
  sigint_ev : option bool;
  sigterm_ev : option bool
}.

Definition signals_zero : signal_events := mk_signals None None.

(** The name in the log record, and the call of [event_base_loopbreak]. *)
Definition signal_cb (sig : Z) : list byte * bool :=
  (if sig =? SIGINT then str "SIGINT" else if sig =? SIGTERM then str "SIGTERM" else str "unknown", true).

Section signals.
(** libevent's [event_free]: it is documented for an event that [event_new]
    returned, which it releases; nothing is documented for NULL. The argument is
    the event (NULL is [None]); [None] is a call that does not return. *)
Context (event_free : option bool -> option unit).

Definition free_signal_handlers (signals : option signal_events) : option (option signal_events) :=
  match signals with
  | None => Some None
  | Some s =>
      _ ← event_free (sigint_ev s);
      _ ← event_free (sigterm_ev s);
      Some (Some signals_zero)
  end.

(** The answers of [evsignal_new] (not NULL) and [event_add] (0) for the two
    signals. *)
Record signals_os : Type := mk_sigos {
  so_new_int : bool;
  so_new_term : bool;
  so_add_int : bool;
  so_add_term : bool
}.

(** Return code and the structure; [None] if [event_free] does not return. *)
Definition setup_signal_handlers (base : bool) (signals : option signal_events) (os : signals_os)
    : option (Z * option signal_events) :=
  let fail s := s' ← free_signal_handlers (Some s); Some (-1, s') in
  match signals with
  | None => Some (-1, None)
  | Some _ =>
      if negb base then Some (-1, signals) else
      if negb (so_new_int os) then fail signals_zero else
      let s := mk_signals (Some false) None in
      if negb (so_new_term os) then fail s else
      let s := mk_signals (Some false) (Some false) in
      if negb (so_add_int os) then fail s else
      let s := mk_signals (Some true) (Some false) in
      if negb (so_add_term os) then fail s else
      Some (0, Some (mk_signals (Some true) (Some true)))
  end.

Hypothesis event_free_event : forall pending, event_free (Some pending) = Some tt.

(** What the call relies on: both events can be created, or [event_free] accepts
    NULL although that is not documented. *)
Definition signals_safe (os : signals_os) : Prop :=
  so_new_int os && so_new_term os = true \/ event_free None = Some tt.

Lemma free_signals_returns pending_int pending_term :
  free_signal_handlers (Some (mk_signals (Some pending_int) (Some pending_term))) = Some (Some signals_zero).
Proof. unfold free_signal_handlers. simpl. by rewrite !event_free_event. Qed.

(** Then it returns 0 with both events pending exactly when everything
    succeeded, and -1 with nothing left otherwise. *)
Lemma setup_signals_returns s os :
  signals_safe os ->
  setup_signal_handlers true (Some s) os =
    Some (if so_new_int os && so_new_term os && so_add_int os && so_add_term os
          then (0, Some (mk_signals (Some true) (Some true)))
          else (-1, Some signals_zero)).
Proof.
  unfold setup_signal_handlers, free_signal_handlers, signals_safe.
  destruct os as [[] [] [] []]; simpl; rewrite ?event_free_event; simpl; try done;
    (intros [?| ->]; [done|]); by rewrite ?event_free_event.
Qed.

(** With a NULL that [event_free] does not survive, the failure of
    [evsignal_new] for SIGINT ends the program before its error message. *)
Lemma setup_signals_null s os :
  event_free None = None -> so_new_int os = false -> setup_signal_handlers true (Some s) os = None.
Proof. intros Hn Hi. unfold setup_signal_handlers. rewrite Hi. simpl. by rewrite Hn. Qed.
End signals.
