(* ===== verification/Main.v ===== *)
(** * The main program ([main] of [tinyproxy.c], [load_routes_from_file],
    [compat_cpu_count], [tinyproxy_runtime_dir])

    [main] is cut at its own seams: the option loop, the checks after it, the
    loading of the routes, the start-up, the event loop (an argument: what it
    does to the contexts and to the workers until it returns) and the code
    after the label [out]. What [main] does to the outside is its trace. *)

From stdpp Require Import gmap.
From S2P Require Import Prelude CString Endpoint FileConf RawUdp Worker WorkerFacts WorkerPool Datagram StreamRoute Platform.

(** ** Environment *)

(** [sysconf(_SC_NPROCESSORS_ONLN)] is the argument. *)
Definition compat_cpu_count (n : Z) : Z := if (n <? 1) || (INT_MAX <? n) then 1 else n.

Definition TINYPROXY_DEFAULT_RUNTIME_DIR : list byte := str "/tmp/tinyproxy".

(** [getenv] of TINYPROXY_RUNTIME_DIR is the argument. *)
Definition tinyproxy_runtime_dir (v : option (list byte)) : list byte :=
  match v with
  | Some (c :: s) => c :: s
  | _ => TINYPROXY_DEFAULT_RUNTIME_DIR
  end.

(** ** The options *)

(** What [getopt(argc, argv, "c:L:w:h:v")] returns, with [optarg]. *)
Inductive getopt_item : Type :=
| Opt_w (optarg : list byte)
| Opt_c (optarg : list byte)
| Opt_L (optarg : list byte)
| Opt_h
| Opt_v
| Opt_other.

Record main_opts : Type := mk_mopts {
  mo_conf_path : option (list byte);
  mo_inline_routes : list (list byte);
  mo_inline_cap : Z;
  mo_worker_count : Z                     (* size_t *)
}.

Definition main_opts_init : main_opts := mk_mopts None [] 0 1.

(** [None] is the exit with status 2. *)
Definition parse_worker_count (cpus : Z) (optarg : list byte) : option Z :=
  match optarg with
  | [] => None
  | _ =>
      let '(n, rest, errno) := strtoul optarg in
      if (errno =? ERANGE) || (length rest =? length optarg)%nat || negb (rest =s []) || (INT_MAX <? n)
      then None
      else Some (if n =? 0 then compat_cpu_count cpus - 1 else n)
  end.

Section options.
(** [sysconf], and whether [realloc] of so many bytes succeeds. *)
Context (cpus : Z) (realloc_ok : Z -> bool).

(** One round of the loop: the exit status, or the variables after it. *)
Definition main_option (o : getopt_item) (m : main_opts) : Z + main_opts :=
  match o with
  | Opt_w arg =>
      match parse_worker_count cpus arg with
      | None => inl 2
      | Some n => inr (mk_mopts (mo_conf_path m) (mo_inline_routes m) (mo_inline_cap m) n)
      end
  | Opt_c arg =>
      match arg with
      | [] => inl 2
      | _ => inr (mk_mopts (Some arg) (mo_inline_routes m) (mo_inline_cap m) (mo_worker_count m))
      end
  | Opt_L arg =>
      match arg with
      | [] => inl 2
      | _ =>
          let cap := mo_inline_cap m in
          let new_cap := if cap =? 0 then 4 else cap * 2 in
          let push cap := inr (mk_mopts (mo_conf_path m) (mo_inline_routes m ++ [arg]) cap
                                 (mo_worker_count m)) in
          if len (mo_inline_routes m) =? cap
          then if realloc_ok (new_cap * 8) then push new_cap else inl 1
          else push cap
      end
  | Opt_h | Opt_v => inl 0
  | Opt_other => inl 2
  end.

Fixpoint main_options (opts : list getopt_item) (m : main_opts) : Z + main_opts :=
  match opts with
  | [] => inr m
  | o :: opts =>
      match main_option o m with
      | inl code => inl code
      | inr m => main_options opts m
      end
  end.

(** The option loop and the checks after it; [rest] is [optind != argc]. *)
Definition main_args (opts : list getopt_item) (rest : bool) : Z + main_opts :=
  match main_options opts main_opts_init with
  | inl code => inl code
  | inr m =>
      match mo_conf_path m, mo_inline_routes m with
      | None, [] => inl 0
      | Some _, _ :: _ => inl 2
      | _, _ => if rest then inl 2 else inr m
      end
  end.
End options.

(** ** Loading the routes *)

(** The loop over the inline routes from the [i]-th on. [routes] is zeroed by
    [calloc]; [strdup i] is false when the copy fails. *)
Fixpoint load_inline (strdup : nat -> bool) (i : nat) (lines : list (list byte)) : result (list route) :=
  match lines with
  | [] => Ok []
  | line :: lines =>
      if negb (strdup i) then Err (- ENOMEM) else
      let '(rc, r) := parse_route_line line (set_line_no (u32 (Z.of_nat i + 1)) route_zero) in
      if negb (rc =? 0) then Err rc else
      rs ← load_inline strdup (S i) lines; mret (r :: rs)
  end.

(** The answers while the file is read. [fread] is the bytes read and, when
    they are too few, [errno] if [ferror] is set. *)
Record file_os : Type := mk_fos {
  fo_fopen : option Z;
  fo_seek_end : option Z;
  fo_ftell : result Z;
  fo_seek_set : option Z;
  fo_malloc : bool;
  fo_fread : list byte;
  fo_ferror : option Z
}.

Definition load_routes_from_file (realloc_ok : Z -> bool) (fo : file_os) : option (result (list route)) :=
  match fo_fopen fo with Some e => Some (Err (- e)) | None =>
  match fo_seek_end fo with Some e => Some (Err (- e)) | None =>
  match fo_ftell fo with Err e => Some (Err (- e)) | Ok file_size =>
  match fo_seek_set fo with Some e => Some (Err (- e)) | None =>
  if 0 <? file_size then
    if negb (fo_malloc fo) then Some (Err (- ENOMEM)) else
    let data := take (Z.to_nat file_size) (fo_fread fo) in
    if negb (len data =? file_size)
    then Some (Err (- default EIO (fo_ferror fo)))
    else load_routes_from_text realloc_ok data
  else load_routes_from_text realloc_ok []
  end end end end.

(** ** Start-up, event loop, shut-down *)

Inductive mact : Type :=
| MRoute (i : nat) (a : ract)
| MDispatch
| MPoolStop
| MPoolJoin
| MPoolFree
| MSignalsFree
| MBaseFree.

(** The variables the code after [out] looks at. *)
Record mstate (S : Type) : Type := mk_mstate {
  ms_ctxs : list route_ctx;               (* route_ctxs[0 .. route_ctx_count) *)
  ms_pool : option (worker_pool S);       (* worker_pool_ready *)
  ms_started : bool;                      (* worker_pool_started *)
  ms_signals : option signal_events;      (* signals_started *)
  ms_base : bool
}.
Arguments mk_mstate {S} _ _ _ _ _.
Arguments ms_ctxs {S} _.
Arguments ms_pool {S} _.
Arguments ms_started {S} _.
Arguments ms_signals {S} _.
Arguments ms_base {S} _.

(** The answers of the system to [main] itself. *)
Record main_os : Type := mk_mos {
  ma_calloc_ctxs : bool;
  ma_base : bool;
  ma_signals : signals_os;
  ma_calloc_workers : bool;
  ma_created : nat -> Z;                  (* compat_thread_create *)
  ma_route : nat -> route_os;
  ma_lstat : nat -> lstat_result;         (* at the end *)
  ma_sent : option Z                      (* the send of worker_stop *)
}.

Section run.
Context {S : Type} `{WorkerHandlers S}.
Context (inet_pton : Z -> list byte -> option (list byte)) (h : host).
Context (event_free : option bool -> option unit).
Context (inits : nat -> init_out) (start : worker -> wstate S).
Context (thread : wstate S -> option (wstate S)).
(** [event_base_dispatch]: its return code, and the contexts and the workers
    when it returns. *)
Context (dispatch : list route_ctx -> worker_pool S -> Z * list route_ctx * worker_pool S).
Context (os : main_os).

(** The loop over the routes: return code, the contexts started, the trace. *)
Fixpoint start_routes (i : nat) (routes : list route) : option (Z * list route_ctx * list mact) :=
  match routes with
  | [] => Some (0, [], [])
  | r :: routes =>
      let rc := validate_route (Some r) in
      if negb (rc =? 0) then Some (rc, [], []) else
      '(rc, ctx, acts) ← start_route inet_pton h (ma_route os i) r;
      let acts := map (MRoute i) acts in
      if negb (rc =? 0) then Some (rc, [], acts) else
      '(rc, ctxs, acts') ← start_routes (Datatypes.S i) routes;
      Some (rc, ctx :: ctxs, acts ++ acts')
  end.

(** From the check of [route_count] to the label [out]: the exit status, the
    variables there and the trace so far. [signals] is on the stack, not
    initialised; [setup_signal_handlers] zeroes it. *)
Definition main_start (routes : list route) (worker_count : Z) : option (Z * mstate S * list mact) :=
  let fail pool started signals base := Some (1, mk_mstate [] pool started signals base, []) in
  match routes with
  | [] => fail None false None false
  | _ =>
      if negb (ma_calloc_ctxs os) then fail None false None false else
      if negb (ma_base os) then fail None false None false else
      '(rc, signals) ← setup_signal_handlers event_free (ma_base os) (Some signals_zero) (ma_signals os);
      if negb (rc =? 0) then fail None false None true else
      let '(rc, pool, _) := worker_pool_init inits start (ma_calloc_workers os) worker_count in
      if negb (rc =? 0) then fail None false signals true else
      '(rc, pool) ← worker_pool_start thread (ma_created os) pool;
      if negb (rc =? 0) then fail (Some pool) false signals true else
      '(rc, ctxs, acts) ← start_routes 0 routes;
      if negb (rc =? 0) then Some (1, mk_mstate ctxs (Some pool) true signals true, acts) else
      let '(rc, ctxs, pool) := dispatch ctxs pool in
      Some (if rc =? 0 then 0 else 1, mk_mstate ctxs (Some pool) true signals true, acts ++ [MDispatch])
  end.

(** The loops over the contexts after [out]. *)
Fixpoint stop_all (i : nat) (ctxs : list route_ctx) : list route_ctx * list mact :=
  match ctxs with
  | [] => ([], [])
  | ctx :: ctxs =>
      let '(ctx, acts) := stop_route_listeners ctx in
      let '(ctxs, acts') := stop_all (Datatypes.S i) ctxs in
      (ctx :: ctxs, map (MRoute i) acts ++ acts')
  end.

Fixpoint free_all (i : nat) (ctxs : list route_ctx) : list mact :=
  match ctxs with
  | [] => []
  | ctx :: ctxs => map (MRoute i) (free_route (ma_lstat os i) ctx).2 ++ free_all (Datatypes.S i) ctxs
  end.

(** [if (worker_pool_started)]: stop, then join. *)
Definition main_join (m : mstate S) : option (option (worker_pool S)) :=
  match ms_pool m with
  | Some pool =>
      if ms_started m
      then pool ← worker_pool_join thread (worker_pool_stop (ma_sent os) pool); Some (Some pool)
      else Some (Some pool)
  | None => Some None
  end.

(** The code after [out]: the trace, and the workers as they were freed. *)
Definition main_out (m : mstate S) : option (list mact * list (wstate S)) :=
  let '(ctxs, stopped) := stop_all 0 (ms_ctxs m) in
  pool ← main_join m;
  let joined := if ms_started m then [MPoolStop; MPoolJoin] else [] in
  let freed := free_all 0 ctxs in
  ws ← (match pool with
        | Some pool => '(_, ws) ← worker_pool_free thread (ma_sent os) pool; Some ws
        | None => Some []
        end);
  _ ← (match ms_signals m with
       | Some s => free_signal_handlers event_free (Some s)
       | None => Some None
       end);
  Some (stopped ++ joined ++ freed ++
        (match pool with Some _ => [MPoolFree] | None => [] end) ++
        (match ms_signals m with Some _ => [MSignalsFree] | None => [] end) ++
        (if ms_base m then [MBaseFree] else []), ws).

(** [main] from the loaded routes to its return. *)
Definition main_run (routes : list route) (worker_count : Z)
    : option (Z * list mact * list (wstate S)) :=
  '(code, m, acts) ← main_start routes worker_count;
  '(acts', ws) ← main_out m;
  Some (code, acts ++ acts', ws).
End run.
