(* ===== verification/MainFacts.v ===== *)
(** * The main program: theorems

    What the options select, how the routes are loaded, and the order in which
    [main] gives its resources back. *)

From stdpp Require Import gmap.
From S2P Require Import Prelude CString Endpoint FileConf FileConfFacts RawUdp Bind Worker WorkerFacts WorkerPool Datagram StreamRoute Platform Main.

(** ** Options *)

Definition inline_args (opts : list getopt_item) : list (list byte) :=
  omap (fun o => match o with Opt_L a => Some a | _ => None end) opts.

Definition conf_args (opts : list getopt_item) : list (list byte) :=
  omap (fun o => match o with Opt_c a => Some a | _ => None end) opts.

Definition worker_args (opts : list getopt_item) : list (list byte) :=
  omap (fun o => match o with Opt_w a => Some a | _ => None end) opts.

Section options.
Context (cpus : Z) (realloc_ok : Z -> bool).

Lemma main_options_spec opts m m' :
  main_options cpus realloc_ok opts m = inr m' -> len (mo_inline_routes m) <= mo_inline_cap m ->
  mo_inline_routes m' = mo_inline_routes m ++ inline_args opts /\
  mo_conf_path m' = (match last (conf_args opts) with Some p => Some p | None => mo_conf_path m end) /\
  (match last (worker_args opts) with
   | Some a => parse_worker_count cpus a = Some (mo_worker_count m')
   | None => mo_worker_count m' = mo_worker_count m
   end) /\
  len (mo_inline_routes m') <= mo_inline_cap m' /\
  Forall (fun a => a <> []) (inline_args opts ++ conf_args opts).
Proof.
  revert m. induction opts as [|o opts IH]; intros m Hr Hc; simpl in Hr.
  { injection Hr as <-. simpl. by rewrite app_nil_r. }
  destruct (main_option cpus realloc_ok o m) as [code|m1] eqn:E1; [done|].
  destruct o as [arg|arg|arg| | |]; simpl in E1; try discriminate.
  - destruct (parse_worker_count cpus arg) as [n|] eqn:En; [|done]. injection E1 as <-.
    destruct (IH _ Hr Hc) as (A & B & C & D & E). simpl in *. split_and!; try done.
    rewrite last_cons. destruct (last (worker_args opts)); [done|]. congruence.
  - destruct arg as [|c arg]; [done|]. injection E1 as <-.
    destruct (IH _ Hr Hc) as (A & B & C & D & E). simpl in *. split_and!; try done.
    + rewrite last_cons. by destruct (last (conf_args opts)).
    + rewrite Forall_app in *. destruct E. split; [done|]. by constructor.
  - destruct arg as [|c arg]; [done|].
    assert (len (mo_inline_routes m1) <= mo_inline_cap m1 /\
      mo_inline_routes m1 = mo_inline_routes m ++ [c :: arg] /\ mo_conf_path m1 = mo_conf_path m /\
      mo_worker_count m1 = mo_worker_count m) as (Hc1 & Hi & Hp & Hw).
    { pose proof (len_nonneg (mo_inline_routes m)).
      repeat case_if_in E1; bool_to_prop; try discriminate; injection E1 as <-; simpl;
        rewrite len_app, len_cons, len_nil; split_and!; try done; lia. }
    destruct (IH _ Hr Hc1) as (A & B & C & D & E). simpl. rewrite A, B, Hi, Hp, <- app_assoc, <- Hw.
    split_and!; try done; simpl; rewrite ?A in D; rewrite ?Hi, <- ?app_assoc in D; try done.
    by constructor.
Qed.
End options.

(** The option loop hands [main] exactly one source of routes: the last -c, or
    all the -L arguments in order; no argument is empty, the array of inline
    routes is never written beyond its capacity, and the number of workers is
    the one of the last -w, or 1. *)
Theorem main_args_spec cpus realloc_ok opts rest m :
  main_args cpus realloc_ok opts rest = inr m ->
  rest = false /\ mo_inline_routes m = inline_args opts /\ mo_conf_path m = last (conf_args opts) /\
  (mo_conf_path m = None <-> mo_inline_routes m <> []) /\
  len (mo_inline_routes m) <= mo_inline_cap m /\
  Forall (fun a => a <> []) (inline_args opts ++ conf_args opts) /\
  match last (worker_args opts) with
  | Some a => parse_worker_count cpus a = Some (mo_worker_count m)
  | None => mo_worker_count m = 1
  end.
Proof.
  unfold main_args. destruct (main_options _ _ _ _) as [|m'] eqn:Em; [done|]. intros Ha.
  apply main_options_spec in Em as (A & B & C & D & E); [|done]. simpl in A, B, C.
  assert (rest = false /\ m' = m /\ (mo_conf_path m = None <-> mo_inline_routes m <> [])) as (-> & -> & Hx).
  { revert Ha. destruct (mo_conf_path m') eqn:Ec, (mo_inline_routes m') eqn:Ei, rest; try done;
      intros [= <-]; by rewrite Ec, Ei. }
  split_and!; try done. rewrite B. by destruct (last (conf_args opts)).
Qed.

(** ** Loading *)

(** A file that can be read whole is loaded as its text. *)
Lemma load_file_text realloc_ok fo data :
  fo_fopen fo = None -> fo_seek_end fo = None -> fo_ftell fo = Ok (len data) ->
  fo_seek_set fo = None -> fo_malloc fo = true -> fo_fread fo = data ->
  load_routes_from_file realloc_ok fo = load_routes_from_text realloc_ok data.
Proof.
  intros E1 E2 E3 E4 E5 E6. unfold load_routes_from_file. rewrite E1, E2, E3, E4, E5, E6. cbn [negb].
  replace (take (Z.to_nat (len data)) data) with data
    by (symmetry; apply take_ge; unfold Zlength; lia).
  rewrite Z.eqb_refl. cbn [negb]. case_if; [done|]. bool_to_prop. destruct data; [done|].
  rewrite len_cons in *. pose proof (len_nonneg data). lia.
Qed.

(** Inline routes are well formed, one per argument; but none keeps its number:
    [line_no] is assigned before [parse_route_line], which zeroes the route. *)
Theorem load_inline_routes strdup i lines rs :
  Forall (fun l => x00 ∉ l) lines -> load_inline strdup i lines = Ok rs ->
  length rs = length lines /\ Forall route_wf rs /\ Forall (fun r => r_line_no r = 0) rs.
Proof.
  revert i rs. induction lines as [|line lines IH]; intros i rs Hl Hr; simpl in Hr.
  { injection Hr as <-. by split_and!. }
  inversion Hl as [|? ? Hline Hlines]; subst.
  case_if_in Hr; [done|]. destruct (parse_route_line line _) as [rc r] eqn:Ep. case_if_in Hr; [done|].
  bool_to_prop. subst rc. apply parse_route_line_wf in Ep as [Hw Hn]; [|done].
  destruct (load_inline strdup (S i) lines) as [rs'|e] eqn:El; [|done].
  injection Hr as <-. destruct (IH _ _ Hlines El) as (A & B & C). simpl.
  split_and!; [by rewrite A|by constructor|by constructor].
Qed.

(** ** Start-up and shut-down *)

(** The descriptors of routes that a trace closes. *)
Definition trace_closes (t : list mact) : list Z :=
  rcloses (omap (fun a => match a with MRoute _ a => Some a | _ => None end) t).

Lemma trace_closes_app a b : trace_closes (a ++ b) = trace_closes a ++ trace_closes b.
Proof. unfold trace_closes. by rewrite omap_app, rcloses_app. Qed.

Lemma trace_closes_route i acts : trace_closes (map (MRoute i) acts) = rcloses acts.
Proof.
  unfold trace_closes. f_equal. induction acts as [|a acts IH]; [done|].
  simpl. f_equal. exact IH.
Qed.

Section run.
Context {S : Type} `{WorkerHandlers S}.
Context (inet_pton : Z -> list byte -> option (list byte)) (h : host).
Context (event_free : option bool -> option unit).
Context (event_free_event : forall pending, event_free (Some pending) = Some tt).
Implicit Types (st : wstate S) (p : worker_pool S).

(** What a started thread does until it exits: it leaves a well-formed queue. *)
Definition thread_ok (thread : wstate S -> option (wstate S)) : Prop :=
  forall st q, queue_inv st q -> exists st' q', thread st = Some st' /\ queue_inv st' q'.

Definition has_queue (st : wstate S) : Prop := exists q, queue_inv st q.

Definition pool_ok (p : worker_pool S) : Prop :=
  forall ws, p_workers p = Some ws -> Forall has_queue ws.

Lemma with_w_queue st (w : worker) q :
  queue_inv st q -> w_pending_head w = w_pending_head (ws_w st) ->
  w_pending_tail w = w_pending_tail (ws_w st) -> queue_inv (with_w st w) q.
Proof. intros [Hh [Hl Ht]] E1 E2. split; [done|]. split; simpl; [by rewrite E1|by rewrite E2]. Qed.

Lemma worker_stop_queue sent st : has_queue st -> has_queue (worker_stop sent st).
Proof.
  intros [q Hq]. exists q. unfold worker_stop.
  assert (queue_inv (with_w st (set_stopping (ws_w st))) q) as Hs by (by apply with_w_queue).
  case_if; [|done]. unfold notify_worker. destruct sent as [e|]; [case_if; done|].
  by apply with_w_queue.
Qed.

Section with_thread.
Context (thread : wstate S -> option (wstate S)) (Ht : thread_ok thread).

Lemma worker_join_queue st : has_queue st -> exists st', worker_join thread st = Some st' /\ has_queue st'.
Proof.
  intros [q Hq]. unfold worker_join. case_if; [|exists st; split; [done|by exists q]].
  destruct (Ht _ _ Hq) as (st' & q' & -> & Hq'). eexists. split; [done|]. exists q'.
  by apply with_w_queue.
Qed.

(** [worker_free] returns and leaves nothing queued. *)
Lemma worker_free_empty sent st :
  has_queue st -> exists st', worker_free sent thread st = Some st' /\ ws_msgs st' = ∅ /\ ws_bufs st' = ∅.
Proof.
  intros Hq. unfold worker_free.
  destruct (worker_join_queue _ (worker_stop_queue sent _ Hq)) as (st1 & -> & q' & Hi & Hs & _).
  cbn [mbind option_bind]. unfold worker_take_pending. simpl.
  match goal with |- context [free_list _ ?s _] =>
    destruct (free_list_spec q' (size (ws_msgs st1)) s (w_pending_head (ws_w st1)))
      as (st' & -> & Hm & Hb & _) end; [done|done| |].
  { rewrite (heap_inv_size _ _ _ Hi). lia. }
  cbn [mbind option_bind]. eexists. split; [done|]. by repeat case_if.
Qed.

Lemma mapM_all {A B} (P : A -> Prop) (Q : B -> Prop) (f : A -> option B) l :
  (forall a, P a -> exists b, f a = Some b /\ Q b) -> Forall P l ->
  exists l', mapM f l = Some l' /\ Forall Q l'.
Proof.
  intros Hf. induction 1 as [|a l Ha _ (l' & Hm & Hl')]; [by exists []|].
  destruct (Hf a Ha) as (b & Hb & HQ). exists (b :: l'). simpl. rewrite Hb. cbn [mbind option_bind].
  rewrite Hm. split; [done|by constructor].
Qed.

Lemma pool_stop_ok sent p : pool_ok p -> pool_ok (worker_pool_stop sent p).
Proof.
  intros Hp ws. unfold worker_pool_stop. destruct (p_workers p) as [ws0|] eqn:E; simpl; [|congruence].
  intros [= <-]. apply Forall_fmap. eapply Forall_impl; [by apply Hp|]. intros st. apply worker_stop_queue.
Qed.

Lemma pool_join_ok p : pool_ok p -> exists p', worker_pool_join thread p = Some p' /\ pool_ok p'.
Proof.
  intros Hp. unfold worker_pool_join. destruct (p_workers p) as [ws|] eqn:E; [|by exists p].
  destruct (mapM_all has_queue has_queue (worker_join thread) ws) as (ws' & -> & Hws');
    [apply worker_join_queue|by apply Hp|].
  cbn [mbind option_bind]. eexists. split; [done|]. intros ws0 [= <-]. done.
Qed.

Lemma pool_free_ok sent p :
  pool_ok p -> exists p' ws, worker_pool_free thread sent p = Some (p', ws) /\
    Forall (fun w => ws_msgs w = ∅ /\ ws_bufs w = ∅) ws.
Proof.
  intros Hp. unfold worker_pool_free. destruct (p_workers p) as [ws|] eqn:E; [|by eexists _, []].
  destruct (mapM_all has_queue (fun w => ws_msgs w = ∅ /\ ws_bufs w = ∅)
    (worker_free sent thread) ws) as (ws' & -> & Hws'); [apply worker_free_empty|by apply Hp|].
  cbn [mbind option_bind]. eauto.
Qed.

Lemma worker_start_queue created st : has_queue st -> has_queue (worker_start created st).2.
Proof.
  intros [q Hq]. exists q. unfold worker_start. by repeat case_if.
Qed.

Lemma stop_back_ok ws :
  Forall has_queue ws -> exists ws', stop_back thread ws = Some ws' /\ Forall has_queue ws'.
Proof.
  induction 1 as [|w ws Hw _ (ws' & IH & Hws')]; [by exists []|]. cbn [stop_back]. rewrite IH.
  cbn [mbind option_bind].
  destruct (worker_join_queue _ (worker_stop_queue None _ Hw)) as (w' & -> & Hw').
  cbn [mbind option_bind]. eexists. split; [done|by constructor].
Qed.

Lemma pool_start_loop_ok created i started todo :
  Forall has_queue started -> Forall has_queue todo ->
  exists rc ws, pool_start_loop thread created i started todo = Some (rc, ws) /\ Forall has_queue ws.
Proof.
  intros Hs Ht0. revert i started Hs. induction Ht0 as [|w todo Hw Htodo IH]; intros i started Hs.
  { by eexists _, started. }
  cbn [pool_start_loop]. pose proof (worker_start_queue (created i) w Hw) as Hw'.
  destruct (worker_start (created i) w) as [rc w']. simpl in Hw'. case_if.
  - apply IH. apply Forall_app. by repeat constructor.
  - destruct (stop_back_ok started Hs) as (ws' & -> & Hws'). cbn [mbind option_bind].
    eexists _, _. split; [done|]. apply Forall_app. split; [done|by constructor].
Qed.

Lemma pool_start_ok created p :
  pool_ok p -> exists rc p', worker_pool_start thread created p = Some (rc, p') /\ pool_ok p'.
Proof.
  intros Hp. unfold worker_pool_start. destruct (p_workers p) as [ws|] eqn:E; [|by eexists _, p].
  destruct (pool_start_loop_ok created 0 [] ws) as (rc & ws' & -> & Hws'); [done|by apply Hp|].
  cbn [mbind option_bind]. eexists _, _. split; [done|]. intros ws0 [= <-]. done.
Qed.
End with_thread.

Lemma pool_init_ok inits (start : worker -> wstate S) calloc_ok count rc p freed :
  (forall k, has_queue (start (io_worker (inits k)))) ->
  worker_pool_init inits start calloc_ok count = (rc, p, freed) -> pool_ok p.
Proof.
  intros Hi. unfold worker_pool_init.
  assert (forall n i acc ws, Forall has_queue acc ->
    pool_init_loop inits start n i acc = inl ws -> Forall has_queue ws) as Hl.
  { induction n as [|n IH]; intros i acc ws Hacc; cbn [pool_init_loop]; [by intros [= <-]|].
    case_if; [|done]. apply IH. apply Forall_app. by repeat constructor. }
  repeat case_if; try (intros [= <- <- <-]; by intros ws).
  destruct (pool_init_loop _ _ _ _ _) as [ws|[rc' fr]] eqn:Epl; intros [= <- <- <-] ws' [=].
  subst ws'. by eapply Hl.
Qed.

(** ** Routes *)

Definition wait_ok (r : route) : Prop := 0 <= opt_bind_wait_sec (r_opts r) <= 2147483.

Lemma bind_datagram_returns lo ctx :
  wait_ok (dc_route ctx) -> exists o, bind_datagram_listener inet_pton lo ctx = Some o.
Proof.
  intros Hw. unfold bind_datagram_listener.
  assert (exists o, bind_udp_datagram_listener inet_pton lo ctx = Some o) as Hu.
  { unfold bind_udp_datagram_listener.
    destruct (bind_with_wait_run (lo_bind lo) (r_opts (dc_route ctx)) Hw) as (rc & n & Hb & _).
    cbv zeta. repeat case_match; (try by eauto); rewrite Hb; cbn [mbind option_bind]; case_if; by eauto. }
  destruct (ep_kind (r_listen (dc_route ctx))); by eauto.
Qed.

Lemma start_datagram_returns lo raw_socket raw_setsockopt mutex_init mkdir lstat r :
  wait_ok r ->
  exists o, start_datagram_route inet_pton lo h raw_socket raw_setsockopt mutex_init mkdir lstat r = Some o.
Proof.
  intros Hw. unfold start_datagram_route.
  destruct (if bool_decide _ then _ else _) as [[rc raw] closed]. do 2 (case_if; [by eauto|]).
  case_if; [destruct (free_datagram_route _ _); by eauto|].
  set (ctx := mk_dctx _ _ _ _ _ _ _).
  destruct (bind_datagram_returns lo ctx Hw) as ([rc2 ctx2] & ->).
  cbn [mbind option_bind]. case_if; [destruct (free_datagram_route _ _); by eauto|by eauto].
Qed.

Lemma start_route_returns os r : wait_ok r -> exists o, start_route inet_pton h os r = Some o.
Proof.
  intros Hw. unfold start_route. case_if.
  - assert (exists o, start_stream_route inet_pton (ro_stream os) r = Some o) as ([[rc s] a] & ->).
    { unfold start_stream_route, bind_stream_listener. destruct (ep_kind (r_listen r)).
      1, 2: destruct (bind_tcp_outcome inet_pton (ro_stream os) (mk_sctx (Some r) None) r Hw)
        as ([[rc s] a] & -> & _); cbn [mbind option_bind]; case_if; by eauto.
      all: cbn [mbind option_bind]; repeat case_match; by eauto. }
    cbn [mbind option_bind]. by eauto.
  - case_if; [|by eauto].
    destruct (start_datagram_returns (ro_dgram os) (ro_raw_socket os) (ro_raw_setsockopt os)
      (ro_mutex_init os) (ro_mkdir os) (ro_lstat os) r Hw) as ([[rc d] a] & ->).
    cbn [mbind option_bind]. by eauto.
Qed.

Lemma start_routes_returns os i routes :
  Forall wait_ok routes ->
  exists rc ctxs acts, start_routes inet_pton h os i routes = Some (rc, ctxs, acts) /\
    MDispatch ∉ acts.
Proof.
  intros Hr. revert i. induction Hr as [|r routes Hw _ IH]; intros i.
  { exists 0, [], []. split; [done|]. apply not_elem_of_nil. }
  cbn [start_routes]. cbv zeta. case_if; [eexists _, _, _; split; [done|]; apply not_elem_of_nil|].
  destruct (start_route_returns (ma_route os i) r Hw) as ([[rc ctx] acts] & ->). cbn [mbind option_bind].
  assert (MDispatch ∉ map (MRoute i) acts) as Hn by (rewrite list_elem_of_fmap; by intros (? & ? & _)).
  case_if; [by eauto|].
  destruct (IH (Datatypes.S i)) as (rc' & ctxs & acts' & -> & Hn'). cbn [mbind option_bind].
  eexists _, _, _. split; [done|]. rewrite elem_of_app. tauto.
Qed.

Lemma stop_all_closes i ctxs :
  trace_closes (stop_all i ctxs).2 = concat (accept_fds <$> ctxs) /\
  shared_fds <$> (stop_all i ctxs).1 = shared_fds <$> ctxs.
Proof.
  revert i. induction ctxs as [|ctx ctxs IH]; intros i; [done|]. cbn [stop_all].
  destruct (stop_route_closes ctx) as [Hc Hs]. destruct (stop_route_listeners ctx) as [ctx' acts].
  destruct (IH (Datatypes.S i)) as [IH1 IH2]. destruct (stop_all (Datatypes.S i) ctxs) as [ctxs' acts'].
  simpl in *. rewrite trace_closes_app, trace_closes_route, Hc, IH1. split; [done|].
  f_equal; [exact Hs|exact IH2].
Qed.

Lemma free_all_closes os i ctxs : trace_closes (free_all os i ctxs) = concat (shared_fds <$> ctxs).
Proof.
  revert i. induction ctxs as [|ctx ctxs IH]; intros i; [done|]. cbn [free_all].
  rewrite trace_closes_app, trace_closes_route, free_route_closes, IH. done.
Qed.

(** ** The whole run *)

(** The events that exist were both created. *)
Definition signals_made (m : mstate S) : Prop :=
  forall s, ms_signals m = Some s -> exists a b, s = mk_signals (Some a) (Some b).

(** The code after [out] returns. First the accepting sockets are closed, then
    the workers are stopped and joined, and only then the sockets they use. *)
Lemma main_out_order thread os m :
  thread_ok thread -> (forall p, ms_pool m = Some p -> pool_ok p) -> signals_made m ->
  exists stopped freed ws,
    main_out event_free thread os m =
      Some (stopped ++ (if ms_started m then [MPoolStop; MPoolJoin] else []) ++ freed ++
            (match ms_pool m with Some _ => [MPoolFree] | None => [] end) ++
            (match ms_signals m with Some _ => [MSignalsFree] | None => [] end) ++
            (if ms_base m then [MBaseFree] else []), ws) /\
    trace_closes stopped = concat (accept_fds <$> ms_ctxs m) /\
    trace_closes freed = concat (shared_fds <$> ms_ctxs m) /\
    Forall (fun w : wstate S => ws_msgs w = ∅ /\ ws_bufs w = ∅) ws.
Proof.
  intros Ht Hp Hsig. unfold main_out.
  assert (exists o, match ms_signals m with
    | Some s => free_signal_handlers event_free (Some s)
    | None => Some None
    end = Some o) as [o Ho].
  { destruct (ms_signals m) as [s|] eqn:E; [|by eauto]. destruct (Hsig s E) as (a & b & ->).
    rewrite free_signals_returns by done. by eauto. }
  destruct (stop_all_closes 0 (ms_ctxs m)) as [Hc Hs].
  destruct (stop_all 0 (ms_ctxs m)) as [ctxs stopped]. simpl in Hc, Hs.
  pose proof (free_all_closes os 0 ctxs) as Hf. rewrite Hs in Hf.
  assert (exists op, main_join thread os m = Some op /\ (op = None <-> ms_pool m = None) /\
    (forall p, op = Some p -> pool_ok p)) as (op & -> & Hn & Hop).
  { unfold main_join. destruct (ms_pool m) as [p|] eqn:E; [|by exists None].
    case_if; [|exists (Some p); split_and!; [done|done|by intros p' [= <-]; apply Hp]].
    destruct (pool_join_ok thread Ht (worker_pool_stop (ma_sent os) p)) as (p' & -> & Hp');
      [by apply pool_stop_ok, Hp|].
    cbn [mbind option_bind]. exists (Some p'). split_and!; [done|done|by intros ? [= <-]]. }
  cbn [mbind option_bind]. destruct op as [p|].
  - destruct (pool_free_ok thread Ht (ma_sent os) p) as (p' & ws & -> & Hws); [by apply Hop|].
    cbn [mbind option_bind]. rewrite Ho. cbn [mbind option_bind]. exists stopped, (free_all os 0 ctxs), ws.
    destruct (ms_pool m) eqn:E; [by split_and!|]. discriminate (proj2 Hn eq_refl).
  - rewrite (proj1 Hn eq_refl), Ho. cbn [mbind option_bind]. exists stopped, (free_all os 0 ctxs), []. by split_and!.
Qed.

Lemma main_start_returns inits start thread dispatch os routes worker_count :
  thread_ok thread -> (forall k, has_queue (start (io_worker (inits k)))) ->
  (forall ctxs p, pool_ok p -> pool_ok (dispatch ctxs p).2) -> Forall wait_ok routes ->
  signals_safe event_free (ma_signals os) ->
  exists code m acts,
    main_start inet_pton h event_free inits start thread dispatch os routes worker_count = Some (code, m, acts) /\
    (forall p, ms_pool m = Some p -> pool_ok p) /\
    signals_made m /\
    (MDispatch ∈ acts -> ms_started m = true) /\ (code = 0 -> MDispatch ∈ acts) /\
    (ms_ctxs m <> [] -> ms_started m = true).
Proof.
  intros Ht Hi Hd Hr Hsafe. unfold main_start.
  assert (forall pool started signals base, (forall p, pool = Some p -> pool_ok p) ->
    signals_made (mk_mstate [] pool started signals base) ->
    exists code m acts, Some (1, mk_mstate [] pool started signals base, []) = Some (code, m, acts) /\
      (forall p, ms_pool m = Some p -> pool_ok p) /\ signals_made m /\
      (MDispatch ∈ acts -> ms_started m = true) /\ (code = 0 -> MDispatch ∈ acts) /\
      (ms_ctxs m <> [] -> ms_started m = true)) as Hfail.
  { intros pool started signals base Hp Hsg. eexists _, _, _. split; [done|]. split_and!; try done.
    by intros Hm%not_elem_of_nil. }
  destruct routes as [|r0 routes]; [by apply Hfail|]. do 2 (case_if; [by apply Hfail|]). bool_to_prop.
  rewrite E0, setup_signals_returns by done. cbn [mbind option_bind].
  set (good := so_new_int _ && _ && _ && _). destruct good; simpl negb; cbv iota; [|by apply Hfail].
  assert (forall ctxs pool started base, signals_made
    (mk_mstate ctxs pool started (Some (mk_signals (Some true) (Some true))) base)) as Hsg.
  { intros ctxs pool started base s [= <-]. by eauto. }
  destruct (worker_pool_init _ _ _ _) as [[rc p] freed] eqn:Ep.
  case_if; [by apply Hfail; [|apply Hsg]|]. apply pool_init_ok in Ep as Hp; [|done].
  destruct (pool_start_ok thread Ht (ma_created os) p Hp) as (rc1 & p1 & -> & Hp1).
  cbn [mbind option_bind]. case_if; [apply Hfail; [by intros ? [= <-]|apply Hsg]|].
  destruct (start_routes_returns os 0 (r0 :: routes) Hr) as (rc2 & ctxs & acts & -> & Hn).
  cbn [mbind option_bind]. case_if.
  { eexists _, _, _. split; [done|]. simpl. split_and!; try done; by intros ? [= <-]. }
  specialize (Hd ctxs p1 Hp1). destruct (dispatch ctxs p1) as [[rc3 ctxs'] p3].
  eexists _, _, _. split; [done|]. simpl in *. split_and!; try done.
  - by intros ? [= <-].
  - intros _. apply elem_of_app. right. by left.
Qed.
End run.

(** C15: the order of the shut-down. Let every route have a [bind_wait] of 0 to
    2147483 seconds, and let the signal events be created (or [event_free] accept
    NULL, which libevent does not document). Then, whatever else fails during
    start-up, and whatever the event loop did, [main] returns; with [ctxs] the
    contexts of the routes that were started, at the label [out], its last
    actions are: close the accepting sockets of [ctxs]; if workers were started,
    stop and join them; only then close the descriptors the workers use (the
    datagram listeners, the raw sockets and the upstream sockets of the datagram
    clients); then free the pool, the signal events and the event base that
    exist. Every such descriptor is closed once, no queued message survives, and
    the exit status is 0 only if the event loop was entered. A route whose start
    fails is not in [ctxs]: it gives its own resources back (C26 for streams; a
    datagram route leaks its raw socket if its mutex cannot be made). *)
Theorem main_shutdown_order : forall {S} `{WorkerHandlers S} inet_pton h event_free inits
    (start : worker -> wstate S) thread dispatch os routes worker_count,
  (forall pending, event_free (Some pending) = Some tt) ->
  thread_ok thread -> (forall k, has_queue (start (io_worker (inits k)))) ->
  (forall ctxs p, pool_ok p -> pool_ok (dispatch ctxs p).2) -> Forall wait_ok routes ->
  signals_safe event_free (ma_signals os) ->
  exists code m acts stopped joined freed rest ws,
    main_start inet_pton h event_free inits start thread dispatch os routes worker_count
      = Some (code, m, acts) /\
    main_run inet_pton h event_free inits start thread dispatch os routes worker_count =
      Some (code, acts ++ stopped ++ joined ++ freed ++ rest, ws) /\
    trace_closes stopped = concat (accept_fds <$> ms_ctxs m) /\
    joined = (if ms_started m then [MPoolStop; MPoolJoin] else []) /\
    (ms_ctxs m <> [] \/ MDispatch ∈ acts -> ms_started m = true) /\
    trace_closes freed = concat (shared_fds <$> ms_ctxs m) /\
    rest = (match ms_pool m with Some _ => [MPoolFree] | None => [] end) ++
      (match ms_signals m with Some _ => [MSignalsFree] | None => [] end) ++
      (if ms_base m then [MBaseFree] else []) /\
    Forall (fun w => ws_msgs w = ∅ /\ ws_bufs w = ∅) ws /\
    (code = 0 -> MDispatch ∈ acts).
Proof.
  intros S HS inet_pton h event_free inits start thread dispatch os routes worker_count Hev Ht Hi Hd Hr Hsafe.
  destruct (main_start_returns inet_pton h event_free Hev inits start thread dispatch os routes worker_count
    Ht Hi Hd Hr Hsafe) as (code & m & acts & Hs & Hp & Hsig & Hm & Hc & Hx).
  destruct (main_out_order event_free Hev thread os m Ht Hp Hsig) as (stopped & freed & ws & Ho & H1 & H2 & H3).
  eexists code, m, acts, stopped, _, freed, _, ws. unfold main_run. rewrite Hs. cbn [mbind option_bind].
  rewrite Ho. cbn [mbind option_bind]. split_and!; try done. tauto.
Qed.

(** ** A run: two workers, a UNIX stream route and a UDP route *)

(** An [event_free] that does not accept NULL. *)
Definition strict_event_free (ev : option bool) : option unit := (fun _ => tt) <$> ev.

Definition example_routes : list route :=
  [ mk_route (mk_endpoint ENDPOINT_UNIX [] 0 PROTO_UNIX_STREAM (str "/run/p") X_BUILTIN_NONE)
      (mk_endpoint ENDPOINT_INET (str "10.0.0.1") 80 PROTO_TCP [] X_BUILTIN_NONE)
      (mk_opts false false false 60 5 0 BROADCAST_REPLY_OFF) 1;
    mk_route example_ep example_ep (mk_opts false false false 60 5 0 BROADCAST_REPLY_OFF) 2 ].

Definition example_ros (i : nat) : route_os :=
  mk_ros (mk_slos None (Ok 5) None None (fun _ => None) None None)
    (mk_los None (Ok 6) None None None None (fun _ => None) (Ok (storage_zero, 16)) true true)
    (Err 1) (fun _ => None) 0 None LstatSocket.

Definition example_mos : main_os :=
  mk_mos true true (mk_sigos true true true true) true (fun _ => 0) example_ros (fun _ => LstatSocket) None.

Definition ok_inits (k : nat) : init_out :=
  worker_init true None (Ok (10 + 2 * Z.of_nat k, 11 + 2 * Z.of_nat k)) true true (Z.of_nat k + 1).

Lemma ok_inits_queue k : has_queue (example_start (io_worker (ok_inits k))).
Proof. exists []. split; [by apply heap_inv_empty|done]. Qed.

Lemma process_thread_ok : thread_ok (worker_process_pending (S := list handled)).
Proof.
  intros st q Hq. destruct (process_pending_spec st q Hq) as (st' & H1 & H2 & _). by exists st', [].
Qed.

Lemma main_shutdown_order_witness :
  exists acts ws,
    main_run example_pton (mk_host false false true) strict_event_free ok_inits example_start worker_process_pending
      (fun ctxs p => (0, ctxs, p)) example_mos example_routes 2 = Some (0, acts, ws) /\
    acts = [MRoute 0 (RStream (SUnlink (str "/run/p"))); MRoute 0 (RStream (SOpen 5));
            MRoute 0 (RStream (SErrorCb 5)); MDispatch; MRoute 0 (RStream (SCloseFd 5));
            MRoute 1 (RDgram DEventFree); MPoolStop; MPoolJoin;
            MRoute 0 (RStream (SUnlink (str "/run/p"))); MRoute 1 (RDgram (DClose 6));
            MPoolFree; MSignalsFree; MBaseFree] /\
    Forall (fun w => ws_msgs w = ∅ /\ ws_bufs w = ∅) ws.
Proof.
  destruct (main_shutdown_order example_pton (mk_host false false true) strict_event_free ok_inits example_start
    worker_process_pending (fun ctxs p => (0, ctxs, p)) example_mos example_routes 2)
    as (code & m & acts & stopped & joined & freed & rest & ws & H1 & H2 & _ & _ & _ & _ & _ & H3 & _).
  - reflexivity.
  - exact process_thread_ok.
  - exact ok_inits_queue.
  - intros ctxs p Hp. exact Hp.
  - repeat constructor; simpl; lia.
  - left. reflexivity.
  - clear H1. revert H2. generalize (acts ++ stopped ++ joined ++ freed ++ rest). intros t H2.
    vm_compute in H2. injection H2 as _ Ha Hw. exists t, ws. rewrite <- Ha.
    split; [|split; [reflexivity|exact H3]]. rewrite <- Hw. vm_compute. reflexivity.
Defined.

(** On a single CPU, -w 0 asks for no worker at all and [main] exits with 1. *)
Example auto_workers_single_cpu :
  parse_worker_count 1 (str "0") = Some 0 /\
  exists ws,
    main_run example_pton (mk_host false false true) strict_event_free ok_inits example_start worker_process_pending
      (fun ctxs p => (0, ctxs, p)) example_mos example_routes 0 =
    Some (1, [MSignalsFree; MBaseFree], ws).
Proof. split; [reflexivity|]. eexists. vm_compute. reflexivity. Qed.
