(* ===== verification/Klog.v ===== *)
(** * Logging ([klog.c], [klog.h])

    What a call of [log_at] writes to stderr, as bytes; the call holds
    [log_mu], so the bytes of two records do not mix. The clock, the formatted
    time and the process id are arguments. *)

From S2P Require Import Prelude CString Endpoint FileConf FileConfFacts ProxyV2 Datagram Platform.

(** [struct log_value]: the tag with the member of the union it selects. *)
Inductive log_value : Type :=
| LOG_VALUE_STR (s : option (list byte))
| LOG_VALUE_INT (i : Z)
| LOG_VALUE_UINT (u : Z)
| LOG_VALUE_LONG (l : Z)
| LOG_VALUE_ULONG (ul : Z)
| LOG_VALUE_LLONG (ll : Z)
| LOG_VALUE_ULLONG (ull : Z)
| LOG_VALUE_ENDPOINT (ep : option endpoint).

(** One round of the [switch] of [print_quoted_value]. *)
Definition quote_char (c : byte) : list byte :=
  if c =b x5c then [x5c; x5c]
  else if c =b x22 then [x5c; x22]
  else if c =b x0a then [x5c; "n"%byte]
  else if c =b x0d then [x5c; "r"%byte]
  else if c =b x09 then [x5c; "t"%byte]
  else [c].

Definition print_quoted_value (s : option (list byte)) : list byte :=
  match s with
  | None => [x22; x22]
  | Some s => x22 :: concat (map quote_char s) ++ [x22]
  end.

Definition log_print_endpoint (ep : option endpoint) : list byte :=
  match endpoint_to_string ep 256 with Ok s => s | Err _ => [] end.

Definition print_log_value (value : log_value) : list byte :=
  match value with
  | LOG_VALUE_STR s => print_quoted_value s
  | LOG_VALUE_INT z | LOG_VALUE_LONG z | LOG_VALUE_LLONG z => sdec z
  | LOG_VALUE_UINT z | LOG_VALUE_ULONG z | LOG_VALUE_ULLONG z => udec z
  | LOG_VALUE_ENDPOINT ep => log_print_endpoint ep
  end.

(** The width of a ["%7ld"] or ["%06ld"]. *)
Definition pad (c : byte) (n : nat) (s : list byte) : list byte := replicate (n - length s) c ++ s.

Fixpoint print_fields (fields : list (list byte * log_value)) : list byte :=
  match fields with
  | [] => []
  | (key, value) :: fields => str " " ++ key ++ str "=" ++ print_log_value value ++ print_fields fields
  end.

(** [tbuf] is the formatted time; ["%u"] of the thread's worker id. *)
Definition log_at (tbuf : list byte) (nsec pid worker_id : Z) (sev : byte) (file : list byte) (line : Z)
    (msg : list byte) (fields : list (list byte * log_value)) : list byte :=
  [sev] ++ tbuf ++ str "." ++ pad "0"%byte 6 (sdec (Z.quot nsec 1000)) ++ str " " ++
  pad " "%byte 7 (sdec pid) ++ str " " ++ file ++ str ":" ++ sdec line ++ str "] worker=" ++
  udec (u32 worker_id) ++ str " msg=" ++ print_quoted_value (Some msg) ++ print_fields fields ++ [x0a].

(** [sockaddr_format]: the string in [buf] ([buf_len > 0]). *)
Definition sockaddr_format (inet_ntop : Z -> list byte -> option (list byte))
    (addr : option sockaddr) (addr_len buf_len : Z) : list byte :=
  snprintf_content buf_len
    (match addr with
     | None => str "<null>"
     | Some a =>
         if addr_len =? 0 then str "<null>" else
         if sa_family a =? AF_INET then
           if addr_len <? SIZEOF_SOCKADDR_IN then str "inet:<short:" ++ udec addr_len ++ str ">" else
           match inet_ntop AF_INET (sin_addr a) with
           | None => str "inet:<invalid>:" ++ udec (ntohs (sin_port a))
           | Some ip => ip ++ str ":" ++ udec (ntohs (sin_port a))
           end
         else if sa_family a =? AF_INET6 then
           if addr_len <? SIZEOF_SOCKADDR_IN6 then str "inet6:<short:" ++ udec addr_len ++ str ">" else
           match inet_ntop AF_INET6 (sin6_addr a) with
           | None => str "inet6:<invalid>:" ++ udec (ntohs (sin6_port a))
           | Some ip => str "[" ++ ip ++ str "]:" ++ udec (ntohs (sin6_port a))
           end
         else if sa_family a =? AF_UNIX then
           if addr_len <? 2 then str "unix:<short:" ++ udec addr_len ++ str ">" else
           if char_at (sa_data a) 0 =b x00 then str "unix:<abstract-or-empty>" else
           str "unix:" ++ cstr (sa_data a)
         else str "family:" ++ sdec (sa_family a) ++ str " len:" ++ udec addr_len
     end).

(** ** Reading a quoted value back *)

Definition unescape (c : byte) : option byte :=
  if c =b x5c then Some x5c
  else if c =b x22 then Some x22
  else if c =b "n"%byte then Some x0a
  else if c =b "r"%byte then Some x0d
  else if c =b "t"%byte then Some x09
  else None.

Fixpoint unquote_body (l : list byte) : option (list byte * list byte) :=
  match l with
  | [] => None
  | c :: l =>
      if c =b x22 then Some ([], l) else
      if c =b x5c then
        match l with
        | [] => None
        | e :: l => b ← unescape e; '(s, rest) ← unquote_body l; Some (b :: s, rest)
        end
      else '(s, rest) ← unquote_body l; Some (c :: s, rest)
  end.

Definition log_unquote (l : list byte) : option (list byte * list byte) :=
  match l with
  | c :: l => if c =b x22 then unquote_body l else None
  | [] => None
  end.

Lemma quote_char_cases c :
  (exists e, quote_char c = [x5c; e] /\ unescape e = Some c /\ e <> x0a) \/
  (quote_char c = [c] /\ c <> x22 /\ c <> x5c /\ c <> x0a /\ c <> x0d /\ c <> x09).
Proof.
  destruct c; first [right; by split_and!|left; eexists; by split_and!].
Qed.

Lemma quote_char_no_newline c : x0a ∉ quote_char c.
Proof.
  destruct (quote_char_cases c) as [(e & -> & _ & He)|(-> & _ & _ & Hn & _)];
    rewrite ?elem_of_cons, elem_of_nil; intuition congruence.
Qed.

Lemma unquote_body_quote s post :
  unquote_body (concat (map quote_char s) ++ x22 :: post) = Some (s, post).
Proof.
  induction s as [|c s IH]; [done|]. cbn [map concat]. rewrite <- app_assoc.
  destruct (quote_char_cases c) as [(e & -> & He & _)|(-> & H1 & H2 & _)].
  - cbn [app unquote_body]. rewrite He. cbn [mbind option_bind]. by rewrite IH.
  - cbn [app unquote_body]. rewrite (proj2 (byte_eqb_false c x22) H1), (proj2 (byte_eqb_false c x5c) H2).
    by rewrite IH.
Qed.

Lemma unquote_quoted s post :
  log_unquote (print_quoted_value (Some s) ++ post) = Some (s, post).
Proof.
  unfold print_quoted_value. simpl. rewrite <- app_assoc. apply unquote_body_quote.
Qed.

(** ** Records *)

(** The values that are printed without quotes: numbers in their range, and
    endpoints as the configuration produces them. *)
Definition value_ok (v : log_value) : Prop :=
  match v with
  | LOG_VALUE_UINT z | LOG_VALUE_ULONG z | LOG_VALUE_ULLONG z => 0 <= z
  | LOG_VALUE_ENDPOINT (Some ep) => endpoint_wf ep
  | _ => True
  end.

(** A literal, or a concatenation of strings known to have no newline. *)
Ltac no_newline :=
  repeat first [rewrite not_elem_of_app | rewrite not_elem_of_cons]; split_and?;
  solve [done | assumption | apply not_elem_of_nil
        | refine (bool_decide_eq_true_1 (x0a ∉ _) _); vm_compute; reflexivity | eauto].

Lemma udec_no_newline n : 0 <= n -> x0a ∉ udec n.
Proof. intros Hn. by apply not_in_udec. Qed.

Lemma sdec_no_newline n : x0a ∉ sdec n.
Proof.
  unfold sdec. case_if; bool_to_prop; [|by apply udec_no_newline].
  apply not_elem_of_cons. split; [done|]. apply udec_no_newline. lia.
Qed.

Lemma quoted_no_newline s : x0a ∉ print_quoted_value s.
Proof.
  destruct s as [s|]; [|no_newline]. unfold print_quoted_value.
  assert (x0a ∉ concat (map quote_char s)); [|no_newline].
  induction s as [|c s IH]; [no_newline|]. simpl. pose proof (quote_char_no_newline c). no_newline.
Qed.

Lemma pad_no_newline c n s : c <> x0a -> (x0a ∉ s) -> x0a ∉ pad c n s.
Proof.
  intros Hc Hs. unfold pad. apply not_elem_of_app. split; [|done].
  by intros [<- _]%elem_of_replicate.
Qed.

Lemma endpoint_no_newline ep : endpoint_wf ep -> x0a ∉ endpoint_text (Some ep).
Proof.
  intros (Hh & Hp & Hrest).
  assert (forall l, Forall field_char l -> x0a ∉ l) as Hf.
  { intros l Hl Hin. rewrite Forall_forall in Hl. by destruct (Hl _ Hin). }
  assert (0 <= ep_port ep) as Hport by (destruct (ep_proto ep); lia).
  pose proof (Hf _ Hh). pose proof (Hf _ Hp). pose proof (udec_no_newline _ Hport).
  unfold endpoint_text. destruct (ep_kind ep); try no_newline.
  all: try destruct (ep_builtin ep); no_newline.
Qed.

Lemma value_no_newline v : value_ok v -> x0a ∉ print_log_value v.
Proof.
  intros Hv. destruct v as [s|z|z|z|z|z|z|[ep|]]; simpl in *;
    auto using quoted_no_newline, sdec_no_newline, udec_no_newline; [|no_newline].
  unfold log_print_endpoint, endpoint_to_string, snprintf_content. simpl.
  intros Hin. apply (endpoint_no_newline _ Hv). rewrite <- (take_drop (Z.to_nat 255) (endpoint_text (Some ep))).
  apply elem_of_app. by left.
Qed.

Lemma fields_no_newline fields :
  Forall (fun kv => (x0a ∉ kv.1) /\ value_ok kv.2) fields -> x0a ∉ print_fields fields.
Proof.
  induction 1 as [|[key v] fields [Hk Hv] _ IH]; [no_newline|]. cbn [print_fields].
  pose proof (value_no_newline v Hv). simpl in Hk. no_newline.
Qed.

Lemma fields_split fields key v :
  (key, v) ∈ fields ->
  exists pre post, print_fields fields = pre ++ str " " ++ key ++ str "=" ++ print_log_value v ++ post.
Proof.
  induction fields as [|[k w] fields IH]; [by intros ?%not_elem_of_nil|].
  intros [[= <- <-]|Hin]%elem_of_cons; cbn [print_fields].
  - by exists [], (print_fields fields).
  - destruct (IH Hin) as (pre & post & ->).
    exists (str " " ++ k ++ str "=" ++ print_log_value w ++ pre), post. by rewrite <- !app_assoc.
Qed.

(** C27: one record, one line. Whatever the message and the string values are
    (they may come from the network), a record ends with its only newline, so
    nobody can forge a record; and every string value is quoted so that
    reading the line from its opening quote gives back exactly the value. The
    keys, the file name and the time are newline-free, as the callers' are;
    endpoints are those the configuration produces. *)
Theorem log_record_integrity : forall tbuf nsec pid worker_id sev file line msg fields,
  sev <> x0a -> (x0a ∉ tbuf) -> (x0a ∉ file) ->
  Forall (fun kv => (x0a ∉ kv.1) /\ value_ok kv.2) fields ->
  let text := log_at tbuf nsec pid worker_id sev file line msg fields in
  (exists body, text = body ++ [x0a] /\ x0a ∉ body) /\
  (forall key s, (key, LOG_VALUE_STR (Some s)) ∈ fields ->
     exists pre post, text = pre ++ str " " ++ key ++ str "=" ++ post /\
       exists rest, log_unquote post = Some (s, rest)).
Proof.
  intros tbuf nsec pid worker_id sev file line msg fields Hsev Ht Hf Hfs. cbv zeta. split.
  - unfold log_at. eexists. rewrite !app_assoc. split; [reflexivity|].
    pose proof (fields_no_newline _ Hfs). pose proof (quoted_no_newline (Some msg)).
    pose proof (sdec_no_newline line).
    pose proof (pad_no_newline "0"%byte 6 _ (ltac:(done)) (sdec_no_newline (Z.quot nsec 1000))).
    pose proof (pad_no_newline " "%byte 7 _ (ltac:(done)) (sdec_no_newline pid)).
    assert (x0a ∉ udec (u32 worker_id)) by (apply udec_no_newline; unfold u32; apply Z.mod_pos_bound; lia).
    no_newline.
  - intros key s Hin. destruct (fields_split _ _ _ Hin) as (pre & post & Hsp). unfold log_at. rewrite Hsp.
    eexists _, (print_quoted_value (Some s) ++ post ++ [x0a]). split.
    + simpl print_log_value. rewrite !app_assoc. reflexivity.
    + exists (post ++ [x0a]). apply unquote_quoted.
Qed.

Lemma log_record_integrity_witness :
  exists body,
    log_at (str "0101 00:00:00") 5000 77 1 "I"%byte (str "a.c") 12 (str "bad") 
      [(str "text", LOG_VALUE_STR (Some (str "x" ++ [x0a; x22] ++ str " y")))] = body ++ [x0a] /\
    x0a ∉ body.
Proof.
  apply (log_record_integrity (str "0101 00:00:00") 5000 77 1 "I"%byte (str "a.c") 12 (str "bad")
    [(str "text", LOG_VALUE_STR (Some (str "x" ++ [x0a; x22] ++ str " y")))]).
  - discriminate.
  - no_newline.
  - no_newline.
  - constructor; [|constructor]. split; [simpl; no_newline|exact I].
Defined.

(** A formatted address always fits its buffer, with the NUL. *)
Lemma sockaddr_format_fits inet_ntop addr addr_len buf_len :
  0 < buf_len -> len (sockaddr_format inet_ntop addr addr_len buf_len) < buf_len.
Proof.
  intros Hb. unfold sockaddr_format, snprintf_content, Zlength. rewrite length_take. lia.
Qed.

(** ** Typed values *)

(** The type of the argument of [_LOGV]; [_Generic] rejects the others. *)
Inductive c_type : Type :=
| T_schar | T_uchar | T_short | T_ushort | T_int | T_uint
| T_long | T_ulong | T_llong | T_ullong.

Definition c_signed (t : c_type) : bool :=
  match t with T_schar | T_short | T_int | T_long | T_llong => true | _ => false end.

Definition c_bits (t : c_type) : Z :=
  match t with
  | T_schar | T_uchar => 8
  | T_short | T_ushort => 16
  | T_int | T_uint => 32
  | T_long | T_ulong | T_llong | T_ullong => 64
  end.

(** The values of the type (LP64). *)
Definition c_range (t : c_type) (v : Z) : Prop :=
  if c_signed t then - 2 ^ (c_bits t - 1) <= v < 2 ^ (c_bits t - 1) else 0 <= v < 2 ^ c_bits t.

(** An argument of [_LOGV] or [_LOGV_ENDPOINT]. *)
Inductive c_value : Type :=
| CNum (t : c_type) (v : Z)
| CStr (s : option (list byte))
| CEndpoint (ep : option endpoint).

Definition logv (x : c_value) : log_value :=
  match x with
  | CStr s => LOG_VALUE_STR s
  | CEndpoint ep => LOG_VALUE_ENDPOINT ep
  | CNum (T_schar | T_short | T_int) v => LOG_VALUE_INT v
  | CNum (T_uchar | T_ushort | T_uint) v => LOG_VALUE_UINT v
  | CNum T_long v => LOG_VALUE_LONG v
  | CNum T_ulong v => LOG_VALUE_ULONG v
  | CNum T_llong v => LOG_VALUE_LLONG v
  | CNum T_ullong v => LOG_VALUE_ULLONG v
  end.

(** The member of the union and the conversion that prints it can represent the
    value. *)
Definition log_value_fits (v : log_value) : Prop :=
  match v with
  | LOG_VALUE_INT z => c_range T_int z
  | LOG_VALUE_UINT z => c_range T_uint z
  | LOG_VALUE_LONG z => c_range T_long z
  | LOG_VALUE_ULONG z => c_range T_ulong z
  | LOG_VALUE_LLONG z => c_range T_llong z
  | LOG_VALUE_ULLONG z => c_range T_ullong z
  | LOG_VALUE_STR _ | LOG_VALUE_ENDPOINT _ => True
  end.

(** No value changes on its way to the log: it fits the member that [_Generic]
    selects, and it is printed in decimal, with a sign only if its type has
    one. *)
Lemma logv_exact t v :
  c_range t v ->
  log_value_fits (logv (CNum t v)) /\ print_log_value (logv (CNum t v)) = (if c_signed t then sdec v else udec v).
Proof. destruct t; intros Hv; (split; [|done]); simpl; unfold c_range in *; cbn [c_signed c_bits] in *; lia. Qed.

(** ** The log's mutex *)

Record klog_state : Type := mk_klog { kl_mu : mutex; kl_ready : bool }.

Definition klog_zero : klog_state := mk_klog MUninit false.

(** [err] is the answer of the mutex initialisation, [errno] the global. *)
Definition klog_init (pl : platform) (err errno : Z) (k : klog_state) : Z * klog_state :=
  if kl_ready k then (0, k) else
  match compat_mutex_init pl (Some (kl_mu k)) err with
  | (rc, m) =>
      if negb (rc =? 0) then (if errno =? 0 then EINVAL else errno, k)
      else (0, mk_klog (default MUninit m) true)
  end.

Definition klog_free (k : klog_state) : option klog_state :=
  if negb (kl_ready k) then Some k else
  m ← compat_mutex_destroy (kl_mu k);
  Some (mk_klog m false).

(** The mutex around a record. *)
Definition klog_record (k : klog_state) : option klog_state :=
  m ← (if kl_ready k then compat_mutex_lock (kl_mu k) else Some (kl_mu k));
  m ← (if kl_ready k then compat_mutex_unlock m else Some m);
  Some (mk_klog m (kl_ready k)).

Inductive klog_op : Type := KInit (err errno : Z) | KFree | KRecord.

Fixpoint klog_run (pl : platform) (ops : list klog_op) (k : klog_state) : option klog_state :=
  match ops with
  | [] => Some k
  | op :: ops =>
      k ← (match op with
           | KInit err errno => Some (klog_init pl err errno k).2
           | KFree => klog_free k
           | KRecord => klog_record k
           end);
      klog_run pl ops k
  end.

(** Initialisation, release and records in any order (each [worker_free] and
    then [main] release the mutex): no operation touches a mutex that is not
    initialised, and the mutex is initialised exactly while the flag is set. *)
Lemma klog_lifecycle pl ops :
  exists k, klog_run pl ops klog_zero = Some k /\
    kl_mu k = if kl_ready k then MFree else MUninit.
Proof.
  assert (forall k, kl_mu k = (if kl_ready k then MFree else MUninit) ->
    exists k', klog_run pl ops k = Some k' /\ kl_mu k' = if kl_ready k' then MFree else MUninit) as Hrun.
  2: { by apply Hrun. }
  induction ops as [|op ops IH]; intros k Hk; [by exists k|]. cbn [klog_run].
  destruct k as [m []]; simpl in Hk; subst m; destruct op as [err errno| |]; try (by apply IH).
  cbn [mbind option_bind]. apply IH. unfold klog_init, compat_mutex_init, posix_mutex_init. simpl.
  destruct pl; [destruct (err =? 0) eqn:E|]; simpl; rewrite ?E; done.
Qed.
