(* ===== verification/Fuzz.v ===== *)
(** * The fuzz targets ([fuzz/*.c]), for all inputs

    The repository tests four entry points by fuzzing: each target feeds
    arbitrary bytes to one function and calls [abort] (or traps) when an
    expectation fails. The targets are modelled here, for every input and not
    only for the generated ones: three of them never abort; the fourth, which
    runs a connection, ends properly as long as the upstream does not accept, and
    reads a dead stack variable when it does. A result of [None] is an access
    outside an object. *)

From stdpp Require Import relations.
From S2P Require Import Prelude CString Endpoint FileConf ConfLoad Sniff SniffFacts ProxyV2 RawUdp Worker Datagram Stream StreamFacts StreamOpen StreamFds StreamRelay.

Inductive fuzz_outcome : Type := FuzzReturn (rc : Z) | FuzzAbort.

(** ** [fuzz_file_conf.c] *)

Section file_conf.
Context (realloc_ok : Z -> bool).

(** What [load_routes_from_text] leaves in [rc], [routes != NULL] and [count]:
    the array exists once its capacity is not 0, and the two outputs are only
    assigned at the end. *)
Definition load_routes_out (data : list byte) : option (Z * bool * Z) :=
  match load_loop realloc_ok (S (length data)) data 0 (mk_load [] 0 0) with
  | Some (Ok st) => Some (0, negb (ls_cap st =? 0), len (ls_routes st))
  | Some (Err e) => Some (e, false, 0)
  | None => None
  end.

Definition fuzz_file_conf (data : list byte) : option fuzz_outcome :=
  '(rc, routes, count) ← load_routes_out data;
  if rc =? 0 then
    if (0 <? count) && negb routes then Some FuzzAbort else Some (FuzzReturn 0)
  else if routes then Some FuzzAbort else Some (FuzzReturn 0).

Lemma fuzz_file_conf_returns data : fuzz_file_conf data = Some (FuzzReturn 0).
Proof.
  unfold fuzz_file_conf, load_routes_out. rewrite load_loop_lines by lia.
  destruct (load_lines _ _ _) as [st|e] eqn:El; cbn [mbind option_bind].
  - apply load_lines_array in El as (Hc & _); [|apply array_inv_init]. simpl.
    destruct (Z.eqb_spec (ls_cap st) 0) as [E0|]; [|by rewrite andb_false_r].
    rewrite (proj2 (Z.ltb_ge _ _)) by lia. done.
  - by case_if.
Qed.
End file_conf.

(** ** [fuzz_stream_sniff.c] *)

(** The array [char sni[STREAM_SNI_MAX + 1]], zeroed at first. *)
Definition sni_array (s : stream_sniff) : list byte :=
  take 254 (sn_sni s ++ replicate 254 x00).

(** [true] when no [abort] is reached. *)
Definition check_invariants (s : stream_sniff) : bool :=
  (char_at (sni_array s) 253 =b x00) &&
  (len (cstr (sni_array s)) <=? STREAM_SNI_MAX) &&
  (sn_observed s <=? STREAM_SNIFF_MAX) &&
  (if sn_done s then
     match sn_status s with
     | STREAM_SNIFF_PARSED | STREAM_SNIFF_MISSING | STREAM_SNIFF_NOT_TLS
     | STREAM_SNIFF_TRUNCATED | STREAM_SNIFF_NAME_TOO_LONG | STREAM_SNIFF_PARSE_ERROR => true
     | STREAM_SNIFF_NOT_OBSERVED | STREAM_SNIFF_NEED_MORE => false
     end
   else true).

(** [evbuffer_new] and [evbuffer_add] may fail. *)
Definition fuzz_stream_sniff (evbuffer_copyout : list byte -> Z -> option (list byte))
    (evbuffer_new evbuffer_add : bool) (data : list byte) : option fuzz_outcome :=
  if negb evbuffer_new then Some (FuzzReturn 0) else
  if (0 <? len data) && negb evbuffer_add then Some (FuzzReturn 0) else
  s ← stream_sniff_peek_client_input evbuffer_copyout sniff_init data;
  let _ := stream_sniff_log_sni (Some s) in
  if check_invariants s then Some (FuzzReturn 0) else Some FuzzAbort.

Lemma cstr_before_nul a b : (length (cstr (a ++ x00 :: b)) <= length a)%nat.
Proof.
  unfold cstr. induction a as [|c a IH]; [done|]. cbn [app span].
  destruct (negb (c =b x00)); [|simpl; lia].
  destruct (span _ (a ++ x00 :: b)) as [x y]. simpl in *. lia.
Qed.

Lemma sniff_wf_invariants s : sniff_wf s -> check_invariants s = true.
Proof.
  intros [Hr _ Ho Hd]. unfold check_invariants, STREAM_SNI_MAX, Zlength in *.
  assert (sni_array s = sn_sni s ++ replicate (253 - length (sn_sni s)) x00 ++ [x00]) as ->.
  { unfold sni_array. rewrite take_app, take_ge, take_replicate, Nat.min_l by lia. f_equal.
    replace (254 - length (sn_sni s))%nat with (253 - length (sn_sni s) + 1)%nat by lia.
    by rewrite replicate_add. }
  assert (char_at (sn_sni s ++ replicate (253 - length (sn_sni s)) x00 ++ [x00]) 253 = x00) as ->.
  { unfold char_at. rewrite !lookup_app_r; rewrite ?length_replicate; try lia.
    by replace (253 - length (sn_sni s) - (253 - length (sn_sni s)))%nat with 0%nat by lia. }
  rewrite app_assoc.
  pose proof (cstr_before_nul (sn_sni s ++ replicate (253 - length (sn_sni s)) x00) []) as Hc.
  rewrite length_app, length_replicate in Hc.
  rewrite (proj2 (Z.leb_le _ 253)), (proj2 (Z.leb_le _ STREAM_SNIFF_MAX)) by lia.
  rewrite Hd. by destruct (sn_status s).
Qed.

Lemma fuzz_stream_sniff_returns evbuffer_copyout evbuffer_new evbuffer_add data :
  (forall input n bs, evbuffer_copyout input n = Some bs -> bs = take (Z.to_nat n) input) ->
  fuzz_stream_sniff evbuffer_copyout evbuffer_new evbuffer_add data = Some (FuzzReturn 0).
Proof.
  intros Hp. unfold fuzz_stream_sniff. do 2 (case_if; [done|]).
  destruct (peek_preserves_wf evbuffer_copyout Hp sniff_init data sniff_init_wf) as (s & -> & Hs & _).
  cbn [mbind option_bind]. by rewrite sniff_wf_invariants.
Qed.

(** ** [fuzz_proxy_v2_build.c] *)

Definition read_u16 (buf : list byte) (off : nat) : option Z :=
  match drop off buf with a :: b :: _ => Some (Z.lor (Z.shiftl (b2z a) 8) (b2z b)) | _ => None end.

(** [if (size > from) memcpy(dst, data + from, min(n, size - from))], with [dst]
    at offset [off] of the address. *)
Definition fuzz_field (data : list byte) (from n : nat) (off : Z) (sa : list byte) : option (list byte) :=
  if (from <? length data)%nat then store off (take n (drop from data)) sa else Some sa.

(** The checks after a return of 0: the length, the signature and the length
    field of the header. *)
Definition fuzz_header_ok (r : pp2_result) (buf_len total addr_len : Z) : option bool :=
  if negb (pp_rc r =? 0) then Some true else
  l ← read_u16 (pp_buf r) 14;
  Some (negb (buf_len <? pp_out_len r) && (pp_out_len r =? total) &&
        (take 12 (pp_buf r) =s PROXY_V2_SIG) && (l =? addr_len)).

Definition fuzz_proxy_v2_build (data : list byte) : option fuzz_outcome :=
  match data with
  | [] => Some (FuzzReturn 0)
  | d0 :: rest =>
      let zero := replicate 126 x00 in
      let buf := replicate 128 (z2b 0xa5) in
      let family := b2z d0 mod 3 in
      let sock_type := match rest with
                       | d1 :: _ => if Z.odd (b2z d1) then SOCK_DGRAM else SOCK_STREAM
                       | [] => SOCK_STREAM
                       end in
      let buf_len := len data mod 128 in
      let build af s d n := proxy_v2_build buf buf_len (Some (mk_sockaddr af s)) n
                              (Some (mk_sockaddr af d)) n sock_type 999999 in
      let check r total addr_len :=
        ok ← fuzz_header_ok r buf_len total addr_len;
        Some (if ok : bool then FuzzReturn 0 else FuzzAbort) in
      if family =? 0 then
        s ← fuzz_field data 2 4 2 zero;
        d ← fuzz_field data 6 4 2 zero;
        s ← fuzz_field data 10 2 0 s;
        d ← fuzz_field data 12 2 0 d;
        r ← build AF_INET s d SIZEOF_SOCKADDR_IN;
        check r 28 12
      else if family =? 1 then
        s ← fuzz_field data 2 16 6 zero;
        d ← fuzz_field data 18 16 6 zero;
        s ← fuzz_field data 34 2 0 s;
        d ← fuzz_field data 36 2 0 d;
        r ← build AF_INET6 s d SIZEOF_SOCKADDR_IN6;
        check r 52 36
      else
        r ← build 0 zero zero 16;
        Some (FuzzReturn 0)
  end.

Lemma fuzz_field_ok data from n off sa :
  length sa = 126%nat -> 0 <= off -> off + Z.of_nat n <= 126 ->
  exists sa', fuzz_field data from n off sa = Some sa' /\ length sa' = 126%nat.
Proof.
  intros Hl Ho Hn. unfold fuzz_field. case_if; [|by eauto]. unfold store.
  assert (len (take n (drop from data)) <= Z.of_nat n) as Hf
    by (unfold Zlength; rewrite length_take; lia).
  assert (len sa = 126) as Hs by (unfold Zlength; lia).
  rewrite Hs, (proj2 (Z.leb_le 0 off)), (proj2 (Z.leb_le _ 126)) by lia. simpl.
  eexists. split; [done|]. unfold Zlength in *.
  rewrite !length_app, !length_take, !length_drop, Hl in *. lia.
Qed.

(** A call of the target: the encoder stays inside its objects, and what it
    returns passes the target's checks. *)
Lemma fuzz_build_ok fam s d buf_len sock_type :
  length s = 126%nat -> length d = 126%nat -> buf_len <= 128 ->
  let af := match fam with PP2_IPv4 => AF_INET | PP2_IPv6 => AF_INET6 end in
  exists r, proxy_v2_build (replicate 128 (z2b 0xa5)) buf_len (Some (mk_sockaddr af s)) (pp2_sa_len fam)
    (Some (mk_sockaddr af d)) (pp2_sa_len fam) sock_type 999999 = Some r /\
  fuzz_header_ok r buf_len (pp2_total fam) (pp2_total fam - 16) = Some true.
Proof.
  intros Hs Hd Hb af.
  destruct (proxy_v2_build_spec (replicate 128 (z2b 0xa5)) buf_len (mk_sockaddr af s) (pp2_sa_len fam)
    (mk_sockaddr af d) (pp2_sa_len fam) sock_type 999999) as (r & -> & Hr).
  - done.
  - unfold sa_backed, Zlength. simpl. rewrite Hs. by destruct fam.
  - unfold sa_backed, Zlength. simpl. rewrite Hd. by destruct fam.
  - exists r. split; [done|]. unfold fuzz_header_ok.
    destruct (pp2_kind _ _ _) as [[fam' tr]|] eqn:Ek; [|by destruct Hr as [-> | ->]].
    assert (fam' = fam) as ->.
    { revert Ek. unfold pp2_kind, af. simpl. by destruct fam; simpl; repeat case_if; intros [= <- _]. }
    rewrite Z.ltb_irrefl in Hr. simpl in Hr. case_if_in Hr; subst r; [done|].
    cbn [pp_rc pp_out_len pp_buf]. rewrite E, Z.eqb_refl. by destruct fam.
Qed.

Lemma fuzz_proxy_v2_build_returns data : fuzz_proxy_v2_build data = Some (FuzzReturn 0).
Proof.
  destruct data as [|d0 rest]; [done|]. unfold fuzz_proxy_v2_build.
  set (sock_type := match rest with [] => SOCK_STREAM | _ => _ end). clearbody sock_type.
  set (data := d0 :: rest). clearbody data. cbv zeta.
  assert (len data mod 128 <= 128) as Hb by (pose proof (Z.mod_pos_bound (len data) 128); lia).
  assert (length (replicate 126 x00) = 126%nat) as Hz by done.
  case_if; [|case_if].
  - destruct (fuzz_field_ok data 2 4 2 _ Hz) as (s & -> & Hs); [lia..|].
    destruct (fuzz_field_ok data 6 4 2 _ Hz) as (d & -> & Hd); [lia..|].
    destruct (fuzz_field_ok data 10 2 0 _ Hs) as (s' & Hs' & Hsl); [lia..|].
    destruct (fuzz_field_ok data 12 2 0 _ Hd) as (d' & Hd' & Hdl); [lia..|].
    destruct (fuzz_build_ok PP2_IPv4 s' d' _ sock_type Hsl Hdl Hb) as (r & Hr & Hok).
    cbn [mbind option_bind]. rewrite Hs'. cbn [mbind option_bind]. rewrite Hd'. cbn [mbind option_bind].
    simpl pp2_sa_len in Hr. rewrite Hr. cbn [mbind option_bind]. by setoid_rewrite Hok.
  - destruct (fuzz_field_ok data 2 16 6 _ Hz) as (s & -> & Hs); [lia..|].
    destruct (fuzz_field_ok data 18 16 6 _ Hz) as (d & -> & Hd); [lia..|].
    destruct (fuzz_field_ok data 34 2 0 _ Hs) as (s' & Hs' & Hsl); [lia..|].
    destruct (fuzz_field_ok data 36 2 0 _ Hd) as (d' & Hd' & Hdl); [lia..|].
    destruct (fuzz_build_ok PP2_IPv6 s' d' _ sock_type Hsl Hdl Hb) as (r & Hr & Hok).
    cbn [mbind option_bind]. rewrite Hs'. cbn [mbind option_bind]. rewrite Hd'. cbn [mbind option_bind].
    simpl pp2_sa_len in Hr. rewrite Hr. cbn [mbind option_bind]. by setoid_rewrite Hok.
  - destruct (proxy_v2_build_spec (replicate 128 (z2b 0xa5)) (len data mod 128)
      (mk_sockaddr 0 (replicate 126 x00)) 16 (mk_sockaddr 0 (replicate 126 x00)) 16 sock_type 999999)
      as (r & -> & _); done.
Qed.

(** C14: the three fuzz targets of pure functions never abort. For every input
    (not only those a fuzzer generates), and whatever the allocations and
    [evbuffer_copyout] answer, the targets of the configuration parser, of the
    SNI sniffer and of the PROXY v2 encoder return 0 without reaching an [abort],
    a trap or an access outside an object. *)
Theorem fuzz_targets_never_abort : forall realloc_ok evbuffer_copyout evb_new evb_add data,
  (forall input n bs, evbuffer_copyout input n = Some bs -> bs = take (Z.to_nat n) input) ->
  fuzz_file_conf realloc_ok data = Some (FuzzReturn 0) /\
  fuzz_stream_sniff evbuffer_copyout evb_new evb_add data = Some (FuzzReturn 0) /\
  fuzz_proxy_v2_build data = Some (FuzzReturn 0).
Proof.
  intros realloc_ok evbuffer_copyout evb_new evb_add data Hp.
  split; [apply fuzz_file_conf_returns|]. split; [by apply fuzz_stream_sniff_returns|].
  apply fuzz_proxy_v2_build_returns.
Qed.

Lemma fuzz_targets_never_abort_witness :
  let data := str "tcp://1.2.3.4:80 tcp://1.2.3.4:81" in
  fuzz_file_conf (fun _ => true) data = Some (FuzzReturn 0) /\
  fuzz_stream_sniff copyout_all true true data = Some (FuzzReturn 0) /\
  fuzz_proxy_v2_build data = Some (FuzzReturn 0).
Proof. exact (fuzz_targets_never_abort (fun _ => true) copyout_all true true _ copyout_all_prefix). Defined.

(** ** [fuzz_stream_conn.c] *)

Definition SIZEOF_SOCKADDR_UN : Z := 110.

(** [conn->owner] points to a worker that exists, or to one that went out of
    scope. *)
Inductive owner : Type := OwnerLive | OwnerGone.

Section stream_conn.
Context {B : Type} `{BuffereventLaws B}.
Context (evbuffer_copyout : list byte -> Z -> option (list byte)).
Context (inet_pton : Z -> list byte -> option (list byte)).
Context (inet_ntop : Z -> list byte -> Z -> option (list byte)).
Implicit Types (c : conn B) (ps : pstate B).

(** The seam of [stream_conn.c] under [FUZZ]: the return code, what the adoption
    leaves, and the owner of the connection: [struct worker w] is a variable of
    the seam itself. *)
Definition stream_route_adopt_client_for_fuzz (os : adopt_os) (base : bool) (r : option route)
    (client_fd : Z) (peer_addr : option sockaddr) (peer_addr_len : Z)
    : option (Z * cres B * owner) :=
  match r with
  | Some r =>
      if negb base || (client_fd <? 0) then Some (-1, (None, []), OwnerGone) else
      let ac :=
        match peer_addr with
        | Some a =>
            if (0 <? peer_addr_len) && (peer_addr_len <=? SIZEOF_SOCKADDR_STORAGE)
            then mk_stream_client r client_fd (copy_storage a peer_addr_len) peer_addr_len
            else mk_stream_client r client_fd storage_zero 0
        | None => mk_stream_client r client_fd storage_zero 0
        end in
      res ← worker_adopt_client_fd inet_pton inet_ntop os ac;
      Some (0, res, OwnerGone)
  | None => Some (-1, (None, []), OwnerGone)
  end.

Definition fuzz_route (d0 : byte) : route :=
  mk_route
    (mk_endpoint ENDPOINT_INET (str "127.0.0.1") 12345 PROTO_TCP [] X_BUILTIN_NONE)
    (mk_endpoint ENDPOINT_INET (str "127.0.0.1") 9 PROTO_TCP [] X_BUILTIN_NONE)
    (mk_opts (Z.testbit (b2z d0) 0) (Z.testbit (b2z d0) 1) false 1 1 0 BROADCAST_REPLY_OFF) 1.

Definition fuzz_peer : sockaddr := mk_sockaddr AF_UNIX (replicate 126 x00).

(** The target up to the adoption: it returned 0 after these closes, or it goes
    on to the event loop. *)
Inductive fuzz_setup : Type :=
| SetupReturned (closed : list Z)
| SetupLoop (sv0 : Z) (res : cres B) (ow : owner).

(** [base] and [sv] are the answers of [event_base_new] and [socketpair]. *)
Definition fuzz_conn_setup (os : adopt_os) (base : bool) (sv : option (Z * Z)) (data : list byte)
    : option fuzz_setup :=
  match data with
  | [] => Some (SetupReturned [])
  | d0 :: _ =>
      if 8192 <? len data then Some (SetupReturned []) else
      if negb base then Some (SetupReturned []) else
      match sv with
      | None => Some (SetupReturned [])
      | Some (sv0, sv1) =>
          '(rc, res, ow) ← stream_route_adopt_client_for_fuzz os base (Some (fuzz_route d0)) sv1
                             (Some fuzz_peer) SIZEOF_SOCKADDR_UN;
          if negb (rc =? 0) then Some (SetupReturned [sv0; sv1]) else Some (SetupLoop sv0 res ow)
      end
  end.

Definition ev_connect : bev_events := mk_events true false false false.

(** [stream_upstream_event_cb] with the owner in sight: on CONNECTED,
    [start_conn_idle_timer] reads [conn->owner->base] if the route has a
    timeout. *)
Definition upstream_event_owned (ow : owner) (evtimer_new : bool) (err : Z) (ev : bev_events) c
    : option (cres B) :=
  match ow with
  | OwnerGone =>
      if ev_connected ev && (0 <? opt_idle_timeout_sec (r_opts (c_route c))) then None
      else Some (stream_upstream_event_cb evtimer_new err ev c)
  | OwnerLive => Some (stream_upstream_event_cb evtimer_new err ev c)
  end.

(** [event_base_dispatch] until [event_base_loopexit] ends it: any callbacks of
    the connection, whose client can read what [write] put into the pair (the
    input, or a prefix of it). The result is what is left of the connection and
    the descriptors closed; [None] is a fault. *)
Inductive fuzz_loop (data : list byte) (ow : owner)
    : option (pstate B) -> list Z -> option (option (pstate B) * list Z) -> Prop :=
| fl_exit ops closed : fuzz_loop data ow ops closed (Some (ops, closed))
| fl_step ps ops eff closed r :
    pipe_step evbuffer_copyout ps (ops, eff) ->
    (forall ps', ops = Some ps' ->
       c_upstream_connected (ps_conn ps') = c_upstream_connected (ps_conn ps) /\
       ps_from_client ps' `prefix_of` data) ->
    fuzz_loop data ow ops (closed ++ fd_closes eff) r ->
    fuzz_loop data ow (Some ps) closed r
| fl_connected ps evt c' eff closed r :
    c_upstream_connected (ps_conn ps) = false ->
    upstream_event_owned ow evt 0 ev_connect (ps_conn ps) = Some (Some c', eff) ->
    fuzz_loop data ow
      (Some (mk_pstate c' (ps_from_client ps) (ps_to_upstream ps) (ps_from_upstream ps) (ps_to_client ps)))
      (closed ++ fd_closes eff) r ->
    fuzz_loop data ow (Some ps) closed r
| fl_fault ps evt closed :
    c_upstream_connected (ps_conn ps) = false ->
    upstream_event_owned ow evt 0 ev_connect (ps_conn ps) = None ->
    fuzz_loop data ow (Some ps) closed None.

Inductive fuzz_end : Type :=
| FuzzEnd (rc : Z) (conn_left : option (pstate B)) (closed : list Z)
| FuzzFault.

(** The whole target: its own end of the pair is closed after the loop;
    [event_base_free] does not free the connection that is left. *)
Inductive fuzz_stream_conn (os : adopt_os) (base : bool) (sv : option (Z * Z)) (data : list byte)
    : fuzz_end -> Prop :=
| fz_returned closed :
    fuzz_conn_setup os base sv data = Some (SetupReturned closed) ->
    fuzz_stream_conn os base sv data (FuzzEnd 0 None closed)
| fz_loop sv0 o eff ow r :
    fuzz_conn_setup os base sv data = Some (SetupLoop sv0 (o, eff) ow) ->
    fuzz_loop data ow ((fun c => mk_pstate c [] [] [] []) <$> o) (fd_closes eff) r ->
    fuzz_stream_conn os base sv data
      match r with
      | Some (conn_left, closed) => FuzzEnd 0 conn_left (closed ++ [sv0])
      | None => FuzzFault
      end
| fz_fault :
    fuzz_conn_setup os base sv data = None -> fuzz_stream_conn os base sv data FuzzFault.

(** *** What the loop keeps *)

Definition fuzz_msg (d0 : byte) (sv1 : Z) : stream_client_msg :=
  mk_stream_client (fuzz_route d0) sv1 (copy_storage fuzz_peer SIZEOF_SOCKADDR_UN) SIZEOF_SOCKADDR_UN.

Definition left_fds (ops : option (pstate B)) : list Z := default [] ((fun ps => conn_fds (ps_conn ps)) <$> ops).

(** The connection is still being established; nothing of the input was read
    unless the upstream ended. *)
Definition fuzz_conn_ok ps : Prop :=
  c_mode (ps_conn ps) = ModePipe /\ c_upstream_connected (ps_conn ps) = false /\
  opt_idle_timeout_sec (r_opts (c_route (ps_conn ps))) = 1 /\ exists hdr, pinv hdr ps.

Lemma fuzz_conn_unread ps :
  fuzz_conn_ok ps -> c_close_after_client_eof (ps_conn ps) = false -> ps_from_client ps = [].
Proof.
  intros (_ & Hc & _ & hdr & Hi) He. destruct (pi_upstream _ _ Hi) as (u & _ & _ & _ & Hph).
  unfold phase_ok in Hph. rewrite He, Hc in Hph. destruct (c_close_client_after_drain _); naive_solver.
Qed.

Lemma fuzz_loop_ends data ops closed r fds :
  (forall input n bs, evbuffer_copyout input n = Some bs -> bs = take (Z.to_nat n) input) ->
  fuzz_loop data OwnerGone ops closed r ->
  (forall p, ops = Some p -> fuzz_conn_ok p) -> left_fds ops ++ closed ≡ₚ fds ->
  match r with
  | None => ops <> None
  | Some (conn_left, closed') => left_fds conn_left ++ closed' ≡ₚ fds /\
      forall p, conn_left = Some p -> fuzz_conn_ok p
  end.
Proof.
  intros Hcp Hl. induction Hl as [ops closed|ps ops eff closed r Hst Hpre Hl IH
    |ps evt c' eff closed r Hc Hev Hl IH|ps evt closed Hc Hev]; intros Hok Hfds.
  - done.
  - destruct (Hok ps eq_refl) as (Hm & Hconn & Hidle & hdr & Hi).
    pose proof (pipe_step_fds evbuffer_copyout _ _ _ ltac:(by rewrite Hm) Hst) as Hk.
    assert (left_fds ops ++ closed ++ fd_closes eff ≡ₚ fds) as Hfds'.
    { rewrite <- Hfds. pose proof (kept_res_fds _ _ (fds_kept_weaken _ _ Hk)) as Hr. unfold res_fds in Hr.
      simpl in Hr. unfold left_fds in *. simpl. rewrite <- Hr.
      destruct ops; simpl; rewrite <- ?app_assoc, (Permutation_app_comm closed); done. }
    destruct r as [[conn_left closed']|]; [|done]. apply IH; [|done].
    intros p ->. destruct (Hpre p eq_refl) as [Hcc _]. destruct Hk as (_ & Hm' & _). simpl in Hm'.
    split_and!; [congruence|congruence|by rewrite (pipe_step_route _ _ _ _ Hst)|].
    exists hdr. exact (proj1 (pinv_step evbuffer_copyout Hcp _ _ _ _ Hi Hst _ eq_refl)).
  - destruct (Hok ps eq_refl) as (_ & _ & Hidle & _). unfold upstream_event_owned in Hev.
    rewrite Hidle in Hev. done.
  - done.
Qed.

(** The PROXY header needs an IPv4 client: without one, the adoption fails. *)
Lemma queue_proxy_v2_family os ac c u r :
  opt_proxy_v2 (r_opts (c_route c)) = true -> sa_family (sc_peer_addr ac) <> AF_INET ->
  queue_proxy_v2 os ac c u = Some r -> r.1 = None.
Proof.
  intros Hp Hf. unfold queue_proxy_v2. rewrite Hp. cbn [negb].
  destruct (ao_getsockname os) as [[local n]|]; [|by intros [= <-]]. case_if; [by intros [= <-]|].
  rewrite (proj2 (Z.eqb_neq _ _)) by done. by intros [= <-].
Qed.

Lemma fuzz_adopt_proxy os d0 sv1 r :
  Z.testbit (b2z d0) 0 = true ->
  worker_adopt_client_fd inet_pton inet_ntop os (fuzz_msg d0 sv1) = Some r -> r.1 = None.
Proof.
  intros Hbit. unfold worker_adopt_client_fd. case_if; [by intros [= <-]|]. case_if; [by intros [= <-]|].
  cbv zeta. change (ep_kind (r_upstream (sc_route (fuzz_msg d0 sv1)))) with ENDPOINT_INET. cbv iota.
  case_if; [by intros [= <-]|]. set (c1 := set_connect_timeout _).
  assert (opt_proxy_v2 (r_opts (c_route c1)) = true) as Hc1 by exact Hbit. clearbody c1.
  destruct (c_upstream c1) as [u|]; [|by intros [= <-]].
  destruct (connect_upstream _ _ _ _) as [u'|]; [|by intros [= <-]].
  destruct (queue_proxy_v2 os (fuzz_msg d0 sv1) c1 u') as [[o e]|] eqn:Eq; [|done].
  apply queue_proxy_v2_family in Eq; [|done|done]. simpl in Eq. subst o. cbn [mbind option_bind].
  by intros [= <-].
Qed.

Lemma fuzz_setup_loop os sv0 sv1 d0 rest :
  0 <= sv1 -> len (d0 :: rest) <= 8192 ->
  fuzz_conn_setup os true (Some (sv0, sv1)) (d0 :: rest) =
    res ← worker_adopt_client_fd inet_pton inet_ntop os (fuzz_msg d0 sv1);
    Some (SetupLoop sv0 res OwnerGone).
Proof.
  intros Hs Hl. unfold fuzz_conn_setup. rewrite (proj2 (Z.ltb_ge 8192 _)) by done. simpl negb. cbv iota.
  unfold stream_route_adopt_client_for_fuzz. rewrite (proj2 (Z.ltb_ge sv1 0)) by done.
  change (negb true || false) with false. cbv iota.
  change ((0 <? SIZEOF_SOCKADDR_UN) && (SIZEOF_SOCKADDR_UN <=? SIZEOF_SOCKADDR_STORAGE)) with true. cbv iota zeta.
  fold (fuzz_msg d0 sv1). by destruct (worker_adopt_client_fd _ _ _ _).
Qed.

Lemma fuzz_adopted_ok os d0 sv1 c eff :
  (forall local n, ao_getsockname os = Ok (local, n) -> sa_backed local n) ->
  worker_adopt_client_fd inet_pton inet_ntop os (fuzz_msg d0 sv1) = Some (Some c, eff) ->
  fuzz_conn_ok (mk_pstate c [] [] [] []).
Proof.
  intros Hloc Ha. assert (addrs_backed os (fuzz_msg d0 sv1)) as Hb by (split; [done|exact Hloc]).
  destruct (adopt_socket inet_pton inet_ntop os (fuzz_msg d0 sv1) c eff Hb eq_refl Ha) as (_ & _ & hdr & _ & Hi).
  destruct (adopt_flags inet_pton inet_ntop os (fuzz_msg d0 sv1) c eff eq_refl Ha) as (_ & Hm & Hc).
  split_and!; [done|done| |by exists hdr]. simpl.
  by rewrite (adopt_route inet_pton inet_ntop os (fuzz_msg d0 sv1) c eff Ha eq_refl).
Qed.
End stream_conn.
Arguments fuzz_end B : clear implicits.

(** C39: the connection target. For every input (at most 8192 bytes), whatever
    the event loop does until it is stopped: if the upstream never reports the
    connection, the target returns 0; every descriptor it got (the pair, and the
    one of the connection attempt) was closed once or belongs to the connection
    that is left, which nobody frees; and no byte of the input was read by the
    proxy, unless the upstream reported its end. If the upstream accepts, which
    takes an input whose first byte is even, the target reads the worker that
    went out of scope with the seam: such a run exists whenever the adoption
    succeeds. *)
Theorem fuzz_conn_target : forall (B : Type) `{BuffereventLaws B} evbuffer_copyout inet_pton inet_ntop
    os sv0 sv1 d0 rest,
  (forall input n bs, evbuffer_copyout input n = Some bs -> bs = take (Z.to_nat n) input) ->
  (forall local n, ao_getsockname os = Ok (local, n) -> sa_backed local n) ->
  (forall fd, ao_connect os = Ok fd -> 0 <= fd) ->
  0 <= sv1 -> len (d0 :: rest) <= 8192 ->
  let run := fuzz_stream_conn (B := B) evbuffer_copyout inet_pton inet_ntop os true (Some (sv0, sv1)) (d0 :: rest) in
  (forall e, run e ->
    match e with
    | FuzzFault => Z.testbit (b2z d0) 0 = false
    | FuzzEnd rc conn_left closed =>
        rc = 0 /\
        left_fds conn_left ++ closed ≡ₚ sv0 :: sv1 :: adopt_opened (B := B) inet_pton os (fuzz_msg d0 sv1) /\
        forall ps, conn_left = Some ps -> c_upstream_connected (ps_conn ps) = false /\
          (c_close_after_client_eof (ps_conn ps) = false -> ps_from_client ps = [])
    end) /\
  (forall c eff,
    worker_adopt_client_fd inet_pton inet_ntop os (fuzz_msg d0 sv1) = Some (Some (c : conn B), eff) ->
    run FuzzFault).
Proof.
  intros B ?? evbuffer_copyout inet_pton inet_ntop os sv0 sv1 d0 rest Hcp Hloc Hfd Hs1 Hl. cbv zeta.
  pose proof (fuzz_setup_loop inet_pton inet_ntop os sv0 sv1 d0 rest Hs1 Hl) as Hset.
  destruct (adopt_total inet_pton inet_ntop os (fuzz_msg d0 sv1)) as [[o eff] Ha]; [by split|].
  rewrite Ha in Hset. cbn [mbind option_bind] in Hset. split.
  - intros e Hrun. destruct Hrun as [closed He|sv0' o' eff' ow r He Hloop|He]; rewrite Hset in He; [done| |done].
    injection He as <- <- <- <-.
    destruct (adopt_accounts inet_pton inet_ntop os (fuzz_msg d0 sv1) (o, eff) Hs1 Hfd Ha) as [Hacc _].
    pose proof (fuzz_loop_ends evbuffer_copyout _ _ _ _ (sv1 :: adopt_opened (B := B) inet_pton os (fuzz_msg d0 sv1))
      Hcp Hloop) as Hend.
    assert (forall p, (fun c : conn B => mk_pstate c [] [] [] []) <$> o = Some p -> fuzz_conn_ok p) as Hok.
    { intros p Hp. destruct o as [c|]; [|done]. injection Hp as <-. by eapply fuzz_adopted_ok. }
    specialize (Hend Hok). destruct r as [[conn_left closed]|].
    + destruct Hend as [Hf Hleft]; [by destruct o|]. split; [done|]. split.
      * rewrite app_assoc, Hf, Permutation_app_comm. done.
      * intros ps ->. specialize (Hleft ps eq_refl). split; [by destruct Hleft as (_ & ? & _)|].
        by apply fuzz_conn_unread.
    + destruct (Z.testbit (b2z d0) 0) eqn:Hbit; [|done].
      pose proof (fuzz_adopt_proxy inet_pton inet_ntop os d0 sv1 _ Hbit Ha) as Hn. simpl in Hn. subst o.
      by destruct (Hend Hacc).
  - intros c eff' Ha'. rewrite Ha in Ha'. injection Ha' as -> ->.
    apply (fz_loop evbuffer_copyout inet_pton inet_ntop os true (Some (sv0, sv1)) (d0 :: rest) sv0
      (Some c) eff' OwnerGone None Hset).
    destruct (fuzz_adopted_ok inet_pton inet_ntop os d0 sv1 c eff' Hloc Ha) as (_ & Hc & Hidle & _).
    apply (fl_fault _ _ _ _ true); [done|]. unfold upstream_event_owned. by rewrite Hidle.
Qed.

Definition loopback_pton (af : Z) (s : list byte) : option (list byte) :=
  if s =s str "127.0.0.1" then Some [x7f; x00; x00; x01] else None.

Lemma fuzz_conn_target_witness :
  fuzz_stream_conn (B := bview) copyout_all loopback_pton (fun _ _ _ => None) example_ados true
    (Some (5, 6)) (str "data") FuzzFault.
Proof.
  destruct (fuzz_conn_target bview copyout_all loopback_pton (fun _ _ _ => None) example_ados 5 6
    "d"%byte (str "ata")) as [_ Hrun].
  - exact copyout_all_prefix.
  - by intros local n [= <- <-].
  - by intros fd [= <-].
  - lia.
  - vm_compute. discriminate.
  - match type of Hrun with forall c eff, ?a = _ -> _ => destruct a as [[[c|] eff]|] eqn:E end.
    + exact (Hrun c eff eq_refl).
    + vm_compute in E. discriminate E.
    + vm_compute in E. discriminate E.
Defined.
